(* ===== verification/_CoqProject ===== *)
-Q . S2P
Prelude.v
GoStd.v
Hash.v
Schema.v
Tx.v
Run.v
Integrity.v
Orgs.v
Blob.v
Guarantee.v
Commits.v
Merge.v
EventTypes.v
Events.v
ReadStore.v
Samples.v
Views.v
Chain.v
CommitSpec.v
MergeSpec.v
RebaseSpec.v
Reviews.v
Purge.v
Releases.v
Issues.v
CIJobs.v
Server.v
Policy.v
System.v
TreeSpec.v
ChainSpec.v
EventsSpec.v
PolicySpec.v
Service.v
Http.v
Handlers.v
Handlers2.v
Secrets.v
Handlers3.v
Wire.v
Envelope.v
CIConfig.v
ExprSpec.v
Executor.v
Auth.v
Archive.v
Admission.v
Registry.v
RegistrySpec.v
Oidc.v
Worker.v
Scheduler.v
Effects.v
SchedulerSpec.v
SecretsSpec.v
EnvelopeSpec.v
QueueSpec.v
LineDiff.v
Highlight.v
AgentContext.v
Ui.v
UiForms.v
Api.v
WorkerSpec.v
Automerge.v
ServerSpec.v
OidcSpec.v
AdmissionSpec.v
ArchiveSpec.v
HandlersSpec.v
ApiSpec.v
LineDiffSpec.v
UiSpec.v
Client.v
Commands.v
SyncSpec.v
ClientServer.v
PublishSpec.v
ClientSpec.v
