(* ===== verification/Prelude.v ===== *)
(** * DocStore: a verification development (root file)

    DocStore keeps versioned documents in PostgreSQL: repositories with branches,
    commits, merges and rebases, a hash chain over the commits, reviews, checks,
    issues, proposals and releases, merge policies in Rego, secrets, events and
    webhooks, and a CI of its own whose workers run checks in BuildKit.  This
    development models the Go code of the repository under src/ and proves what
    its parts promise.  Every definition that models code is named after it where
    Rocq allows; this file is what the others share: errors, ordering of text,
    SQL idioms on lists of rows ([update_where], [order_by], [distinct_on], ...)
    and the lemmas about them.

    ** How the program is put together

    - The _store_ (src/internal/db, src/internal/store) is SQL.  Schema.v has
      the tables and constraints of the migrations, Tx.v the monad [M] of
      statements over the [World] and transactions, with the sentinel errors of
      the store; Run.v and Guarantee.v how to reason about runs.  Orgs.v,
      Commits.v, Merge.v, Reviews.v, Purge.v, Releases.v (subscriptions too),
      Issues.v (proposals too) and CIJobs.v (stored secrets too) have a definition
      per method of [Store], ReadStore.v the queries of the read store, Blob.v the
      blob store, Hash.v the hash of a commit (computed, down to SHA-256 in
      GoStd.v).
    - _Events_ (src/internal/events): EventTypes.v and Events.v, the log, the
      outbox and its dispatcher.
    - _Policies_ (src/internal/policy, src/internal/merge): Policy.v, the cache,
      OWNERS files and the input of the engine.
    - The _service_ (src/internal/service): Service.v, on top of all of these.
    - The _API server_ (src/internal/server): Server.v routes and authorises a
      request, Auth.v is the validation of tokens and cookies it relies on,
      Http.v the monad of handlers [HM] (with the errors of the API, [H]),
      Handlers.v, Handlers2.v and Handlers3.v the handlers, AgentContext.v what
      agents and the branch page are shown, Secrets.v and Archive.v the handlers
      of secrets and presigned archives with their services, Api.v a request from
      its first byte to its last.
    - The _encryption of secrets_ (src/internal/secrets): Envelope.v, AES-GCM,
      computed, and the encryptors with a key file and with a key service.
    - The _web interface_ (src/internal/ui): LineDiff.v, the inline diffs;
      Highlight.v, the lines of the file view; Ui.v, the CSRF protection and the
      pages, UiForms.v, the forms and the routes.  It is served behind the API's
      authentication ([api_page] of Api.v).
    - The _auto-merge worker_ (src/internal/automerge): Automerge.v.
    - _CI_: CIConfig.v (src/internal/ciconfig), the triggers and conditions;
      Scheduler.v (src/cmd/ci-scheduler), webhooks to jobs, claims, schedules;
      Admission.v (src/internal/k8sproof), which pods may claim; Oidc.v
      (src/cmd/ci-oidc, src/internal/citoken), the tokens of jobs; Worker.v
      (src/cmd/ci-worker), the life of a claimed job; Executor.v
      (src/internal/executor), the checks; Registry.v and Admission.v
      (src/internal/registry), the cache of images.
    - The _command line_ (src/internal/cli): Client.v, the working copy, its
      synchronisation, commits and verification; Commands.v, merges,
      rebases, histories and secrets; ClientServer.v puts the API server behind
      its requests.

    The parts interact through the tables and through requests.  A theorem about
    one part is stated against what the next one promises: [SeqLaws] and
    [TableLaws] of the tables, [Trusted] of a signer of tokens, [Tokens] of the
    validation of credentials, [ManifestLaws] of a store of manifests,
    [Encryptor] of the sealing of secrets, [Remote] and [Serves] of the server
    behind the command line; the implementations discharge them.

    ** What the theorems show

    - The store (CommitSpec, MergeSpec, RebaseSpec, TreeSpec, over the
      specification [view] of Views.v): what a branch shows after a commit, a
      merge, a rebase; which merges conflict, and that the diff announces it; a
      failed merge or a dry run changes nothing; pages, files and diffs agree.
      System.v and ChainSpec.v: in every reachable world the constraints of the
      schema hold and each hash continues the chain of its branch.
    - EventsSpec: polling misses and repeats nothing, events reach the webhooks
      they match, deliveries are tried at most ten times and the dispatcher
      comes to rest.
    - PolicySpec, ServerSpec, HandlersSpec, ApiSpec: the tests of roles are the
      table of roles; what reaches a handler was authorised; a merge is allowed
      only by every policy; what the replies to a merge mean; and whatever
      requests are sent, the world moves along the steps of the store.
    - ArchiveSpec, SecretsSpec, Auth: archives hold the tree, presigned URLs open
      one archive, secrets go to running jobs only, cookies and keys expire.
      EnvelopeSpec: a secret is revealed byte for byte as it was
      set, also by a later process.  AgentContext: one verdict on a branch.
    - UiSpec, LineDiffSpec, Highlight: no form works without the token of its cookie and no
      page writes, but HEAD requests write without one and the forms look at no
      role; a branch's link leads to its page; a diff is a shortest patch; the
      lines of a file are shown whole and as text.
    - Automerge: the worker reaches every event and merges what is ready.
    - CI: ExprSpec (the parser of conditions decides its grammar), SchedulerSpec
      (a webhook only queues permitted jobs), QueueSpec (the queue is a state
      machine that loses no job and drains), AdmissionSpec and RegistrySpec (who
      gets jobs, and what their registry token opens), OidcSpec (what the token
      of a job is good for, from its issue to a handler of the server),
      WorkerSpec and Executor (what a worker reports, the secrets it runs
      with, and that logs do not show them).
    - SyncSpec, ClientServer, PublishSpec, ClientSpec: against a server that
      [Serves] trees, which the API server does, a checkout makes the working
      copy the branch and a commit makes the branch the working copy, and what
      one workspace commits another checks out; verification accepts every
      honest history.

    Theorems with hypotheses have a witness, named after them, that applies them
    to a concrete world (Samples.v).

    ** How the code is modelled

    - SQL: a table is a list of rows in some physical order that no definition
      relies on where the query orders; every statement is atomic and a
      transaction restores the tables, but no sequence, UUID or blob, when it
      rolls back.  Times are nanoseconds, rounded to microseconds when they are
      stored; [int16] and [int64] wrap where the code computes with them.
    - Errors are values with the chain [errors.Is] walks; every branch that
      returns one is there, with its text unless a library wrote it.
    - The order of a Go map is a parameter ([MapRange]), of a collation
      ([Collation]), of requests side by side ([Schedule]); UUIDs are a stream
      ([UuidSource]).  Theorems hold for all of them.
    - Recursion that is not structural has fuel, with a theorem that it is
      enough: the pages of an archive ([writeArchive_tree]), the parser of
      conditions ([EvalIf_grammar]), the passes of the dispatcher
      ([dispatcher_rests]) and of the auto-merge worker ([automerge_progress]),
      the pages of a tree a client fetches ([Checkout_tree]: more pages than a
      hundredth of the files), the tokens of a file ([highlight_shows]), the walk back through the table of a diff
      ([computeFileDiff_patch]: the lines of both sides).
    - Requests come decoded: paths, queries and JSON values in place of their
      texts, except where the text is what is signed or compared (cookies,
      tokens, webhooks, presigned URLs), which is computed byte by byte (Wire.v,
      GoStd.v).
    - What is not under src/ is a parameter: OPA, the HTTP client, YAML, cron,
      globs, JSON texts, signatures of RSA and ECDSA, the key service and the
      random source, JWT parsing, tar, BuildKit, the API of Kubernetes, object
      storage, the registry library, the disk.

    ** What is not modelled

    The terminal interface, the templates of the web interface with their
    Markdown, the SDK, the parsing of flags and the wiring of the
    commands are presentation and glue.  Log lines, metrics, timeouts and the
    cancellation of contexts are left out.  Streams of events, the storage and
    proxying of logs, and the login redirect to Google are input and output
    without state of their own.
    Concurrency is interleaving of whole statements and transactions; what
    PostgreSQL does with malformed UUIDs and words of enumerations, and the
    migrations themselves, are left out. *)

From Stdlib Require Export ZArith Lia.
From stdpp Require Export base gmap strings sorting pretty option numbers list.

#[global] Open Scope Z_scope.

(** ** Go errors

    An [error] value is a sentinel made by [errors.New] (or a plain
    [fmt.Errorf]), a PostgreSQL error with its SQLSTATE code ([*pq.Error]), or
    a [fmt.Errorf] with a [%w] verb, which wraps another error.  The sentinels
    of the program have pairwise distinct texts, so the text identifies the
    pointer that [errors.Is] compares. *)
Inductive error :=
| New (text : string)
| Pq (code : string)
| Errorf (text : string) (inner : error).

#[export] Instance error_eq_dec : EqDecision error.
Proof. solve_decision. Defined.

(** [errors.Is]: walk the chain of wrapped errors. *)
Fixpoint errors_Is (err target : error) : bool :=
  bool_decide (err = target) ||
  match err with
  | Errorf _ inner => errors_Is inner target
  | _ => false
  end.

(** [errors.AsType[*pq.Error]] followed by a comparison of the code. *)
Fixpoint pq_code_is (err : error) (code : string) : bool :=
  match err with
  | Pq c => bool_decide (c = code)
  | Errorf _ inner => pq_code_is inner code
  | New _ => false
  end.

(** The outcome of a fallible computation: a value or an error. *)
Inductive result (A : Type) :=
| Ok (a : A)
| Fail (e : error).
Arguments Ok {_} _.
Arguments Fail {_} _.

(** ** Go strings

    A Go string is a sequence of bytes; so is a Rocq [string]. *)
Definition HasPrefix (s p : string) : bool := String.prefix p s.

Fixpoint string_take (n : nat) (s : string) : string :=
  match n, s with
  | S n, String c s => String c (string_take n s)
  | _, _ => EmptyString
  end.
Fixpoint string_drop (n : nat) (s : string) : string :=
  match n, s with
  | S n, String c s => string_drop n s
  | _, _ => s
  end.

Definition TrimPrefix (s p : string) : string :=
  if HasPrefix s p then string_drop (String.length p) s else s.

Definition CutSuffix (s p : string) : option string :=
  let n := (String.length s - String.length p)%nat in
  if bool_decide (String.length p ≤ String.length s)%nat && bool_decide (string_drop n s = p)
  then Some (string_take n s) else None.
Definition HasSuffix (s p : string) : bool := bool_decide (is_Some (CutSuffix s p)).

(** The text before and after the first occurrence of [sep]. *)
Fixpoint Cut (s sep : string) : option (string * string) :=
  if HasPrefix s sep then Some (EmptyString, string_drop (String.length sep) s)
  else match s with
       | EmptyString => None
       | String c s => prod_map (String c) id <$> Cut s sep
       end.

(** ** Text ordering

    PostgreSQL compares [TEXT] values by the collation of the database, which
    the source does not fix: the development is parametric in a total order on
    strings.  [C_collation] is the byte order. *)
Class Collation := {
  text_le : relation string;
  text_le_dec :: RelDecision text_le;
  text_le_po :: PartialOrder text_le;
  text_le_total :: Total text_le;
}.

Definition C_collation : Collation := {|
  text_le := String.le;
  text_le_dec := String.le_dec;
  text_le_po := String.le_po;
  text_le_total := String.le_total;
|}.

(** Order by a first key, then, for equal keys, by a second order. *)
Definition order_then {A K} (key : A → K) (R1 : relation K) (R2 : relation A)
    : relation A :=
  λ a b, (key a ≠ key b ∧ R1 (key a) (key b)) ∨ (key a = key b ∧ R2 a b).

(** ** SQL row operations on lists of rows *)

(** [ORDER BY key] on a text column. *)
Definition text_asc `{Collation} {A} (key : A → string) : relation A :=
  λ a b, text_le (key a) (key b).
#[export] Instance text_asc_dec `{Collation} {A} (key : A → string) :
  RelDecision (text_asc key) := λ a b, text_le_dec (key a) (key b).

Definition order_by `{Collation} {A} (key : A → string) (l : list A) : list A :=
  merge_sort (text_asc key) l.

(** [ORDER BY key ASC] and [ORDER BY key DESC] on a numeric column. *)
Definition num_asc {A} (key : A → Z) : relation A := λ a b, key a ≤ key b.
Definition num_desc {A} (key : A → Z) : relation A := λ a b, key b ≤ key a.
#[export] Instance num_asc_dec {A} (key : A → Z) : RelDecision (num_asc key) :=
  λ a b, Z.le_dec (key a) (key b).
#[export] Instance num_desc_dec {A} (key : A → Z) : RelDecision (num_desc key) :=
  λ a b, Z.le_dec (key b) (key a).
#[export] Instance num_asc_trans {A} (key : A → Z) : Transitive (num_asc key).
Proof. intros a b c; unfold num_asc; lia. Qed.
#[export] Instance num_asc_total {A} (key : A → Z) : Total (num_asc key).
Proof. intros a b; unfold num_asc; lia. Qed.
#[export] Instance num_desc_trans {A} (key : A → Z) : Transitive (num_desc key).
Proof. intros a b c; unfold num_desc; lia. Qed.
#[export] Instance num_desc_total {A} (key : A → Z) : Total (num_desc key).
Proof. intros a b; unfold num_desc; lia. Qed.
#[export] Instance text_asc_trans `{Collation} {A} (key : A → string) : Transitive (text_asc key).
Proof. intros a b c; unfold text_asc; apply transitivity. Qed.
#[export] Instance text_asc_total `{Collation} {A} (key : A → string) : Total (text_asc key).
Proof. intros a b; unfold text_asc; apply total, _. Qed.

(** What a sort returns is sorted. *)
Lemma merge_sorted {A} (R : relation A) `{!RelDecision R, !Transitive R, !Total R} l :
  StronglySorted R (merge_sort R l).
Proof. apply Sorted_StronglySorted; [done|]. apply (Sorted_merge_sort R). Qed.

Definition order_by_asc {A} (key : A → Z) (l : list A) : list A :=
  merge_sort (num_asc key) l.
Definition order_by_desc {A} (key : A → Z) (l : list A) : list A :=
  merge_sort (num_desc key) l.

(** [UPDATE ... SET f WHERE P]. *)
Definition update_where {A} (P : A → Prop) `{!∀ x, Decision (P x)}
    (f : A → A) (l : list A) : list A :=
  (λ x, if decide (P x) then f x else x) <$> l.

(** [DELETE ... WHERE P]. *)
Definition delete_where {A} (P : A → Prop) `{!∀ x, Decision (P x)}
    (l : list A) : list A :=
  filter (λ x, ¬ P x) l.

#[global] Arguments update_where : simpl never.
#[global] Arguments delete_where : simpl never.

(** [SELECT DISTINCT ON (key)]: the first row of each key. *)
Fixpoint distinct_on {A K} `{EqDecision K} (key : A → K) (l : list A) : list A :=
  match l with
  | [] => []
  | x :: l => x :: filter (λ y, key y ≠ key x) (distinct_on key l)
  end.

(** [SELECT MAX(...)]: [NULL] on no rows. *)
Fixpoint sql_max (l : list Z) : option Z :=
  match l with
  | [] => None
  | x :: l => Some (match sql_max l with Some m => Z.max x m | None => x end)
  end.

(** [NULLIF(s, '')], and the [sql.NullString] of a possibly empty string. *)
Definition nullif_empty (s : string) : option string :=
  if bool_decide (s = "") then None else Some s.

(** [COALESCE(o, '')], and the [String] of a [sql.NullString]. *)
Definition str_or_empty (o : option string) : string := default "" o.

(** [LIMIT n]. *)
Definition limit {A} (n : Z) (l : list A) : list A := take (Z.to_nat n) l.

(** ** Lemmas shared by the components *)

Section orders.
Context {A K : Type} `{EqDecision K} (key : A → K).
Context (R1 : relation K) `{!PartialOrder R1, !Total R1}.
Context (R2 : relation A) `{!Transitive R2, !Total R2}.

#[export] Instance order_then_dec `{!RelDecision R1, !RelDecision R2} :
  RelDecision (order_then key R1 R2).
Proof. unfold order_then. intros a b. apply _. Defined.

Lemma order_then_trans : Transitive (order_then key R1 R2).
Proof.
  intros a b c [[Hab H1]|[Hab H1]] [[Hbc H2]|[Hbc H2]].
  - left. split; [|by etrans].
    intros Hac. rewrite Hac in H1. apply Hbc. by apply (anti_symm R1).
  - left. by rewrite <- Hbc.
  - left. by rewrite Hab.
  - right. split; [congruence|by etrans].
Qed.

Lemma order_then_total : Total (order_then key R1 R2).
Proof.
  intros a b. unfold order_then.
  destruct (decide (key a = key b)) as [E|N].
  - destruct (total R2 a b); [left|right]; right; auto.
  - destruct (total R1 (key a) (key b)); [left|right]; left; auto.
Qed.
End orders.

Section rows.
Context {A : Type}.
Implicit Types (l : list A) (P : A → Prop).

Lemma elem_of_update_where P `{!∀ x, Decision (P x)} f l y :
  y ∈ update_where P f l ↔ ∃ x, x ∈ l ∧ y = (if decide (P x) then f x else x).
Proof.
  unfold update_where. rewrite list_elem_of_fmap.
  split; intros (x & H1 & H2); exists x; auto.
Qed.

Lemma elem_of_delete_where P `{!∀ x, Decision (P x)} l y :
  y ∈ delete_where P l ↔ ¬ P y ∧ y ∈ l.
Proof. unfold delete_where. by rewrite list_elem_of_filter. Qed.

Lemma update_where_app P `{!∀ x, Decision (P x)} f l k :
  update_where P f (l ++ k) = update_where P f l ++ update_where P f k.
Proof. unfold update_where. by rewrite fmap_app. Qed.

Lemma update_where_id P `{!∀ x, Decision (P x)} f l :
  (∀ x, x ∈ l → ¬ P x) → update_where P f l = l.
Proof.
  induction l as [|x l IH]; intros HP; [done|].
  unfold update_where in *; cbn. rewrite decide_False by (apply HP; left).
  f_equal. apply IH. intros y Hy. apply HP. by right.
Qed.

Lemma fmap_update_where {B} (g : A → B) P `{!∀ x, Decision (P x)} f l :
  (∀ x, P x → g (f x) = g x) → g <$> update_where P f l = g <$> l.
Proof.
  intros HP. unfold update_where. rewrite <- list_fmap_compose.
  apply list_fmap_ext. intros i x _; cbn. case_decide; auto.
Qed.

(** A row is determined by its key when keys are not repeated. *)
Lemma NoDup_fmap_inj {K} (key : A → K) l x y :
  NoDup (key <$> l) → x ∈ l → y ∈ l → key x = key y → x = y.
Proof.
  induction l as [|z l IH]; cbn; [set_solver|].
  intros [Hz HN]%NoDup_cons Hx Hy E.
  apply elem_of_cons in Hx as [->|Hx]; apply elem_of_cons in Hy as [->|Hy]; auto.
  - destruct Hz. rewrite E. by apply list_elem_of_fmap_2.
  - destruct Hz. rewrite <- E. by apply list_elem_of_fmap_2.
Qed.

Lemma NoDup_fmap_filter {K} (key : A → K) P `{!∀ x, Decision (P x)} l :
  NoDup (key <$> l) → NoDup (key <$> filter P l).
Proof.
  induction l as [|x l IH]; [done|].
  rewrite fmap_cons. intros [Hx HN]%NoDup_cons.
  destruct (decide (P x)) as [HP|HP].
  - rewrite filter_cons_True by done. rewrite fmap_cons. apply NoDup_cons. split; [|auto].
    intros (y & Hy & Hin)%list_elem_of_fmap. apply Hx.
    apply list_elem_of_filter in Hin as [_ Hin]. rewrite Hy. by apply list_elem_of_fmap_2.
  - rewrite filter_cons_False by done. auto.
Qed.

Lemma filter_none P `{!∀ x, Decision (P x)} l :
  (∀ x, x ∈ l → ¬ P x) → filter P l = [].
Proof.
  induction l as [|x l IH]; intros HP; [done|].
  rewrite filter_cons_False by (apply HP; left).
  apply IH. intros y Hy. apply HP. by right.
Qed.

Lemma filter_all P `{!∀ x, Decision (P x)} l : (∀ x, x ∈ l → P x) → filter P l = l.
Proof.
  induction l as [|x l IH]; intros HP; [done|].
  rewrite filter_cons_True by (apply HP; left). f_equal.
  apply IH. intros y Hy. apply HP. by right.
Qed.

(** Selecting by a key finds the one row that has it. *)
Lemma filter_key_unique {K} `{EqDecision K} (key : A → K) l x :
  NoDup (key <$> l) → x ∈ l → filter (λ y, key y = key x) l = [x].
Proof.
  induction l as [|z l IH]; [set_solver|]. rewrite fmap_cons.
  intros [Hz HN]%NoDup_cons Hx.
  apply elem_of_cons in Hx as [->|Hx].
  - rewrite filter_cons_True by done. f_equal.
    apply filter_none. intros y Hy E.
    apply Hz. rewrite <- E. by apply list_elem_of_fmap_2.
  - rewrite filter_cons_False; [by apply IH|].
    intros E. apply Hz. rewrite E. by apply list_elem_of_fmap_2.
Qed.

End rows.

Lemma filter_fmap {A B} (f : A → B) (P : B → Prop) `{!∀ x, Decision (P x)} (l : list A) :
  filter P (f <$> l) = f <$> filter (λ x, P (f x)) l.
Proof.
  induction l as [|x l IH]; [done|]. rewrite fmap_cons.
  destruct (decide (P (f x))) as [HP|HP].
  - by rewrite !filter_cons_True, fmap_cons, IH by done.
  - by rewrite !filter_cons_False, IH by done.
Qed.

Lemma StronglySorted_filter {A} (R : relation A) (P : A → Prop) `{!∀ x, Decision (P x)} l :
  StronglySorted R l → StronglySorted R (filter P l).
Proof.
  induction l as [|x l IH]; [done|]. intros [Hx Hl]%StronglySorted_cons.
  destruct (decide (P x)); [rewrite filter_cons_True by done|rewrite filter_cons_False by done; auto].
  apply StronglySorted_cons. split; [|auto].
  rewrite Forall_forall in Hx |- *. intros y [_ Hy]%list_elem_of_filter. auto.
Qed.

Lemma NoDup_take {A} (l : list A) n : NoDup l → NoDup (take n l).
Proof. rewrite <- (take_drop n l) at 1. by intros [? _]%NoDup_app. Qed.

Lemma StronglySorted_take {A} (R : relation A) l n :
  StronglySorted R l → StronglySorted R (take n l).
Proof. rewrite <- (take_drop n l) at 1. by intros ?%StronglySorted_app_1_l. Qed.

Lemma filter_filter_same {A} (P Q : A → Prop) `{!∀ x, Decision (P x), !∀ x, Decision (Q x)} (l : list A) :
  (∀ x, x ∈ l → P x → Q x) → filter P (filter Q l) = filter P l.
Proof.
  induction l as [|x l IH]; intros HPQ; [done|]. rewrite !filter_cons.
  assert (filter P (filter Q l) = filter P l) as E by (apply IH; intros y Hy; apply HPQ; by right).
  repeat case_decide; rewrite ?filter_cons; repeat case_decide; try done; [by f_equal|].
  exfalso. auto using list_elem_of_here.
Qed.

Lemma filter_ext_elem {A} (P Q : A → Prop) `{!∀ x, Decision (P x), !∀ x, Decision (Q x)} (l : list A) :
  (∀ x, x ∈ l → P x ↔ Q x) → filter P l = filter Q l.
Proof.
  induction l as [|x l IH]; intros HPQ; [done|]. rewrite !filter_cons.
  rewrite IH by (intros y Hy; apply HPQ; by right).
  pose proof (HPQ x ltac:(left)). repeat case_decide; tauto.
Qed.

Lemma bind_ext_elem {A B} (f g : A → list B) l :
  (∀ x, x ∈ l → f x = g x) → l ≫= f = l ≫= g.
Proof.
  induction l as [|x l IH]; intros Hfg; [done|]. rewrite !bind_cons.
  rewrite (Hfg x) by (by left). f_equal. apply IH. intros y Hy. apply Hfg. by right.
Qed.

Section distinct_on.
Context {A K : Type} `{EqDecision K} (key : A → K).
Implicit Types l : list A.

Lemma distinct_on_sub l x : x ∈ distinct_on key l → x ∈ l.
Proof.
  revert x. induction l as [|y l IH]; cbn; [done|]. intros x Hx.
  apply elem_of_cons in Hx as [->|Hx]; [by left|].
  apply list_elem_of_filter in Hx as [_ Hx]. right. auto.
Qed.

Lemma distinct_on_NoDup l : NoDup (key <$> distinct_on key l).
Proof.
  induction l as [|x l IH]; cbn; [constructor|].
  apply NoDup_cons. split; [|by apply NoDup_fmap_filter].
  intros (y & Hy & Hin)%list_elem_of_fmap.
  apply list_elem_of_filter in Hin as [Hn _]. congruence.
Qed.

Lemma distinct_on_complete l x :
  x ∈ l → ∃ y, y ∈ distinct_on key l ∧ key y = key x.
Proof.
  induction l as [|z l IH]; cbn; [set_solver|]. intros Hx.
  destruct (decide (key z = key x)) as [E|N]; [exists z; split; [by left|done]|].
  apply elem_of_cons in Hx as [->|Hx]; [congruence|].
  destruct (IH Hx) as (y & Hy & E). exists y. split; [|done].
  right. apply list_elem_of_filter. split; [congruence|done].
Qed.

Lemma distinct_on_first (R : relation A) `{!Reflexive R} l x y :
  StronglySorted R l → x ∈ distinct_on key l → y ∈ l → key x = key y → R x y.
Proof.
  revert x y. induction l as [|z l IH]; cbn; [set_solver|].
  intros x y [Hz HS]%StronglySorted_cons Hx Hy E.
  rewrite Forall_forall in Hz.
  apply elem_of_cons in Hx as [->|Hx].
  - apply elem_of_cons in Hy as [->|Hy]; auto.
  - apply list_elem_of_filter in Hx as [Hn Hx].
    apply elem_of_cons in Hy as [->|Hy]; [congruence|]. eauto.
Qed.
End distinct_on.

Lemma sql_max_spec (l : list Z) :
  match sql_max l with
  | None => l = []
  | Some m => m ∈ l ∧ ∀ x, x ∈ l → x ≤ m
  end.
Proof.
  induction l as [|x l IH]; cbn; [done|].
  destruct (sql_max l) as [m|].
  - destruct IH as [Hm Hle]. split.
    + destruct (Z.max_spec x m) as [[_ ->]|[_ ->]]; apply elem_of_cons; auto.
    + intros y [->|Hy]%elem_of_cons; [lia|]. specialize (Hle y Hy). lia.
  - subst. split; [by left|]. intros y Hy. apply list_elem_of_singleton in Hy. lia.
Qed.

(** [ORDER BY]: the sorted rows are the rows, in order. *)
Lemma order_by_elem {A} (R : relation A) `{!RelDecision R} (l : list A) x :
  x ∈ merge_sort R l ↔ x ∈ l.
Proof. by rewrite merge_sort_Permutation. Qed.

Lemma HasPrefix_spec s p : HasPrefix s p = true ↔ ∃ t, s = p +:+ t.
Proof.
  unfold HasPrefix. revert s. induction p as [|c p IH]; intros s; cbn.
  - split; [intros _; by exists s|by destruct s].
  - destruct s as [|c' s]; cbn.
    + split; [done|intros [t Ht]; discriminate].
    + destruct (Ascii.ascii_dec c c') as [->|N].
      * rewrite IH. split; intros [t Ht]; exists t; [by rewrite Ht|by inversion Ht].
      * split; [done|]. intros [t Ht]. inversion Ht; congruence.
Qed.

(** ** Automation *)
Create HintDb docstore.

(** Evaluates a closed decidable proposition. *)
Ltac by_decide := apply (bool_decide_unpack _); vm_compute; exact I.

Lemma string_app_cons c s t : String c s +:+ t = String c (s +:+ t).
Proof. done. Qed.

Lemma string_app_empty_r s : s +:+ "" = s.
Proof. induction s as [|c s IH]; [done|]. by rewrite string_app_cons, IH. Qed.

Lemma string_app_assoc (s t u : string) : (s +:+ t) +:+ u = s +:+ (t +:+ u).
Proof. induction s as [|c s IH]; [done|]. by rewrite !string_app_cons, IH. Qed.

Lemma string_length_app s t : String.length (s +:+ t) = (String.length s + String.length t)%nat.
Proof. induction s as [|c s IH]; [done|]. rewrite string_app_cons. cbn. by rewrite IH. Qed.

Lemma string_drop_app s t : string_drop (String.length s) (s +:+ t) = t.
Proof. by induction s. Qed.
Lemma string_take_app s t : string_take (String.length s) (s +:+ t) = s.
Proof. induction s as [|c s IH]; [by destruct t|]. rewrite string_app_cons. cbn. by rewrite IH. Qed.
Lemma string_take_drop n s : string_take n s +:+ string_drop n s = s.
Proof.
  revert s. induction n as [|n IH]; intros [|c s]; try done. cbn.
  by rewrite string_app_cons, IH.
Qed.

Lemma HasPrefix_app p t : HasPrefix (p +:+ t) p = true.
Proof. apply HasPrefix_spec. by exists t. Qed.

Lemma HasPrefix_drop s p : HasPrefix s p = true → s = p +:+ string_drop (String.length p) s.
Proof. intros [t ->]%HasPrefix_spec. by rewrite string_drop_app. Qed.

Lemma TrimPrefix_app p t : TrimPrefix (p +:+ t) p = t.
Proof. unfold TrimPrefix. by rewrite HasPrefix_app, string_drop_app. Qed.

Lemma CutSuffix_spec s p t : CutSuffix s p = Some t ↔ s = t +:+ p.
Proof.
  unfold CutSuffix. split.
  - case_match eqn:E; [|done]. intros [= <-]. apply andb_prop in E as [_ E].
    apply bool_decide_eq_true in E. rewrite <- E at 2. by rewrite string_take_drop.
  - intros ->. rewrite string_length_app, Nat.add_sub, string_drop_app, string_take_app.
    by rewrite !bool_decide_true by (done || lia).
Qed.

Lemma HasSuffix_spec s p : HasSuffix s p = true ↔ ∃ t, s = t +:+ p.
Proof.
  unfold HasSuffix. rewrite bool_decide_eq_true. unfold is_Some.
  by setoid_rewrite CutSuffix_spec.
Qed.

Lemma Cut_Some s sep a b : Cut s sep = Some (a, b) → s = a +:+ sep +:+ b.
Proof.
  revert a b. induction s as [|c s IH]; intros a b; cbn [Cut]; case_match eqn:Ep.
  - intros [= <- <-]. by apply HasPrefix_drop.
  - done.
  - intros [= <- <-]. by apply HasPrefix_drop.
  - intros ([a' b'] & Ec & [= -> ->])%fmap_Some. by rewrite (IH _ _ Ec).
Qed.
Lemma Cut_None s sep : Cut s sep = None → ∀ a b, s ≠ a +:+ sep +:+ b.
Proof.
  induction s as [|c s IH]; cbn [Cut]; case_match eqn:Hp; try done.
  - intros _ a b E. destruct a; [|done]. assert (HasPrefix "" sep = true) as H2; [|congruence].
    apply HasPrefix_spec. by exists b.
  - destruct (Cut s sep) as [[x y]|] eqn:Ec; [done|]. intros _ a b E. destruct a as [|x a].
    + assert (HasPrefix (String c s) sep = true) as H2; [|congruence]. apply HasPrefix_spec. by exists b.
    + rewrite string_app_cons in E. injection E as _ ->. by apply (IH eq_refl a b).
Qed.

(** ** Joins *)

(** [l LEFT JOIN k ON R]: one row with NULLs for an [a] without match. *)
Definition left_join {A B} (R : A → B → Prop) `{!∀ a b, Decision (R a b)}
    (l : list A) (k : list B) : list (A * option B) :=
  a ← l;
  match filter (R a) k with
  | [] => [(a, None)]
  | bs => (λ b, (a, Some b)) <$> bs
  end.

(** [l JOIN k ON R] *)
Definition inner_join {A B} (R : A → B → Prop) `{!∀ a b, Decision (R a b)}
    (l : list A) (k : list B) : list (A * B) :=
  a ← l; (λ b, (a, b)) <$> filter (R a) k.

Lemma inner_join_elem {A B} (R : A → B → Prop) `{!∀ a b, Decision (R a b)} l k a b :
  (a, b) ∈ inner_join R l k ↔ a ∈ l ∧ b ∈ k ∧ R a b.
Proof.
  unfold inner_join. rewrite list_elem_of_bind. split.
  - intros (a' & (b' & [= <- <-] & [HR Hb]%list_elem_of_filter)%list_elem_of_fmap & Ha). done.
  - intros (Ha & Hb & HR). exists a. split; [|done].
    apply list_elem_of_fmap. exists b. split; [done|]. by apply list_elem_of_filter.
Qed.

(** A join in which each row of [l] has at most one partner keeps the keys of [l]
    apart. *)
Lemma inner_join_NoDup {A B K} (key : A → K) (R : A → B → Prop) `{!∀ a b, Decision (R a b)} l k :
  NoDup (key <$> l) → (∀ a, a ∈ l → (length (filter (R a) k) ≤ 1)%nat) →
  NoDup ((λ row, key row.1) <$> inner_join R l k).
Proof.
  induction l as [|a l IH]; [constructor|]. rewrite fmap_cons.
  intros [Ha HN]%NoDup_cons Hone. unfold inner_join. rewrite bind_cons.
  assert (length (filter (R a) k) ≤ 1)%nat as H1 by (apply Hone; by left).
  assert (NoDup ((λ row, key row.1) <$> inner_join R l k)) as HNr.
  { apply IH; [done|]. intros x Hx. apply Hone. by right. }
  destruct (filter (R a) k) as [|b [|b' bs]]; cbn in H1 |- *; [exact HNr| |lia].
  apply NoDup_cons. split; [|exact HNr]. intros ([x y] & E & Hin)%list_elem_of_fmap.
  apply Ha. cbn in E. rewrite E.
  apply list_elem_of_bind in Hin as (a' & (b' & [= -> ->] & _)%list_elem_of_fmap & Ha').
  by apply list_elem_of_fmap_2.
Qed.
