(* ===== verification/GoStd.v ===== *)
(** * The parts of Go's standard library the store computes with

    - [sha256_Sum256], [hex_EncodeToString]: [crypto/sha256], [encoding/hex];
    - [rfc3339nano]: [time.Time.UTC().Format(time.RFC3339Nano)] on an instant
      given in nanoseconds since the Unix epoch;
    - [FormatInt]: [strconv.FormatInt(_, 10)];
    - [int16_wrap]: the wrap-around of the [int16] type.

    They are executable; [sha256_abc] and the examples after [rfc3339nano]
    evaluate them on published test vectors. *)

From Stdlib Require Import Ascii.
From S2P Require Import Prelude.

(** ** Bytes and hexadecimal *)
Definition byte_of_ascii (c : ascii) : Z := Z.of_N (N_of_ascii c).
Definition ascii_of_byte (b : Z) : ascii := ascii_of_N (Z.to_N b).

Fixpoint bytes_of_string (s : string) : list Z :=
  match s with
  | EmptyString => []
  | String c s => byte_of_ascii c :: bytes_of_string s
  end.

Fixpoint string_of_bytes (l : list Z) : string :=
  match l with
  | [] => EmptyString
  | b :: l => String (ascii_of_byte b) (string_of_bytes l)
  end.

Definition hex_digit (d : Z) : ascii :=
  ascii_of_byte (if d <? 10 then 48 + d else 87 + d).

Fixpoint hex_EncodeToString (l : list Z) : string :=
  match l with
  | [] => EmptyString
  | b :: l => String (hex_digit (b / 16)) (String (hex_digit (b mod 16)) (hex_EncodeToString l))
  end.

(** ** SHA-256 (FIPS 180-4) on 32-bit words *)
Definition mask32 : Z := 4294967295.
Definition add32 (a b : Z) : Z := Z.land (a + b) mask32.
Definition rotr32 (n x : Z) : Z :=
  Z.lor (Z.shiftr x n) (Z.land (Z.shiftl x (32 - n)) mask32).
Definition not32 (x : Z) : Z := Z.lxor x mask32.

Definition Ch (x y z : Z) : Z := Z.lxor (Z.land x y) (Z.land (not32 x) z).
Definition Maj (x y z : Z) : Z :=
  Z.lxor (Z.land x y) (Z.lxor (Z.land x z) (Z.land y z)).
Definition Sigma0 (x : Z) : Z := Z.lxor (rotr32 2 x) (Z.lxor (rotr32 13 x) (rotr32 22 x)).
Definition Sigma1 (x : Z) : Z := Z.lxor (rotr32 6 x) (Z.lxor (rotr32 11 x) (rotr32 25 x)).
Definition sigma0 (x : Z) : Z := Z.lxor (rotr32 7 x) (Z.lxor (rotr32 18 x) (Z.shiftr x 3)).
Definition sigma1 (x : Z) : Z := Z.lxor (rotr32 17 x) (Z.lxor (rotr32 19 x) (Z.shiftr x 10)).

(** The standard defines its constants: the first 32 bits of the fractional
    parts of the cube roots of the first 64 primes, and of the square roots of
    the first 8. *)
Fixpoint divides_some (ps : list Z) (n : Z) : bool :=
  match ps with
  | [] => false
  | p :: ps => (n mod p =? 0) || divides_some ps n
  end.

(** The primes among the [fuel] numbers from [n], after the smaller [ps]. *)
Fixpoint primes_from (fuel : nat) (n : Z) (ps : list Z) : list Z :=
  match fuel with
  | O => []
  | S fuel =>
      if divides_some ps n then primes_from fuel (n + 1) ps
      else n :: primes_from fuel (n + 1) (n :: ps)
  end.

(** The integer cube root of [n], one binary digit at a time from digit [bits]. *)
Fixpoint cube_root (bits : nat) (r n : Z) : Z :=
  match bits with
  | O => r
  | S bits =>
      let r' := r + Z.shiftl 1 (Z.of_nat bits) in
      cube_root bits (if r' * r' * r' <=? n then r' else r) n
  end.

Definition sha256_K : list Z := Eval vm_compute in
  (λ p, Z.land (cube_root 40 0 (Z.shiftl p 96)) mask32) <$> primes_from 310 2 [].

Definition sha256_H0 : list Z := Eval vm_compute in
  (λ p, Z.land (Z.sqrt (Z.shiftl p 64)) mask32) <$> take 8 (primes_from 310 2 []).

(** The message schedule, newest word first: 48 words after the 16 of the block. *)
Fixpoint sha256_extend (n : nat) (w : list Z) : list Z :=
  match n with
  | O => w
  | S n =>
      let t i := nth i w 0 in
      sha256_extend n
        (add32 (add32 (sigma1 (t 1%nat)) (t 6%nat)) (add32 (sigma0 (t 14%nat)) (t 15%nat)) :: w)
  end.

Definition sha256_round (st : list Z) (kw : Z * Z) : list Z :=
  match st with
  | [a; b; c; d; e; f; g; h] =>
      let t1 := add32 h (add32 (Sigma1 e) (add32 (Ch e f g) (add32 kw.1 kw.2))) in
      let t2 := add32 (Sigma0 a) (Maj a b c) in
      [add32 t1 t2; a; b; c; add32 d t1; e; f; g]
  | _ => st
  end.

Fixpoint words_of_bytes (l : list Z) : list Z :=
  match l with
  | a :: b :: c :: d :: l =>
      (Z.shiftl a 24 + Z.shiftl b 16 + Z.shiftl c 8 + d) :: words_of_bytes l
  | _ => []
  end.

Definition bytes_of_word (w : Z) : list Z :=
  [Z.land (Z.shiftr w 24) 255; Z.land (Z.shiftr w 16) 255; Z.land (Z.shiftr w 8) 255; Z.land w 255].

Definition sha256_block (h : list Z) (block : list Z) : list Z :=
  let w := reverse (sha256_extend 48 (reverse (words_of_bytes block))) in
  zip_with add32 h (foldl sha256_round h (zip sha256_K w)).

(** The message, a [1] bit, zeros up to a multiple of 64 bytes, and the bit
    length in the last 8 bytes. *)
Definition sha256_pad (l : list Z) : list Z :=
  let n := Z.of_nat (length l) in
  l ++ [128] ++ replicate (Z.to_nat ((55 - n) mod 64)) 0
    ++ bytes_of_word (Z.shiftr (8 * n) 32) ++ bytes_of_word (Z.land (8 * n) mask32).

Fixpoint sha256_blocks (n : nat) (h : list Z) (l : list Z) : list Z :=
  match n with
  | O => h
  | S n => sha256_blocks n (sha256_block h (take 64 l)) (drop 64 l)
  end.

Definition sha256_Sum256 (s : string) : list Z :=
  let l := sha256_pad (bytes_of_string s) in
  mjoin (bytes_of_word <$> sha256_blocks (Nat.div (length l) 64) sha256_H0 l).

(** [hex.EncodeToString] of [sha256.Sum256]. *)
Definition sha256_hex (s : string) : string := hex_EncodeToString (sha256_Sum256 s).

#[global] Arguments sha256_hex : simpl never.

Example sha256_abc :
  sha256_hex "abc" = "ba7816bf8f01cfea414140de5dae2223b00361a396177a9cb410ff61f20015ad".
Proof. vm_compute. reflexivity. Qed.

Example sha256_two_blocks :
  sha256_hex "abcdbcdecdefdefgefghfghighijhijkijkljklmklmnlmnomnopnopq"
  = "248d6a61d20638b8e5c026930c3e6039a33ce45964ff2167f6ecedd419db06c1".
Proof. vm_compute. reflexivity. Qed.

(** A digest is 32 bytes, 64 hexadecimal digits. *)
Lemma sha256_round_length st kw : length (sha256_round st kw) = length st.
Proof. by destruct st as [|? [|? [|? [|? [|? [|? [|? [|? [|? ?]]]]]]]]]. Qed.

Lemma sha256_block_length h block : length (sha256_block h block) = length h.
Proof.
  unfold sha256_block. rewrite length_zip_with.
  enough (∀ l st, length (foldl sha256_round st l) = length st) as -> by lia.
  induction l as [|x l IH]; intros st; [done|]. cbn. by rewrite IH, sha256_round_length.
Qed.

Lemma sha256_blocks_length n h l : length (sha256_blocks n h l) = length h.
Proof.
  revert h l. induction n as [|n IH]; intros h l; [done|].
  cbn [sha256_blocks]. by rewrite IH, sha256_block_length.
Qed.

Lemma hex_length l : String.length (hex_EncodeToString l) = (2 * length l)%nat.
Proof. induction l as [|b l IH]; [done|]. cbn. rewrite IH. lia. Qed.

Lemma sha256_hex_length s : String.length (sha256_hex s) = 64%nat.
Proof.
  unfold sha256_hex. rewrite hex_length. unfold sha256_Sum256.
  set (n := Nat.div _ _). set (l := sha256_pad _).
  pose proof (sha256_blocks_length n sha256_H0 l) as Hl.
  assert (∀ ws, length (mjoin (bytes_of_word <$> ws)) = (4 * length ws)%nat) as ->.
  { induction ws as [|w ws IH]; [done|].
    change (mjoin (bytes_of_word <$> w :: ws))
      with (bytes_of_word w ++ mjoin (bytes_of_word <$> ws)).
    rewrite length_app, IH. cbn. lia. }
  rewrite Hl. reflexivity.
Qed.

(** ** Integers *)
Definition FormatInt (n : Z) : string := pretty n.

(** [strconv.ParseInt(_, 10, 64)]: a sign and digits, within range. *)
Definition is_digit (c : ascii) : bool := let b := byte_of_ascii c in (48 <=? b) && (b <=? 57).
Fixpoint digits (s : string) (acc : Z) : option Z :=
  match s with
  | EmptyString => Some acc
  | String c s => if is_digit c then digits s (10 * acc + (byte_of_ascii c - 48)) else None
  end.
Definition parse_digits (s : string) : option Z :=
  match s with EmptyString => None | _ => digits s 0 end.
Definition ParseInt (s : string) : option Z :=
  n ← match s with
      | String c t =>
          if bool_decide (c = "+"%char) then parse_digits t
          else if bool_decide (c = "-"%char) then Z.opp <$> parse_digits t
          else parse_digits s
      | EmptyString => None
      end;
  if (-9223372036854775808 <=? n) && (n <=? 9223372036854775807) then Some n else None.

Example ParseInt_examples :
  ParseInt "-12" = Some (-12) ∧ ParseInt "+007" = Some 7 ∧ ParseInt "" = None ∧ ParseInt "1_0" = None
  ∧ ParseInt "9223372036854775808" = None.
Proof. by_decide. Qed.

Definition int16_wrap (n : Z) : Z := (n + 32768) mod 65536 - 32768.

Lemma int16_wrap_small n : -32768 ≤ n ≤ 32767 → int16_wrap n = n.
Proof. intros Hn. unfold int16_wrap. rewrite Z.mod_small; lia. Qed.

(** ** [time.RFC3339Nano] in UTC *)

(** Civil date of a day counted from 1970-01-01 (proleptic Gregorian). *)
Definition civil_of_days (days : Z) : Z * Z * Z :=
  let z := days + 719468 in
  let era := z / 146097 in
  let doe := z mod 146097 in
  let yoe := (doe - doe / 1460 + doe / 36524 - doe / 146096) / 365 in
  let doy := doe - (365 * yoe + yoe / 4 - yoe / 100) in
  let mp := (5 * doy + 2) / 153 in
  let d := doy - (153 * mp + 2) / 5 + 1 in
  let m := if mp <? 10 then mp + 3 else mp - 9 in
  (yoe + era * 400 + (if m <=? 2 then 1 else 0), m, d).

(** The [n] low decimal digits of [v], most significant first. *)
Fixpoint pad_digits (n : nat) (v : Z) : string :=
  match n with
  | O => EmptyString
  | S n => pad_digits n (v / 10) +:+ String (ascii_of_byte (48 + v mod 10)) EmptyString
  end.

(** The fraction of a second: no trailing zeros, nothing when it is zero. *)
Fixpoint trim_fraction (n : nat) (v : Z) : string :=
  match n with
  | O => EmptyString
  | S n' => if v mod 10 =? 0 then trim_fraction n' (v / 10) else "." +:+ pad_digits n v
  end.

Definition rfc3339nano (t : Z) : string :=
  let secs := t / 1000000000 in
  let nanos := t mod 1000000000 in
  let days := secs / 86400 in
  let sod := secs mod 86400 in
  let '(y, m, d) := civil_of_days days in
  pad_digits 4 y +:+ "-" +:+ pad_digits 2 m +:+ "-" +:+ pad_digits 2 d +:+ "T"
  +:+ pad_digits 2 (sod / 3600) +:+ ":" +:+ pad_digits 2 (sod / 60 mod 60) +:+ ":"
  +:+ pad_digits 2 (sod mod 60) +:+ trim_fraction 9 nanos +:+ "Z".

Example rfc3339nano_epoch : rfc3339nano 0 = "1970-01-01T00:00:00Z".
Proof. vm_compute. reflexivity. Qed.
Example rfc3339nano_fraction :
  rfc3339nano 1136214245999999000 = "2006-01-02T15:04:05.999999Z".
Proof. vm_compute. reflexivity. Qed.
Example rfc3339nano_leap : rfc3339nano 1709164800100000000 = "2024-02-29T00:00:00.1Z".
Proof. vm_compute. reflexivity. Qed.

(** ** HMAC-SHA256 ([crypto/hmac], RFC 2104) *)
Definition hmac_block (key : string) : list Z :=
  let k := if (64 <? Z.of_nat (String.length key))%Z then sha256_Sum256 key else bytes_of_string key in
  k ++ replicate (64 - length k) 0.

Definition hmac_sha256 (key msg : string) : list Z :=
  let pad c := string_of_bytes (Z.lxor c <$> hmac_block key) in
  sha256_Sum256 (pad 92 +:+ string_of_bytes (sha256_Sum256 (pad 54 +:+ msg))).

Example hmac_rfc4231 :
  hex_EncodeToString (hmac_sha256 "Jefe" "what do ya want for nothing?")
  = "5bdcc146bf60754e6a042426089575c75a003f089d2739839dec58b964ec3843".
Proof. vm_compute. reflexivity. Qed.

(** [int64] *)
Definition int64_wrap (n : Z) : Z := (n + 9223372036854775808) mod 18446744073709551616 - 9223372036854775808.

Lemma int64_wrap_small n : -9223372036854775808 ≤ n ≤ 9223372036854775807 → int64_wrap n = n.
Proof. intros Hn. unfold int64_wrap. rewrite Z.mod_small; lia. Qed.

(** ** Text scanning ([strings.TrimSpace], [bufio.Scanner] with [ScanLines]) *)

(** The UTF-8 encodings of the white space of [unicode.IsSpace]. *)
Definition spaces : list string := Eval vm_compute in
  string_of_bytes <$>
  ([[9]; [10]; [11]; [12]; [13]; [32]; [194; 133]; [194; 160]; [225; 154; 128]]
   ++ ((λ b, [226; 128; b]) <$> [128; 129; 130; 131; 132; 133; 134; 135; 136; 137; 138; 168; 169; 175])
   ++ [[226; 129; 159]; [227; 128; 128]]).

(** One white space character less at the front, or at the end. *)
Definition trim_first (s : string) : option string :=
  head (omap (λ sp, if HasPrefix s sp then Some (string_drop (String.length sp) s) else None) spaces).
Definition trim_last (s : string) : option string :=
  head (omap (CutSuffix s) spaces).

Fixpoint trim_with (f : string → option string) (fuel : nat) (s : string) : string :=
  match fuel with
  | O => s
  | S fuel => match f s with Some s' => trim_with f fuel s' | None => s end
  end.

(** Every step shortens the text, so its length is fuel enough. *)
Definition TrimSpace (s : string) : string :=
  let s := trim_with trim_first (String.length s) s in
  trim_with trim_last (String.length s) s.

(** The text before the first newline, and what follows when there is one. *)
Fixpoint split_line (s : string) : string * option string :=
  match s with
  | EmptyString => (EmptyString, None)
  | String c s =>
      if bool_decide (c = ascii_of_nat 10) then (EmptyString, Some s)
      else prod_map (String c) id (split_line s)
  end.

(** [bufio.MaxScanTokenSize]: the scanner stops at a line that fills its buffer. *)
Definition MaxScanTokenSize : Z := 65536.

Definition drop_cr (s : string) : string := default s (CutSuffix s (String (ascii_of_nat 13) "")).

(** The lines a scanner yields.  The text gets shorter with each. *)
Fixpoint scan_lines (fuel : nat) (s : string) : list string :=
  match fuel with
  | O => []
  | S fuel =>
      if bool_decide (s = EmptyString) then [] else
      let '(line, rest) := split_line s in
      if MaxScanTokenSize <=? Z.of_nat (String.length line) then [] else
      drop_cr line :: match rest with Some r => scan_lines fuel r | None => [] end
  end.

Definition ScanLines (s : string) : list string := scan_lines (String.length s) s.

Example TrimSpace_example : TrimSpace "  a b	 " = "a b".
Proof. vm_compute. reflexivity. Qed.

(** [strings.TrimRight(s, c)], [strings.Split(s, c)] for a single character. *)
Fixpoint TrimRight (c : ascii) (s : string) : string :=
  match s with
  | EmptyString => EmptyString
  | String d s =>
      match TrimRight c s with
      | EmptyString => if bool_decide (d = c) then EmptyString else String d EmptyString
      | t => String d t
      end
  end.
Fixpoint Split (c : ascii) (s : string) : list string :=
  match s with
  | EmptyString => [EmptyString]
  | String d s =>
      if bool_decide (d = c) then EmptyString :: Split c s else
      match Split c s with [] => [String d EmptyString] | p :: ps => String d p :: ps end
  end.
(** [strings.Join] *)
Fixpoint Join (sep : string) (l : list string) : string :=
  match l with [] => EmptyString | [p] => p | p :: l => p +:+ sep +:+ Join sep l end.

Lemma Split_ne c s : Split c s ≠ [].
Proof. destruct s as [|d s]; cbn; [done|]. case_bool_decide; [done|]. by destruct (Split c s). Qed.
Lemma Join_Split c s : Join (String c "") (Split c s) = s.
Proof.
  induction s as [|d s IH]; [done|]. cbn [Split]. pose proof (Split_ne c s) as Hne.
  destruct (Split c s) as [|p ps]; [done|]. case_bool_decide as Hd.
  - subst d. rewrite <- IH. done.
  - rewrite <- IH. by destruct ps.
Qed.

(** [url.PathEscape] *)
Definition path_char (c : ascii) : bool :=
  let b := byte_of_ascii c in
  ((48 <=? b) && (b <=? 57)) || ((65 <=? b) && (b <=? 90)) || ((97 <=? b) && (b <=? 122)) ||
  bool_decide (c ∈ ["-"; "_"; "."; "~"; "$"; "&"; "+"; ":"; "="; "@"]%char).
Definition upper_hex (d : Z) : ascii := ascii_of_byte (if d <? 10 then 48 + d else 55 + d).
Fixpoint PathEscape (s : string) : string :=
  match s with
  | EmptyString => EmptyString
  | String c s =>
      if path_char c then String c (PathEscape s)
      else String "%" (String (upper_hex (byte_of_ascii c / 16))
             (String (upper_hex (byte_of_ascii c mod 16)) (PathEscape s)))
  end.
Example escaped : (PathEscape "lint/unit test", TrimRight "/" "https://d//") = ("lint%2Funit%20test", "https://d").
Proof. by vm_compute. Qed.

(** ** Package [path] *)

(** The text split at every slash. *)
Fixpoint split_slash (s : string) : list string :=
  match s with
  | EmptyString => [EmptyString]
  | String c s =>
      match split_slash s with
      | [] => []
      | p :: ps => if bool_decide (c = "/"%char) then EmptyString :: p :: ps else String c p :: ps
      end
  end.

Fixpoint join_slash (l : list string) : string :=
  match l with
  | [] => EmptyString
  | [p] => p
  | p :: l => p +:+ "/" +:+ join_slash l
  end.

Definition rooted (s : string) : bool := HasPrefix s "/".

(** The elements [path.Clean] keeps, last first. *)
Definition clean_step (root : bool) (out : list string) (p : string) : list string :=
  if bool_decide (p = "" ∨ p = ".") then out
  else if bool_decide (p = "..") then
    match out with
    | q :: out' => if bool_decide (q = "..") then ".." :: out else out'
    | [] => if root then [] else [".."]
    end
  else p :: out.

Definition path_Clean (s : string) : string :=
  let elems := reverse (foldl (clean_step (rooted s)) [] (split_slash s)) in
  let p := join_slash elems in
  if rooted s then "/" +:+ p else if bool_decide (p = "") then "." else p.

(** The directory of a path, cleaned; its last element. *)
Definition path_Dir (s : string) : string :=
  match reverse (split_slash s) with
  | [] | [_] => path_Clean ""
  | _ :: dir => path_Clean (join_slash (reverse dir) +:+ "/")
  end.

(** Trailing slashes do not count. *)
Definition path_Base (s : string) : string :=
  if bool_decide (s = "") then "." else
  match filter (λ p, p ≠ "") (reverse (split_slash s)) with
  | [] => "/"
  | p :: _ => p
  end.

(** [path.Ext]: from the last dot of the last element on. *)
Fixpoint ext_of (s : string) : option string :=
  match s with
  | EmptyString => None
  | String c s' =>
      match ext_of s' with
      | Some e => Some e
      | None => if bool_decide (c = "."%char) then Some s else None
      end
  end.
Definition path_Ext (path : string) : string :=
  default "" (ext_of (default "" (last (split_slash path)))).

Example path_examples :
  (path_Dir "OWNERS", path_Dir "a/b/OWNERS", path_Dir "a//../b/./OWNERS", path_Dir "/OWNERS",
   path_Base "a/b/OWNERS", path_Base "a//", path_Clean "../a/../..")
  = (".", "a/b", "b", "/", "OWNERS", "a", "../..").
Proof. vm_compute. reflexivity. Qed.

(** ** Base64 (encoding/base64) *)

Definition base64_std : string := "ABCDEFGHIJKLMNOPQRSTUVWXYZabcdefghijklmnopqrstuvwxyz0123456789+/".
Definition base64_url : string := "ABCDEFGHIJKLMNOPQRSTUVWXYZabcdefghijklmnopqrstuvwxyz0123456789-_".
Definition base64_char (alphabet : string) (n : Z) : string := string_take 1 (string_drop (Z.to_nat n) alphabet).

(** [EncodeToString], with the padding of each kind of a last group. *)
Fixpoint base64_encode (alphabet pad : string) (l : list Z) : string :=
  let c := base64_char alphabet in
  match l with
  | [] => ""
  | [a] => c (a / 4) +:+ c (a mod 4 * 16) +:+ pad +:+ pad
  | [a; b] => c (a / 4) +:+ c (a mod 4 * 16 + b / 16) +:+ c (b mod 16 * 4) +:+ pad
  | a :: b :: d :: l =>
      c (a / 4) +:+ c (a mod 4 * 16 + b / 16) +:+ c (b mod 16 * 4 + d / 64) +:+ c (d mod 64)
      +:+ base64_encode alphabet pad l
  end.
Definition StdEncoding_EncodeToString (l : list Z) : string := base64_encode base64_std "=" l.
Definition RawURLEncoding_EncodeToString (l : list Z) : string := base64_encode base64_url "" l.

(** RFC 4648, section 10 *)
Example base64_vectors :
  (λ s, StdEncoding_EncodeToString (bytes_of_string s)) <$> ["f"; "fo"; "foo"; "foob"; "foobar"]
  = ["Zg=="; "Zm8="; "Zm9v"; "Zm9vYg=="; "Zm9vYmFy"].
Proof. vm_compute. reflexivity. Qed.

(** * JSON values

    The values [encoding/json] encodes and PostgreSQL keeps in a JSONB column.
    Code that encodes a value and decodes it elsewhere is modelled on the value
    itself: the text in between is left out.  [json_get] is the operator [->]
    and [json_text] the operator [->>] on an object. *)

#[warnings="-register-all"]
Inductive json :=
| JNull
| JBool (b : bool)
| JNumber (n : Z)
| JString (s : string)
| JArray (l : list json)
| JObject (fields : list (string * json)).

(** The value of a key: of the last pair with this key, as [encoding/json] and
    JSONB decide. *)
Definition json_get (key : string) (v : json) : option json :=
  match v with
  | JObject fields => snd <$> last (filter (λ kv, kv.1 = key) fields)
  | _ => None
  end.

(** The text of a JSONB value is PostgreSQL's. *)
Class JsonbText := jsonb_text : json → string.

Definition json_text `{JsonbText} (key : string) (v : json) : option string :=
  match json_get key v with
  | None | Some JNull => None
  | Some (JString s) => Some s
  | Some v => Some (jsonb_text v)
  end.

(** The zero value of a string field the object lacks. *)
Definition json_string (key : string) (v : json) : string :=
  match json_get key v with Some (JString s) => s | _ => "" end.
