(* ===== verification/Hash.v ===== *)
(** * The commit hash chain (internal/hash/hash.go)

    [CommitHash] is the canonical hash of a commit: SHA-256 of a text made of
    the previous hash, the metadata of the commit and one line per file, the
    files sorted by path.  The server ([internal/db]) stores it and the client
    ([internal/cli]) recomputes it.

    Theorems: the hash does not depend on the order in which the files are
    given; on newline-free fields the hashed text determines every field, so
    equal hashes mean equal commits or a SHA-256 collision; and a newline in
    the author breaks that: two different commits share their hash. *)

From S2P Require Import Prelude GoStd.

#[local] Arguments String.append !_ _ / : simpl nomatch.

(** [const GenesisHash] *)
Definition GenesisHash : string :=
  "0000000000000000000000000000000000000000000000000000000000000000".

(** [type File struct] *)
Record File := mkFile { Path : string; ContentHash : string }.

(** The newline that ends each field. *)
Definition nl : string := String (Ascii.ascii_of_nat 10) EmptyString.

(** [strings.Compare(a.Path, b.Path) <= 0], the order given to [slices.SortFunc]. *)
Definition path_le (a b : File) : Prop := String.le (Path a) (Path b).
#[export] Instance path_le_dec : RelDecision path_le.
Proof. unfold path_le. intros a b. apply _. Defined.

Definition file_line (f : File) : string := Path f +:+ ":" +:+ ContentHash f +:+ nl.

(** The bytes written to the hash, in the order of the [h.Write] calls. *)
Definition commit_preimage (prevHash : string) (seq : Z)
    (repo branch author message : string) (createdAt : Z) (files : list File) : string :=
  let sorted := merge_sort path_le files in
  prevHash +:+ nl
  +:+ FormatInt seq +:+ nl
  +:+ repo +:+ nl
  +:+ branch +:+ nl
  +:+ author +:+ nl
  +:+ message +:+ nl
  +:+ rfc3339nano createdAt +:+ nl
  +:+ foldr (λ f acc, file_line f +:+ acc) EmptyString sorted.

(** [func CommitHash] *)
Definition CommitHash (prevHash : string) (seq : Z)
    (repo branch author message : string) (createdAt : Z) (files : list File) : string :=
  sha256_hex (commit_preimage prevHash seq repo branch author message createdAt files).

#[global] Arguments CommitHash : simpl never.

(** ** Order of the files *)

Lemma path_le_sorted files : StronglySorted path_le (merge_sort path_le files).
Proof.
  assert (Transitive path_le) by (intros a b c; unfold path_le; apply transitivity).
  assert (Total path_le) by (intros a b; unfold path_le; apply (total String.le)).
  apply Sorted_StronglySorted; [done|]. apply (Sorted_merge_sort path_le).
Qed.

(** Lists of files with distinct paths sort to the same list when they hold
    the same files. *)
Lemma sort_files_perm (l k : list File) :
  NoDup (Path <$> l) → l ≡ₚ k → merge_sort path_le l = merge_sort path_le k.
Proof.
  intros HN HP.
  apply (StronglySorted_unique_strong path_le); auto using path_le_sorted.
  - intros x y Hx Hy Hxy Hyx.
    apply order_by_elem in Hx, Hy. rewrite <- HP in Hy.
    eapply (NoDup_fmap_inj Path); eauto. by apply (anti_symm String.le).
  - by rewrite !merge_sort_Permutation.
Qed.

(** ** Fields of the hashed text *)

Fixpoint has_char (c : Ascii.ascii) (s : string) : bool :=
  match s with
  | EmptyString => false
  | String d s => bool_decide (d = c) || has_char c s
  end.

Abbreviation newline := (Ascii.ascii_of_nat 10).
Abbreviation colon := (Ascii.ascii_of_nat 58).

Lemma has_char_app c s t : has_char c (s +:+ t) = has_char c s || has_char c t.
Proof. induction s as [|d s IH]; simpl; [done|]. by rewrite IH, orb_assoc. Qed.

Lemma split_field c s1 s2 r1 r2 :
  has_char c s1 = false → has_char c s2 = false →
  s1 +:+ String c r1 = s2 +:+ String c r2 → s1 = s2 ∧ r1 = r2.
Proof.
  revert s2. induction s1 as [|d1 s1 IH]; intros [|d2 s2]; simpl; intros H1 H2 E.
  - by inversion E.
  - inversion E; subst. by rewrite bool_decide_true in H2.
  - inversion E; subst. by rewrite bool_decide_true in H1.
  - apply orb_false_iff in H1 as [_ H1], H2 as [_ H2]. inversion E; subst.
    by destruct (IH s2 H1 H2) as [-> ->].
Qed.

(** The last colon of a line separates the path from the content hash. *)
Lemma split_last_field c s1 s2 r1 r2 :
  has_char c r1 = false → has_char c r2 = false →
  s1 +:+ String c r1 = s2 +:+ String c r2 → s1 = s2 ∧ r1 = r2.
Proof.
  intros H1 H2. revert s2. induction s1 as [|d1 s1 IH]; intros [|d2 s2]; simpl; intros E.
  - by inversion E.
  - inversion E; subst. rewrite has_char_app in H1; simpl in H1.
    rewrite bool_decide_true in H1 by done. by destruct (has_char _ s2).
  - inversion E; subst. rewrite has_char_app in H2; simpl in H2.
    rewrite bool_decide_true in H2 by done. by destruct (has_char _ s1).
  - inversion E; subst. by destruct (IH s2) as [-> ->].
Qed.

(** Digits, and the other characters of a formatted number or time, are not
    newlines. *)
Lemma pretty_N_go_no_newline x s :
  has_char newline s = false → has_char newline (pretty_N_go x s) = false.
Proof.
  revert s. induction (N.lt_wf_0 x) as [x _ IH]; intros s Hs.
  assert (x = 0 ∨ 0 < x)%N as [->|Hx] by lia; [done|].
  rewrite pretty_N_go_step by done. apply IH; [by apply N.div_lt|].
  cbn. rewrite Hs, orb_false_r.
  apply bool_decide_eq_false. unfold pretty_N_char. by repeat case_match.
Qed.

Lemma FormatInt_no_newline n : has_char newline (FormatInt n) = false.
Proof.
  unfold FormatInt, pretty, pretty_Z, pretty_positive, pretty, pretty_N.
  destruct n as [|p|p]; cbn -[pretty_N_go]; [done|..];
    (case_decide; [done|]); by apply pretty_N_go_no_newline.
Qed.

Lemma FormatInt_inj n m : FormatInt n = FormatInt m → n = m.
Proof. apply (inj pretty). Qed.

Lemma pad_digits_no_newline k v : has_char newline (pad_digits k v) = false.
Proof.
  revert v. induction k as [|k IH]; intros v; [done|].
  cbn -[Z.modulo Z.add]. rewrite has_char_app, IH. cbn -[Z.modulo Z.add].
  rewrite orb_false_r. apply bool_decide_eq_false.
  pose proof (Z.mod_pos_bound v 10 ltac:(lia)) as Hb.
  set (m := v mod 10) in *. clearbody m.
  assert (m = 0 ∨ m = 1 ∨ m = 2 ∨ m = 3 ∨ m = 4 ∨ m = 5 ∨ m = 6 ∨ m = 7 ∨ m = 8 ∨ m = 9)
    as Hm by lia.
  by repeat destruct Hm as [->|Hm]; subst.
Qed.

Lemma trim_fraction_no_newline k v : has_char newline (trim_fraction k v) = false.
Proof.
  revert v. induction k as [|k IH]; intros v; [done|].
  cbn [trim_fraction]. case_match; [apply IH|].
  rewrite has_char_app, pad_digits_no_newline. done.
Qed.

Lemma rfc3339nano_no_newline t : has_char newline (rfc3339nano t) = false.
Proof.
  unfold rfc3339nano. destruct (civil_of_days _) as [[y m] d].
  rewrite !has_char_app, !pad_digits_no_newline, trim_fraction_no_newline. done.
Qed.

(** A file whose line can be read back: no newline in it, and no colon in the
    content hash, which the store writes in hexadecimal or leaves empty. *)
Definition line_ok (f : File) : Prop :=
  has_char newline (Path f) = false ∧ has_char newline (ContentHash f) = false ∧
  has_char colon (ContentHash f) = false.

Lemma file_line_split f g r1 r2 :
  line_ok f → line_ok g →
  file_line f +:+ r1 = file_line g +:+ r2 → f = g ∧ r1 = r2.
Proof.
  destruct f as [p1 h1], g as [p2 h2].
  intros (Hp1 & Hh1 & Hc1) (Hp2 & Hh2 & Hc2) E; cbn [Path ContentHash] in *.
  assert (∀ p h r, file_line (mkFile p h) +:+ r
    = (p +:+ String colon h) +:+ String newline r) as Hline.
  { intros p h r. unfold file_line, nl. by rewrite !string_app_assoc. }
  assert (∀ p h, has_char newline p = false → has_char newline h = false →
    has_char newline (p +:+ String colon h) = false) as Hnl.
  { intros p h Hp Hh. rewrite has_char_app, Hp. simpl. by rewrite Hh. }
  rewrite !Hline in E. apply split_field in E as [E ->]; [|auto..].
  by apply split_last_field in E as [-> ->].
Qed.

Lemma file_lines_inj (l k : list File) :
  Forall line_ok l → Forall line_ok k →
  foldr (λ f acc, file_line f +:+ acc) EmptyString l
    = foldr (λ f acc, file_line f +:+ acc) EmptyString k → l = k.
Proof.
  assert (∀ f r, file_line f +:+ r ≠ "") as Hne.
  { intros [p h] r. unfold file_line; cbn [Path]. by destruct p. }
  intros Hl. revert k. induction Hl as [|f l Hf Hl IH]; intros k [|g k' Hg Hk]; simpl; intros E.
  - done.
  - by destruct (Hne g (foldr (λ f acc, file_line f +:+ acc) EmptyString k')).
  - by destruct (Hne f (foldr (λ f acc, file_line f +:+ acc) EmptyString l)).
  - apply file_line_split in E as [-> E]; [|done..]. f_equal. auto.
Qed.

(** The arguments of [CommitHash], as one value. *)
Record commit_input := mkInput {
  in_prev : string; in_seq : Z; in_repo : string; in_branch : string;
  in_author : string; in_message : string; in_created : Z; in_files : list File;
}.

Definition input_hash (i : commit_input) : string :=
  CommitHash (in_prev i) (in_seq i) (in_repo i) (in_branch i) (in_author i)
    (in_message i) (in_created i) (in_files i).

Definition input_preimage (i : commit_input) : string :=
  commit_preimage (in_prev i) (in_seq i) (in_repo i) (in_branch i) (in_author i)
    (in_message i) (in_created i) (in_files i).

(** No field holds the newline that separates fields. *)
Definition input_ok (i : commit_input) : Prop :=
  has_char newline (in_prev i) = false ∧ has_char newline (in_repo i) = false ∧
  has_char newline (in_branch i) = false ∧ has_char newline (in_author i) = false ∧
  has_char newline (in_message i) = false ∧ Forall line_ok (in_files i).

(** Two inputs describe the same commit: the same fields, the same printed
    time, the same files in some order. *)
Definition same_commit (i j : commit_input) : Prop :=
  in_prev i = in_prev j ∧ in_seq i = in_seq j ∧ in_repo i = in_repo j ∧
  in_branch i = in_branch j ∧ in_author i = in_author j ∧
  in_message i = in_message j ∧
  rfc3339nano (in_created i) = rfc3339nano (in_created j) ∧
  in_files i ≡ₚ in_files j.

Ltac split_hash_field E :=
  apply split_field in E as [? E];
  [|auto using FormatInt_no_newline, rfc3339nano_no_newline..].

Lemma input_preimage_inj i j :
  input_ok i → input_ok j → input_preimage i = input_preimage j → same_commit i j.
Proof.
  destruct i as [p1 s1 r1 b1 a1 m1 t1 f1], j as [p2 s2 r2 b2 a2 m2 t2 f2].
  intros (? & ? & ? & ? & ? & Hf1) (? & ? & ? & ? & ? & Hf2) E.
  unfold input_preimage, commit_preimage in E.
  cbn [in_prev in_seq in_repo in_branch in_author in_message in_created in_files] in *.
  assert (∀ r, nl +:+ r = String newline r) as Hnl by done.
  rewrite !Hnl in E. do 7 split_hash_field E.
  apply file_lines_inj in E; [|by rewrite merge_sort_Permutation..].
  unfold same_commit; cbn [in_prev in_seq in_repo in_branch in_author in_message in_created in_files].
  split_and!; auto using FormatInt_inj.
  rewrite <- (merge_sort_Permutation path_le f1), <- (merge_sort_Permutation path_le f2).
  by rewrite E.
Qed.

(** ** Properties *)

(** The hash of a commit does not depend on the order in which its files
    are given, when no path is given twice. *)
Theorem CommitHash_file_order prevHash seq repo branch author message createdAt files files' :
  NoDup (Path <$> files) → files ≡ₚ files' →
  CommitHash prevHash seq repo branch author message createdAt files
    = CommitHash prevHash seq repo branch author message createdAt files'.
Proof.
  intros HN HP. unfold CommitHash, commit_preimage. by rewrite (sort_files_perm files files').
Qed.

Lemma CommitHash_file_order_witness :
  CommitHash GenesisHash 1 "o/r" "main" "a" "m" 0 [mkFile "b" ""; mkFile "a" ""]
    = CommitHash GenesisHash 1 "o/r" "main" "a" "m" 0 [mkFile "a" ""; mkFile "b" ""].
Proof.
  apply CommitHash_file_order.
  - apply (bool_decide_unpack _). vm_compute. exact I.
  - constructor.
Defined.

(** C7: the hash binds the commit: on fields without newlines, two commits
    with the same hash are the same commit (same chain position, metadata and
    files), or the texts hashed for them are two different texts with one
    SHA-256 digest. *)
Theorem CommitHash_binding i j :
  input_ok i → input_ok j → input_hash i = input_hash j →
  same_commit i j ∨
  input_preimage i ≠ input_preimage j ∧
  sha256_hex (input_preimage i) = sha256_hex (input_preimage j).
Proof.
  intros Hi Hj E.
  destruct (decide (input_preimage i = input_preimage j)) as [Ep|Np].
  - left. by apply input_preimage_inj.
  - by right.
Qed.

(** The instant of [t] with the files [l]. *)
Definition sample_input (l : list File) : commit_input :=
  mkInput GenesisHash 7 "o/r" "main" "alice" "msg" 1700000000000000000 l.

Lemma CommitHash_binding_witness :
  let i := sample_input [mkFile "b" "00"; mkFile "a" "ff"] in
  let j := sample_input [mkFile "a" "ff"; mkFile "b" "00"] in
  same_commit i j.
Proof.
  destruct (CommitHash_binding (sample_input [mkFile "b" "00"; mkFile "a" "ff"])
    (sample_input [mkFile "a" "ff"; mkFile "b" "00"])) as [Hs|[Hne _]];
    [split_and!; [reflexivity..|]; repeat constructor|split_and!; [reflexivity..|]; repeat constructor|
     vm_compute; reflexivity|exact Hs|].
  exfalso. apply Hne. vm_compute. reflexivity.
Defined.

(** Without the condition on newlines the hash does not bind the commit:
    text moves freely between the end of the author and the start of the
    message, across the newline that separates them. *)
Theorem CommitHash_newline_shift prevHash seq repo branch a m1 m2 createdAt files :
  CommitHash prevHash seq repo branch a (m1 +:+ nl +:+ m2) createdAt files
    = CommitHash prevHash seq repo branch (a +:+ nl +:+ m1) m2 createdAt files.
Proof.
  unfold CommitHash, commit_preimage. by rewrite !string_app_assoc.
Qed.
