(* ===== verification/Schema.v ===== *)
(** * The database schema (internal/db/migrations/*.up.sql)

    The rows of the tables as records, the tables of a database as one record
    [DB] of lists of rows, and the constraints the migrations declare:
    CHECK, PRIMARY KEY / UNIQUE and FOREIGN KEY.  A list of rows is the table
    in some physical order; no definition relies on that order where the
    program's SQL has an ORDER BY, and every theorem holds for any order.

    [table_ok] says that the rows of a table satisfy its constraints, and
    [wf_db] that all tables do. *)

From S2P Require Import Prelude GoStd.

(** ** Enumerated types *)
Inductive branch_status := Active | Merged | Abandoned.
Inductive role_type := Reader | Writer | Maintainer | Admin.
Inductive review_status := Approved | Rejected | Dismissed.
Inductive check_status := CheckPending | CheckPassed | CheckFailed.
Inductive org_role := Owner | Member.
Inductive ci_job_status := Queued | Claimed | Passed | Failed.
Inductive proposal_state := ProposalOpen | ProposalClosed | ProposalMerged.
Inductive issue_state := IssueOpen | IssueClosed.
Inductive issue_close_reason := Completed | NotPlanned | Duplicate.
Inductive issue_ref_type := RefProposal | RefCommit.

#[export] Instance branch_status_eq_dec : EqDecision branch_status.
Proof. solve_decision. Defined.
#[export] Instance role_type_eq_dec : EqDecision role_type.
Proof. solve_decision. Defined.
#[export] Instance review_status_eq_dec : EqDecision review_status.
Proof. solve_decision. Defined.
#[export] Instance check_status_eq_dec : EqDecision check_status.
Proof. solve_decision. Defined.
#[export] Instance org_role_eq_dec : EqDecision org_role.
Proof. solve_decision. Defined.
#[export] Instance ci_job_status_eq_dec : EqDecision ci_job_status.
Proof. solve_decision. Defined.
#[export] Instance proposal_state_eq_dec : EqDecision proposal_state.
Proof. solve_decision. Defined.
#[export] Instance issue_state_eq_dec : EqDecision issue_state.
Proof. solve_decision. Defined.
#[export] Instance issue_close_reason_eq_dec : EqDecision issue_close_reason.
Proof. solve_decision. Defined.
#[export] Instance issue_ref_type_eq_dec : EqDecision issue_ref_type.
Proof. solve_decision. Defined.

(** ** Rows *)

Record org := mkOrg {
  org_name : string; org_created_at : Z; org_created_by : string
}.

Record repo := mkRepo {
  repo_name : string; repo_owner : string; repo_created_at : Z; repo_created_by : string
}.

Record document := mkDocument {
  doc_version_id : string; doc_path : string; doc_content : option string;
  doc_content_hash : string; doc_content_type : option string; doc_created_at : Z;
  doc_created_by : string; doc_repo : string; doc_blob_key : option string
}.

Record branch := mkBranch {
  br_repo : string; br_name : string; br_head_sequence : Z; br_base_sequence : Z;
  br_status : branch_status; br_created_at : Z; br_created_by : string; br_draft : bool;
  br_auto_merge : bool
}.

Record commit := mkCommit {
  c_sequence : Z; c_branch : string; c_message : string; c_author : string;
  c_created_at : Z; c_repo : string; c_commit_hash : option string
}.

Record file_commit := mkFileCommit {
  fc_commit_id : string; fc_sequence : Z; fc_path : string; fc_version_id : option string;
  fc_branch : string; fc_repo : string
}.

Record role_row := mkRoleRow {
  ro_repo : string; ro_identity : string; ro_role : role_type
}.

Record review := mkReview {
  rv_id : string; rv_repo : string; rv_branch : string; rv_reviewer : string;
  rv_sequence : Z; rv_status : review_status; rv_body : option string; rv_created_at : Z
}.

Record check_run := mkCheckRun {
  cr_id : string; cr_repo : string; cr_branch : string; cr_sequence : Z;
  cr_check_name : string; cr_status : check_status; cr_reporter : string;
  cr_log_url : option string; cr_created_at : Z; cr_attempt : Z; cr_metadata : option string
}.

Record subscription := mkSubscription {
  sub_id : string; sub_repo : option string; sub_event_types : option (list string);
  sub_backend : string; sub_config : json; sub_created_at : Z; sub_created_by : string;
  sub_suspended_at : option Z; sub_failure_count : Z
}.

Record outbox := mkOutbox {
  ob_id : string; ob_event : json; ob_subscription_id : option string; ob_created_at : Z;
  ob_attempts : Z; ob_next_attempt : Z; ob_delivered_at : option Z;
  ob_last_error : option string
}.

Record org_member := mkOrgMember {
  om_org : string; om_identity : string; om_role : org_role; om_invited_by : string;
  om_created_at : Z
}.

Record org_invite := mkOrgInvite {
  inv_id : string; inv_org : string; inv_email : string; inv_role : org_role;
  inv_invited_by : string; inv_token : string; inv_expires_at : Z;
  inv_accepted_at : option Z; inv_created_at : Z
}.

Record release := mkRelease {
  rel_id : string; rel_repo : string; rel_name : string; rel_sequence : Z;
  rel_body : option string; rel_created_by : string; rel_created_at : Z
}.

Record review_comment := mkReviewComment {
  rc_id : string; rc_review_id : option string; rc_repo : string; rc_branch : string;
  rc_path : string; rc_version_id : string; rc_body : string; rc_author : string;
  rc_sequence : Z; rc_created_at : Z
}.

Record ci_job := mkCiJob {
  j_id : string; j_repo : string; j_branch : string; j_sequence : Z;
  j_status : ci_job_status; j_claimed_at : option Z; j_last_heartbeat_at : option Z;
  j_worker_pod : option string; j_worker_pod_ip : option string; j_log_url : option string;
  j_error_message : option string; j_created_at : Z; j_trigger_type : option string;
  j_trigger_branch : option string; j_trigger_base_branch : option string;
  j_trigger_proposal_id : option string; j_request_token : option string;
  j_request_token_exp : option Z; j_permissions : list string
}.

Record proposal := mkProposal {
  p_id : string; p_repo : string; p_branch : string; p_base_branch : string;
  p_title : string; p_description : option string; p_author : string;
  p_state : proposal_state; p_created_at : Z; p_updated_at : Z
}.

Record issue := mkIssue {
  iss_id : string; iss_repo : string; iss_number : Z; iss_title : string;
  iss_body : option string; iss_author : string; iss_state : issue_state;
  iss_close_reason : option issue_close_reason; iss_closed_by : option string;
  iss_labels : list string; iss_closed_at : option Z; iss_created_at : Z; iss_updated_at : Z
}.

Record issue_comment := mkIssueComment {
  ic_id : string; ic_issue_id : string; ic_repo : string; ic_body : string;
  ic_author : string; ic_created_at : Z; ic_edited_at : option Z
}.

Record issue_ref := mkIssueRef {
  ir_id : string; ir_issue_id : string; ir_repo : string; ir_ref_type : issue_ref_type;
  ir_ref_id : string; ir_created_at : Z
}.

Record logged_event := mkLoggedEvent {
  ev_seq : Z; ev_repo : string; ev_type : string; ev_payload : json; ev_created_at : Z
}.

Record oidc_token := mkOidcToken {
  tok_jti : string; tok_job_id : string; tok_audience : string; tok_issued_at : Z;
  tok_expires_at : Z
}.

Record repo_secret := mkRepoSecret {
  sec_id : string; sec_repo : string; sec_name : string; sec_description : string;
  sec_ciphertext : string; sec_nonce : string; sec_encrypted_dek : string;
  sec_kms_key_name : string; sec_size_bytes : Z; sec_created_by : string;
  sec_created_at : Z; sec_updated_by : option string; sec_updated_at : option Z;
  sec_last_used_at : option Z
}.

(** ** The database: one list of rows per table *)

Record DB := mkDB {
  db_orgs : list org;
  db_repos : list repo;
  db_documents : list document;
  db_branches : list branch;
  db_commits : list commit;
  db_file_commits : list file_commit;
  db_roles : list role_row;
  db_reviews : list review;
  db_check_runs : list check_run;
  db_event_subscriptions : list subscription;
  db_event_outbox : list outbox;
  db_org_members : list org_member;
  db_org_invites : list org_invite;
  db_releases : list release;
  db_review_comments : list review_comment;
  db_ci_jobs : list ci_job;
  db_proposals : list proposal;
  db_issues : list issue;
  db_issue_comments : list issue_comment;
  db_issue_refs : list issue_ref;
  db_event_log : list logged_event;
  db_ci_oidc_tokens : list oidc_token;
  db_repo_secrets : list repo_secret;
}.

Definition set_orgs (rows : list org) (d : DB) : DB :=
  mkDB rows (db_repos d) (db_documents d) (db_branches d) (db_commits d)
      (db_file_commits d) (db_roles d) (db_reviews d) (db_check_runs d)
      (db_event_subscriptions d) (db_event_outbox d) (db_org_members d) (db_org_invites d)
      (db_releases d) (db_review_comments d) (db_ci_jobs d) (db_proposals d) (db_issues d)
      (db_issue_comments d) (db_issue_refs d) (db_event_log d) (db_ci_oidc_tokens d)
      (db_repo_secrets d).
Definition set_repos (rows : list repo) (d : DB) : DB :=
  mkDB (db_orgs d) rows (db_documents d) (db_branches d) (db_commits d)
      (db_file_commits d) (db_roles d) (db_reviews d) (db_check_runs d)
      (db_event_subscriptions d) (db_event_outbox d) (db_org_members d) (db_org_invites d)
      (db_releases d) (db_review_comments d) (db_ci_jobs d) (db_proposals d) (db_issues d)
      (db_issue_comments d) (db_issue_refs d) (db_event_log d) (db_ci_oidc_tokens d)
      (db_repo_secrets d).
Definition set_documents (rows : list document) (d : DB) : DB :=
  mkDB (db_orgs d) (db_repos d) rows (db_branches d) (db_commits d) (db_file_commits d)
      (db_roles d) (db_reviews d) (db_check_runs d) (db_event_subscriptions d)
      (db_event_outbox d) (db_org_members d) (db_org_invites d) (db_releases d)
      (db_review_comments d) (db_ci_jobs d) (db_proposals d) (db_issues d)
      (db_issue_comments d) (db_issue_refs d) (db_event_log d) (db_ci_oidc_tokens d)
      (db_repo_secrets d).
Definition set_branches (rows : list branch) (d : DB) : DB :=
  mkDB (db_orgs d) (db_repos d) (db_documents d) rows (db_commits d) (db_file_commits d)
      (db_roles d) (db_reviews d) (db_check_runs d) (db_event_subscriptions d)
      (db_event_outbox d) (db_org_members d) (db_org_invites d) (db_releases d)
      (db_review_comments d) (db_ci_jobs d) (db_proposals d) (db_issues d)
      (db_issue_comments d) (db_issue_refs d) (db_event_log d) (db_ci_oidc_tokens d)
      (db_repo_secrets d).
Definition set_commits (rows : list commit) (d : DB) : DB :=
  mkDB (db_orgs d) (db_repos d) (db_documents d) (db_branches d) rows (db_file_commits d)
      (db_roles d) (db_reviews d) (db_check_runs d) (db_event_subscriptions d)
      (db_event_outbox d) (db_org_members d) (db_org_invites d) (db_releases d)
      (db_review_comments d) (db_ci_jobs d) (db_proposals d) (db_issues d)
      (db_issue_comments d) (db_issue_refs d) (db_event_log d) (db_ci_oidc_tokens d)
      (db_repo_secrets d).
Definition set_file_commits (rows : list file_commit) (d : DB) : DB :=
  mkDB (db_orgs d) (db_repos d) (db_documents d) (db_branches d) (db_commits d) rows
      (db_roles d) (db_reviews d) (db_check_runs d) (db_event_subscriptions d)
      (db_event_outbox d) (db_org_members d) (db_org_invites d) (db_releases d)
      (db_review_comments d) (db_ci_jobs d) (db_proposals d) (db_issues d)
      (db_issue_comments d) (db_issue_refs d) (db_event_log d) (db_ci_oidc_tokens d)
      (db_repo_secrets d).
Definition set_roles (rows : list role_row) (d : DB) : DB :=
  mkDB (db_orgs d) (db_repos d) (db_documents d) (db_branches d) (db_commits d)
      (db_file_commits d) rows (db_reviews d) (db_check_runs d) (db_event_subscriptions d)
      (db_event_outbox d) (db_org_members d) (db_org_invites d) (db_releases d)
      (db_review_comments d) (db_ci_jobs d) (db_proposals d) (db_issues d)
      (db_issue_comments d) (db_issue_refs d) (db_event_log d) (db_ci_oidc_tokens d)
      (db_repo_secrets d).
Definition set_reviews (rows : list review) (d : DB) : DB :=
  mkDB (db_orgs d) (db_repos d) (db_documents d) (db_branches d) (db_commits d)
      (db_file_commits d) (db_roles d) rows (db_check_runs d) (db_event_subscriptions d)
      (db_event_outbox d) (db_org_members d) (db_org_invites d) (db_releases d)
      (db_review_comments d) (db_ci_jobs d) (db_proposals d) (db_issues d)
      (db_issue_comments d) (db_issue_refs d) (db_event_log d) (db_ci_oidc_tokens d)
      (db_repo_secrets d).
Definition set_check_runs (rows : list check_run) (d : DB) : DB :=
  mkDB (db_orgs d) (db_repos d) (db_documents d) (db_branches d) (db_commits d)
      (db_file_commits d) (db_roles d) (db_reviews d) rows (db_event_subscriptions d)
      (db_event_outbox d) (db_org_members d) (db_org_invites d) (db_releases d)
      (db_review_comments d) (db_ci_jobs d) (db_proposals d) (db_issues d)
      (db_issue_comments d) (db_issue_refs d) (db_event_log d) (db_ci_oidc_tokens d)
      (db_repo_secrets d).
Definition set_event_subscriptions (rows : list subscription) (d : DB) : DB :=
  mkDB (db_orgs d) (db_repos d) (db_documents d) (db_branches d) (db_commits d)
      (db_file_commits d) (db_roles d) (db_reviews d) (db_check_runs d) rows
      (db_event_outbox d) (db_org_members d) (db_org_invites d) (db_releases d)
      (db_review_comments d) (db_ci_jobs d) (db_proposals d) (db_issues d)
      (db_issue_comments d) (db_issue_refs d) (db_event_log d) (db_ci_oidc_tokens d)
      (db_repo_secrets d).
Definition set_event_outbox (rows : list outbox) (d : DB) : DB :=
  mkDB (db_orgs d) (db_repos d) (db_documents d) (db_branches d) (db_commits d)
      (db_file_commits d) (db_roles d) (db_reviews d) (db_check_runs d)
      (db_event_subscriptions d) rows (db_org_members d) (db_org_invites d) (db_releases d)
      (db_review_comments d) (db_ci_jobs d) (db_proposals d) (db_issues d)
      (db_issue_comments d) (db_issue_refs d) (db_event_log d) (db_ci_oidc_tokens d)
      (db_repo_secrets d).
Definition set_org_members (rows : list org_member) (d : DB) : DB :=
  mkDB (db_orgs d) (db_repos d) (db_documents d) (db_branches d) (db_commits d)
      (db_file_commits d) (db_roles d) (db_reviews d) (db_check_runs d)
      (db_event_subscriptions d) (db_event_outbox d) rows (db_org_invites d) (db_releases d)
      (db_review_comments d) (db_ci_jobs d) (db_proposals d) (db_issues d)
      (db_issue_comments d) (db_issue_refs d) (db_event_log d) (db_ci_oidc_tokens d)
      (db_repo_secrets d).
Definition set_org_invites (rows : list org_invite) (d : DB) : DB :=
  mkDB (db_orgs d) (db_repos d) (db_documents d) (db_branches d) (db_commits d)
      (db_file_commits d) (db_roles d) (db_reviews d) (db_check_runs d)
      (db_event_subscriptions d) (db_event_outbox d) (db_org_members d) rows (db_releases d)
      (db_review_comments d) (db_ci_jobs d) (db_proposals d) (db_issues d)
      (db_issue_comments d) (db_issue_refs d) (db_event_log d) (db_ci_oidc_tokens d)
      (db_repo_secrets d).
Definition set_releases (rows : list release) (d : DB) : DB :=
  mkDB (db_orgs d) (db_repos d) (db_documents d) (db_branches d) (db_commits d)
      (db_file_commits d) (db_roles d) (db_reviews d) (db_check_runs d)
      (db_event_subscriptions d) (db_event_outbox d) (db_org_members d) (db_org_invites d)
      rows (db_review_comments d) (db_ci_jobs d) (db_proposals d) (db_issues d)
      (db_issue_comments d) (db_issue_refs d) (db_event_log d) (db_ci_oidc_tokens d)
      (db_repo_secrets d).
Definition set_review_comments (rows : list review_comment) (d : DB) : DB :=
  mkDB (db_orgs d) (db_repos d) (db_documents d) (db_branches d) (db_commits d)
      (db_file_commits d) (db_roles d) (db_reviews d) (db_check_runs d)
      (db_event_subscriptions d) (db_event_outbox d) (db_org_members d) (db_org_invites d)
      (db_releases d) rows (db_ci_jobs d) (db_proposals d) (db_issues d)
      (db_issue_comments d) (db_issue_refs d) (db_event_log d) (db_ci_oidc_tokens d)
      (db_repo_secrets d).
Definition set_ci_jobs (rows : list ci_job) (d : DB) : DB :=
  mkDB (db_orgs d) (db_repos d) (db_documents d) (db_branches d) (db_commits d)
      (db_file_commits d) (db_roles d) (db_reviews d) (db_check_runs d)
      (db_event_subscriptions d) (db_event_outbox d) (db_org_members d) (db_org_invites d)
      (db_releases d) (db_review_comments d) rows (db_proposals d) (db_issues d)
      (db_issue_comments d) (db_issue_refs d) (db_event_log d) (db_ci_oidc_tokens d)
      (db_repo_secrets d).
Definition set_proposals (rows : list proposal) (d : DB) : DB :=
  mkDB (db_orgs d) (db_repos d) (db_documents d) (db_branches d) (db_commits d)
      (db_file_commits d) (db_roles d) (db_reviews d) (db_check_runs d)
      (db_event_subscriptions d) (db_event_outbox d) (db_org_members d) (db_org_invites d)
      (db_releases d) (db_review_comments d) (db_ci_jobs d) rows (db_issues d)
      (db_issue_comments d) (db_issue_refs d) (db_event_log d) (db_ci_oidc_tokens d)
      (db_repo_secrets d).
Definition set_issues (rows : list issue) (d : DB) : DB :=
  mkDB (db_orgs d) (db_repos d) (db_documents d) (db_branches d) (db_commits d)
      (db_file_commits d) (db_roles d) (db_reviews d) (db_check_runs d)
      (db_event_subscriptions d) (db_event_outbox d) (db_org_members d) (db_org_invites d)
      (db_releases d) (db_review_comments d) (db_ci_jobs d) (db_proposals d) rows
      (db_issue_comments d) (db_issue_refs d) (db_event_log d) (db_ci_oidc_tokens d)
      (db_repo_secrets d).
Definition set_issue_comments (rows : list issue_comment) (d : DB) : DB :=
  mkDB (db_orgs d) (db_repos d) (db_documents d) (db_branches d) (db_commits d)
      (db_file_commits d) (db_roles d) (db_reviews d) (db_check_runs d)
      (db_event_subscriptions d) (db_event_outbox d) (db_org_members d) (db_org_invites d)
      (db_releases d) (db_review_comments d) (db_ci_jobs d) (db_proposals d) (db_issues d)
      rows (db_issue_refs d) (db_event_log d) (db_ci_oidc_tokens d) (db_repo_secrets d).
Definition set_issue_refs (rows : list issue_ref) (d : DB) : DB :=
  mkDB (db_orgs d) (db_repos d) (db_documents d) (db_branches d) (db_commits d)
      (db_file_commits d) (db_roles d) (db_reviews d) (db_check_runs d)
      (db_event_subscriptions d) (db_event_outbox d) (db_org_members d) (db_org_invites d)
      (db_releases d) (db_review_comments d) (db_ci_jobs d) (db_proposals d) (db_issues d)
      (db_issue_comments d) rows (db_event_log d) (db_ci_oidc_tokens d) (db_repo_secrets d).
Definition set_event_log (rows : list logged_event) (d : DB) : DB :=
  mkDB (db_orgs d) (db_repos d) (db_documents d) (db_branches d) (db_commits d)
      (db_file_commits d) (db_roles d) (db_reviews d) (db_check_runs d)
      (db_event_subscriptions d) (db_event_outbox d) (db_org_members d) (db_org_invites d)
      (db_releases d) (db_review_comments d) (db_ci_jobs d) (db_proposals d) (db_issues d)
      (db_issue_comments d) (db_issue_refs d) rows (db_ci_oidc_tokens d) (db_repo_secrets d).
Definition set_ci_oidc_tokens (rows : list oidc_token) (d : DB) : DB :=
  mkDB (db_orgs d) (db_repos d) (db_documents d) (db_branches d) (db_commits d)
      (db_file_commits d) (db_roles d) (db_reviews d) (db_check_runs d)
      (db_event_subscriptions d) (db_event_outbox d) (db_org_members d) (db_org_invites d)
      (db_releases d) (db_review_comments d) (db_ci_jobs d) (db_proposals d) (db_issues d)
      (db_issue_comments d) (db_issue_refs d) (db_event_log d) rows (db_repo_secrets d).
Definition set_repo_secrets (rows : list repo_secret) (d : DB) : DB :=
  mkDB (db_orgs d) (db_repos d) (db_documents d) (db_branches d) (db_commits d)
      (db_file_commits d) (db_roles d) (db_reviews d) (db_check_runs d)
      (db_event_subscriptions d) (db_event_outbox d) (db_org_members d) (db_org_invites d)
      (db_releases d) (db_review_comments d) (db_ci_jobs d) (db_proposals d) (db_issues d)
      (db_issue_comments d) (db_issue_refs d) (db_event_log d) (db_ci_oidc_tokens d) rows.

(** ** Referenced keys

    What a FOREIGN KEY asks of the referenced table. *)
Definition br_key (b : branch) : string * string := (br_repo b, br_name b).

Definition has_org (d : DB) (n : string) : Prop := n ∈ org_name <$> db_orgs d.
Definition has_repo (d : DB) (n : string) : Prop := n ∈ repo_name <$> db_repos d.
Definition has_branch (d : DB) (r n : string) : Prop := (r, n) ∈ br_key <$> db_branches d.
Definition has_document (d : DB) (v : string) : Prop := v ∈ doc_version_id <$> db_documents d.
Definition has_commit (d : DB) (s : Z) : Prop := s ∈ c_sequence <$> db_commits d.
Definition has_review (d : DB) (i : string) : Prop := i ∈ rv_id <$> db_reviews d.
Definition has_subscription (d : DB) (i : string) : Prop :=
  i ∈ sub_id <$> db_event_subscriptions d.
Definition has_issue (d : DB) (i : string) : Prop := i ∈ iss_id <$> db_issues d.
Definition has_job (d : DB) (i : string) : Prop := i ∈ j_id <$> db_ci_jobs d.

(** A nullable reference. *)
Definition opt_ref {A} (P : A → Prop) (o : option A) : Prop :=
  match o with Some a => P a | None => True end.
#[export] Instance opt_ref_dec {A} (P : A → Prop) `{!∀ a, Decision (P a)} o :
  Decision (opt_ref P o).
Proof. destruct o; cbn; apply _. Defined.

#[export] Instance has_org_dec d n : Decision (has_org d n).
Proof. unfold has_org. apply _. Defined.
#[export] Instance has_repo_dec d n : Decision (has_repo d n).
Proof. unfold has_repo. apply _. Defined.
#[export] Instance has_branch_dec d r n : Decision (has_branch d r n).
Proof. unfold has_branch. apply _. Defined.
#[export] Instance has_document_dec d v : Decision (has_document d v).
Proof. unfold has_document. apply _. Defined.
#[export] Instance has_commit_dec d s : Decision (has_commit d s).
Proof. unfold has_commit. apply _. Defined.
#[export] Instance has_review_dec d i : Decision (has_review d i).
Proof. unfold has_review. apply _. Defined.
#[export] Instance has_subscription_dec d i : Decision (has_subscription d i).
Proof. unfold has_subscription. apply _. Defined.
#[export] Instance has_issue_dec d i : Decision (has_issue d i).
Proof. unfold has_issue. apply _. Defined.
#[export] Instance has_job_dec d i : Decision (has_job d i).
Proof. unfold has_job. apply _. Defined.

(** [split_part(name, '/', 1)]: the text before the first slash. *)
Fixpoint split_part1 (s : string) : string :=
  match s with
  | EmptyString => EmptyString
  | String c s => if bool_decide (c = Ascii.ascii_of_nat 47) then EmptyString
                  else String c (split_part1 s)
  end.

(** ** Tables

    - [t_check]: the CHECK constraints of a row;
    - [t_clash]: two rows that a PRIMARY KEY or UNIQUE constraint forbids
      together;
    - [t_fk]: the foreign keys of a row;
    - [t_cascade]: what ON DELETE CASCADE removes once rows of the table are
      gone;
    - [t_children]: the rows of the other tables still have their parent in
      this one, which the database checks after a DELETE (NO ACTION). *)
Record Table (A : Type) := mkTable {
  t_rows : DB → list A;
  t_put : list A → DB → DB;
  t_check : A → bool;
  t_clash : A → A → bool;
  t_fk : DB → A → bool;
  t_cascade : DB → DB;
  t_children : DB → bool;
}.
Arguments t_rows {_} _ _.
Arguments t_put {_} _ _ _.
Arguments t_check {_} _ _.
Arguments t_clash {_} _ _ _.
Arguments t_fk {_} _ _ _.
Arguments t_cascade {_} _ _.
Arguments t_children {_} _ _.

Definition orgs : Table org := {|
  t_rows := db_orgs; t_put := set_orgs; t_check _ := true;
  t_clash a b := bool_decide (org_name a = org_name b);
  t_fk _ _ := true;
  t_cascade d := d;
  t_children d := bool_decide (
    Forall (λ r, has_org d (repo_owner r)) (db_repos d) ∧
    Forall (λ m, has_org d (om_org m)) (db_org_members d) ∧
    Forall (λ i, has_org d (inv_org i)) (db_org_invites d));
|}.

Definition repos : Table repo := {|
  t_rows := db_repos; t_put := set_repos;
  t_check r := bool_decide (repo_owner r = split_part1 (repo_name r));
  t_clash a b := bool_decide (repo_name a = repo_name b);
  t_fk d r := bool_decide (has_org d (repo_owner r));
  t_cascade d := set_releases (filter (λ r, has_repo d (rel_repo r)) (db_releases d)) d;
  t_children d := bool_decide (
    Forall (λ r, has_repo d (doc_repo r)) (db_documents d) ∧
    Forall (λ r, has_repo d (br_repo r)) (db_branches d) ∧
    Forall (λ r, has_repo d (c_repo r)) (db_commits d) ∧
    Forall (λ r, has_repo d (fc_repo r)) (db_file_commits d) ∧
    Forall (λ r, has_repo d (ro_repo r)) (db_roles d) ∧
    Forall (λ r, has_repo d (rv_repo r)) (db_reviews d) ∧
    Forall (λ r, has_repo d (cr_repo r)) (db_check_runs d) ∧
    Forall (λ r, opt_ref (has_repo d) (sub_repo r)) (db_event_subscriptions d) ∧
    Forall (λ r, has_repo d (rc_repo r)) (db_review_comments d) ∧
    Forall (λ r, has_repo d (p_repo r)) (db_proposals d) ∧
    Forall (λ r, has_repo d (iss_repo r)) (db_issues d) ∧
    Forall (λ r, has_repo d (ic_repo r)) (db_issue_comments d) ∧
    Forall (λ r, has_repo d (ir_repo r)) (db_issue_refs d));
|}.

Definition documents : Table document := {|
  t_rows := db_documents; t_put := set_documents; t_check _ := true;
  t_clash a b := bool_decide (doc_version_id a = doc_version_id b);
  t_fk d r := bool_decide (has_repo d (doc_repo r));
  t_cascade d := d;
  t_children d := bool_decide (
    Forall (λ r, opt_ref (has_document d) (fc_version_id r)) (db_file_commits d) ∧
    Forall (λ r, has_document d (rc_version_id r)) (db_review_comments d));
|}.

Definition branches : Table branch := {|
  t_rows := db_branches; t_put := set_branches; t_check _ := true;
  t_clash a b := bool_decide (br_key a = br_key b);
  t_fk d r := bool_decide (has_repo d (br_repo r));
  t_cascade d := d;
  t_children d := bool_decide (
    Forall (λ r, has_branch d (rv_repo r) (rv_branch r)) (db_reviews d) ∧
    Forall (λ r, has_branch d (cr_repo r) (cr_branch r)) (db_check_runs d) ∧
    Forall (λ r, has_branch d (rc_repo r) (rc_branch r)) (db_review_comments d) ∧
    Forall (λ r, has_branch d (p_repo r) (p_branch r)) (db_proposals d));
|}.

Definition commits : Table commit := {|
  t_rows := db_commits; t_put := set_commits; t_check _ := true;
  t_clash a b := bool_decide (c_sequence a = c_sequence b);
  t_fk d r := bool_decide (has_repo d (c_repo r));
  t_cascade d := d;
  t_children d := bool_decide (
    Forall (λ r, has_commit d (fc_sequence r)) (db_file_commits d));
|}.

Definition file_commits : Table file_commit := {|
  t_rows := db_file_commits; t_put := set_file_commits; t_check _ := true;
  t_clash a b := bool_decide (fc_commit_id a = fc_commit_id b);
  t_fk d r := bool_decide (
    has_commit d (fc_sequence r) ∧ opt_ref (has_document d) (fc_version_id r) ∧
    has_repo d (fc_repo r));
  t_cascade d := d;
  t_children _ := true;
|}.

Definition roles : Table role_row := {|
  t_rows := db_roles; t_put := set_roles; t_check _ := true;
  t_clash a b := bool_decide ((ro_repo a, ro_identity a) = (ro_repo b, ro_identity b));
  t_fk d r := bool_decide (has_repo d (ro_repo r));
  t_cascade d := d;
  t_children _ := true;
|}.

Definition reviews : Table review := {|
  t_rows := db_reviews; t_put := set_reviews; t_check _ := true;
  t_clash a b := bool_decide (rv_id a = rv_id b);
  t_fk d r := bool_decide (has_repo d (rv_repo r) ∧ has_branch d (rv_repo r) (rv_branch r));
  t_cascade d := d;
  t_children d := bool_decide (
    Forall (λ r, opt_ref (has_review d) (rc_review_id r)) (db_review_comments d));
|}.

(** The columns of the UNIQUE constraint [check_runs_unique]. *)
Definition cr_key (r : check_run) : string * string * Z * string * Z :=
  (cr_repo r, cr_branch r, cr_sequence r, cr_check_name r, cr_attempt r).

Definition check_runs : Table check_run := {|
  t_rows := db_check_runs; t_put := set_check_runs; t_check _ := true;
  t_clash a b := bool_decide (cr_id a = cr_id b ∨ cr_key a = cr_key b);
  t_fk d r := bool_decide (has_repo d (cr_repo r) ∧ has_branch d (cr_repo r) (cr_branch r));
  t_cascade d := d;
  t_children _ := true;
|}.

Definition event_subscriptions : Table subscription := {|
  t_rows := db_event_subscriptions; t_put := set_event_subscriptions;
  t_check r := bool_decide (sub_backend r = "webhook" ∨ sub_backend r = "pubsub");
  t_clash a b := bool_decide (sub_id a = sub_id b);
  t_fk d r := bool_decide (opt_ref (has_repo d) (sub_repo r));
  t_cascade d :=
    set_event_outbox
      (filter (λ r, opt_ref (has_subscription d) (ob_subscription_id r)) (db_event_outbox d)) d;
  t_children _ := true;
|}.

Definition event_outbox : Table outbox := {|
  t_rows := db_event_outbox; t_put := set_event_outbox; t_check _ := true;
  t_clash a b := bool_decide (ob_id a = ob_id b);
  t_fk d r := bool_decide (opt_ref (has_subscription d) (ob_subscription_id r));
  t_cascade d := d;
  t_children _ := true;
|}.

Definition org_members : Table org_member := {|
  t_rows := db_org_members; t_put := set_org_members; t_check _ := true;
  t_clash a b := bool_decide ((om_org a, om_identity a) = (om_org b, om_identity b));
  t_fk d r := bool_decide (has_org d (om_org r));
  t_cascade d := d;
  t_children _ := true;
|}.

Definition org_invites : Table org_invite := {|
  t_rows := db_org_invites; t_put := set_org_invites; t_check _ := true;
  t_clash a b := bool_decide (inv_id a = inv_id b ∨ inv_token a = inv_token b);
  t_fk d r := bool_decide (has_org d (inv_org r));
  t_cascade d := d;
  t_children _ := true;
|}.

Definition releases : Table release := {|
  t_rows := db_releases; t_put := set_releases; t_check _ := true;
  t_clash a b := bool_decide (rel_id a = rel_id b ∨
    (rel_repo a, rel_name a) = (rel_repo b, rel_name b));
  t_fk d r := bool_decide (has_repo d (rel_repo r));
  t_cascade d := d;
  t_children _ := true;
|}.

Definition review_comments : Table review_comment := {|
  t_rows := db_review_comments; t_put := set_review_comments; t_check _ := true;
  t_clash a b := bool_decide (rc_id a = rc_id b);
  t_fk d r := bool_decide (
    opt_ref (has_review d) (rc_review_id r) ∧ has_repo d (rc_repo r) ∧
    has_document d (rc_version_id r) ∧ has_branch d (rc_repo r) (rc_branch r));
  t_cascade d := d;
  t_children _ := true;
|}.

(** Two NULL tokens do not clash. *)
Definition same_token (a b : option string) : Prop :=
  match a, b with Some x, Some y => x = y | _, _ => False end.
#[export] Instance same_token_dec a b : Decision (same_token a b).
Proof. destruct a, b; cbn; apply _. Defined.

Definition ci_jobs : Table ci_job := {|
  t_rows := db_ci_jobs; t_put := set_ci_jobs; t_check _ := true;
  t_clash a b := bool_decide (j_id a = j_id b ∨ same_token (j_request_token a) (j_request_token b));
  t_fk _ _ := true;
  t_cascade d := d;
  t_children d := bool_decide (Forall (λ r, has_job d (tok_job_id r)) (db_ci_oidc_tokens d));
|}.

(** [proposals_one_open_per_branch] is a partial index: only open proposals
    of the same branch clash. *)
Definition proposals : Table proposal := {|
  t_rows := db_proposals; t_put := set_proposals; t_check _ := true;
  t_clash a b := bool_decide (p_id a = p_id b ∨
    (p_state a = ProposalOpen ∧ p_state b = ProposalOpen ∧
     (p_repo a, p_branch a) = (p_repo b, p_branch b)));
  t_fk d r := bool_decide (has_repo d (p_repo r) ∧ has_branch d (p_repo r) (p_branch r));
  t_cascade d := d;
  t_children _ := true;
|}.

Definition issues : Table issue := {|
  t_rows := db_issues; t_put := set_issues; t_check _ := true;
  t_clash a b := bool_decide (iss_id a = iss_id b ∨
    (iss_repo a, iss_number a) = (iss_repo b, iss_number b));
  t_fk d r := bool_decide (has_repo d (iss_repo r));
  t_cascade d :=
    set_issue_refs (filter (λ r, has_issue d (ir_issue_id r)) (db_issue_refs d))
      (set_issue_comments (filter (λ r, has_issue d (ic_issue_id r)) (db_issue_comments d)) d);
  t_children _ := true;
|}.

Definition issue_comments : Table issue_comment := {|
  t_rows := db_issue_comments; t_put := set_issue_comments; t_check _ := true;
  t_clash a b := bool_decide (ic_id a = ic_id b);
  t_fk d r := bool_decide (has_issue d (ic_issue_id r) ∧ has_repo d (ic_repo r));
  t_cascade d := d;
  t_children _ := true;
|}.

Definition issue_refs : Table issue_ref := {|
  t_rows := db_issue_refs; t_put := set_issue_refs; t_check _ := true;
  t_clash a b := bool_decide (ir_id a = ir_id b ∨
    (ir_issue_id a, ir_ref_type a, ir_ref_id a) = (ir_issue_id b, ir_ref_type b, ir_ref_id b));
  t_fk d r := bool_decide (has_issue d (ir_issue_id r) ∧ has_repo d (ir_repo r));
  t_cascade d := d;
  t_children _ := true;
|}.

Definition event_log : Table logged_event := {|
  t_rows := db_event_log; t_put := set_event_log; t_check _ := true;
  t_clash a b := bool_decide (ev_seq a = ev_seq b);
  t_fk _ _ := true;
  t_cascade d := d;
  t_children _ := true;
|}.

Definition ci_oidc_tokens : Table oidc_token := {|
  t_rows := db_ci_oidc_tokens; t_put := set_ci_oidc_tokens; t_check _ := true;
  t_clash a b := bool_decide (tok_jti a = tok_jti b);
  t_fk d r := bool_decide (has_job d (tok_job_id r));
  t_cascade d := d;
  t_children _ := true;
|}.

Definition repo_secrets : Table repo_secret := {|
  t_rows := db_repo_secrets; t_put := set_repo_secrets; t_check _ := true;
  t_clash a b := bool_decide (sec_id a = sec_id b ∨
    (sec_repo a, sec_name a) = (sec_repo b, sec_name b));
  t_fk _ _ := true;
  t_cascade d := d;
  t_children _ := true;
|}.
