(* ===== verification/Tx.v ===== *)
(** * Statements and transactions (internal/db/tx.go)

    [World] is everything the store acts on; [M] is the monad of its code:
    a computation takes a world to a world and a value or an error.  The
    primitive computations are the SQL statements the store issues (with the
    checks of Schema.v), the draws of identifiers, and [WithTx].

    A rolled back transaction restores the tables and nothing else: values
    drawn from a PostgreSQL sequence, UUIDs and external blobs are not
    transactional. *)

From S2P Require Import Prelude Schema.

(** [w_commit_seq] and [w_event_seq] are the last values of the sequences
    behind [commits.sequence] and [event_log.seq]; [w_uuids] counts the UUIDs
    drawn; [w_blobs] is the content of the external blob store; [w_now] is the
    clock, in nanoseconds since the Unix epoch. *)
Record World := mkWorld {
  w_db : DB;
  w_commit_seq : Z;
  w_event_seq : Z;
  w_uuids : nat;
  w_blobs : gmap string string;
  w_now : Z;
}.

Definition with_db (d : DB) (w : World) : World :=
  mkWorld d (w_commit_seq w) (w_event_seq w) (w_uuids w) (w_blobs w) (w_now w).
Definition with_commit_seq (n : Z) (w : World) : World :=
  mkWorld (w_db w) n (w_event_seq w) (w_uuids w) (w_blobs w) (w_now w).
Definition with_event_seq (n : Z) (w : World) : World :=
  mkWorld (w_db w) (w_commit_seq w) n (w_uuids w) (w_blobs w) (w_now w).
Definition with_uuids (n : nat) (w : World) : World :=
  mkWorld (w_db w) (w_commit_seq w) (w_event_seq w) n (w_blobs w) (w_now w).
Definition with_blobs (b : gmap string string) (w : World) : World :=
  mkWorld (w_db w) (w_commit_seq w) (w_event_seq w) (w_uuids w) b (w_now w).

(** ** The monad *)
Definition M (A : Type) : Type := World → World * result A.

#[export] Instance M_ret : MRet M := λ A a w, (w, Ok a).
#[export] Instance M_bind : MBind M := λ A B f m w,
  match m w with
  | (w', Ok a) => f a w'
  | (w', Fail e) => (w', Fail e)
  end.

(** [return err] *)
Definition fail {A} (e : error) : M A := λ w, (w, Fail e).

(** [fmt.Errorf("text: %w", err)] on the error of a computation. *)
Definition wrap {A} (text : string) (m : M A) : M A := λ w,
  match m w with
  | (w', Fail e) => (w', Fail (Errorf text e))
  | r => r
  end.

(** [if err != nil { if check(err) { return other }; return err }] *)
Definition on_error {A} (m : M A) (handle : error → error) : M A := λ w,
  match m w with
  | (w', Fail e) => (w', Fail (handle e))
  | r => r
  end.

Definition gets {A} (f : World → A) : M A := λ w, (w, Ok (f w)).

(** [time.Now()], and SQL's [now()], which has the microsecond resolution of
    TIMESTAMPTZ.  An operation runs at one instant. *)
Definition time_Now : M Z := gets w_now.
Definition now : M Z := gets (λ w, w_now w / 1000 * 1000).

(** A Go time stored in a TIMESTAMPTZ column: rounded to microseconds, ties to
    the even one. *)
Definition timestamptz (t : Z) : Z :=
  let q := t / 1000 in
  let r := t mod 1000 in
  1000 * (if (500 <? r) || ((r =? 500) && Z.odd q) then q + 1 else q).

(** Observe the outcome of a call that may fail. *)
Definition catch {A} (m : M A) : M (result A) := λ w,
  let '(w', r) := m w in (w', Ok r).

(** ** Identifiers *)

(** UUIDs come from github.com/google/uuid and [gen_random_uuid()]: the
    [n]-th one drawn is a parameter of the development.  Both document that
    the values are unique; a statement that needs it says [Inj (=) (=) uuid_nth]. *)
Class UuidSource := uuid_nth : nat → string.

Definition uuid_New `{UuidSource} : M string := λ w,
  (with_uuids (S (w_uuids w)) w, Ok (uuid_nth (w_uuids w))).

Definition int64_max : Z := 9223372036854775807.

(** [nextval] of a BIGSERIAL column. *)
Definition nextval_commits : M Z := λ w,
  let n := w_commit_seq w + 1 in
  if int64_max <? n then (w, Fail (Pq "2200H")) else (with_commit_seq n w, Ok n).
Definition nextval_event_log : M Z := λ w,
  let n := w_event_seq w + 1 in
  if int64_max <? n then (w, Fail (Pq "2200H")) else (with_event_seq n w, Ok n).

(** ** Statements *)
Section statements.
Context {A : Type} (T : Table A).

(** [SELECT ... WHERE P], in the physical order of the rows. *)
Definition select (P : A → Prop) `{!∀ x, Decision (P x)} : M (list A) :=
  gets (λ w, filter P (t_rows T (w_db w))).

(** [INSERT INTO T VALUES (r)] *)
Definition insert_row (r : A) : M unit := λ w,
  let d := w_db w in
  let d' := t_put T (t_rows T d ++ [r]) d in
  if negb (t_check T r) then (w, Fail (Pq "23514"))
  else if existsb (t_clash T r) (t_rows T d) then (w, Fail (Pq "23505"))
  else if negb (t_fk T d' r) then (w, Fail (Pq "23503"))
  else (with_db d' w, Ok tt).

(** [UPDATE T SET f WHERE P] on columns no constraint mentions; the result is
    the number of rows affected. *)
Definition update_rows (P : A → Prop) `{!∀ x, Decision (P x)} (f : A → A) : M Z := λ w,
  let d := w_db w in
  (with_db (t_put T (update_where P f (t_rows T d)) d) w,
   Ok (Z.of_nat (length (filter P (t_rows T d))))).

(** An [UPDATE] of a column with a UNIQUE constraint. *)
Fixpoint pairwise_distinct (l : list A) : bool :=
  match l with
  | [] => true
  | x :: l => negb (existsb (t_clash T x) l) && pairwise_distinct l
  end.

Definition update_unique (P : A → Prop) `{!∀ x, Decision (P x)} (f : A → A) : M Z := λ w,
  if pairwise_distinct (update_where P f (t_rows T (w_db w)))
  then update_rows P f w else (w, Fail (Pq "23505")).

(** [UPDATE ... RETURNING]: the rows after the update. *)
Definition update_returning (P : A → Prop) `{!∀ x, Decision (P x)} (f : A → A)
    : M (list A) := λ w,
  let d := w_db w in
  (with_db (t_put T (update_where P f (t_rows T d)) d) w,
   Ok (f <$> filter P (t_rows T d))).

(** [DELETE FROM T WHERE P] *)
Definition delete_rows (P : A → Prop) `{!∀ x, Decision (P x)} : M Z := λ w,
  let d := w_db w in
  let d' := t_cascade T (t_put T (delete_where P (t_rows T d)) d) in
  if t_children T d'
  then (with_db d' w, Ok (Z.of_nat (length (filter P (t_rows T d)))))
  else (w, Fail (Pq "23503")).

(** [INSERT ... ON CONFLICT (columns) DO UPDATE SET f]: [P] says which row has
    the conflicting columns. The result is the row as written. *)
Definition upsert_row (P : A → Prop) `{!∀ x, Decision (P x)} (r : A) (f : A → A) : M A :=
  λ w,
  match filter P (t_rows T (w_db w)) with
  | [] => (insert_row r ≫= λ _, mret r) w
  | x :: _ => (update_rows P f ≫= λ _, mret (f x)) w
  end.
End statements.

(** [QueryRow(...).Scan]: the first row, or [sql.ErrNoRows]. *)
Definition sql_ErrNoRows : error := New "sql: no rows in result set".

Definition query_row {A} (rows : M (list A)) : M A :=
  l ← rows;
  match l with
  | [] => fail sql_ErrNoRows
  | x :: _ => mret x
  end.

(** [if errors.Is(err, sql.ErrNoRows) { return notFound }; return wrapped err] *)
Definition or_not_found {A} (m : M A) (notFound : error) (text : string) : M A :=
  on_error m (λ e, if errors_Is e sql_ErrNoRows then notFound else Errorf text e).

(** ** Transactions (tx.go) *)

(** [var errRollback] *)
Definition errRollback : error := New "rollback".

(** The tables as before, the rest as after. *)
Definition rollback (before after : World) : World := with_db (w_db before) after.

(** [func WithTx].  The closure returns the variables it captures and assigns,
    with the error it returns; [c0] is their value when it returns early.
    [BeginTx], [Commit] and [Rollback] themselves do not fail here. *)
Definition WithTx {C} (c0 : C) (fn : M (C * option error)) : M (C * option error) := λ w,
  let strip e := if errors_Is e errRollback then None else Some e in
  match fn w with
  | (w', Ok (c, None)) => (w', Ok (c, None))
  | (w', Ok (c, Some e)) => (rollback w w', Ok (c, strip e))
  | (w', Fail e) => (rollback w w', Ok (c0, strip e))
  end.

(** [if err := WithTx(...); err != nil { return zero, err }; return value, nil]
    for a closure that assigns the captured value just before [return nil]. *)
Definition in_tx {A} (zero : A) (fn : M A) : M A :=
  '(a, err) ← WithTx zero (a ← fn; mret (a, None));
  match err with
  | Some e => fail e
  | None => mret a
  end.

(** * The errors of the store (internal/db)

    The sentinel errors of [store.go], [ci_jobs.go], [issues.go] and
    [secrets_store.go], and the two tests on PostgreSQL error codes. *)

Definition ErrBranchNotFound := New "branch not found".
Definition ErrBranchNotActive := New "branch is not active".
Definition ErrBranchExists := New "branch already exists".
Definition ErrMergeConflict := New "merge conflict".
Definition ErrRebaseConflict := New "rebase conflict".
Definition ErrRepoNotFound := New "repo not found".
Definition ErrRepoExists := New "repo already exists".
Definition ErrOrgNotFound := New "org not found".
Definition ErrOrgExists := New "org already exists".
Definition ErrOrgHasRepos := New "org has repos".
Definition ErrRoleNotFound := New "role not found".
Definition ErrSelfApproval := New "reviewer cannot approve their own commits".
Definition ErrOrgMemberNotFound := New "org member not found".
Definition ErrInviteNotFound := New "invite not found".
Definition ErrInviteExpired := New "invite expired".
Definition ErrInviteAlreadyAccepted := New "invite already accepted".
Definition ErrEmailMismatch := New "identity does not match invite email".
Definition ErrReleaseNotFound := New "release not found".
Definition ErrReleaseExists := New "release already exists".
Definition ErrInvalidCursor := New "invalid pagination cursor".
Definition ErrBranchDraft := New "branch is in draft state".
Definition ErrSubscriptionNotFound := New "subscription not found".
Definition ErrCommentNotFound := New "comment not found".
Definition ErrCIJobNotFound := New "ci job not found".
Definition ErrProposalNotFound := New "proposal not found".
Definition ErrProposalExists := New "branch already has an open proposal".
Definition ErrTokenInvalid := New "request token invalid or expired".
Definition ErrIssueNotFound := New "issue not found".
Definition ErrIssueCommentNotFound := New "issue comment not found".
Definition ErrIssueRefExists := New "issue ref already exists".
Definition ErrSecretNotFound := New "repo secret not found".

(** [func isDuplicateKeyError]: a unique violation (23505). *)
Definition isDuplicateKeyError (err : error) : bool := pq_code_is err "23505".

(** [func isForeignKeyViolation]: a foreign key violation (23503). *)
Definition isForeignKeyViolation (err : error) : bool := pq_code_is err "23503".
