(* ===== verification/Run.v ===== *)
(** * Reasoning about runs of the store's code

    Inversion lemmas for a computation that returned a value
    ([m w = (w', Ok a)]), the predicate [no_rollback] (an error of [m] is never
    the internal [errRollback]), and what [WithTx] and [in_tx] do with the
    tables. *)

From S2P Require Import Prelude Schema Tx.

(** ** Successful runs *)

Lemma bind_ok {A B} (m : M A) (f : A → M B) w w' b :
  (m ≫= f) w = (w', Ok b) ↔ ∃ w1 a, m w = (w1, Ok a) ∧ f a w1 = (w', Ok b).
Proof.
  unfold mbind, M_bind. destruct (m w) as [w1 [a|e]]; split.
  - intros E. exists w1, a. done.
  - by intros (w2 & a2 & [= <- <-] & E).
  - done.
  - by intros (w2 & a2 & [=] & E).
Qed.

Lemma ret_ok {A} (a b : A) w w' : (mret a : M A) w = (w', Ok b) ↔ w' = w ∧ b = a.
Proof. unfold mret, M_ret. split; [by intros [= -> ->]|by intros [-> ->]]. Qed.

Lemma wrap_ok {A} t (m : M A) w w' a : wrap t m w = (w', Ok a) ↔ m w = (w', Ok a).
Proof. unfold wrap. by destruct (m w) as [w1 [b|e]]. Qed.

Lemma on_error_ok {A} h (m : M A) w w' a : on_error m h w = (w', Ok a) ↔ m w = (w', Ok a).
Proof. unfold on_error. by destruct (m w) as [w1 [b|e]]. Qed.

Lemma gets_ok {A} (f : World → A) w w' a : gets f w = (w', Ok a) ↔ w' = w ∧ a = f w.
Proof. unfold gets. split; [by intros [= -> ->]|by intros [-> ->]]. Qed.

Lemma query_row_ok {A} (m : M (list A)) w w' a :
  query_row m w = (w', Ok a) ↔ ∃ l, m w = (w', Ok (a :: l)).
Proof.
  unfold query_row. rewrite bind_ok. split.
  - intros (w1 & [|x l] & E & E2); [done|]. apply ret_ok in E2 as [-> ->]. eauto.
  - intros (l & E). exists w', (a :: l). done.
Qed.

Lemma bind_run {A B} (m : M A) (f : A → M B) w w1 a :
  m w = (w1, Ok a) → (m ≫= f) w = f a w1.
Proof. intros E. unfold mbind, M_bind. by rewrite E. Qed.

Lemma mapM_cons_run {A B} (f : A → M B) x l w w1 w2 y k :
  f x w = (w1, Ok y) → mapM f l w1 = (w2, Ok k) → mapM f (x :: l) w = (w2, Ok (y :: k)).
Proof.
  intros E1 E2. change (mapM f (x :: l) w) with ((f x ≫= λ y, mapM f l ≫= λ k, mret (y :: k)) w).
  by rewrite (bind_run _ _ _ _ _ E1), (bind_run _ _ _ _ _ E2).
Qed.

Lemma catch_run {A} (m : M A) w w' r : catch m w = (w', Ok r) ↔ m w = (w', r).
Proof. unfold catch. destruct (m w). split; [by intros [= -> ->]|by intros [= -> ->]]. Qed.

Lemma uuid_ok `{UuidSource} w w' u :
  uuid_New w = (w', Ok u) ↔ w' = with_uuids (S (w_uuids w)) w ∧ u = uuid_nth (w_uuids w).
Proof. unfold uuid_New. split; [by intros [= <- <-]|by intros [-> ->]]. Qed.

Lemma nextval_commits_ok w w' n :
  nextval_commits w = (w', Ok n) ↔
  w' = with_commit_seq n w ∧ n = w_commit_seq w + 1 ∧ n ≤ int64_max.
Proof.
  unfold nextval_commits. case_match eqn:E.
  - apply Z.ltb_lt in E. split; [done|]. intros (_ & -> & ?). lia.
  - apply Z.ltb_ge in E. split; [by intros [= <- <-]|by intros (-> & -> & _)].
Qed.

Section statements.
Context {A : Type} (T : Table A).

Lemma insert_ok r w w' u :
  insert_row T r w = (w', Ok u) ↔
  t_check T r = true ∧ existsb (t_clash T r) (t_rows T (w_db w)) = false ∧
  t_fk T (t_put T (t_rows T (w_db w) ++ [r]) (w_db w)) r = true ∧
  w' = with_db (t_put T (t_rows T (w_db w) ++ [r]) (w_db w)) w.
Proof.
  unfold insert_row. destruct u, (t_check T r), (existsb _ _), (t_fk _ _ _); cbn;
    (split; [try done; by intros [= <-]|try (by intros (? & ? & ? & ->)); by intros (? & ? & ? & ?)]).
Qed.

Lemma select_ok P `{!∀ x, Decision (P x)} w w' l :
  select T P w = (w', Ok l) ↔ w' = w ∧ l = filter P (t_rows T (w_db w)).
Proof. unfold select. by rewrite gets_ok. Qed.

Lemma update_ok P `{!∀ x, Decision (P x)} f w w' n :
  update_rows T P f w = (w', Ok n) ↔
  w' = with_db (t_put T (update_where P f (t_rows T (w_db w))) (w_db w)) w ∧
  n = Z.of_nat (length (filter P (t_rows T (w_db w)))).
Proof. unfold update_rows. split; [by intros [= <- <-]|by intros [-> ->]]. Qed.

Lemma update_unique_ok P `{!∀ x, Decision (P x)} f w w' n :
  update_unique T P f w = (w', Ok n) →
  w' = with_db (t_put T (update_where P f (t_rows T (w_db w))) (w_db w)) w.
Proof. unfold update_unique. case_match; [|done]. by intros [-> _]%update_ok. Qed.

Lemma update_returning_ok P `{!∀ x, Decision (P x)} f w w' l :
  update_returning T P f w = (w', Ok l) ↔
  w' = with_db (t_put T (update_where P f (t_rows T (w_db w))) (w_db w)) w ∧
  l = f <$> filter P (t_rows T (w_db w)).
Proof. unfold update_returning. split; [by intros [= <- <-]|by intros [-> ->]]. Qed.

Lemma delete_ok P `{!∀ x, Decision (P x)} w w' n :
  delete_rows T P w = (w', Ok n) ↔
  let d' := t_cascade T (t_put T (delete_where P (t_rows T (w_db w))) (w_db w)) in
  t_children T d' = true ∧ w' = with_db d' w ∧
  n = Z.of_nat (length (filter P (t_rows T (w_db w)))).
Proof.
  unfold delete_rows. cbn. case_match.
  - split; [by intros [= <- <-]|by intros (_ & -> & ->)].
  - split; [done|by intros (? & _)].
Qed.
End statements.

(** A query does not change the world. *)
Lemma query_row_gets_world {A} (f : World → list A) w w' r :
  query_row (gets f) w = (w', r) → w' = w.
Proof.
  unfold query_row, gets, mbind, M_bind. by destruct (f w); intros [= <- _].
Qed.

Lemma or_not_found_ok {A} (m : M A) nf t w w' a :
  or_not_found m nf t w = (w', Ok a) ↔ m w = (w', Ok a).
Proof. apply on_error_ok. Qed.

(** Take a run of a sequence of statements apart. *)
Ltac inv_ok :=
  repeat match goal with
  | E : (_ ≫= _) _ = (_, Ok _) |- _ =>
      let w := fresh "w" in let a := fresh "a" in let E1 := fresh E in
      apply bind_ok in E as (w & a & E1 & E)
  | E : mret _ _ = (_, Ok _) |- _ => apply ret_ok in E as [? ?]; subst
  | E : wrap _ _ _ = (_, Ok _) |- _ => apply wrap_ok in E
  | E : on_error _ _ _ = (_, Ok _) |- _ => apply on_error_ok in E
  | E : or_not_found _ _ _ _ = (_, Ok _) |- _ => apply or_not_found_ok in E
  | E : gets _ _ = (_, Ok _) |- _ => apply gets_ok in E as [? ?]; subst
  | E : fail _ _ = (_, Ok _) |- _ => discriminate E
  | E : (let '(_, _) := ?x in _) _ = (_, Ok _) |- _ => destruct x
  end.

(** ** Rolled back transactions *)

(** The errors of [m] satisfy [P]. *)
Definition fails_with {A} (P : error → Prop) (m : M A) : Prop :=
  ∀ w w' e, m w = (w', Fail e) → P e.

(** [errors.Is] does not find the sentinel with the text [txt] in [e]. *)
Definition is_not (txt : string) (e : error) : Prop := errors_Is e (New txt) = false.
Definition avoids {A} (txt : string) (m : M A) : Prop := fails_with (is_not txt) m.

Abbreviation foreign := (is_not "rollback").
Abbreviation no_rollback := (avoids "rollback").

Lemma av_ret {A} txt (a : A) : avoids txt (mret a : M A).
Proof. intros w w' e. discriminate. Qed.
Lemma av_fail {A} txt e : is_not txt e → avoids txt (fail e : M A).
Proof. intros He w w' e' [= <- <-]. done. Qed.
Lemma av_gets {A} txt (f : World → A) : avoids txt (gets f).
Proof. intros w w' e. discriminate. Qed.
Lemma av_bind {A B} txt (m : M A) (f : A → M B) :
  avoids txt m → (∀ a, avoids txt (f a)) → avoids txt (m ≫= f).
Proof.
  intros Hm Hf w w' e. unfold mbind, M_bind. destruct (m w) as [w1 [a|e1]] eqn:E.
  - apply Hf.
  - intros [= <- <-]. by eapply Hm.
Qed.
Lemma av_wrap {A} txt t (m : M A) : avoids txt m → avoids txt (wrap t m).
Proof.
  intros Hm w w' e. unfold wrap. destruct (m w) as [w1 [a|e1]] eqn:E; [done|].
  intros [= <- <-]. unfold is_not; cbn. by eapply Hm.
Qed.
Lemma av_on_error {A} txt (m : M A) h :
  avoids txt m → (∀ e, is_not txt e → is_not txt (h e)) → avoids txt (on_error m h).
Proof.
  intros Hm Hh w w' e. unfold on_error. destruct (m w) as [w1 [a|e1]] eqn:E; [done|].
  intros [= <- <-]. apply Hh. by eapply Hm.
Qed.
Lemma av_catch {A} txt (m : M A) : avoids txt (catch m).
Proof. intros w w' e. unfold catch. by destruct (m w). Qed.
(** An error observed by [catch] is one of the call. *)
Lemma av_catch_bind {A B} txt (m : M A) (f : result A → M B) :
  avoids txt m → (∀ a, avoids txt (f (Ok a))) →
  (∀ e, is_not txt e → avoids txt (f (Fail e))) → avoids txt (catch m ≫= f).
Proof.
  intros Hm Ho Hf w w' e. unfold catch, mbind, M_bind. destruct (m w) as [w1 [a|e1]] eqn:E.
  - apply Ho.
  - apply Hf. by eapply Hm.
Qed.
Lemma av_query_row {A} txt (m : M (list A)) :
  is_not txt sql_ErrNoRows → avoids txt m → avoids txt (query_row m).
Proof.
  intros Hn Hm. unfold query_row. apply av_bind; [done|]. intros [|x l]; [by apply av_fail|apply av_ret].
Qed.
Lemma av_insert {A} txt (T : Table A) r : avoids txt (insert_row T r).
Proof.
  intros w w' e. unfold insert_row. repeat case_match; by intros [= <- <-].
Qed.
Lemma av_update {A} txt (T : Table A) P `{!∀ x, Decision (P x)} f : avoids txt (update_rows T P f).
Proof. intros w w' e. discriminate. Qed.
Lemma av_delete {A} txt (T : Table A) P `{!∀ x, Decision (P x)} : avoids txt (delete_rows T P).
Proof. intros w w' e. unfold delete_rows. case_match; by intros [= <- <-]. Qed.
Lemma av_upsert {A} txt (T : Table A) P `{!∀ x, Decision (P x)} r f :
  avoids txt (upsert_row T P r f).
Proof.
  intros w w' e. unfold upsert_row. case_match.
  - apply (av_bind _ _ _ (av_insert _ T r) (λ _, av_ret _ r)).
  - apply (av_bind _ _ _ (av_update _ T P f) (λ _, av_ret _ (f a))).
Qed.

Lemma av_mapM {A B} txt (f : A → M B) l : (∀ a, avoids txt (f a)) → avoids txt (mapM f l).
Proof.
  intros Hf. induction l as [|a l IH]; [apply av_ret|].
  apply av_bind; [done|]. intros b. apply av_bind; [done|]. intros k. apply av_ret.
Qed.

Lemma av_uuid txt `{UuidSource} : avoids txt uuid_New.
Proof. intros w w' e. discriminate. Qed.
Lemma av_nextval_commits txt : avoids txt nextval_commits.
Proof. intros w w' e. unfold nextval_commits. case_match; by intros [= <- <-]. Qed.

Ltac av_handler :=
  let e := fresh in let He := fresh in
  intros e He; cbn; repeat case_match; first [reflexivity | exact He].

Ltac av_step :=
  lazymatch goal with
  | |- avoids _ ?m =>
      first
        [ solve [eauto with docstore nocore]
        | lazymatch m with
          | mret _ => apply av_ret
          | fail _ => apply av_fail; solve [reflexivity | assumption]
          | gets _ => apply av_gets
          | select _ _ => apply av_gets
          | now => apply av_gets
          | time_Now => apply av_gets
          | uuid_New => apply av_uuid
          | nextval_commits => apply av_nextval_commits
          | insert_row _ _ => apply av_insert
          | delete_rows _ _ => apply av_delete
          | update_rows _ _ _ => apply av_update
          | upsert_row _ _ _ _ => apply av_upsert
          | wrap _ _ => apply av_wrap
          | on_error _ _ => apply av_on_error; [|solve [av_handler]]
          | or_not_found _ _ _ => apply av_on_error; [|solve [av_handler]]
          | catch _ => apply av_catch
          | query_row _ => apply av_query_row; [reflexivity|]
          | mapM _ _ => apply av_mapM; intros
          | mbind _ (catch _) => apply av_catch_bind; intros
          | mbind _ _ => apply av_bind; [|intros]
          | match ?x with _ => _ end => destruct x
          end ]
  end.
Ltac solve_avoids := intros; repeat av_step.
Ltac solve_no_rollback := solve_avoids.

(** A transaction that returns did not roll back. *)
Lemma in_tx_ok {A} (a0 : A) (fn : M A) w w' a :
  no_rollback fn → in_tx a0 fn w = (w', Ok a) ↔ fn w = (w', Ok a).
Proof.
  intros Hn. unfold in_tx, WithTx, mbind, M_bind.
  destruct (fn w) as [w1 [b|e]] eqn:E; cbn -[errors_Is]; [done|].
  unfold errRollback. by rewrite (Hn _ _ _ E : errors_Is e _ = false).
Qed.

(** A transaction that fails leaves the tables as they were. *)
Lemma in_tx_fail {A} (a0 : A) (fn : M A) w w' e :
  in_tx a0 fn w = (w', Fail e) → w_db w' = w_db w.
Proof.
  unfold in_tx, WithTx, mbind, M_bind.
  destruct (fn w) as [w1 [b|e1]] eqn:E; cbn -[errors_Is]; [done|].
  case_match; cbn; by intros [= <- <-].
Qed.
