(* ===== verification/Integrity.v ===== *)
(** * Integrity of the database

    [wf_db d]: in every table the rows satisfy their CHECK constraints, no two
    rows clash on a PRIMARY KEY or UNIQUE constraint, and every foreign key
    points to a row.  Each statement of Tx.v preserves it, whatever its
    outcome, and so does every computation built from them: [preserves] is
    closed under the monad and [WithTx], and the tactic [solve_preserves]
    applies the closure lemmas through the text of an operation. *)

From S2P Require Import Prelude Schema Tx.

(** ** Tables *)
Definition unique {A} (clash : A → A → bool) (l : list A) : Prop :=
  ∀ i j x y, l !! i = Some x → l !! j = Some y → i ≠ j → clash x y = false.

Record table_ok {A} (T : Table A) (d : DB) : Prop := {
  ok_check : Forall (λ r, t_check T r = true) (t_rows T d);
  ok_unique : unique (t_clash T) (t_rows T d);
  ok_fk : Forall (λ r, t_fk T d r = true) (t_rows T d);
}.

Record wf_db (d : DB) : Prop := {
  wf_orgs : table_ok orgs d;
  wf_repos : table_ok repos d;
  wf_documents : table_ok documents d;
  wf_branches : table_ok branches d;
  wf_commits : table_ok commits d;
  wf_file_commits : table_ok file_commits d;
  wf_roles : table_ok roles d;
  wf_reviews : table_ok reviews d;
  wf_check_runs : table_ok check_runs d;
  wf_event_subscriptions : table_ok event_subscriptions d;
  wf_event_outbox : table_ok event_outbox d;
  wf_org_members : table_ok org_members d;
  wf_org_invites : table_ok org_invites d;
  wf_releases : table_ok releases d;
  wf_review_comments : table_ok review_comments d;
  wf_ci_jobs : table_ok ci_jobs d;
  wf_proposals : table_ok proposals d;
  wf_issues : table_ok issues d;
  wf_issue_comments : table_ok issue_comments d;
  wf_issue_refs : table_ok issue_refs d;
  wf_event_log : table_ok event_log d;
  wf_ci_oidc_tokens : table_ok ci_oidc_tokens d;
  wf_repo_secrets : table_ok repo_secrets d;
}.

(** Sequences of commits and branches do not exceed the last value drawn. *)
Record seq_bounded (n : Z) (d : DB) : Prop := {
  sb_commits : Forall (λ c, c_sequence c ≤ n) (db_commits d);
  sb_branches : Forall (λ b, br_head_sequence b ≤ n ∧ br_base_sequence b ≤ n) (db_branches d);
}.

(** The invariant of the store. *)
Record wf (w : World) : Prop := {
  wf_tables : wf_db (w_db w);
  wf_seq_nonneg : 0 ≤ w_commit_seq w;
  wf_seq_bounded : seq_bounded (w_commit_seq w) (w_db w);
}.

(** ** Uniqueness *)
Section unique.
Context {A : Type} (clash : A → A → bool).
Implicit Types l : list A.

Lemma unique_snoc l x :
  (∀ a b, clash a b = clash b a) →
  unique clash l → existsb (clash x) l = false → unique clash (l ++ [x]).
Proof.
  intros Hsym HU HE.
  assert (∀ y, y ∈ l → clash x y = false) as Hx.
  { intros y Hy. destruct (clash x y) eqn:E; [|done].
    rewrite <- HE. symmetry. apply existsb_exists. exists y. split; [|done].
    by apply list_elem_of_In. }
  intros i j a b Ha Hb Hij.
  apply lookup_snoc_Some in Ha as [[Hi Ha]|[-> <-]];
    apply lookup_snoc_Some in Hb as [[Hj Hb]|[-> <-]].
  - by eapply HU.
  - rewrite Hsym. by eapply Hx, list_elem_of_lookup_2.
  - by eapply Hx, list_elem_of_lookup_2.
  - done.
Qed.

Lemma unique_cons x l :
  unique clash (x :: l) → unique clash l ∧ ∀ y, y ∈ l → clash x y = false.
Proof.
  intros HU. split.
  - intros i j a b Ha Hb Hij. apply (HU (S i) (S j)); auto.
  - intros y [j Hj]%list_elem_of_lookup_1. by apply (HU O (S j)).
Qed.

Lemma unique_cons_2 x l :
  (∀ a b, clash a b = clash b a) →
  unique clash l → (∀ y, y ∈ l → clash x y = false) → unique clash (x :: l).
Proof.
  intros Hsym HU Hx [|i] [|j] a b Ha Hb Hij; cbn in *; simplify_eq; try done.
  - by eapply Hx, list_elem_of_lookup_2.
  - rewrite Hsym. by eapply Hx, list_elem_of_lookup_2.
  - eapply (HU i j); auto.
Qed.

Lemma unique_filter (P : A → Prop) `{!∀ x, Decision (P x)} l :
  (∀ a b, clash a b = clash b a) → unique clash l → unique clash (filter P l).
Proof.
  intros Hsym. induction l as [|x l IH]; [done|].
  intros [HU Hx]%unique_cons. destruct (decide (P x)) as [HP|HP].
  - rewrite filter_cons_True by done. apply unique_cons_2; auto.
    intros y [_ Hy]%list_elem_of_filter. auto.
  - rewrite filter_cons_False by done. auto.
Qed.

Lemma unique_fmap (f : A → A) l :
  (∀ x y, clash x y = false → clash (f x) (f y) = false) →
  unique clash l → unique clash (f <$> l).
Proof.
  intros Hf HU i j a b Ha Hb Hij.
  apply list_lookup_fmap_Some in Ha as (x & -> & Hx), Hb as (y & -> & Hy).
  apply Hf. by eapply HU.
Qed.

Lemma unique_NoDup {K} (key : A → K) l :
  (∀ x y, key x = key y → clash x y = true) → unique clash l → NoDup (key <$> l).
Proof.
  intros Hk HU. apply NoDup_alt. intros i j k Hi Hj.
  apply list_lookup_fmap_Some in Hi as (x & -> & Hx), Hj as (y & E & Hy).
  destruct (decide (i = j)) as [|N]; [done|].
  pose proof (HU i j x y Hx Hy N) as Hc. rewrite (Hk x y E) in Hc. done.
Qed.
End unique.

(** ** Referenced keys *)

(** Every key a foreign key may point to in [d] is also in [d']. *)
Record sub_keys (d d' : DB) : Prop := {
  sk_org n : has_org d n → has_org d' n;
  sk_repo n : has_repo d n → has_repo d' n;
  sk_branch r n : has_branch d r n → has_branch d' r n;
  sk_document v : has_document d v → has_document d' v;
  sk_commit s : has_commit d s → has_commit d' s;
  sk_review i : has_review d i → has_review d' i;
  sk_subscription i : has_subscription d i → has_subscription d' i;
  sk_issue i : has_issue d i → has_issue d' i;
  sk_job i : has_job d i → has_job d' i;
}.

Lemma opt_ref_mono {A} (P Q : A → Prop) o :
  (∀ a, P a → Q a) → opt_ref P o → opt_ref Q o.
Proof. destruct o; cbn; auto. Qed.

(** Rows whose keys are all kept by a new list of rows of the same table. *)
Definition keys_kept {A K} (key : A → K) (l l' : list A) : Prop :=
  ∀ x, x ∈ l → ∃ y, y ∈ l' ∧ key y = key x.

Lemma keys_kept_fmap {A K} (key : A → K) l l' k :
  keys_kept key l l' → k ∈ key <$> l → k ∈ key <$> l'.
Proof.
  intros HK (x & -> & Hx)%list_elem_of_fmap.
  destruct (HK x Hx) as (y & Hy & E). rewrite <- E. by apply list_elem_of_fmap_2.
Qed.

Lemma keys_kept_refl {A K} (key : A → K) l : keys_kept key l l.
Proof. intros x Hx. eauto. Qed.

Lemma keys_kept_snoc {A K} (key : A → K) l r : keys_kept key l (l ++ [r]).
Proof. intros x Hx. exists x. split; [apply elem_of_app; auto|done]. Qed.

Lemma keys_kept_update {A K} (key : A → K) (P : A → Prop) `{!∀ x, Decision (P x)} f l :
  (∀ x, P x → key (f x) = key x) → keys_kept key l (update_where P f l).
Proof.
  intros Hk x Hx. exists (if decide (P x) then f x else x). split.
  - apply elem_of_update_where. eauto.
  - case_decide; auto.
Qed.

Ltac solve_fk_mono :=
  intros [? ? ? ? ? ? ? ? ?] r; cbn;
  rewrite ?bool_decide_eq_true; intros; destruct_and?;
  split_and?; eauto using opt_ref_mono.

Lemma orgs_fk_mono d d' : sub_keys d d' → ∀ r, t_fk orgs d r = true → t_fk orgs d' r = true.
Proof. solve_fk_mono. Qed.
Lemma repos_fk_mono d d' : sub_keys d d' → ∀ r, t_fk repos d r = true → t_fk repos d' r = true.
Proof. solve_fk_mono. Qed.
Lemma documents_fk_mono d d' : sub_keys d d' → ∀ r, t_fk documents d r = true → t_fk documents d' r = true.
Proof. solve_fk_mono. Qed.
Lemma branches_fk_mono d d' : sub_keys d d' → ∀ r, t_fk branches d r = true → t_fk branches d' r = true.
Proof. solve_fk_mono. Qed.
Lemma commits_fk_mono d d' : sub_keys d d' → ∀ r, t_fk commits d r = true → t_fk commits d' r = true.
Proof. solve_fk_mono. Qed.
Lemma file_commits_fk_mono d d' : sub_keys d d' → ∀ r, t_fk file_commits d r = true → t_fk file_commits d' r = true.
Proof. solve_fk_mono. Qed.
Lemma roles_fk_mono d d' : sub_keys d d' → ∀ r, t_fk roles d r = true → t_fk roles d' r = true.
Proof. solve_fk_mono. Qed.
Lemma reviews_fk_mono d d' : sub_keys d d' → ∀ r, t_fk reviews d r = true → t_fk reviews d' r = true.
Proof. solve_fk_mono. Qed.
Lemma check_runs_fk_mono d d' : sub_keys d d' → ∀ r, t_fk check_runs d r = true → t_fk check_runs d' r = true.
Proof. solve_fk_mono. Qed.
Lemma event_subscriptions_fk_mono d d' : sub_keys d d' → ∀ r, t_fk event_subscriptions d r = true → t_fk event_subscriptions d' r = true.
Proof. solve_fk_mono. Qed.
Lemma event_outbox_fk_mono d d' : sub_keys d d' → ∀ r, t_fk event_outbox d r = true → t_fk event_outbox d' r = true.
Proof. solve_fk_mono. Qed.
Lemma org_members_fk_mono d d' : sub_keys d d' → ∀ r, t_fk org_members d r = true → t_fk org_members d' r = true.
Proof. solve_fk_mono. Qed.
Lemma org_invites_fk_mono d d' : sub_keys d d' → ∀ r, t_fk org_invites d r = true → t_fk org_invites d' r = true.
Proof. solve_fk_mono. Qed.
Lemma releases_fk_mono d d' : sub_keys d d' → ∀ r, t_fk releases d r = true → t_fk releases d' r = true.
Proof. solve_fk_mono. Qed.
Lemma review_comments_fk_mono d d' : sub_keys d d' → ∀ r, t_fk review_comments d r = true → t_fk review_comments d' r = true.
Proof. solve_fk_mono. Qed.
Lemma ci_jobs_fk_mono d d' : sub_keys d d' → ∀ r, t_fk ci_jobs d r = true → t_fk ci_jobs d' r = true.
Proof. solve_fk_mono. Qed.
Lemma proposals_fk_mono d d' : sub_keys d d' → ∀ r, t_fk proposals d r = true → t_fk proposals d' r = true.
Proof. solve_fk_mono. Qed.
Lemma issues_fk_mono d d' : sub_keys d d' → ∀ r, t_fk issues d r = true → t_fk issues d' r = true.
Proof. solve_fk_mono. Qed.
Lemma issue_comments_fk_mono d d' : sub_keys d d' → ∀ r, t_fk issue_comments d r = true → t_fk issue_comments d' r = true.
Proof. solve_fk_mono. Qed.
Lemma issue_refs_fk_mono d d' : sub_keys d d' → ∀ r, t_fk issue_refs d r = true → t_fk issue_refs d' r = true.
Proof. solve_fk_mono. Qed.
Lemma event_log_fk_mono d d' : sub_keys d d' → ∀ r, t_fk event_log d r = true → t_fk event_log d' r = true.
Proof. solve_fk_mono. Qed.
Lemma ci_oidc_tokens_fk_mono d d' : sub_keys d d' → ∀ r, t_fk ci_oidc_tokens d r = true → t_fk ci_oidc_tokens d' r = true.
Proof. solve_fk_mono. Qed.
Lemma repo_secrets_fk_mono d d' : sub_keys d d' → ∀ r, t_fk repo_secrets d r = true → t_fk repo_secrets d' r = true.
Proof. solve_fk_mono. Qed.

#[export] Hint Resolve orgs_fk_mono repos_fk_mono documents_fk_mono branches_fk_mono
  commits_fk_mono file_commits_fk_mono roles_fk_mono reviews_fk_mono check_runs_fk_mono
  event_subscriptions_fk_mono event_outbox_fk_mono org_members_fk_mono org_invites_fk_mono
  releases_fk_mono review_comments_fk_mono ci_jobs_fk_mono proposals_fk_mono
  issues_fk_mono issue_comments_fk_mono issue_refs_fk_mono event_log_fk_mono
  ci_oidc_tokens_fk_mono repo_secrets_fk_mono : docstore.

(** ** What each table satisfies *)
Class TableLaws {A} (T : Table A) := {
  tl_key_type : Type;
  tl_key : A → tl_key_type;
  tl_ok d : wf_db d → table_ok T d;
  tl_rows_put l d : t_rows T (t_put T l d) = l;
  tl_clash_sym a b : t_clash T a b = t_clash T b a;
  tl_fk_mono d d' : sub_keys d d' → ∀ r, t_fk T d r = true → t_fk T d' r = true;
  tl_sub_keys d l : keys_kept tl_key (t_rows T d) l → sub_keys d (t_put T l d);
  tl_frame d l :
    wf_db d → sub_keys d (t_put T l d) → table_ok T (t_put T l d) → wf_db (t_put T l d);
}.

Lemma table_ok_frame {A} (T : Table A) d d' :
  (∀ r, t_fk T d r = true → t_fk T d' r = true) →
  t_rows T d' = t_rows T d → table_ok T d → table_ok T d'.
Proof.
  intros Hfk Hr [Hc Hu Hf]. split; rewrite ?Hr; [done..|].
  eapply Forall_impl; [exact Hf|]. cbn. auto.
Qed.

Lemma bool_decide_sym (P Q : Prop) `{!Decision P, !Decision Q} :
  (P ↔ Q) → bool_decide P = bool_decide Q.
Proof. apply bool_decide_ext. Qed.

Ltac solve_clash_sym :=
  intros a b; cbn; apply bool_decide_sym; first
    [ split; intros; congruence
    | unfold same_token; repeat case_match; split; intros; destruct_or?; destruct_and?;
      solve [left; congruence | right; congruence | right; split_and!; congruence | done] ].

Ltac solve_sub_keys :=
  intros d l HK; cbn in HK |- *;
  split; intros; unfold has_org, has_repo, has_branch, has_document, has_commit,
    has_review, has_subscription, has_issue, has_job in *; cbn in *;
  first [assumption | eapply keys_kept_fmap; eassumption].

Ltac solve_frame :=
  intros d l Hwf HK HT; destruct Hwf; split;
  first [exact HT | apply (table_ok_frame _ d); [eauto with docstore|reflexivity|assumption]].

Ltac solve_table_laws key :=
  refine {| tl_key := key |};
  [ intros ? []; assumption | intros; reflexivity | solve_clash_sym | eauto with docstore | solve_sub_keys | solve_frame ].

#[export] Instance orgs_laws : TableLaws orgs.
Proof. solve_table_laws org_name. Defined.
#[export] Instance repos_laws : TableLaws repos.
Proof. solve_table_laws repo_name. Defined.
#[export] Instance documents_laws : TableLaws documents.
Proof. solve_table_laws doc_version_id. Defined.
#[export] Instance branches_laws : TableLaws branches.
Proof. solve_table_laws br_key. Defined.
#[export] Instance commits_laws : TableLaws commits.
Proof. solve_table_laws c_sequence. Defined.
#[export] Instance file_commits_laws : TableLaws file_commits.
Proof. solve_table_laws fc_commit_id. Defined.
#[export] Instance roles_laws : TableLaws roles.
Proof. solve_table_laws ro_identity. Defined.
#[export] Instance reviews_laws : TableLaws reviews.
Proof. solve_table_laws rv_id. Defined.
#[export] Instance check_runs_laws : TableLaws check_runs.
Proof. solve_table_laws cr_id. Defined.
#[export] Instance event_subscriptions_laws : TableLaws event_subscriptions.
Proof. solve_table_laws sub_id. Defined.
#[export] Instance event_outbox_laws : TableLaws event_outbox.
Proof. solve_table_laws ob_id. Defined.
#[export] Instance org_members_laws : TableLaws org_members.
Proof. solve_table_laws om_identity. Defined.
#[export] Instance org_invites_laws : TableLaws org_invites.
Proof. solve_table_laws inv_id. Defined.
#[export] Instance releases_laws : TableLaws releases.
Proof. solve_table_laws rel_id. Defined.
#[export] Instance review_comments_laws : TableLaws review_comments.
Proof. solve_table_laws rc_id. Defined.
#[export] Instance ci_jobs_laws : TableLaws ci_jobs.
Proof. solve_table_laws j_id. Defined.
#[export] Instance proposals_laws : TableLaws proposals.
Proof. solve_table_laws p_id. Defined.
#[export] Instance issues_laws : TableLaws issues.
Proof. solve_table_laws iss_id. Defined.
#[export] Instance issue_comments_laws : TableLaws issue_comments.
Proof. solve_table_laws ic_id. Defined.
#[export] Instance issue_refs_laws : TableLaws issue_refs.
Proof. solve_table_laws ir_id. Defined.
#[export] Instance event_log_laws : TableLaws event_log.
Proof. solve_table_laws ev_seq. Defined.
#[export] Instance ci_oidc_tokens_laws : TableLaws ci_oidc_tokens.
Proof. solve_table_laws tok_jti. Defined.
#[export] Instance repo_secrets_laws : TableLaws repo_secrets.
Proof. solve_table_laws sec_id. Defined.

(** ** Deleting rows *)

(** [DELETE], with its cascade and its check of the referencing tables, keeps
    the database well formed. *)
Class DeleteLaws {A} (T : Table A) :=
  tl_delete d (P : A → Prop) `{!∀ x, Decision (P x)} :
    let d' := t_cascade T (t_put T (delete_where P (t_rows T d)) d) in
    wf_db d → t_children T d' = true → wf_db d'.

Lemma Forall_delete_where {A} (P Q : A → Prop) `{!∀ x, Decision (P x)} l :
  Forall Q l → Forall Q (delete_where P l).
Proof.
  rewrite !Forall_forall. intros HQ x [_ Hx]%elem_of_delete_where. auto.
Qed.

Lemma Forall_filter_2 {A} (P Q : A → Prop) `{!∀ x, Decision (P x)} l :
  Forall Q l → Forall Q (filter P l).
Proof.
  rewrite !Forall_forall. intros HQ x [_ Hx]%list_elem_of_filter. auto.
Qed.

Lemma Forall_filter_and {A} (P Q : A → Prop) `{!∀ x, Decision (P x)} l :
  Forall Q l → Forall (λ x, P x ∧ Q x) (filter P l).
Proof.
  rewrite !Forall_forall. intros HQ x [HP Hx]%list_elem_of_filter. auto.
Qed.

(** A table nothing refers to. *)
Lemma delete_leaf {A} (T : Table A) `{!TableLaws T} :
  (∀ d, t_cascade T d = d) → (∀ d l, sub_keys d (t_put T l d)) → DeleteLaws T.
Proof.
  intros Hc Hs d P HP. cbn. rewrite Hc. intros Hwf _.
  apply tl_frame; [done|auto|].
  destruct (tl_ok (T := T) d Hwf) as [H1 H2 H3].
  split; rewrite tl_rows_put.
  - by apply Forall_delete_where.
  - apply unique_filter; auto using tl_clash_sym.
  - apply Forall_delete_where. eapply Forall_impl; [exact H3|].
    cbn. intros r. by apply tl_fk_mono.
Qed.

Ltac solve_delete_leaf :=
  match goal with |- DeleteLaws ?T => apply (delete_leaf T) end;
  [intros; reflexivity|]; intros d l; split; intros; assumption.

#[export] Instance file_commits_delete : DeleteLaws file_commits.
Proof. solve_delete_leaf. Qed.
#[export] Instance roles_delete : DeleteLaws roles.
Proof. solve_delete_leaf. Qed.
#[export] Instance check_runs_delete : DeleteLaws check_runs.
Proof. solve_delete_leaf. Qed.
#[export] Instance event_outbox_delete : DeleteLaws event_outbox.
Proof. solve_delete_leaf. Qed.
#[export] Instance org_members_delete : DeleteLaws org_members.
Proof. solve_delete_leaf. Qed.
#[export] Instance org_invites_delete : DeleteLaws org_invites.
Proof. solve_delete_leaf. Qed.
#[export] Instance releases_delete : DeleteLaws releases.
Proof. solve_delete_leaf. Qed.
#[export] Instance review_comments_delete : DeleteLaws review_comments.
Proof. solve_delete_leaf. Qed.
#[export] Instance issue_comments_delete : DeleteLaws issue_comments.
Proof. solve_delete_leaf. Qed.
#[export] Instance event_log_delete : DeleteLaws event_log.
Proof. solve_delete_leaf. Qed.
#[export] Instance repo_secrets_delete : DeleteLaws repo_secrets.
Proof. solve_delete_leaf. Qed.

(** The tables others refer to: each referencing row still has its parents,
    the one in [T] by the check and the others because they did not change. *)
Ltac delete_fk :=
  apply Forall_forall; intros r Hr;
  repeat match goal with
  | Hr : r ∈ filter _ _ |- _ => apply list_elem_of_filter in Hr as [? Hr]
  | Hr : r ∈ delete_where _ _ |- _ => apply elem_of_delete_where in Hr as [? Hr]
  end;
  repeat match goal with
  | H : Forall _ ?l, Hr : r ∈ ?l |- _ =>
      let H' := fresh "Hfk" in
      pose proof (proj1 (Forall_forall _ _) H r Hr) as H'; clear H; cbn in H'
  end;
  repeat match goal with
  | H : bool_decide _ = true |- _ => apply bool_decide_eq_true in H
  end;
  try apply bool_decide_eq_true; destruct_and?; split_and?;
  solve [assumption | done].

Ltac solve_delete_table :=
  match goal with
  | H : table_ok _ ?d |- table_ok _ ?d' =>
      let Hc := fresh "Hc" in let Hu := fresh "Hu" in let Hf := fresh "Hf" in
      destruct H as [Hc Hu Hf];
      cbn in Hc, Hu, Hf; split; cbn;
      [ solve [assumption | by apply Forall_delete_where | by apply Forall_filter_2]
      | solve [assumption
              | apply unique_filter; [solve_clash_sym | assumption] ]
      | delete_fk ]
  end.

Ltac solve_delete :=
  intros d P HP; cbn; intros Hwf Hch; destruct Hwf;
  try apply bool_decide_eq_true in Hch; destruct_and?; split; solve_delete_table.
#[export] Instance orgs_delete : DeleteLaws orgs.
Proof. solve_delete. Qed.
#[export] Instance repos_delete : DeleteLaws repos.
Proof. solve_delete. Qed.
#[export] Instance documents_delete : DeleteLaws documents.
Proof. solve_delete. Qed.
#[export] Instance branches_delete : DeleteLaws branches.
Proof. solve_delete. Qed.
#[export] Instance commits_delete : DeleteLaws commits.
Proof. solve_delete. Qed.
#[export] Instance reviews_delete : DeleteLaws reviews.
Proof. solve_delete. Qed.
#[export] Instance event_subscriptions_delete : DeleteLaws event_subscriptions.
Proof. solve_delete. Qed.

(** ** Updating rows *)

(** An update that keeps the constrained columns of the rows it touches. *)
Record keeps {A} (T : Table A) `{!TableLaws T} (P : A → Prop) (f : A → A) : Prop := {
  keep_check x : P x → t_check T x = true → t_check T (f x) = true;
  keep_clash x y : P x → t_clash T x y = false → t_clash T (f x) y = false;
  keep_fk d x : P x → t_fk T d x = true → t_fk T d (f x) = true;
  keep_key x : P x → tl_key (f x) = tl_key x;
}.

Lemma Forall_update_where {A} (P Q : A → Prop) `{!∀ x, Decision (P x)} f l :
  (∀ x, P x → Q x → Q (f x)) → Forall Q l → Forall Q (update_where P f l).
Proof.
  intros Hf. rewrite !Forall_forall. intros HQ y (x & Hx & ->)%elem_of_update_where.
  case_decide; auto.
Qed.

Lemma update_wf {A} (T : Table A) `{!TableLaws T} (P : A → Prop) `{!∀ x, Decision (P x)} f d :
  keeps T P f → wf_db d → wf_db (t_put T (update_where P f (t_rows T d)) d).
Proof.
  intros [Hc Hu Hf Hk] Hwf.
  assert (sub_keys d (t_put T (update_where P f (t_rows T d)) d)) as HK.
  { apply tl_sub_keys, keys_kept_update. exact Hk. }
  apply tl_frame; [done..|].
  destruct (tl_ok (T := T) d Hwf) as [H1 H2 H3].
  split; rewrite tl_rows_put.
  - apply Forall_update_where; auto.
  - apply unique_fmap; [|done]. intros x y Hxy.
    assert (∀ x y, t_clash T x y = false →
      t_clash T (if decide (P x) then f x else x) y = false) as Hone.
    { intros a b Hab. case_decide; auto. }
    apply Hone. rewrite tl_clash_sym. apply Hone. by rewrite tl_clash_sym.
  - apply Forall_update_where; [auto|]. eapply Forall_impl; [exact H3|].
    cbn. intros r. by apply tl_fk_mono.
Qed.

Lemma insert_wf {A} (T : Table A) `{!TableLaws T} r d :
  wf_db d → t_check T r = true → existsb (t_clash T r) (t_rows T d) = false →
  t_fk T (t_put T (t_rows T d ++ [r]) d) r = true →
  wf_db (t_put T (t_rows T d ++ [r]) d).
Proof.
  intros Hwf Hc Hu Hf.
  assert (sub_keys d (t_put T (t_rows T d ++ [r]) d)) as HK.
  { apply tl_sub_keys, keys_kept_snoc. }
  apply tl_frame; [done..|].
  destruct (tl_ok (T := T) d Hwf) as [H1 H2 H3].
  split; rewrite tl_rows_put.
  - apply Forall_app; auto.
  - apply unique_snoc; auto using tl_clash_sym.
  - apply Forall_app; split; [|auto]. eapply Forall_impl; [exact H3|].
    cbn. intros x. by apply tl_fk_mono.
Qed.

(** ** Sequence numbers *)

(** What the bound on sequences asks of a row of [T], and that the writes to
    [T] keep the bound when their rows satisfy it. *)
Class SeqLaws {A} (T : Table A) := {
  sl_row : Z → A → Prop;
  sl_get n d : seq_bounded n d → Forall (sl_row n) (t_rows T d);
  sl_put n d l : seq_bounded n d → Forall (sl_row n) l → seq_bounded n (t_put T l d);
  sl_cascade n d : seq_bounded n d → seq_bounded n (t_cascade T d);
}.

Ltac solve_seq_laws :=
  refine {| sl_row := λ _ _, True |};
  [ intros; apply Forall_forall; auto | intros ? ? ? [] ?; split; assumption
  | intros ? ? []; split; assumption ].

#[export] Instance commits_seq : SeqLaws commits.
Proof.
  refine {| sl_row := λ n c, c_sequence c ≤ n |}.
  - by intros n d [].
  - intros n d l [] ?. by split.
  - by intros n d [].
Defined.
#[export] Instance branches_seq : SeqLaws branches.
Proof.
  refine {| sl_row := λ n b, br_head_sequence b ≤ n ∧ br_base_sequence b ≤ n |}.
  - by intros n d [].
  - intros n d l [] ?. by split.
  - by intros n d [].
Defined.
#[export] Instance orgs_seq : SeqLaws orgs.
Proof. solve_seq_laws. Defined.
#[export] Instance repos_seq : SeqLaws repos.
Proof. solve_seq_laws. Defined.
#[export] Instance documents_seq : SeqLaws documents.
Proof. solve_seq_laws. Defined.
#[export] Instance file_commits_seq : SeqLaws file_commits.
Proof. solve_seq_laws. Defined.
#[export] Instance roles_seq : SeqLaws roles.
Proof. solve_seq_laws. Defined.
#[export] Instance reviews_seq : SeqLaws reviews.
Proof. solve_seq_laws. Defined.
#[export] Instance check_runs_seq : SeqLaws check_runs.
Proof. solve_seq_laws. Defined.
#[export] Instance event_subscriptions_seq : SeqLaws event_subscriptions.
Proof. solve_seq_laws. Defined.
#[export] Instance event_outbox_seq : SeqLaws event_outbox.
Proof. solve_seq_laws. Defined.
#[export] Instance org_members_seq : SeqLaws org_members.
Proof. solve_seq_laws. Defined.
#[export] Instance org_invites_seq : SeqLaws org_invites.
Proof. solve_seq_laws. Defined.
#[export] Instance releases_seq : SeqLaws releases.
Proof. solve_seq_laws. Defined.
#[export] Instance review_comments_seq : SeqLaws review_comments.
Proof. solve_seq_laws. Defined.
#[export] Instance ci_jobs_seq : SeqLaws ci_jobs.
Proof. solve_seq_laws. Defined.
#[export] Instance proposals_seq : SeqLaws proposals.
Proof. solve_seq_laws. Defined.
#[export] Instance issues_seq : SeqLaws issues.
Proof. solve_seq_laws. Defined.
#[export] Instance issue_comments_seq : SeqLaws issue_comments.
Proof. solve_seq_laws. Defined.
#[export] Instance issue_refs_seq : SeqLaws issue_refs.
Proof. solve_seq_laws. Defined.
#[export] Instance event_log_seq : SeqLaws event_log.
Proof. solve_seq_laws. Defined.
#[export] Instance ci_oidc_tokens_seq : SeqLaws ci_oidc_tokens.
Proof. solve_seq_laws. Defined.
#[export] Instance repo_secrets_seq : SeqLaws repo_secrets.
Proof. solve_seq_laws. Defined.

Lemma seq_bounded_mono n m d : n ≤ m → seq_bounded n d → seq_bounded m d.
Proof.
  intros Hle [Hc Hb]. split.
  - eapply Forall_impl; [exact Hc|]. cbn. lia.
  - eapply Forall_impl; [exact Hb|]. cbn. lia.
Qed.

(** ** Computations

    [spec F m G]: [m] keeps [wf], whether it returns or fails, and moves the
    commit sequence only forward; the numbers [F] are bounded by that sequence
    before [m], and the numbers [G a] of the value [a] it returns after. *)
Definition below (l : list Z) (w : World) : Prop := Forall (λ z, z ≤ w_commit_seq w) l.

Definition spec {A} (F : list Z) (m : M A) (G : A → list Z) : Prop := ∀ w,
  wf w → below F w →
  wf (m w).1 ∧ w_commit_seq w ≤ w_commit_seq (m w).1 ∧
  match (m w).2 with Ok a => below (G a) (m w).1 | Fail _ => True end.

Definition preserves {A} (m : M A) : Prop := ∀ F, spec F m (λ _, []).

Lemma preserves_wf {A} (m : M A) w : preserves m → wf w → wf (m w).1.
Proof. intros Hm Hw. apply (Hm []); [done|constructor]. Qed.

Lemma below_mono F w w' : w_commit_seq w ≤ w_commit_seq w' → below F w → below F w'.
Proof. intros Hle HF. eapply Forall_impl; [exact HF|]. cbn. lia. Qed.

Lemma below_app F G w : below (F ++ G) w ↔ below F w ∧ below G w.
Proof. apply Forall_app. Qed.

Lemma spec_nil {A} (m : M A) F G : spec F m G → spec F m (λ _, []).
Proof.
  intros Hm w Hw HF. destruct (Hm w Hw HF) as (? & ? & _). split_and!; [done..|].
  case_match; [constructor|done].
Qed.

Lemma spec_weaken {A} (m : M A) F F' G : F' ⊆+ F → spec F' m G → spec F m G.
Proof.
  intros Hs Hm w Hw HF. apply Hm; [done|].
  unfold below. rewrite Forall_forall. intros z Hz.
  apply (proj1 (Forall_forall _ _) HF). by eapply elem_of_submseteq.
Qed.

Lemma spec_ret {A} (a : A) F G : (∀ w, wf w → below F w → below (G a) w) → spec F (mret a) G.
Proof. intros HG w Hw HF. cbn. auto using Z.le_refl. Qed.

Lemma spec_fail {A} e F (G : A → _) : spec F (fail e) G.
Proof. intros w Hw HF. cbn. auto using Z.le_refl. Qed.

Lemma spec_gets {A} (f : World → A) F G :
  (∀ w, wf w → below F w → below (G (f w)) w) → spec F (gets f) G.
Proof. intros HG w Hw HF. cbn. auto using Z.le_refl. Qed.

(** What was known before [m] is still known after it. *)
Lemma spec_bind {A B} (m : M A) (f : A → M B) F G K :
  spec F m G → (∀ a, spec (G a ++ F) (f a) K) → spec F (m ≫= f) K.
Proof.
  intros Hm Hf w Hw HF. destruct (Hm w Hw HF) as (Hw' & Hle & HG).
  unfold mbind, M_bind. destruct (m w) as [w' [a|e]]; cbn in *; [|done].
  destruct (Hf a w' Hw') as (Hw2 & Hle2 & HK).
  { apply below_app. split; [done|by eapply below_mono]. }
  split_and!; [done|lia|done].
Qed.

Lemma spec_wrap {A} text (m : M A) F G : spec F m G → spec F (wrap text m) G.
Proof.
  intros Hm w Hw HF. specialize (Hm w Hw HF). unfold wrap.
  by destruct (m w) as [w' [a|e]].
Qed.

Lemma spec_on_error {A} (m : M A) h F G : spec F m G → spec F (on_error m h) G.
Proof.
  intros Hm w Hw HF. specialize (Hm w Hw HF). unfold on_error.
  by destruct (m w) as [w' [a|e]].
Qed.

Lemma spec_catch {A} (m : M A) F : spec F m (λ _, []) → spec F (catch m) (λ _, []).
Proof.
  intros Hm w Hw HF. specialize (Hm w Hw HF). unfold catch.
  destruct (m w) as [w' r]. cbn in *. split_and!; [apply Hm..|constructor].
Qed.

Lemma spec_query_row {A} (m : M (list A)) F G :
  spec F m (λ l, l ≫= G) → spec F (query_row m) G.
Proof.
  intros Hm. unfold query_row. eapply spec_bind; [exact Hm|].
  intros [|x l]; [apply spec_fail|]. apply spec_ret. intros w _ [HG _]%below_app.
  cbn in HG. by apply below_app in HG as [HG _].
Qed.

Lemma spec_query_row_nil {A} (m : M (list A)) F :
  spec F m (λ _, []) → spec F (query_row m) (λ _, []).
Proof.
  intros Hm. unfold query_row. eapply spec_bind; [exact Hm|].
  intros [|x l]; [apply spec_fail|]. apply spec_ret. constructor.
Qed.

(** A rolled back transaction keeps the sequence it moved. *)
Lemma wf_rollback w w' :
  wf w → w_commit_seq w ≤ w_commit_seq w' → wf (rollback w w').
Proof.
  intros [Hd H0 Hs] Hle. split; cbn; [done|lia|by eapply seq_bounded_mono].
Qed.

Lemma spec_WithTx {C} (c0 : C) fn F :
  spec F fn (λ _, []) → spec F (WithTx c0 fn) (λ _, []).
Proof.
  intros Hm w Hw HF. destruct (Hm w Hw HF) as (Hw' & Hle & _). unfold WithTx.
  destruct (fn w) as [w' [[c [e|]]|e]]; cbn in *;
    split_and!; auto using wf_rollback; constructor.
Qed.

Lemma spec_in_tx {A} (a0 : A) fn F G :
  spec F fn G → (∀ w, wf w → below F w → below (G a0) w) → spec F (in_tx a0 fn) G.
Proof.
  intros Hm H0 w Hw HF. destruct (Hm w Hw HF) as (Hw' & Hle & HG).
  unfold in_tx, WithTx, mbind, M_bind.
  destruct (fn w) as [w' [a|e]]; cbn -[errors_Is] in *; [done|].
  destruct (errors_Is e errRollback); cbn; [|split_and!; auto using wf_rollback].
  split_and!; [by apply wf_rollback|done|].
  apply H0; [by apply wf_rollback|]. by eapply below_mono.
Qed.

Lemma spec_mapM {A B} (f : A → M B) l F G :
  (∀ a, spec F (f a) G) → spec F (mapM f l) (λ bs, bs ≫= G).
Proof.
  intros Hf. induction l as [|a l IH]; [apply spec_ret; constructor|].
  cbn. eapply spec_bind; [apply Hf|]. intros b.
  eapply spec_bind; [eapply spec_weaken; [|exact IH]; by apply submseteq_inserts_l|].
  intros k. apply spec_ret. intros w _ HB. cbn.
  apply below_app in HB as [Hk [Hb _]%below_app]. by apply below_app.
Qed.

Section spec_statements.
Context {A : Type} (T : Table A) `{!TableLaws T, !SeqLaws T}.

Lemma spec_select P `{!∀ x, Decision (P x)} F : spec F (select T P) (λ _, []).
Proof. apply spec_gets. constructor. Qed.

Lemma spec_insert r F :
  (∀ n, 0 ≤ n → Forall (λ z, z ≤ n) F → sl_row n r) → spec F (insert_row T r) (λ _, []).
Proof.
  intros Hr w Hw HF. pose proof Hw as [Hd H0 Hs]. unfold insert_row.
  destruct (t_check T r) eqn:Hc; cbn; [|done].
  destruct (existsb (t_clash T r) (t_rows T (w_db w))) eqn:Hu; cbn; [done|].
  destruct (t_fk T _ r) eqn:Hf; cbn; [|done].
  split_and!; [split; cbn; [by apply (insert_wf T)|done|]|done|constructor].
  apply sl_put; [done|]. apply Forall_app. split; [by apply sl_get|].
  apply Forall_singleton. by apply Hr.
Qed.

(** An update whose new sequences are among [F]. *)
Definition keeps_seq (F : list Z) (P : A → Prop) (f : A → A) : Prop :=
  ∀ n x, 0 ≤ n → Forall (λ z, z ≤ n) F → P x → sl_row n x → sl_row n (f x).

Lemma update_wf_world P `{!∀ x, Decision (P x)} f F w :
  keeps T P f → keeps_seq F P f → wf w → below F w →
  wf (with_db (t_put T (update_where P f (t_rows T (w_db w))) (w_db w)) w).
Proof.
  intros HK HS [Hd H0 Hs] HF. split; cbn; [by apply (update_wf T)|done|].
  apply sl_put; [done|]. apply Forall_update_where; [|by apply sl_get].
  intros x HP. by apply HS.
Qed.

Lemma spec_update P `{!∀ x, Decision (P x)} f F :
  keeps T P f → keeps_seq F P f → spec F (update_rows T P f) (λ _, []).
Proof.
  intros HK HS w Hw HF. split_and!; cbn; [by apply (update_wf_world P f F)|done|constructor].
Qed.

Lemma spec_update_returning P `{!∀ x, Decision (P x)} f F :
  keeps T P f → keeps_seq F P f → spec F (update_returning T P f) (λ _, []).
Proof.
  intros HK HS w Hw HF. split_and!; cbn; [by apply (update_wf_world P f F)|done|constructor].
Qed.

(** Uniqueness is tested by the statement itself. *)
Lemma pairwise_distinct_unique l : pairwise_distinct T l = true → unique (t_clash T) l.
Proof.
  induction l as [|x l IH]; cbn; [by intros _ i j a b Hi; rewrite lookup_nil in Hi|].
  intros [Hx Hl]%andb_true_iff. apply unique_cons_2; auto using tl_clash_sym.
  intros y Hy. apply negb_true_iff in Hx. destruct (t_clash T x y) eqn:E; [|done].
  rewrite <- Hx. symmetry. apply existsb_exists. exists y. split; [by apply list_elem_of_In|done].
Qed.

Lemma spec_update_unique P `{!∀ x, Decision (P x)} f F :
  (∀ x, P x → t_check T x = true → t_check T (f x) = true) →
  (∀ d x, P x → t_fk T d x = true → t_fk T d (f x) = true) →
  (∀ x, P x → tl_key (f x) = tl_key x) → keeps_seq F P f →
  spec F (update_unique T P f) (λ _, []).
Proof.
  intros Hc Hf Hk HS w Hw HF. pose proof Hw as [Hd H0 Hs]. unfold update_unique.
  destruct (pairwise_distinct T _) eqn:HU; cbn; [|done].
  split_and!; [|done|constructor]. split; cbn; [|done|].
  - assert (sub_keys (w_db w) (t_put T (update_where P f (t_rows T (w_db w))) (w_db w))) as HK.
    { apply tl_sub_keys, keys_kept_update. exact Hk. }
    apply tl_frame; [done..|]. destruct (tl_ok (T := T) _ Hd) as [H1 _ H3].
    split; rewrite tl_rows_put; [by apply Forall_update_where|by apply pairwise_distinct_unique|].
    apply Forall_update_where; [auto|]. eapply Forall_impl; [exact H3|].
    cbn. intros r. by apply tl_fk_mono.
  - apply sl_put; [done|]. apply Forall_update_where; [|by apply sl_get]. intros x HP. by apply HS.
Qed.

Lemma spec_delete P `{!∀ x, Decision (P x)} `{!DeleteLaws T} F :
  spec F (delete_rows T P) (λ _, []).
Proof.
  intros w Hw HF. pose proof Hw as [Hd H0 Hs]. unfold delete_rows.
  case_match; cbn; [|done]. split_and!; [|done|constructor].
  split; cbn; [by apply tl_delete|done|].
  apply sl_cascade, sl_put; [done|]. by apply Forall_delete_where, sl_get.
Qed.

Lemma spec_upsert P `{!∀ x, Decision (P x)} r f F :
  (∀ n, 0 ≤ n → Forall (λ z, z ≤ n) F → sl_row n r) →
  keeps T P f → keeps_seq F P f → spec F (upsert_row T P r f) (λ _, []).
Proof.
  intros Hr HK HS w Hw HF. unfold upsert_row. case_match.
  - refine (spec_bind _ _ F (λ _, []) (λ _, []) (spec_insert r F Hr) _ w Hw HF).
    intros _. apply spec_ret. constructor.
  - refine (spec_bind _ _ F (λ _, []) (λ _, []) (spec_update P f F HK HS) _ w Hw HF).
    intros _. apply spec_ret. constructor.
Qed.
End spec_statements.

Lemma spec_uuid `{UuidSource} F : spec F uuid_New (λ _, []).
Proof.
  intros w [Hd H0 Hs] HF. cbn. split_and!; [by split|done|constructor].
Qed.

(** The number drawn is the bound from then on. *)
Lemma spec_nextval_commits F : spec F nextval_commits (λ n, [n]).
Proof.
  intros w Hw HF. pose proof Hw as [Hd H0 Hs]. unfold nextval_commits.
  case_match; cbn; [split_and!; done|].
  split_and!; [|lia|repeat constructor; cbn; lia].
  split; cbn; [done|lia|]. eapply seq_bounded_mono; [|done]. lia.
Qed.

Lemma spec_nextval_event_log F : spec F nextval_event_log (λ _, []).
Proof.
  intros w Hw HF. pose proof Hw as [Hd H0 Hs]. unfold nextval_event_log.
  case_match; cbn; [done|]. split_and!; [by split|done|constructor].
Qed.

Ltac solve_keeps :=
  match goal with
  | |- keeps _ _ _ =>
      split; cbn; intros; destruct_and?; try reflexivity; try assumption
  | |- keeps_seq _ _ _ _ =>
      let HF := fresh in
      intros ? ? ? HF ? ?; cbn in *; rewrite ?Forall_cons in HF; destruct_and?; cbn beta in *;
      split_and?; first [exact I | assumption | lia]
  | |- ∀ _, 0 ≤ _ → Forall _ _ → _ =>
      let HF := fresh in
      intros ? ? HF; cbn in *; rewrite ?Forall_cons in HF; destruct_and?; cbn beta in *;
      split_and?; first [exact I | assumption | lia]
  end.

(** Walk through the text of an operation whose values say nothing about
    sequences. *)
Ltac spec_step :=
  lazymatch goal with
  | |- spec ?F ?m _ =>
      first
        [ let H := fresh in
          assert (preserves m) as H by (solve [eauto with docstore nocore]); exact (H F)
        | lazymatch m with
          | mret _ => apply spec_ret; intros; constructor
          | fail _ => apply spec_fail
          | gets _ => apply spec_gets; intros; constructor
          | now => apply spec_gets; intros; constructor
          | time_Now => apply spec_gets; intros; constructor
          | uuid_New => apply spec_uuid
          | nextval_event_log => apply spec_nextval_event_log
          | select _ _ => apply spec_select
          | insert_row _ _ => refine (spec_insert _ _ _ _); solve [solve_keeps]
          | delete_rows _ _ => refine (spec_delete _ _ _)
          | update_rows _ _ _ => refine (spec_update _ _ _ _ _ _); solve [solve_keeps]
          | update_returning _ _ _ =>
              refine (spec_update_returning _ _ _ _ _ _); solve [solve_keeps]
          | upsert_row _ _ _ _ => refine (spec_upsert _ _ _ _ _ _ _ _); solve [solve_keeps]
          | wrap _ _ => apply spec_wrap
          | on_error _ _ => apply spec_on_error
          | or_not_found _ _ _ => apply spec_on_error
          | catch _ => apply spec_catch
          | query_row _ => apply spec_query_row_nil
          | in_tx _ _ => apply spec_in_tx; [|intros; constructor]
          | WithTx _ _ => apply spec_WithTx
          | mapM _ _ => eapply spec_nil, (spec_mapM _ _ _ (λ _, [])); intros
          | mbind _ _ => eapply (spec_bind _ _ _ (λ _, [])); [|intros]
          | match ?x with _ => _ end => destruct x
          end ]
  end.
Ltac solve_spec := unfold preserves; intros; repeat spec_step.
