(* ===== verification/Orgs.v ===== *)
(** * Organisations, repositories, members and invitations (internal/db/store.go)

    One definition per method of [Store] on the tables [orgs], [repos],
    [roles], [org_members] and [org_invites]. *)

From S2P Require Import Prelude Schema Tx Integrity.

Section Orgs.
Context `{Collation} `{UuidSource}.

(** ** Organisations *)

Definition system_if_empty (createdBy : string) : string :=
  if bool_decide (createdBy = "") then "system" else createdBy.

Definition CreateOrg (name createdBy : string) : M org :=
  let createdBy := system_if_empty createdBy in
  on_error
    (t ← now;
     let o := mkOrg name t createdBy in
     insert_row orgs o;; mret o)
    (λ err, if isDuplicateKeyError err then ErrOrgExists else Errorf "insert org" err).

Definition GetOrg (name : string) : M org :=
  on_error (query_row (select orgs (λ o, org_name o = name)))
    (λ err, if errors_Is err sql_ErrNoRows then ErrOrgNotFound else err).

Definition ListOrgs : M (list org) :=
  l ← select orgs (λ _, True);
  mret (order_by org_name l).

Definition DeleteOrg (name : string) : M unit :=
  in_tx tt (
    exists_ ← gets (λ w, bool_decide (has_org (w_db w) name));
    if negb exists_ then fail ErrOrgNotFound else
    owned ← select repos (λ r, repo_owner r = name);
    if (0 <? Z.of_nat (length owned)) then fail ErrOrgHasRepos else
    wrap "delete org: remove members" (delete_rows org_members (λ m, om_org m = name));;
    wrap "delete org: remove invites" (delete_rows org_invites (λ i, inv_org i = name));;
    wrap "delete org" (delete_rows orgs (λ o, org_name o = name));;
    mret tt).

(** ** Repositories *)

Definition ListOrgRepos (owner : string) : M (list repo) :=
  l ← select repos (λ r, repo_owner r = owner);
  mret (order_by repo_name l).

(** [model.CreateRepoRequest] *)
Record CreateRepoRequest := mkCreateRepoRequest {
  crr_Owner : string; crr_Name : string; crr_CreatedBy : string;
}.

Definition FullName (r : CreateRepoRequest) : string := crr_Owner r +:+ "/" +:+ crr_Name r.

Definition CreateRepo (req : CreateRepoRequest) : M repo :=
  let createdBy := system_if_empty (crr_CreatedBy req) in
  let fullName := FullName req in
  t ← now;
  let r := mkRepo fullName (crr_Owner req) t createdBy in
  in_tx r (
    on_error (insert_row repos r)
      (λ err, if isDuplicateKeyError err then ErrRepoExists
              else if isForeignKeyViolation err then ErrOrgNotFound
              else Errorf "insert repo" err);;
    wrap "seed main branch"
      (insert_row branches (mkBranch fullName "main" 0 0 Active t "system" false false));;
    mret r).

Definition DeleteRepo (name : string) : M unit :=
  in_tx tt (
    exists_ ← gets (λ w, bool_decide (has_repo (w_db w) name));
    if negb exists_ then fail ErrRepoNotFound else
    wrap "delete check_runs" (delete_rows check_runs (λ r, cr_repo r = name));;
    wrap "delete reviews" (delete_rows reviews (λ r, rv_repo r = name));;
    wrap "delete file_commits" (delete_rows file_commits (λ r, fc_repo r = name));;
    wrap "delete commits" (delete_rows commits (λ r, c_repo r = name));;
    wrap "delete documents" (delete_rows documents (λ r, doc_repo r = name));;
    wrap "delete branches" (delete_rows branches (λ r, br_repo r = name));;
    wrap "delete roles" (delete_rows roles (λ r, ro_repo r = name));;
    wrap "delete repo" (delete_rows repos (λ r, repo_name r = name));;
    mret tt).

Definition ListRepos : M (list repo) :=
  l ← select repos (λ _, True);
  mret (order_by repo_name l).

Definition GetRepo (name : string) : M repo :=
  on_error (query_row (select repos (λ r, repo_name r = name)))
    (λ err, if errors_Is err sql_ErrNoRows then ErrRepoNotFound else err).

(** ** Roles *)

(** [model.Role] *)
Record Role := mkRole { role_Identity : string; role_Role : role_type }.

(** The rows of [org_members om JOIN repos r ON r.owner = om.org]. *)
Definition members_of_owner (d : DB) (repo identity : string) : list org_member :=
  m ← db_org_members d;
  r ← db_repos d;
  if decide (repo_owner r = om_org m ∧ repo_name r = repo ∧ om_identity m = identity)
  then [m] else [].

Definition GetRole (repo identity : string) : M Role :=
  first ← catch (query_row (select roles (λ r, ro_repo r = repo ∧ ro_identity r = identity)));
  match first with
  | Ok r => mret (mkRole (ro_identity r) (ro_role r))
  | Fail err =>
      if negb (errors_Is err sql_ErrNoRows) then fail err else
      m ← on_error (query_row (gets (λ w, members_of_owner (w_db w) repo identity)))
            (λ err, if errors_Is err sql_ErrNoRows then ErrRoleNotFound else err);
      mret (mkRole identity (match om_role m with Owner => Admin | Member => Reader end))
  end.

Definition role_with_role (v : role_type) (r : role_row) : role_row :=
  mkRoleRow (ro_repo r) (ro_identity r) v.

Definition SetRole (repo identity : string) (role : role_type) : M unit :=
  upsert_row roles (λ r, ro_repo r = repo ∧ ro_identity r = identity)
    (mkRoleRow repo identity role) (role_with_role role);;
  mret tt.

(** [n, err := result.RowsAffected(); if n == 0 { return notFound }] *)
Definition none_affected (notFound : error) (n : Z) : M unit :=
  if n =? 0 then fail notFound else mret tt.

Definition DeleteRole (repo identity : string) : M unit :=
  n ← delete_rows roles (λ r, ro_repo r = repo ∧ ro_identity r = identity);
  none_affected ErrRoleNotFound n.

Definition ListRoles (repo : string) : M (list Role) :=
  l ← select roles (λ r, ro_repo r = repo);
  mret ((λ r, mkRole (ro_identity r) (ro_role r)) <$> order_by ro_identity l).

(** [model.RepoRole] *)
Record RepoRole := mkRepoRole { rr_Repo : string; rr_Role : role_type }.

Definition ListRolesByIdentity (identity : string) : M (list RepoRole) :=
  l ← select roles (λ r, ro_identity r = identity);
  mret ((λ r, mkRepoRole (ro_repo r) (ro_role r)) <$> order_by ro_repo l).

Definition HasAdmin (repo : string) : M bool :=
  l ← select roles (λ r, ro_repo r = repo ∧ ro_role r = Admin);
  mret (bool_decide (l ≠ [])).

(** ** Organisation members *)

Definition GetOrgMember (org identity : string) : M org_member :=
  on_error
    (query_row (select org_members (λ m, om_org m = org ∧ om_identity m = identity)))
    (λ err, if errors_Is err sql_ErrNoRows then ErrOrgMemberNotFound else err).

Definition member_with (role : org_role) (invitedBy : string) (m : org_member) : org_member :=
  mkOrgMember (om_org m) (om_identity m) role invitedBy (om_created_at m).

Definition AddOrgMember (org identity : string) (role : org_role) (invitedBy : string)
    : M unit :=
  t ← now;
  upsert_row org_members (λ m, om_org m = org ∧ om_identity m = identity)
    (mkOrgMember org identity role invitedBy t) (member_with role invitedBy);;
  mret tt.

Definition RemoveOrgMember (org identity : string) : M unit :=
  n ← delete_rows org_members (λ m, om_org m = org ∧ om_identity m = identity);
  none_affected ErrOrgMemberNotFound n.

Definition ListOrgMembers (org : string) : M (list org_member) :=
  l ← select org_members (λ m, om_org m = org);
  mret (order_by om_identity l).

Definition ListOrgMemberships (identity : string) : M (list org_member) :=
  l ← select org_members (λ m, om_identity m = identity);
  mret (order_by om_org l).

(** ** Invitations *)

Definition CreateInvite (org email : string) (role : org_role) (invitedBy token : string)
    (expiresAt : Z) : M org_invite :=
  id ← uuid_New;
  t ← now;
  let inv := mkOrgInvite id org email role invitedBy token (timestamptz expiresAt) None t in
  wrap "insert invite" (insert_row org_invites inv);;
  mret inv.

(** [model.OrgInvite] without the token and the acceptance, which the list
    queries do not select. *)
Definition public_invite (i : org_invite) : org_invite :=
  mkOrgInvite (inv_id i) (inv_org i) (inv_email i) (inv_role i) (inv_invited_by i) ""
    (inv_expires_at i) None (inv_created_at i).

Definition ListInvites (org : string) : M (list org_invite) :=
  t ← now;
  l ← select org_invites (λ i, inv_org i = org ∧ inv_accepted_at i = None ∧ t < inv_expires_at i);
  mret (public_invite <$> order_by_asc inv_created_at l).

Definition GetInviteByToken (org token : string) : M org_invite :=
  i ← or_not_found
        (query_row (select org_invites (λ i, inv_org i = org ∧ inv_token i = token)))
        ErrInviteNotFound "get invite by token";
  mret (public_invite i).

Definition invite_accepted (t : Z) (i : org_invite) : org_invite :=
  mkOrgInvite (inv_id i) (inv_org i) (inv_email i) (inv_role i) (inv_invited_by i)
    (inv_token i) (inv_expires_at i) (Some t) (inv_created_at i).

Definition AcceptInvite (org token identity : string) : M unit :=
  in_tx tt (
    inv ← or_not_found
            (query_row (select org_invites (λ i, inv_org i = org ∧ inv_token i = token)))
            ErrInviteNotFound "fetch invite";
    if bool_decide (inv_accepted_at inv ≠ None) then fail ErrInviteAlreadyAccepted else
    clock ← time_Now;
    if inv_expires_at inv <? clock then fail ErrInviteExpired else
    if bool_decide (inv_email inv ≠ identity) then fail ErrEmailMismatch else
    t ← now;
    wrap "update invite"
      (update_rows org_invites (λ i, inv_id i = inv_id inv) (invite_accepted t));;
    wrap "add member"
      (rows ← select org_invites (λ i, inv_id i = inv_id inv);
       mapM (λ i, upsert_row org_members
                    (λ m, om_org m = inv_org i ∧ om_identity m = identity)
                    (mkOrgMember (inv_org i) identity (inv_role i) (inv_invited_by i) t)
                    (member_with (inv_role i) (inv_invited_by i))) rows);;
    mret tt).

Definition RevokeInvite (org inviteID : string) : M unit :=
  n ← delete_rows org_invites (λ i, inv_id i = inviteID ∧ inv_org i = org);
  none_affected ErrInviteNotFound n.

(** ** Integrity: every operation keeps [wf] *)

Lemma none_affected_preserves e n : preserves (none_affected e n).
Proof. unfold none_affected. solve_spec. Qed.
#[local] Hint Resolve none_affected_preserves : docstore.

Lemma CreateOrg_preserves name createdBy : preserves (CreateOrg name createdBy).
Proof. unfold CreateOrg. solve_spec. Qed.
Lemma GetOrg_preserves name : preserves (GetOrg name).
Proof. unfold GetOrg. solve_spec. Qed.
Lemma ListOrgs_preserves : preserves ListOrgs.
Proof. unfold ListOrgs. solve_spec. Qed.
Lemma DeleteOrg_preserves name : preserves (DeleteOrg name).
Proof. unfold DeleteOrg. solve_spec. Qed.
Lemma ListOrgRepos_preserves owner : preserves (ListOrgRepos owner).
Proof. unfold ListOrgRepos. solve_spec. Qed.
Lemma CreateRepo_preserves req : preserves (CreateRepo req).
Proof. unfold CreateRepo. solve_spec. Qed.
Lemma DeleteRepo_preserves name : preserves (DeleteRepo name).
Proof. unfold DeleteRepo. solve_spec. Qed.
Lemma ListRepos_preserves : preserves ListRepos.
Proof. unfold ListRepos. solve_spec. Qed.
Lemma GetRepo_preserves name : preserves (GetRepo name).
Proof. unfold GetRepo. solve_spec. Qed.
Lemma GetRole_preserves repo identity : preserves (GetRole repo identity).
Proof. unfold GetRole. solve_spec. Qed.
Lemma SetRole_preserves repo identity role : preserves (SetRole repo identity role).
Proof. unfold SetRole. solve_spec. Qed.
Lemma DeleteRole_preserves repo identity : preserves (DeleteRole repo identity).
Proof. unfold DeleteRole. solve_spec. Qed.
Lemma ListRoles_preserves repo : preserves (ListRoles repo).
Proof. unfold ListRoles. solve_spec. Qed.
Lemma ListRolesByIdentity_preserves identity : preserves (ListRolesByIdentity identity).
Proof. unfold ListRolesByIdentity. solve_spec. Qed.
Lemma HasAdmin_preserves repo : preserves (HasAdmin repo).
Proof. unfold HasAdmin. solve_spec. Qed.
Lemma GetOrgMember_preserves org identity : preserves (GetOrgMember org identity).
Proof. unfold GetOrgMember. solve_spec. Qed.
Lemma AddOrgMember_preserves org identity role invitedBy : preserves (AddOrgMember org identity role invitedBy).
Proof. unfold AddOrgMember. solve_spec. Qed.
Lemma RemoveOrgMember_preserves org identity : preserves (RemoveOrgMember org identity).
Proof. unfold RemoveOrgMember. solve_spec. Qed.
Lemma ListOrgMembers_preserves org : preserves (ListOrgMembers org).
Proof. unfold ListOrgMembers. solve_spec. Qed.
Lemma ListOrgMemberships_preserves identity : preserves (ListOrgMemberships identity).
Proof. unfold ListOrgMemberships. solve_spec. Qed.
Lemma CreateInvite_preserves org email role invitedBy token expiresAt : preserves (CreateInvite org email role invitedBy token expiresAt).
Proof. unfold CreateInvite. solve_spec. Qed.
Lemma ListInvites_preserves org : preserves (ListInvites org).
Proof. unfold ListInvites. solve_spec. Qed.
Lemma GetInviteByToken_preserves org token : preserves (GetInviteByToken org token).
Proof. unfold GetInviteByToken, or_not_found. solve_spec. Qed.
Lemma AcceptInvite_preserves org token identity : preserves (AcceptInvite org token identity).
Proof. unfold AcceptInvite, or_not_found. solve_spec. Qed.
Lemma RevokeInvite_preserves org inviteID : preserves (RevokeInvite org inviteID).
Proof. unfold RevokeInvite. solve_spec. Qed.
End Orgs.

#[export] Hint Resolve none_affected_preserves
  CreateOrg_preserves GetOrg_preserves ListOrgs_preserves
  DeleteOrg_preserves ListOrgRepos_preserves CreateRepo_preserves
  DeleteRepo_preserves ListRepos_preserves GetRepo_preserves
  GetRole_preserves SetRole_preserves DeleteRole_preserves
  ListRoles_preserves ListRolesByIdentity_preserves HasAdmin_preserves
  GetOrgMember_preserves AddOrgMember_preserves RemoveOrgMember_preserves
  ListOrgMembers_preserves ListOrgMemberships_preserves CreateInvite_preserves
  ListInvites_preserves GetInviteByToken_preserves AcceptInvite_preserves
  RevokeInvite_preserves : docstore.
