(* ===== verification/Blob.v ===== *)
(** * External blob storage (internal/blob/blob.go)

    The [BlobStore] interface as operations on [w_blobs].  A backend may fail:
    a [BlobStore] value says for which keys each call returns an error before
    it has any effect; with no failure the operations are those of
    [LocalBlobStore], one file per key.  The sentinel [errRollback] is private
    to internal/db, so no backend returns it. *)

From S2P Require Import Prelude Schema Tx Run.

Record BlobStore := mkBlobStore {
  bs_put_err : string → option error;
  bs_get_err : string → option error;
  bs_delete_err : string → option error;
  bs_put_foreign k e : bs_put_err k = Some e → foreign e;
  bs_delete_foreign k e : bs_delete_err k = Some e → foreign e;
}.

(** A backend that does not fail. *)
Definition reliable : BlobStore.
Proof. by refine (mkBlobStore (λ _, None) (λ _, None) (λ _, None) _ _). Defined.

Definition blob_Put (bs : BlobStore) (key data : string) : M unit := λ w,
  match bs_put_err bs key with
  | Some e => (w, Fail (Errorf "write blob" e))
  | None => (with_blobs (<[key := data]> (w_blobs w)) w, Ok tt)
  end.

Definition err_not_exist : error := New "file does not exist".

Definition blob_Get (bs : BlobStore) (key : string) : M string := λ w,
  match bs_get_err bs key, w_blobs w !! key with
  | Some e, _ => (w, Fail (Errorf "open blob" e))
  | None, None => (w, Fail (Errorf "open blob" err_not_exist))
  | None, Some data => (w, Ok data)
  end.

Definition blob_Exists (bs : BlobStore) (key : string) : M bool :=
  gets (λ w, bool_decide (is_Some (w_blobs w !! key))).

(** It is not an error if the blob does not exist. *)
Definition blob_Delete (bs : BlobStore) (key : string) : M unit := λ w,
  match bs_delete_err bs key with
  | Some e => (w, Fail e)
  | None => (with_blobs (delete key (w_blobs w)) w, Ok tt)
  end.

(** ** Runs *)
Lemma blob_Put_ok bs key data w w' u :
  blob_Put bs key data w = (w', Ok u) →
  w' = with_blobs (<[key := data]> (w_blobs w)) w.
Proof. unfold blob_Put. by case_match; intros [= <-]. Qed.

Lemma blob_Put_no_rollback bs key data : no_rollback (blob_Put bs key data).
Proof.
  intros w w' e. unfold blob_Put. case_match eqn:E; [|done].
  intros [= <- <-]. exact (bs_put_foreign bs key _ E).
Qed.

Lemma blob_Delete_no_rollback bs key : no_rollback (blob_Delete bs key).
Proof.
  intros w w' e. unfold blob_Delete. case_match eqn:E; [|done].
  intros [= <- <-]. exact (bs_delete_foreign bs key _ E).
Qed.

#[export] Hint Resolve blob_Put_no_rollback blob_Delete_no_rollback : docstore.
