(* ===== verification/Guarantee.v ===== *)
(** * What an operation guarantees about the tables

    [guarantees R m]: whatever its outcome, a run of [m] relates the tables
    before and after by [R].  For a preorder [R] this follows from the
    statements of [m], since a rollback restores the tables; the walker
    [solve_guarantees] takes an operation apart down to them.  [frame f] is the
    relation of the operations that leave [f] of the tables unchanged, [keeps_inv
    I] that of the operations that preserve [I]. *)

From S2P Require Import Prelude Schema Tx Run Blob.

Definition guarantees {A} (R : relation DB) (m : M A) : Prop :=
  ∀ w, R (w_db w) (w_db (m w).1).

Definition frame {X} (f : DB → X) : relation DB := λ d d', f d' = f d.
Definition keeps_inv (I : DB → Prop) : relation DB := λ d d', I d → I d'.

#[export] Instance frame_preorder {X} (f : DB → X) : PreOrder (frame f).
Proof. split; [done|]. intros a b c Hab Hbc. unfold frame in *. congruence. Qed.
#[export] Instance keeps_inv_preorder I : PreOrder (keeps_inv I).
Proof. split; unfold keeps_inv; [by intros d|by intros a b c; auto]. Qed.

Lemma frame_ok {X A} (f : DB → X) (m : M A) w :
  guarantees (frame f) m → f (w_db (m w).1) = f (w_db w).
Proof. intros Hm. apply Hm. Qed.

Section rules.
Context (R : relation DB) `{!PreOrder R}.

Lemma g_same {A} (m : M A) : (∀ w, w_db (m w).1 = w_db w) → guarantees R m.
Proof. intros Hm w. by rewrite Hm. Qed.

Lemma g_ret {A} (a : A) : guarantees R (mret a : M A).
Proof. by apply g_same. Qed.
Lemma g_fail {A} e : guarantees R (fail e : M A).
Proof. by apply g_same. Qed.
Lemma g_gets {A} (f : World → A) : guarantees R (gets f).
Proof. by apply g_same. Qed.

Lemma g_bind {A B} (m : M A) (f : A → M B) :
  guarantees R m → (∀ a, guarantees R (f a)) → guarantees R (m ≫= f).
Proof.
  intros Hm Hf w. specialize (Hm w). unfold mbind, M_bind.
  destruct (m w) as [w1 [a|e]]; [|done]. by etrans; [|apply Hf].
Qed.
Lemma g_wrap {A} t (m : M A) : guarantees R m → guarantees R (wrap t m).
Proof. intros Hm w. specialize (Hm w). unfold wrap. by destruct (m w) as [w1 [a|e]]. Qed.
Lemma g_on_error {A} (m : M A) h : guarantees R m → guarantees R (on_error m h).
Proof. intros Hm w. specialize (Hm w). unfold on_error. by destruct (m w) as [w1 [a|e]]. Qed.
Lemma g_catch {A} (m : M A) : guarantees R m → guarantees R (catch m).
Proof. intros Hm w. specialize (Hm w). unfold catch. by destruct (m w) as [w1 [a|e]]. Qed.
Lemma g_query_row {A} (m : M (list A)) : guarantees R m → guarantees R (query_row m).
Proof. intros Hm. apply g_bind; [done|]. intros [|x l]; [apply g_fail|apply g_ret]. Qed.
Lemma g_mapM {A B} (f : A → M B) l : (∀ a, guarantees R (f a)) → guarantees R (mapM f l).
Proof.
  intros Hf. induction l as [|a l IH]; [apply g_ret|].
  apply g_bind; [done|]. intros b. apply g_bind; [done|]. intros k. apply g_ret.
Qed.
Lemma g_foldl {A B} (f : M A → B → M A) l m :
  guarantees R m → (∀ m b, guarantees R m → guarantees R (f m b)) → guarantees R (foldl f m l).
Proof. intros Hm Hf. revert m Hm. induction l as [|b l IH]; intros m Hm; [done|]. by apply IH, Hf. Qed.

Lemma g_WithTx {C} (c0 : C) fn : guarantees R fn → guarantees R (WithTx c0 fn).
Proof.
  intros Hf w. specialize (Hf w). unfold WithTx.
  by destruct (fn w) as [w1 [[c [e|]]|e]]; cbn in *.
Qed.
Lemma g_in_tx {A} (a0 : A) fn : guarantees R fn → guarantees R (in_tx a0 fn).
Proof.
  intros Hf. unfold in_tx. apply g_bind.
  - apply g_WithTx, g_bind; [done|]. intros a. apply g_ret.
  - intros [a [e|]]; [apply g_fail|apply g_ret].
Qed.

Lemma g_uuid `{UuidSource} : guarantees R uuid_New.
Proof. by apply g_same. Qed.
Lemma g_nextval_commits : guarantees R nextval_commits.
Proof. apply g_same. intros w. unfold nextval_commits. by case_match. Qed.
Lemma g_nextval_event_log : guarantees R nextval_event_log.
Proof. apply g_same. intros w. unfold nextval_event_log. by case_match. Qed.
Lemma g_blob_Put bs key data : guarantees R (blob_Put bs key data).
Proof. apply g_same. intros w. unfold blob_Put. by case_match. Qed.
Lemma g_blob_Get bs key : guarantees R (blob_Get bs key).
Proof. apply g_same. intros w. unfold blob_Get. by repeat case_match. Qed.
Lemma g_blob_Delete bs key : guarantees R (blob_Delete bs key).
Proof. apply g_same. intros w. unfold blob_Delete. by case_match. Qed.

Section statements.
Context {A : Type} (T : Table A).

Lemma g_insert r : (∀ d, R d (t_put T (t_rows T d ++ [r]) d)) → guarantees R (insert_row T r).
Proof. intros HR w. unfold insert_row. repeat case_match; cbn; done || apply HR. Qed.
Lemma g_update P `{!∀ x, Decision (P x)} f :
  (∀ d, R d (t_put T (update_where P f (t_rows T d)) d)) → guarantees R (update_rows T P f).
Proof. intros HR w. apply HR. Qed.
Lemma g_update_unique P `{!∀ x, Decision (P x)} f :
  (∀ d, R d (t_put T (update_where P f (t_rows T d)) d)) → guarantees R (update_unique T P f).
Proof. intros HR w. unfold update_unique. case_match; [apply HR|done]. Qed.
Lemma g_update_returning P `{!∀ x, Decision (P x)} f :
  (∀ d, R d (t_put T (update_where P f (t_rows T d)) d)) →
  guarantees R (update_returning T P f).
Proof. intros HR w. apply HR. Qed.
Lemma g_delete P `{!∀ x, Decision (P x)} :
  (∀ d, R d (t_cascade T (t_put T (delete_where P (t_rows T d)) d))) →
  guarantees R (delete_rows T P).
Proof. intros HR w. unfold delete_rows. case_match; [apply HR|done]. Qed.
Lemma g_upsert P `{!∀ x, Decision (P x)} r f :
  (∀ d, R d (t_put T (t_rows T d ++ [r]) d)) →
  (∀ d, R d (t_put T (update_where P f (t_rows T d)) d)) →
  guarantees R (upsert_row T P r f).
Proof.
  intros Hi Hu w. unfold upsert_row. case_match.
  - by apply (g_bind _ _ (g_insert r Hi) (λ _, g_ret r)).
  - by apply (g_bind _ _ (g_update P f Hu) (λ _, g_ret (f a))).
Qed.
End statements.
End rules.

(** Opens the definition of an operation. *)
Ltac unfold_head m :=
  lazymatch m with
  | ?f _ => unfold_head f
  | ?c => unfold c
  end.

Ltac g_step :=
  lazymatch goal with
  | |- guarantees ?R ?m =>
      first
        [ solve [eauto with guarantees nocore]
        | lazymatch m with
          | mret _ => apply g_ret; apply _
          | fail _ => apply g_fail; apply _
          | gets _ => apply g_gets; apply _
          | select _ _ => apply g_gets; apply _
          | uuid_New => apply g_uuid; apply _
          | nextval_commits => apply g_nextval_commits; apply _
          | nextval_event_log => apply g_nextval_event_log; apply _
          | blob_Put _ _ _ => apply g_blob_Put; apply _
          | blob_Get _ _ => apply g_blob_Get; apply _
          | blob_Delete _ _ => apply g_blob_Delete; apply _
          | insert_row _ _ => apply (g_insert R); intros
          | delete_rows _ _ => refine (g_delete R _ _ _); intros
          | update_rows _ _ _ => refine (g_update R _ _ _ _); intros
          | update_unique _ _ _ => refine (g_update_unique R _ _ _ _); intros
          | update_returning _ _ _ => refine (g_update_returning R _ _ _ _); intros
          | upsert_row _ _ _ _ => refine (g_upsert R _ _ _ _ _ _); intros
          | wrap _ _ => apply (g_wrap R)
          | on_error _ _ => apply (g_on_error R)
          | catch _ => apply (g_catch R)
          | query_row _ => apply (g_query_row R)
          | in_tx _ _ => apply (g_in_tx R)
          | WithTx _ _ => apply (g_WithTx R)
          | mapM _ _ => apply (g_mapM R); intros
          | foldl _ _ _ => apply (g_foldl R); intros
          | mbind _ _ => apply (g_bind R); [|intros]
          | match ?x with _ => _ end => destruct x
          | _ => unfold_head m
          end ]
  end.
Create HintDb guarantees.
Ltac solve_guarantees := intros; repeat g_step.
Ltac solve_framed := solve_guarantees; try (reflexivity || assumption).

(** ** Operations that only read *)

(** A run of [m] leaves the whole world as it is. *)
Definition reads {A} (m : M A) : Prop := ∀ w, (m w).1 = w.

Lemma reads_run {A} (m : M A) w w' r : reads m → m w = (w', r) → w' = w.
Proof. intros Hm E. specialize (Hm w). by rewrite E in Hm. Qed.

Lemma rd_ret {A} (a : A) : reads (mret a : M A).
Proof. done. Qed.
Lemma rd_fail {A} e : reads (fail e : M A).
Proof. done. Qed.
Lemma rd_gets {A} (f : World → A) : reads (gets f).
Proof. done. Qed.
Lemma rd_bind {A B} (m : M A) (f : A → M B) : reads m → (∀ a, reads (f a)) → reads (m ≫= f).
Proof.
  intros Hm Hf w. specialize (Hm w). unfold mbind, M_bind.
  destruct (m w) as [w1 [a|e]]; cbn in Hm; subst; [apply Hf|done].
Qed.
Lemma rd_wrap {A} t (m : M A) : reads m → reads (wrap t m).
Proof. intros Hm w. specialize (Hm w). unfold wrap. by destruct (m w) as [w1 [a|e]]. Qed.
Lemma rd_on_error {A} (m : M A) h : reads m → reads (on_error m h).
Proof. intros Hm w. specialize (Hm w). unfold on_error. by destruct (m w) as [w1 [a|e]]. Qed.
Lemma rd_catch {A} (m : M A) : reads m → reads (catch m).
Proof. intros Hm w. specialize (Hm w). unfold catch. by destruct (m w) as [w1 [a|e]]. Qed.
Lemma rd_query_row {A} (m : M (list A)) : reads m → reads (query_row m).
Proof. intros Hm. apply rd_bind; [done|]. intros [|x l]; [apply rd_fail|apply rd_ret]. Qed.
Lemma rd_mapM {A B} (f : A → M B) l : (∀ a, reads (f a)) → reads (mapM f l).
Proof.
  intros Hf. induction l as [|a l IH]; [apply rd_ret|].
  apply rd_bind; [done|]. intros b. apply rd_bind; [done|]. intros k. apply rd_ret.
Qed.
Lemma rd_blob_Get bs key : reads (blob_Get bs key).
Proof. intros w. unfold blob_Get. by repeat case_match. Qed.

Ltac rd_step :=
  lazymatch goal with
  | |- reads ?m =>
      first
        [ solve [eauto with reads nocore]
        | lazymatch m with
          | mret _ => apply rd_ret
          | fail _ => apply rd_fail
          | gets _ => apply rd_gets
          | select _ _ => apply rd_gets
          | blob_Get _ _ => apply rd_blob_Get
          | wrap _ _ => apply rd_wrap
          | on_error _ _ => apply rd_on_error
          | catch _ => apply rd_catch
          | query_row _ => apply rd_query_row
          | mapM _ _ => apply rd_mapM; intros
          | mbind _ _ => apply rd_bind; [|intros]
          | match ?x with _ => _ end => destruct x
          | _ => unfold_head m
          end ]
  end.
Create HintDb reads.
Ltac solve_reads := intros; repeat rd_step.
