(* ===== verification/Commits.v ===== *)
(** * Commits and branches (internal/db/store.go)

    [Commit] with its helpers on the hash chain, and the operations on a
    branch row: [CreateBranch], [UpdateBranchDraft], [SetBranchAutoMerge],
    [DeleteBranch]. *)

From S2P Require Import Prelude GoStd Schema Tx Integrity Blob Orgs.
From S2P Require Hash.

(** [type Store struct]: the configuration of the store besides its database. *)
Record Store := mkStore {
  s_blobStore : option BlobStore;
  s_blobThreshold : Z;
}.

Definition NewStore : Store := mkStore None 0.
Definition SetBlobStore (bs : BlobStore) (thresholdBytes : Z) (s : Store) : Store :=
  mkStore (Some bs) thresholdBytes.

(** ** Row updates *)
Definition branch_with_head (h : Z) (b : branch) : branch :=
  mkBranch (br_repo b) (br_name b) h (br_base_sequence b) (br_status b) (br_created_at b)
    (br_created_by b) (br_draft b) (br_auto_merge b).
Definition branch_with_base_head (base h : Z) (b : branch) : branch :=
  mkBranch (br_repo b) (br_name b) h base (br_status b) (br_created_at b)
    (br_created_by b) (br_draft b) (br_auto_merge b).
Definition branch_with_status (st : branch_status) (b : branch) : branch :=
  mkBranch (br_repo b) (br_name b) (br_head_sequence b) (br_base_sequence b) st
    (br_created_at b) (br_created_by b) (br_draft b) (br_auto_merge b).
Definition branch_with_draft (v : bool) (b : branch) : branch :=
  mkBranch (br_repo b) (br_name b) (br_head_sequence b) (br_base_sequence b) (br_status b)
    (br_created_at b) (br_created_by b) v (br_auto_merge b).
Definition branch_with_auto_merge (v : bool) (b : branch) : branch :=
  mkBranch (br_repo b) (br_name b) (br_head_sequence b) (br_base_sequence b) (br_status b)
    (br_created_at b) (br_created_by b) (br_draft b) v.
Definition commit_with_hash (h : string) (c : commit) : commit :=
  mkCommit (c_sequence c) (c_branch c) (c_message c) (c_author c) (c_created_at c)
    (c_repo c) (Some h).

(** ** Helpers on the hash chain *)

Definition fetchPrevCommitHash (repo branch : string) (seq : Z) : M string :=
  older ← select commits (λ c, c_repo c = repo ∧ c_branch c = branch ∧ c_sequence c < seq);
  rows ← select commits (λ c, c_repo c = repo ∧ c_branch c = branch ∧
                              Some (c_sequence c) = sql_max (c_sequence <$> older));
  match rows with
  | [] => mret Hash.GenesisHash
  | c :: _ =>
      match c_commit_hash c with
      | None => mret Hash.GenesisHash
      | Some h => if bool_decide (h = "") then mret Hash.GenesisHash else mret h
      end
  end.

Definition fetchVersionContentHash (versionID : option string) : M string :=
  match versionID with
  | None => mret ""
  | Some v =>
      d ← wrap "fetch content hash for version"
            (query_row (select documents (λ d, doc_version_id d = v)));
      mret (doc_content_hash d)
  end.

Definition batchFetchVersionContentHashes (versionIDs : list string)
    : M (gmap string string) :=
  match versionIDs with
  | [] => mret ∅
  | _ =>
      rows ← select documents (λ d, doc_version_id d ∈ versionIDs);
      mret (foldl (λ m d, <[doc_version_id d := doc_content_hash d]> m) ∅ rows)
  end.

Definition updateCommitHash (repo : string) (seq : Z) (hash : string) : M unit :=
  update_rows commits (λ c, c_repo c = repo ∧ c_sequence c = seq) (commit_with_hash hash);;
  mret tt.

(** [INSERT INTO commits (repo, branch, message, author) ... RETURNING sequence, created_at] *)
Definition insert_commit (repo branch message author : string) : M (Z * Z) :=
  seq ← nextval_commits;
  t ← now;
  insert_row commits (mkCommit seq branch message author t repo None);;
  mret (seq, t).

(** [SELECT ... FROM branches WHERE repo = $1 AND name = $2 FOR UPDATE] *)
Definition lock_branch (repo name : string) : M branch :=
  query_row (select branches (λ b, br_repo b = repo ∧ br_name b = name)).

Section Commits.
Context `{UuidSource}.

(** ** Commit *)

(** [api.FileChange]: no content means delete. *)
Record FileChange := mkFileChange {
  ch_Path : string; ch_Content : option string; ch_ContentType : string;
}.

Record CommitRequest := mkCommitRequest {
  cq_Repo : string; cq_Branch : string; cq_Files : list FileChange;
  cq_Message : string; cq_Author : string;
}.

Record CommitFileResult := mkCommitFileResult {
  cfr_Path : string; cfr_VersionID : option string;
}.

Record CommitResponse := mkCommitResponse {
  cp_Sequence : Z; cp_Files : list CommitFileResult; cp_CommitHash : string;
}.

(** Where the content of a new document goes: the value of its [content]
    column, or the blob store. *)
Definition stored_externally (s : Store) (content : string) : option BlobStore :=
  match s_blobStore s with
  | Some bs =>
      if (0 <? s_blobThreshold s) && (s_blobThreshold s <? Z.of_nat (String.length content))
      then Some bs else None
  | None => None
  end.

(** The document that holds [content] in [repo]: the one with the same hash, or
    a new row. The result is its version id. *)
Definition store_content (s : Store) (req : CommitRequest) (f : FileChange)
    (content : string) : M string :=
  let contentHash := sha256_hex content in
  existing ← catch (query_row (select documents
                (λ d, doc_repo d = cq_Repo req ∧ doc_content_hash d = contentHash)));
  match existing with
  | Ok d => mret (doc_version_id d)
  | Fail err =>
      if negb (errors_Is err sql_ErrNoRows) then fail (Errorf "check dedup" err) else
      existingID ← uuid_New;
      let contentType := nullif_empty (ch_ContentType f) in
      '(dbContent, blobKey) ←
        (match stored_externally s content with
         | Some bs => wrap "upload blob" (blob_Put bs contentHash content);;
                      mret (None, Some contentHash)
         | None => mret (Some content, None)
         end : M (option string * option string));
      t ← now;
      wrap "insert document"
        (insert_row documents
           (mkDocument existingID (ch_Path f) dbContent contentHash contentType t
              (cq_Author req) (cq_Repo req) blobKey));;
      mret existingID
  end.

(** The body of the loop over [req.Files]. *)
Definition commit_file (s : Store) (req : CommitRequest) (newSeq : Z) (f : FileChange)
    : M (CommitFileResult * Hash.File) :=
  '(versionIDPtr, fileContentHash) ←
    (match ch_Content f with
     | Some content =>
         v ← store_content s req f content;
         mret (Some v, sha256_hex content)
     | None => mret (None, "")
     end : M (option string * string));
  commitID ← uuid_New;
  wrap "insert file_commit"
    (insert_row file_commits
       (mkFileCommit commitID newSeq (ch_Path f) versionIDPtr (cq_Branch req) (cq_Repo req)));;
  mret (mkCommitFileResult (ch_Path f) versionIDPtr,
        Hash.mkFile (ch_Path f) fileContentHash).

Definition empty_response : CommitResponse := mkCommitResponse 0 [] "".

Definition Commit (s : Store) (req : CommitRequest) : M CommitResponse :=
  in_tx empty_response (
    b ← or_not_found (lock_branch (cq_Repo req) (cq_Branch req)) ErrBranchNotFound "lock branch";
    if bool_decide (br_status b ≠ Active) then fail ErrBranchNotActive else
    '(newSeq, commitCreatedAt) ←
      wrap "insert commit"
        (insert_commit (cq_Repo req) (cq_Branch req) (cq_Message req) (cq_Author req));
    done_files ← mapM (commit_file s req newSeq) (cq_Files req);
    wrap "update branch head"
      (update_rows branches (λ b, br_repo b = cq_Repo req ∧ br_name b = cq_Branch req)
         (branch_with_head newSeq));;
    prevHash ← fetchPrevCommitHash (cq_Repo req) (cq_Branch req) newSeq;
    let commitHash := Hash.CommitHash prevHash newSeq (cq_Repo req) (cq_Branch req)
                        (cq_Author req) (cq_Message req) commitCreatedAt (snd <$> done_files) in
    wrap "store commit hash" (updateCommitHash (cq_Repo req) newSeq commitHash);;
    mret (mkCommitResponse newSeq (fst <$> done_files) commitHash)).

(** ** Branches *)

Record CreateBranchRequest := mkCreateBranchRequest {
  cb_Repo : string; cb_Name : string; cb_Draft : bool;
}.

Record CreateBranchResponse := mkCreateBranchResponse {
  cbr_Name : string; cbr_BaseSequence : Z; cbr_Draft : bool;
}.

Definition CreateBranch (req : CreateBranchRequest) : M CreateBranchResponse :=
  mainHead ←
    in_tx 0 (
      main ← or_not_found (lock_branch (cb_Repo req) "main") ErrRepoNotFound "read main head";
      let mainHead := br_head_sequence main in
      t ← now;
      on_error
        (insert_row branches
           (mkBranch (cb_Repo req) (cb_Name req) mainHead mainHead Active t "system"
              (cb_Draft req) false))
        (λ err, if isDuplicateKeyError err then ErrBranchExists
                else if isForeignKeyViolation err then ErrRepoNotFound
                else Errorf "insert branch" err);;
      mret mainHead);
  mret (mkCreateBranchResponse (cb_Name req) mainHead (cb_Draft req)).

Definition UpdateBranchDraft (repo name : string) (draft : bool) : M unit :=
  n ← wrap "update branch draft"
        (update_rows branches (λ b, br_repo b = repo ∧ br_name b = name)
           (branch_with_draft draft));
  none_affected ErrBranchNotFound n.

Definition SetBranchAutoMerge (repo name : string) (autoMerge : bool) : M unit :=
  n ← wrap "set branch auto_merge"
        (update_rows branches (λ b, br_repo b = repo ∧ br_name b = name)
           (branch_with_auto_merge autoMerge));
  none_affected ErrBranchNotFound n.

Definition DeleteBranch (repo name : string) : M unit :=
  if bool_decide (name = "main") then fail ErrBranchNotActive else
  in_tx tt (
    b ← or_not_found (lock_branch repo name) ErrBranchNotFound "lock branch";
    if bool_decide (br_status b ≠ Active) then fail ErrBranchNotActive else
    wrap "update branch status"
      (update_rows branches (λ b, br_repo b = repo ∧ br_name b = name)
         (branch_with_status Abandoned));;
    mret tt).

(** ** Integrity *)

Lemma lock_branch_spec F repo name :
  spec F (lock_branch repo name) (λ b, [br_head_sequence b; br_base_sequence b]).
Proof.
  apply spec_query_row, spec_gets. intros w Hw _.
  pose proof (sb_branches _ _ (wf_seq_bounded _ Hw)) as Hb. rewrite Forall_forall in Hb.
  apply Forall_forall. intros z (b & Hz & [_ Hin]%list_elem_of_filter)%list_elem_of_bind.
  specialize (Hb b Hin) as [? ?].
  apply elem_of_cons in Hz as [->|Hz]; [done|]. by apply list_elem_of_singleton in Hz as ->.
Qed.

Lemma insert_commit_spec F repo branch message author :
  spec F (insert_commit repo branch message author) (λ p, [p.1]).
Proof.
  unfold insert_commit. eapply spec_bind; [apply spec_nextval_commits|]. intros n.
  unfold now. eapply (spec_bind _ _ _ (λ _, [])); [apply spec_gets; constructor|]. intros t.
  eapply (spec_bind _ _ _ (λ _, [])); [refine (spec_insert _ _ _ _); solve_keeps|]. intros _.
  apply spec_ret. intros w _ HF. by inversion HF; repeat constructor.
Qed.

Lemma blob_Put_preserves bs key data : preserves (blob_Put bs key data).
Proof.
  intros F w Hw HF. unfold blob_Put. case_match; cbn; [done|].
  destruct Hw. split_and!; [by split|done|constructor].
Qed.
#[local] Hint Resolve blob_Put_preserves : docstore.

Lemma store_content_preserves s req f content : preserves (store_content s req f content).
Proof. unfold store_content. solve_spec. Qed.
#[local] Hint Resolve store_content_preserves : docstore.

Lemma commit_file_preserves s req seq f : preserves (commit_file s req seq f).
Proof. unfold commit_file. solve_spec. Qed.

Lemma fetchPrevCommitHash_preserves repo branch seq :
  preserves (fetchPrevCommitHash repo branch seq).
Proof. unfold fetchPrevCommitHash. solve_spec. Qed.

Lemma updateCommitHash_preserves repo seq hash : preserves (updateCommitHash repo seq hash).
Proof. unfold updateCommitHash. solve_spec. Qed.

Lemma batchFetch_preserves ids : preserves (batchFetchVersionContentHashes ids).
Proof. unfold batchFetchVersionContentHashes. solve_spec. Qed.
#[local] Hint Resolve commit_file_preserves fetchPrevCommitHash_preserves
  updateCommitHash_preserves : docstore.

Lemma Commit_preserves s req : preserves (Commit s req).
Proof.
  intros F. unfold Commit. apply spec_in_tx; [|intros; constructor].
  eapply spec_bind; [apply spec_on_error, lock_branch_spec|]. intros b.
  case_bool_decide; [apply spec_fail|].
  eapply spec_bind; [apply spec_wrap, insert_commit_spec|]. intros [n t]. cbn [fst].
  solve_spec.
Qed.

Lemma CreateBranch_preserves req : preserves (CreateBranch req).
Proof.
  intros F. unfold CreateBranch. eapply (spec_bind _ _ _ (λ _, [])); [|solve_spec].
  apply spec_in_tx; [|intros; constructor].
  eapply spec_bind; [apply spec_on_error, lock_branch_spec|]. intros b. solve_spec.
Qed.

Lemma UpdateBranchDraft_preserves repo name v : preserves (UpdateBranchDraft repo name v).
Proof. unfold UpdateBranchDraft, none_affected. solve_spec. Qed.
Lemma SetBranchAutoMerge_preserves repo name v : preserves (SetBranchAutoMerge repo name v).
Proof. unfold SetBranchAutoMerge, none_affected. solve_spec. Qed.
Lemma lock_branch_preserves repo name : preserves (lock_branch repo name).
Proof. intros F. eapply spec_nil, lock_branch_spec. Qed.
#[local] Hint Resolve lock_branch_preserves : docstore.
Lemma DeleteBranch_preserves repo name : preserves (DeleteBranch repo name).
Proof. unfold DeleteBranch, or_not_found. solve_spec. Qed.

End Commits.

#[export] Hint Resolve Commit_preserves CreateBranch_preserves UpdateBranchDraft_preserves
  SetBranchAutoMerge_preserves DeleteBranch_preserves lock_branch_preserves
  fetchPrevCommitHash_preserves updateCommitHash_preserves batchFetch_preserves : docstore.
