(* ===== verification/Merge.v ===== *)
(** * Merge and rebase (internal/db/store.go)

    [latestChanges] and [branchCommitGroups] read what a branch changed since
    its base; [Merge] writes the changes of a branch to main in one commit;
    [Rebase] replays the commits of a branch after the head of main.

    A Go [range] over a map visits the keys in no fixed order.  [MapRange] is
    that order, one for each [range] statement, and the theorems hold for all. *)

From S2P Require Import Prelude GoStd Schema Tx Integrity Commits.
From S2P Require Hash.

(** [for k, v := range m]: the visits of the [n]-th [range] statement. *)
Class MapRange := {
  map_range {V : Type} : nat → gmap string V → list (string * V);
  map_range_perm {V : Type} n (m : gmap string V) : map_range n m ≡ₚ map_to_list m;
}.

(** Rows of [file_commits], with the order of
    [ORDER BY path, sequence DESC] and of [ORDER BY sequence ASC, path ASC]. *)
Definition path_then_newest `{Collation} : relation file_commit :=
  order_then fc_path text_le (num_desc fc_sequence).
Definition oldest_then_path `{Collation} : relation file_commit :=
  order_then fc_sequence Z.le (text_asc fc_path).

#[export] Instance path_then_newest_dec `{Collation} : RelDecision path_then_newest.
Proof. apply order_then_dec; apply _. Defined.
#[export] Instance oldest_then_path_dec `{Collation} : RelDecision oldest_then_path.
Proof. apply order_then_dec; apply _. Defined.

(** [type MergeConflict struct] *)
Record MergeConflict := mkMergeConflict {
  mc_Path : string; mc_MainVersionID : string; mc_BranchVersionID : string;
}.

(** [type rebaseFile struct] and [type rebaseGroup struct] *)
Record rebaseFile := mkRebaseFile { rf_path : string; rf_versionID : option string }.
Record rebaseGroup := mkRebaseGroup { rg_seq : Z; rg_files : list rebaseFile }.

(** [func nullStr] *)
Definition nullStr (s : option string) : string := str_or_empty s.

(** [model.MergeRequest], [model.MergeResponse], [model.RebaseRequest],
    [model.RebaseResponse] *)
Record MergeRequest := mkMergeRequest {
  mq_Repo : string; mq_Branch : string; mq_Author : string; mq_DryRun : bool;
}.
Record MergeResponse := mkMergeResponse { mp_Sequence : Z }.
Record RebaseRequest := mkRebaseRequest {
  rq_Repo : string; rq_Branch : string; rq_Author : string;
}.
Record RebaseResponse := mkRebaseResponse {
  rp_NewBaseSequence : Z; rp_NewHeadSequence : Z; rp_CommitsReplayed : Z;
}.

(** ** What a branch changed *)
Section changes.
Context `{Collation}.

(** The rows of [WHERE repo = $1 AND branch = $2 AND sequence > $3]. *)
Definition changed_since (repo branch : string) (baseSeq : Z) (r : file_commit) : Prop :=
  fc_repo r = repo ∧ fc_branch r = branch ∧ baseSeq < fc_sequence r.
#[export] Instance changed_since_dec repo branch baseSeq r :
  Decision (changed_since repo branch baseSeq r).
Proof. unfold changed_since. apply _. Defined.

Definition latest_rows (rows : list file_commit) : list file_commit :=
  distinct_on fc_path (merge_sort path_then_newest rows).

(** [changes[path] = versionID], row by row. *)
Definition changes_of (rows : list file_commit) : gmap string (option string) :=
  foldl (λ changes r, <[fc_path r := fc_version_id r]> changes) ∅ (latest_rows rows).

Definition latestChanges (repo branch : string) (baseSeq : Z)
    : M (gmap string (option string)) :=
  rows ← select file_commits (changed_since repo branch baseSeq);
  mret (changes_of rows).

(** The body of the loop: open a group when the sequence changes, and add the
    file to the last group. *)
Definition add_to_groups (groups : list rebaseGroup) (r : file_commit) : list rebaseGroup :=
  let f := mkRebaseFile (fc_path r) (fc_version_id r) in
  let groups :=
    match last groups with
    | Some g => if bool_decide (rg_seq g = fc_sequence r) then groups
                else groups ++ [mkRebaseGroup (fc_sequence r) []]
    | None => [mkRebaseGroup (fc_sequence r) []]
    end in
  alter (λ g, mkRebaseGroup (rg_seq g) (rg_files g ++ [f])) (length groups - 1)%nat groups.

Definition groups_of (rows : list file_commit) : list rebaseGroup :=
  foldl add_to_groups [] (merge_sort oldest_then_path rows).

Definition branchCommitGroups (repo branch : string) (baseSeq : Z) : M (list rebaseGroup) :=
  rows ← select file_commits (changed_since repo branch baseSeq);
  mret (groups_of rows).
End changes.

Section Merge.
Context `{Collation} `{UuidSource} `{MapRange}.

(** [INSERT INTO file_commits ...] with a fresh commit id. *)
Definition insert_file_commit (repo branch : string) (seq : Z) (path : string)
    (versionID : option string) : M unit :=
  commitID ← uuid_New;
  wrap "insert file_commit"
    (insert_row file_commits (mkFileCommit commitID seq path versionID branch repo)).

(** [for path, branchVID := range branchChanges { if mainVID, ok := ...] *)
Definition find_conflicts (branchChanges mainChanges : gmap string (option string))
    : list MergeConflict :=
  '(path, branchVID) ← map_range 0 branchChanges;
  match mainChanges !! path with
  | Some mainVID => [mkMergeConflict path (nullStr mainVID) (nullStr branchVID)]
  | None => []
  end.

Definition hash_file (hashes : gmap string string) (path : string)
    (versionID : option string) : Hash.File :=
  Hash.mkFile path (match versionID with
                    | Some v => default "" (hashes !! v)
                    | None => ""
                    end).

Definition set_branch_status (repo name : string) (st : branch_status) : M unit :=
  wrap "update branch status"
    (update_rows branches (λ b, br_repo b = repo ∧ br_name b = name) (branch_with_status st));;
  mret tt.

(** ** Merge *)

(** The variables [Merge] captures: [resp] and [conflicts]. *)
Definition merge_vars : Type := option MergeResponse * list MergeConflict.

(** Steps 4 to the end: write the changes to main. *)
Definition merge_write (req : MergeRequest) (branchChanges : gmap string (option string))
    : M Z :=
  let mergeMsg := "merge branch '" +:+ mq_Branch req +:+ "'" in
  '(newSeq, mergeCreatedAt) ←
    wrap "insert merge commit" (insert_commit (mq_Repo req) "main" mergeMsg (mq_Author req));
  mapM (λ '(path, versionID), insert_file_commit (mq_Repo req) "main" newSeq path versionID)
    (map_range 1 branchChanges);;
  wrap "update main head"
    (update_rows branches (λ b, br_repo b = mq_Repo req ∧ br_name b = "main")
       (branch_with_head newSeq));;
  set_branch_status (mq_Repo req) (mq_Branch req) Merged;;
  prevHash ← fetchPrevCommitHash (mq_Repo req) "main" newSeq;
  mergeContentHashes ← batchFetchVersionContentHashes (omap snd (map_range 2 branchChanges));
  let hashFiles := (λ '(path, versionID), hash_file mergeContentHashes path versionID)
                     <$> map_range 3 branchChanges in
  let mergeHash := Hash.CommitHash prevHash newSeq (mq_Repo req) "main" (mq_Author req)
                     mergeMsg mergeCreatedAt hashFiles in
  wrap "store merge commit hash" (updateCommitHash (mq_Repo req) newSeq mergeHash);;
  mret newSeq.

Definition merge_tx (req : MergeRequest) : M (merge_vars * option error) :=
  main ← wrap "lock main" (lock_branch (mq_Repo req) "main");
  let mainHead := br_head_sequence main in
  b ← or_not_found (lock_branch (mq_Repo req) (mq_Branch req)) ErrBranchNotFound "lock branch";
  let baseSeq := br_base_sequence b in
  if bool_decide (br_status b ≠ Active) then fail ErrBranchNotActive else
  if br_draft b then fail ErrBranchDraft else
  branchChanges ← wrap "branch changes" (latestChanges (mq_Repo req) (mq_Branch req) baseSeq);
  if bool_decide (branchChanges = ∅) then
    if mq_DryRun req then mret (Some (mkMergeResponse mainHead), [], Some errRollback) else
    set_branch_status (mq_Repo req) (mq_Branch req) Merged;;
    mret (Some (mkMergeResponse mainHead), [], None)
  else
  mainChanges ← wrap "main changes" (latestChanges (mq_Repo req) "main" baseSeq);
  let conflicts := find_conflicts branchChanges mainChanges in
  if bool_decide (conflicts ≠ []) then mret (None, conflicts, Some ErrMergeConflict) else
  newSeq ← merge_write req branchChanges;
  mret (Some (mkMergeResponse newSeq), [],
        if mq_DryRun req then Some errRollback else None).

(** The three results of a Go call: a response, the conflicts, an error. *)
Definition Merge (req : MergeRequest)
    : M (option MergeResponse * list MergeConflict * option error) :=
  '(resp, conflicts, err) ← WithTx (None, []) (merge_tx req);
  match err with
  | Some e => if errors_Is e ErrMergeConflict then mret (None, conflicts, Some ErrMergeConflict)
              else mret (None, [], Some e)
  | None => mret (resp, [], None)
  end.

(** ** Rebase *)

(** The body of the loop over the groups: the sequence of the new commit. *)
Definition replay_group (repo branch author : string) (hashes : gmap string string)
    (g : rebaseGroup) : M Z :=
  let rebaseMsg := "rebase: replay sequence " +:+ FormatInt (rg_seq g) in
  '(newSeq, rebaseCreatedAt) ←
    wrap "insert rebase commit" (insert_commit repo branch rebaseMsg author);
  mapM (λ f, insert_file_commit repo branch newSeq (rf_path f) (rf_versionID f)) (rg_files g);;
  prevHash ← fetchPrevCommitHash repo branch newSeq;
  let hashFiles := (λ f, hash_file hashes (rf_path f) (rf_versionID f)) <$> rg_files g in
  let rebaseHash := Hash.CommitHash prevHash newSeq repo branch author rebaseMsg
                      rebaseCreatedAt hashFiles in
  wrap "store rebase commit hash" (updateCommitHash repo newSeq rebaseHash);;
  mret newSeq.

Definition set_base_head (repo name : string) (base head : Z) : M unit :=
  wrap "update branch"
    (update_rows branches (λ b, br_repo b = repo ∧ br_name b = name)
       (branch_with_base_head base head));;
  mret tt.

Definition rebase_vars : Type := option RebaseResponse * list MergeConflict.

Definition rebase_tx (req : RebaseRequest) : M (rebase_vars * option error) :=
  main ← wrap "lock main" (lock_branch (rq_Repo req) "main");
  let mainHead := br_head_sequence main in
  b ← or_not_found (lock_branch (rq_Repo req) (rq_Branch req)) ErrBranchNotFound "lock branch";
  let baseSeq := br_base_sequence b in
  if bool_decide (br_status b ≠ Active) then fail ErrBranchNotActive else
  branchChanges ← wrap "branch changes" (latestChanges (rq_Repo req) (rq_Branch req) baseSeq);
  if bool_decide (branchChanges = ∅) then
    set_base_head (rq_Repo req) (rq_Branch req) mainHead mainHead;;
    mret (Some (mkRebaseResponse mainHead mainHead 0), [], None)
  else
  mainChanges ← wrap "main changes" (latestChanges (rq_Repo req) "main" baseSeq);
  let conflicts := find_conflicts branchChanges mainChanges in
  if bool_decide (conflicts ≠ []) then mret (None, conflicts, Some ErrRebaseConflict) else
  groups ← wrap "branch commit groups" (branchCommitGroups (rq_Repo req) (rq_Branch req) baseSeq);
  rebaseContentHashes ←
    wrap "batch fetch rebase content hashes"
      (batchFetchVersionContentHashes (g ← groups; omap rf_versionID (rg_files g)));
  let author := if bool_decide (rq_Author req = "") then "system" else rq_Author req in
  newSeqs ← mapM (replay_group (rq_Repo req) (rq_Branch req) author rebaseContentHashes) groups;
  let lastSeq := default 0 (last newSeqs) in
  set_base_head (rq_Repo req) (rq_Branch req) mainHead lastSeq;;
  mret (Some (mkRebaseResponse mainHead lastSeq (Z.of_nat (length groups))), [], None).

Definition Rebase (req : RebaseRequest)
    : M (option RebaseResponse * list MergeConflict * option error) :=
  if bool_decide (rq_Branch req = "main") then mret (None, [], Some ErrBranchNotActive) else
  '(resp, conflicts, err) ← WithTx (None, []) (rebase_tx req);
  match err with
  | Some e => if errors_Is e ErrRebaseConflict then mret (None, conflicts, Some ErrRebaseConflict)
              else mret (None, [], Some e)
  | None => mret (resp, [], None)
  end.

(** ** Integrity *)

Lemma insert_file_commit_preserves repo branch seq path v :
  preserves (insert_file_commit repo branch seq path v).
Proof. unfold insert_file_commit. solve_spec. Qed.
Lemma latestChanges_preserves repo branch base : preserves (latestChanges repo branch base).
Proof. unfold latestChanges. solve_spec. Qed.
Lemma branchCommitGroups_preserves repo branch base :
  preserves (branchCommitGroups repo branch base).
Proof. unfold branchCommitGroups. solve_spec. Qed.
Lemma set_branch_status_preserves repo name st : preserves (set_branch_status repo name st).
Proof. unfold set_branch_status. solve_spec. Qed.
#[local] Hint Resolve insert_file_commit_preserves latestChanges_preserves
  branchCommitGroups_preserves set_branch_status_preserves : docstore.

Lemma set_base_head_spec F repo name base head :
  base ∈ F → head ∈ 0 :: F → spec F (set_base_head repo name base head) (λ _, []).
Proof.
  intros Hb Hh. unfold set_base_head.
  eapply (spec_bind _ _ _ (λ _, [])); [|intros _; apply spec_ret; constructor].
  apply spec_wrap. refine (spec_update _ _ _ _ _ _); [solve_keeps|].
  intros n b Hn HF _ _. rewrite Forall_forall in HF. cbn.
  split; [|by apply HF]. apply elem_of_cons in Hh as [->|Hh]; [done|by apply HF].
Qed.

Lemma merge_write_preserves req changes : preserves (merge_write req changes).
Proof.
  intros F. unfold merge_write.
  eapply spec_bind; [apply spec_wrap, insert_commit_spec|]. intros [n t]. cbn [fst].
  solve_spec.
Qed.
#[local] Hint Resolve merge_write_preserves : docstore.

Lemma Merge_preserves req : preserves (Merge req).
Proof. unfold Merge, merge_tx, or_not_found. solve_spec. Qed.

Lemma replay_group_spec F repo branch author hashes g :
  spec F (replay_group repo branch author hashes g) (λ n, [n]).
Proof.
  unfold replay_group.
  eapply spec_bind; [apply spec_wrap, insert_commit_spec|]. intros [n t]. cbn [fst].
  do 3 (eapply (spec_bind _ _ _ (λ _, [])); [solve_spec|intros ?]).
  apply spec_ret. intros w _ HF. cbn in HF. by inversion HF; repeat constructor.
Qed.

Lemma Rebase_preserves req : preserves (Rebase req).
Proof.
  intros F. unfold Rebase. case_bool_decide; [apply spec_ret; constructor|].
  eapply (spec_bind _ _ _ (λ _, [])); [|solve_spec]. apply spec_WithTx.
  unfold rebase_tx. eapply spec_bind; [apply spec_wrap, lock_branch_spec|]. intros main.
  cbn [app]. eapply (spec_bind _ _ _ (λ _, [])); [solve_spec|]. intros b. cbn [app].
  case_bool_decide; [apply spec_fail|].
  eapply (spec_bind _ _ _ (λ _, [])); [solve_spec|]. intros changes. cbn [app].
  case_bool_decide.
  { eapply (spec_bind _ _ _ (λ _, [])); [apply set_base_head_spec; [by left|right; by left]|solve_spec]. }
  eapply (spec_bind _ _ _ (λ _, [])); [solve_spec|]. intros mainChanges. cbn [app].
  case_bool_decide; [apply spec_ret; constructor|].
  eapply (spec_bind _ _ _ (λ _, [])); [solve_spec|]. intros groups. cbn [app].
  eapply (spec_bind _ _ _ (λ _, [])); [solve_spec|]. intros hashes. cbn [app].
  eapply spec_bind; [eapply spec_mapM; intros; apply replay_group_spec|]. intros seqs.
  cbn beta. eapply (spec_bind _ _ _ (λ _, [])); [|solve_spec].
  apply set_base_head_spec; [apply elem_of_app; right; by left|].
  destruct (last seqs) as [l|] eqn:El; cbn; [right|by left].
  apply elem_of_app; left. apply list_elem_of_bind. exists l. split; [by left|].
  apply last_Some in El as [k ->]. apply elem_of_app. right. by left.
Qed.

End Merge.

#[export] Hint Resolve insert_file_commit_preserves latestChanges_preserves
  branchCommitGroups_preserves set_branch_status_preserves Merge_preserves
  Rebase_preserves : docstore.
