(* ===== verification/EventTypes.v ===== *)
(** * Event types (internal/events/types)

    The payload of each event and its [Type()], [Source()] and [Data()], a type
    for each file of the package.  [Data()] is the event itself: the functions
    [_data] give its encoding.  A nil slice of strings, encoded as null, is not
    distinguished from an empty one. *)

From S2P Require Import Prelude GoStd.

(** [type PolicyResult struct], [type BranchStatusResponse struct] (api/types.go) *)
Record PolicyResult := mkPolicyResult { pr_Name : string; pr_Pass : bool; pr_Reason : string }.
Record BranchStatusResponse := mkBranchStatusResponse {
  bsr_Mergeable : bool; bsr_Policies : list PolicyResult; bsr_AutoMerge : bool;
}.

Definition strings_json (l : list string) : json := JArray (JString <$> l).
Definition policy_json (p : PolicyResult) : json :=
  JObject [("name", JString (pr_Name p)); ("pass", JBool (pr_Pass p));
           ("reason", JString (pr_Reason p))].

(** [json:"branch_status,omitempty"] on a pointer *)
Definition status_json (s : option BranchStatusResponse) : list (string * json) :=
  match s with
  | None => []
  | Some s =>
      [("branch_status", JObject [("mergeable", JBool (bsr_Mergeable s));
          ("policies", JArray (policy_json <$> bsr_Policies s));
          ("auto_merge", JBool (bsr_AutoMerge s))])]
  end.

(** *** auto_merge.go *)

Inductive AutoMergeEvent :=
| BranchAutoMergeEnabled (Repo Branch EnabledBy : string)
| BranchAutoMergeDisabled (Repo Branch DisabledBy : string)
| BranchAutoMergeFailed (Repo Branch Reason : string).

Definition auto_merge_event_type (e : AutoMergeEvent) : string :=
  match e with
  | BranchAutoMergeEnabled _ _ _ => "com.docstore.branch.automerge.enabled"
  | BranchAutoMergeDisabled _ _ _ => "com.docstore.branch.automerge.disabled"
  | BranchAutoMergeFailed _ _ _ => "com.docstore.branch.automerge.failed"
  end.

Definition auto_merge_event_source (e : AutoMergeEvent) : string :=
  match e with
  | BranchAutoMergeEnabled repo _ _
  | BranchAutoMergeDisabled repo _ _
  | BranchAutoMergeFailed repo _ _ =>
      "/repos/" +:+ repo
  end.

Definition auto_merge_event_data (e : AutoMergeEvent) : json :=
  JObject
  match e with
  | BranchAutoMergeEnabled repo branch enabledBy =>
      [("repo", JString repo); ("branch", JString branch); ("enabled_by", JString enabledBy)]
  | BranchAutoMergeDisabled repo branch disabledBy =>
      [("repo", JString repo); ("branch", JString branch); ("disabled_by", JString disabledBy)]
  | BranchAutoMergeFailed repo branch reason =>
      [("repo", JString repo); ("branch", JString branch); ("reason", JString reason)]
  end.

(** *** branch.go *)

Inductive BranchEvent :=
| BranchCreated (Repo Branch : string) (BaseSequence : Z) (CreatedBy : string)
| BranchMerged (Repo Branch : string) (Sequence : Z) (MergedBy : string)
    (BranchStatus : option BranchStatusResponse)
| BranchRebased (Repo Branch : string) (NewBaseSequence NewHeadSequence CommitsReplayed : Z)
    (RebasedBy : string) (BranchStatus : option BranchStatusResponse)
| BranchAbandoned (Repo Branch AbandonedBy : string)
| BranchDraftUpdated (Repo Branch : string) (Draft : bool) (UpdatedBy : string).

Definition branch_event_type (e : BranchEvent) : string :=
  match e with
  | BranchCreated _ _ _ _ => "com.docstore.branch.created"
  | BranchMerged _ _ _ _ _ => "com.docstore.branch.merged"
  | BranchRebased _ _ _ _ _ _ _ => "com.docstore.branch.rebased"
  | BranchAbandoned _ _ _ => "com.docstore.branch.abandoned"
  | BranchDraftUpdated _ _ _ _ => "com.docstore.branch.draft.updated"
  end.

Definition branch_event_source (e : BranchEvent) : string :=
  match e with
  | BranchCreated repo _ _ _
  | BranchMerged repo _ _ _ _
  | BranchRebased repo _ _ _ _ _ _
  | BranchAbandoned repo _ _
  | BranchDraftUpdated repo _ _ _ =>
      "/repos/" +:+ repo
  end.

Definition branch_event_data (e : BranchEvent) : json :=
  JObject
  match e with
  | BranchCreated repo branch baseSequence createdBy =>
      [("repo", JString repo); ("branch", JString branch); ("base_sequence", JNumber
       baseSequence); ("created_by", JString createdBy)]
  | BranchMerged repo branch sequence mergedBy branchStatus =>
      [("repo", JString repo); ("branch", JString branch); ("sequence", JNumber sequence);
       ("merged_by", JString mergedBy)] ++ status_json branchStatus
  | BranchRebased repo branch newBaseSequence newHeadSequence commitsReplayed rebasedBy
   branchStatus =>
      [("repo", JString repo); ("branch", JString branch); ("new_base_sequence", JNumber
       newBaseSequence); ("new_head_sequence", JNumber newHeadSequence); ("commits_replayed",
       JNumber commitsReplayed); ("rebased_by", JString rebasedBy)] ++ status_json branchStatus
  | BranchAbandoned repo branch abandonedBy =>
      [("repo", JString repo); ("branch", JString branch); ("abandoned_by", JString abandonedBy)]
  | BranchDraftUpdated repo branch draft updatedBy =>
      [("repo", JString repo); ("branch", JString branch); ("draft", JBool draft); ("updated_by",
       JString updatedBy)]
  end.

(** *** check.go *)

Inductive CheckEvent :=
| CheckReported (Repo Branch : string) (Sequence : Z) (CheckName Status Reporter : string)
    (BranchStatus : option BranchStatusResponse).

Definition check_event_type (e : CheckEvent) : string :=
  match e with
  | CheckReported _ _ _ _ _ _ _ => "com.docstore.check.reported"
  end.

Definition check_event_source (e : CheckEvent) : string :=
  match e with
  | CheckReported repo _ _ _ _ _ _ =>
      "/repos/" +:+ repo
  end.

Definition check_event_data (e : CheckEvent) : json :=
  JObject
  match e with
  | CheckReported repo branch sequence checkName status reporter branchStatus =>
      [("repo", JString repo); ("branch", JString branch); ("sequence", JNumber sequence);
       ("check_name", JString checkName); ("status", JString status); ("reporter", JString
       reporter)] ++ status_json branchStatus
  end.

(** *** commit.go *)

Inductive CommitEvent :=
| CommitCreated (Repo Branch : string) (Sequence : Z) (Author Message : string) (FileCount : Z).

Definition commit_event_type (e : CommitEvent) : string :=
  match e with
  | CommitCreated _ _ _ _ _ _ => "com.docstore.commit.created"
  end.

Definition commit_event_source (e : CommitEvent) : string :=
  match e with
  | CommitCreated repo _ _ _ _ _ =>
      "/repos/" +:+ repo
  end.

Definition commit_event_data (e : CommitEvent) : json :=
  JObject
  match e with
  | CommitCreated repo branch sequence author message fileCount =>
      [("repo", JString repo); ("branch", JString branch); ("sequence", JNumber sequence);
       ("author", JString author); ("message", JString message); ("file_count", JNumber
       fileCount)]
  end.

(** *** issue.go *)

Inductive IssueEvent :=
| IssueOpened (Repo IssueID : string) (Number : Z) (Author : string)
| IssueClosed (Repo IssueID : string) (Number : Z) (Reason ClosedBy : string)
| IssueReopened (Repo IssueID : string) (Number : Z)
| IssueUpdated (Repo IssueID : string) (Number : Z)
| IssueCommentCreated (Repo IssueID : string) (Number : Z) (CommentID Author : string)
| IssueCommentUpdated (Repo IssueID : string) (Number : Z) (CommentID : string).

Definition issue_event_type (e : IssueEvent) : string :=
  match e with
  | IssueOpened _ _ _ _ => "com.docstore.issue.opened"
  | IssueClosed _ _ _ _ _ => "com.docstore.issue.closed"
  | IssueReopened _ _ _ => "com.docstore.issue.reopened"
  | IssueUpdated _ _ _ => "com.docstore.issue.updated"
  | IssueCommentCreated _ _ _ _ _ => "com.docstore.issue.comment.created"
  | IssueCommentUpdated _ _ _ _ => "com.docstore.issue.comment.updated"
  end.

Definition issue_event_source (e : IssueEvent) : string :=
  match e with
  | IssueOpened repo _ _ _
  | IssueClosed repo _ _ _ _
  | IssueReopened repo _ _
  | IssueUpdated repo _ _
  | IssueCommentCreated repo _ _ _ _
  | IssueCommentUpdated repo _ _ _ =>
      "/repos/" +:+ repo
  end.

Definition issue_event_data (e : IssueEvent) : json :=
  JObject
  match e with
  | IssueOpened repo issueID number author =>
      [("repo", JString repo); ("issue_id", JString issueID); ("number", JNumber number);
       ("author", JString author)]
  | IssueClosed repo issueID number reason closedBy =>
      [("repo", JString repo); ("issue_id", JString issueID); ("number", JNumber number);
       ("reason", JString reason); ("closed_by", JString closedBy)]
  | IssueReopened repo issueID number =>
      [("repo", JString repo); ("issue_id", JString issueID); ("number", JNumber number)]
  | IssueUpdated repo issueID number =>
      [("repo", JString repo); ("issue_id", JString issueID); ("number", JNumber number)]
  | IssueCommentCreated repo issueID number commentID author =>
      [("repo", JString repo); ("issue_id", JString issueID); ("number", JNumber number);
       ("comment_id", JString commentID); ("author", JString author)]
  | IssueCommentUpdated repo issueID number commentID =>
      [("repo", JString repo); ("issue_id", JString issueID); ("number", JNumber number);
       ("comment_id", JString commentID)]
  end.

(** *** merge.go *)

Inductive MergeEvent :=
| MergeBlocked (Repo Branch Actor : string) (Policies : list string).

Definition merge_event_type (e : MergeEvent) : string :=
  match e with
  | MergeBlocked _ _ _ _ => "com.docstore.merge.blocked"
  end.

Definition merge_event_source (e : MergeEvent) : string :=
  match e with
  | MergeBlocked repo _ _ _ =>
      "/repos/" +:+ repo
  end.

Definition merge_event_data (e : MergeEvent) : json :=
  JObject
  match e with
  | MergeBlocked repo branch actor policies =>
      [("repo", JString repo); ("branch", JString branch); ("actor", JString actor); ("policies",
       strings_json policies)]
  end.

(** *** org.go *)

Inductive OrgEvent :=
| OrgCreated (Org CreatedBy : string)
| OrgDeleted (Org DeletedBy : string)
| OrgMemberAdded (Org Identity Role AddedBy : string)
| OrgMemberRemoved (Org Identity RemovedBy : string).

Definition org_event_type (e : OrgEvent) : string :=
  match e with
  | OrgCreated _ _ => "com.docstore.org.created"
  | OrgDeleted _ _ => "com.docstore.org.deleted"
  | OrgMemberAdded _ _ _ _ => "com.docstore.org.member.added"
  | OrgMemberRemoved _ _ _ => "com.docstore.org.member.removed"
  end.

Definition org_event_source (e : OrgEvent) : string :=
  match e with
  | OrgCreated org _
  | OrgDeleted org _
  | OrgMemberAdded org _ _ _
  | OrgMemberRemoved org _ _ =>
      "/orgs/" +:+ org
  end.

Definition org_event_data (e : OrgEvent) : json :=
  JObject
  match e with
  | OrgCreated org createdBy =>
      [("org", JString org); ("created_by", JString createdBy)]
  | OrgDeleted org deletedBy =>
      [("org", JString org); ("deleted_by", JString deletedBy)]
  | OrgMemberAdded org identity role addedBy =>
      [("org", JString org); ("identity", JString identity); ("role", JString role); ("added_by",
       JString addedBy)]
  | OrgMemberRemoved org identity removedBy =>
      [("org", JString org); ("identity", JString identity); ("removed_by", JString removedBy)]
  end.

(** *** proposal.go *)

Inductive ProposalEvent :=
| ProposalOpened (Repo Branch BaseBranch ProposalID Author : string) (Sequence : Z)
| ProposalClosed (Repo Branch ProposalID : string)
| ProposalMerged (Repo Branch BaseBranch ProposalID : string).

Definition proposal_event_type (e : ProposalEvent) : string :=
  match e with
  | ProposalOpened _ _ _ _ _ _ => "com.docstore.proposal.opened"
  | ProposalClosed _ _ _ => "com.docstore.proposal.closed"
  | ProposalMerged _ _ _ _ => "com.docstore.proposal.merged"
  end.

Definition proposal_event_source (e : ProposalEvent) : string :=
  match e with
  | ProposalOpened repo _ _ _ _ _
  | ProposalClosed repo _ _
  | ProposalMerged repo _ _ _ =>
      "/repos/" +:+ repo
  end.

Definition proposal_event_data (e : ProposalEvent) : json :=
  JObject
  match e with
  | ProposalOpened repo branch baseBranch proposalID author sequence =>
      [("repo", JString repo); ("branch", JString branch); ("base_branch", JString baseBranch);
       ("proposal_id", JString proposalID); ("author", JString author); ("sequence", JNumber
       sequence)]
  | ProposalClosed repo branch proposalID =>
      [("repo", JString repo); ("branch", JString branch); ("proposal_id", JString proposalID)]
  | ProposalMerged repo branch baseBranch proposalID =>
      [("repo", JString repo); ("branch", JString branch); ("base_branch", JString baseBranch);
       ("proposal_id", JString proposalID)]
  end.

(** *** release.go *)

Inductive ReleaseEvent :=
| ReleaseCreated (Repo Name : string) (Sequence : Z) (CreatedBy : string)
| ReleaseDeleted (Repo Name DeletedBy : string).

Definition release_event_type (e : ReleaseEvent) : string :=
  match e with
  | ReleaseCreated _ _ _ _ => "com.docstore.release.created"
  | ReleaseDeleted _ _ _ => "com.docstore.release.deleted"
  end.

Definition release_event_source (e : ReleaseEvent) : string :=
  match e with
  | ReleaseCreated repo _ _ _
  | ReleaseDeleted repo _ _ =>
      "/repos/" +:+ repo
  end.

Definition release_event_data (e : ReleaseEvent) : json :=
  JObject
  match e with
  | ReleaseCreated repo name sequence createdBy =>
      [("repo", JString repo); ("name", JString name); ("sequence", JNumber sequence);
       ("created_by", JString createdBy)]
  | ReleaseDeleted repo name deletedBy =>
      [("repo", JString repo); ("name", JString name); ("deleted_by", JString deletedBy)]
  end.

(** *** repo.go *)

Inductive RepoEvent :=
| RepoCreated (Repo Owner CreatedBy : string)
| RepoDeleted (Repo DeletedBy : string).

Definition repo_event_type (e : RepoEvent) : string :=
  match e with
  | RepoCreated _ _ _ => "com.docstore.repo.created"
  | RepoDeleted _ _ => "com.docstore.repo.deleted"
  end.

Definition repo_event_source (e : RepoEvent) : string :=
  match e with
  | RepoCreated repo _ _
  | RepoDeleted repo _ =>
      "/repos/" +:+ repo
  end.

Definition repo_event_data (e : RepoEvent) : json :=
  JObject
  match e with
  | RepoCreated repo owner createdBy =>
      [("repo", JString repo); ("owner", JString owner); ("created_by", JString createdBy)]
  | RepoDeleted repo deletedBy =>
      [("repo", JString repo); ("deleted_by", JString deletedBy)]
  end.

(** *** retry.go *)

Inductive RetryEvent :=
| CheckRunRetry (Repo Branch : string) (Sequence : Z) (Checks : list string) (Attempt : Z).

Definition retry_event_type (e : RetryEvent) : string :=
  match e with
  | CheckRunRetry _ _ _ _ _ => "com.docstore.checkrun.retry"
  end.

Definition retry_event_source (e : RetryEvent) : string :=
  match e with
  | CheckRunRetry repo _ _ _ _ =>
      "/repos/" +:+ repo
  end.

Definition retry_event_data (e : RetryEvent) : json :=
  JObject
  match e with
  | CheckRunRetry repo branch sequence checks attempt =>
      [("repo", JString repo); ("branch", JString branch); ("sequence", JNumber sequence);
       ("checks", strings_json checks); ("attempt", JNumber attempt)]
  end.

(** *** review.go *)

Inductive ReviewEvent :=
| ReviewSubmitted (Repo Branch : string) (Sequence : Z) (Reviewer Status : string)
    (BranchStatus : option BranchStatusResponse).

Definition review_event_type (e : ReviewEvent) : string :=
  match e with
  | ReviewSubmitted _ _ _ _ _ _ => "com.docstore.review.submitted"
  end.

Definition review_event_source (e : ReviewEvent) : string :=
  match e with
  | ReviewSubmitted repo _ _ _ _ _ =>
      "/repos/" +:+ repo
  end.

Definition review_event_data (e : ReviewEvent) : json :=
  JObject
  match e with
  | ReviewSubmitted repo branch sequence reviewer status branchStatus =>
      [("repo", JString repo); ("branch", JString branch); ("sequence", JNumber sequence);
       ("reviewer", JString reviewer); ("status", JString status)] ++ status_json branchStatus
  end.

(** *** role.go *)

Inductive RoleEvent :=
| RoleChanged (Repo Identity Role ChangedBy : string).

Definition role_event_type (e : RoleEvent) : string :=
  match e with
  | RoleChanged _ _ _ _ => "com.docstore.role.changed"
  end.

Definition role_event_source (e : RoleEvent) : string :=
  match e with
  | RoleChanged repo _ _ _ =>
      "/repos/" +:+ repo
  end.

Definition role_event_data (e : RoleEvent) : json :=
  JObject
  match e with
  | RoleChanged repo identity role changedBy =>
      [("repo", JString repo); ("identity", JString identity); ("role", JString role);
       ("changed_by", JString changedBy)]
  end.

(** *** secret.go *)

Inductive SecretEvent :=
| SecretCreated (Repo Name ID : string) (SizeBytes : Z) (Actor : string)
| SecretUpdated (Repo Name ID : string) (SizeBytes : Z) (Actor : string)
| SecretDeleted (Repo Name ID Actor : string)
| SecretAccessed (Repo Name JobID : string) (Sequence : Z) (Branch : string).

Definition secret_event_type (e : SecretEvent) : string :=
  match e with
  | SecretCreated _ _ _ _ _ => "com.docstore.secret.created"
  | SecretUpdated _ _ _ _ _ => "com.docstore.secret.updated"
  | SecretDeleted _ _ _ _ => "com.docstore.secret.deleted"
  | SecretAccessed _ _ _ _ _ => "com.docstore.secret.accessed"
  end.

Definition secret_event_source (e : SecretEvent) : string :=
  match e with
  | SecretCreated repo name _ _ _
  | SecretUpdated repo name _ _ _
  | SecretDeleted repo name _ _
  | SecretAccessed repo name _ _ _ =>
      "/repos/" +:+ repo +:+ "/-/secrets/" +:+ name
  end.

Definition secret_event_data (e : SecretEvent) : json :=
  JObject
  match e with
  | SecretCreated repo name id sizeBytes actor =>
      [("repo", JString repo); ("name", JString name); ("id", JString id); ("size_bytes", JNumber
       sizeBytes); ("actor", JString actor)]
  | SecretUpdated repo name id sizeBytes actor =>
      [("repo", JString repo); ("name", JString name); ("id", JString id); ("size_bytes", JNumber
       sizeBytes); ("actor", JString actor)]
  | SecretDeleted repo name id actor =>
      [("repo", JString repo); ("name", JString name); ("id", JString id); ("actor", JString
       actor)]
  | SecretAccessed repo name jobID sequence branch =>
      [("repo", JString repo); ("name", JString name); ("job_id", JString jobID); ("sequence",
       JNumber sequence); ("branch", JString branch)]
  end.

(** ** Any event (event.go) *)

(** [type Event interface] *)
Inductive Event :=
| OfAutoMergeEvent (e : AutoMergeEvent)
| OfBranchEvent (e : BranchEvent)
| OfCheckEvent (e : CheckEvent)
| OfCommitEvent (e : CommitEvent)
| OfIssueEvent (e : IssueEvent)
| OfMergeEvent (e : MergeEvent)
| OfOrgEvent (e : OrgEvent)
| OfProposalEvent (e : ProposalEvent)
| OfReleaseEvent (e : ReleaseEvent)
| OfRepoEvent (e : RepoEvent)
| OfRetryEvent (e : RetryEvent)
| OfReviewEvent (e : ReviewEvent)
| OfRoleEvent (e : RoleEvent)
| OfSecretEvent (e : SecretEvent).

Coercion OfAutoMergeEvent : AutoMergeEvent >-> Event.
Coercion OfBranchEvent : BranchEvent >-> Event.
Coercion OfCheckEvent : CheckEvent >-> Event.
Coercion OfCommitEvent : CommitEvent >-> Event.
Coercion OfIssueEvent : IssueEvent >-> Event.
Coercion OfMergeEvent : MergeEvent >-> Event.
Coercion OfOrgEvent : OrgEvent >-> Event.
Coercion OfProposalEvent : ProposalEvent >-> Event.
Coercion OfReleaseEvent : ReleaseEvent >-> Event.
Coercion OfRepoEvent : RepoEvent >-> Event.
Coercion OfRetryEvent : RetryEvent >-> Event.
Coercion OfReviewEvent : ReviewEvent >-> Event.
Coercion OfRoleEvent : RoleEvent >-> Event.
Coercion OfSecretEvent : SecretEvent >-> Event.

Definition Type_ (e : Event) : string :=
  match e with
  | OfAutoMergeEvent e => auto_merge_event_type e
  | OfBranchEvent e => branch_event_type e
  | OfCheckEvent e => check_event_type e
  | OfCommitEvent e => commit_event_type e
  | OfIssueEvent e => issue_event_type e
  | OfMergeEvent e => merge_event_type e
  | OfOrgEvent e => org_event_type e
  | OfProposalEvent e => proposal_event_type e
  | OfReleaseEvent e => release_event_type e
  | OfRepoEvent e => repo_event_type e
  | OfRetryEvent e => retry_event_type e
  | OfReviewEvent e => review_event_type e
  | OfRoleEvent e => role_event_type e
  | OfSecretEvent e => secret_event_type e
  end.

Definition Source (e : Event) : string :=
  match e with
  | OfAutoMergeEvent e => auto_merge_event_source e
  | OfBranchEvent e => branch_event_source e
  | OfCheckEvent e => check_event_source e
  | OfCommitEvent e => commit_event_source e
  | OfIssueEvent e => issue_event_source e
  | OfMergeEvent e => merge_event_source e
  | OfOrgEvent e => org_event_source e
  | OfProposalEvent e => proposal_event_source e
  | OfReleaseEvent e => release_event_source e
  | OfRepoEvent e => repo_event_source e
  | OfRetryEvent e => retry_event_source e
  | OfReviewEvent e => review_event_source e
  | OfRoleEvent e => role_event_source e
  | OfSecretEvent e => secret_event_source e
  end.

Definition Data (e : Event) : json :=
  match e with
  | OfAutoMergeEvent e => auto_merge_event_data e
  | OfBranchEvent e => branch_event_data e
  | OfCheckEvent e => check_event_data e
  | OfCommitEvent e => commit_event_data e
  | OfIssueEvent e => issue_event_data e
  | OfMergeEvent e => merge_event_data e
  | OfOrgEvent e => org_event_data e
  | OfProposalEvent e => proposal_event_data e
  | OfReleaseEvent e => release_event_data e
  | OfRepoEvent e => repo_event_data e
  | OfRetryEvent e => retry_event_data e
  | OfReviewEvent e => review_event_data e
  | OfRoleEvent e => role_event_data e
  | OfSecretEvent e => secret_event_data e
  end.
