(* ===== verification/Events.v ===== *)
(** * Events (internal/events, internal/events/types)

    The broker appends each event to the table [event_log], which the SSE
    handlers and the auto-merge worker poll, and to the outbox of every webhook
    subscription that matches it; the dispatcher claims the pending rows of the
    outbox, posts them and records the outcome.

    [now()] and the writes of one call happen at the instant [w_now].
    [pg_notify] has no effect on the tables.  The goroutines waiting for an
    event are modelled by the channel they wait on: [waitCh] numbers the channel
    a new waiter gets, and the channels below it are closed. *)

From S2P Require Import Prelude GoStd Schema Tx Run Integrity EventTypes.

(** ** The broker *)

(** [fmt.Sprintf] of an error. *)
Fixpoint error_text (e : error) : string :=
  match e with
  | New t => t
  | Pq code => "pq: " +:+ code
  | Errorf t e => t +:+ ": " +:+ error_text e
  end.

(** [type Broker struct]: whether it has a database, and the channel waiters get. *)
Record Broker := mkBroker { bk_db : bool; bk_waitCh : nat }.

Definition NewBroker (db : bool) : Broker := mkBroker db 0.

(** [Notify] closes the current channel and makes a new one; a goroutine that
    waits on channel [ch] goes on when [woken]. *)
Definition Notify (b : Broker) : Broker := mkBroker (bk_db b) (S (bk_waitCh b)).
Definition woken (b : Broker) (ch : nat) : Prop := (ch < bk_waitCh b)%nat.

(** [type LoggedEvent struct] *)
Record LoggedEvent := mkLogged { le_Seq : Z; le_Repo : string; le_Type : string; le_Payload : json }.

Definition logged (r : logged_event) : LoggedEvent :=
  mkLogged (ev_seq r) (ev_repo r) (ev_type r) (ev_payload r).

(** [SELECT COALESCE(MAX(seq), 0)] *)
Definition CurrentSeq (b : Broker) : M Z :=
  if negb (bk_db b) then mret 0
  else gets (λ w, default 0 (sql_max (ev_seq <$> db_event_log (w_db w)))).

(** The WHERE clause of the four queries of [Poll]. *)
Definition polled (repo : string) (sinceSeq : Z) (types : list string) (r : logged_event) : Prop :=
  sinceSeq < ev_seq r ∧ (repo = "*" ∨ ev_repo r = repo) ∧ (types = [] ∨ ev_type r ∈ types).
#[export] Instance polled_dec repo sinceSeq types r : Decision (polled repo sinceSeq types r).
Proof. unfold polled. apply _. Defined.

Definition pollLimit : nat := 200.

Definition Poll (b : Broker) (repo : string) (sinceSeq : Z) (types : list string)
    : M (list LoggedEvent) :=
  if negb (bk_db b) then mret []
  else gets (λ w, logged <$>
    take pollLimit (order_by_asc ev_seq (filter (polled repo sinceSeq types) (db_event_log (w_db w))))).

Definition repoFromSource (source : string) : string :=
  if HasPrefix source "/repos/" then TrimPrefix source "/repos/" else source.

Section Events.
Context `{UuidSource} `{JsonbText}.

(** [func ToCloudEvent]: a new identifier and the current time. *)
Definition ToCloudEvent (e : Event) : M json :=
  id ← uuid_New;
  t ← time_Now;
  mret (JObject [("specversion", JString "1.0"); ("type", JString (Type_ e));
    ("source", JString (Source e)); ("id", JString id); ("time", JString (rfc3339nano t));
    ("datacontenttype", JString "application/json"); ("data", Data e)]).

(** The subscriptions an event goes to. *)
Definition subscribed (repo type : string) (s : subscription) : Prop :=
  sub_backend s = "webhook" ∧ sub_suspended_at s = None ∧
  (sub_repo s = None ∨ sub_repo s = Some repo) ∧
  match sub_event_types s with None => True | Some l => type ∈ l end.
#[export] Instance subscribed_dec repo type s : Decision (subscribed repo type s).
Proof. unfold subscribed. destruct (sub_event_types s); apply _. Defined.

Definition insert_outbox (event : json) (subID : string) : M unit :=
  id ← uuid_New;
  t ← now;
  insert_row event_outbox (mkOutbox id event (Some subID) t 0 t None None).

(** A row that cannot be inserted is logged and skipped. *)
Definition insertOutboxForEvent (e : Event) : M unit :=
  eventJSON ← ToCloudEvent e;
  let repo := repoFromSource (Source e) in
  subs ← wrap "query subscriptions" (select event_subscriptions (subscribed repo (Type_ e)));
  mapM (λ subID, catch (insert_outbox eventJSON subID)) (sub_id <$> subs);;
  mret tt.

Definition insert_event (repo type : string) (payload : json) : M unit :=
  seq ← nextval_event_log;
  t ← now;
  insert_row event_log (mkLoggedEvent seq repo type payload t).

(** [Emit]: failing statements are logged and skipped. *)
Definition Emit (b : Broker) (e : Event) : M unit :=
  if negb (bk_db b) then mret tt else
  payload ← ToCloudEvent e;
  catch (insert_event (repoFromSource (Source e)) (Type_ e) payload);;
  catch (insertOutboxForEvent e);;
  mret tt.

(** ** The outbox *)

(** [type outboxRow struct] *)
Record outboxRow := mkOutboxRow {
  or_ID : string; or_Event : json; or_SubscriptionID : string; or_Attempts : Z;
  or_WebhookURL : string; or_WebhookSecret : string;
}.

Definition minute : Z := 60 * 1000000000.

(** The join and the WHERE clause of [claimOutboxBatch]. *)
Definition claimable (t : Z) (o : outbox) (s : subscription) : Prop :=
  ob_subscription_id o = Some (sub_id s) ∧ ob_delivered_at o = None ∧ ob_next_attempt o ≤ t ∧
  ob_attempts o < 10 ∧ sub_suspended_at s = None ∧ sub_backend s = "webhook".
#[export] Instance claimable_dec t o s : Decision (claimable t o s).
Proof. unfold claimable. apply _. Defined.

Definition outbox_row (row : outbox * subscription) : outboxRow :=
  let '(o, s) := row in
  mkOutboxRow (ob_id o) (ob_event o) (sub_id s) (ob_attempts o)
    (default "" (json_text "url" (sub_config s))) (default "" (json_text "secret" (sub_config s))).

Definition with_next_attempt (t : Z) (o : outbox) : outbox :=
  mkOutbox (ob_id o) (ob_event o) (ob_subscription_id o) (ob_created_at o) (ob_attempts o) t
    (ob_delivered_at o) (ob_last_error o).

Definition claimOutboxBatch (batchSize : nat) : M (list outboxRow) :=
  in_tx [] (
    t ← now;
    rows ← wrap "query outbox" (gets (λ w,
      take batchSize (order_by_asc (λ row, ob_next_attempt row.1)
        (inner_join (claimable t) (db_event_outbox (w_db w)) (db_event_subscriptions (w_db w))))));
    let batch := outbox_row <$> rows in
    (if decide (batch = []) then mret tt else
       wrap "mark in-flight"
         (update_rows event_outbox (λ o, ob_id o ∈ or_ID <$> batch)
            (with_next_attempt (t + 5 * minute)));;
       mret tt);;
    mret batch).

(** [SET attempts, next_attempt, last_error] *)
Definition with_failure (attempts nextAttempt : Z) (lastErr : string) (o : outbox) : outbox :=
  mkOutbox (ob_id o) (ob_event o) (ob_subscription_id o) (ob_created_at o) attempts nextAttempt
    (ob_delivered_at o) (Some lastErr).
Definition with_delivered (t : Z) (o : outbox) : outbox :=
  mkOutbox (ob_id o) (ob_event o) (ob_subscription_id o) (ob_created_at o) (ob_attempts o)
    (ob_next_attempt o) (Some t) (ob_last_error o).

(** [SET suspended_at, failure_count = failure_count + 1] *)
Definition sub_suspended (t : Z) (s : subscription) : subscription :=
  mkSubscription (sub_id s) (sub_repo s) (sub_event_types s) (sub_backend s) (sub_config s)
    (sub_created_at s) (sub_created_by s) (Some t) (sub_failure_count s + 1).

Definition second : Z := 1000000000.

(** [time.Duration(1<<uint(attempts)) * time.Second], at most an hour *)
Definition backoff (attempts : Z) : Z :=
  let d := int64_wrap (int64_wrap (Z.shiftl 1 attempts) * second) in
  if 60 * minute <? d then 60 * minute else d.

Definition markFailed (row : outboxRow) (lastErr : string) : M unit :=
  let newAttempts := or_Attempts row + 1 in
  t ← time_Now;
  let nextAttempt := t + backoff (or_Attempts row) in
  catch (update_rows event_outbox (λ o, ob_id o = or_ID row)
           (with_failure newAttempts (timestamptz nextAttempt) lastErr));;
  if newAttempts <? 10 then mret tt else
  t ← now;
  catch (update_rows event_subscriptions (λ s, sub_id s = or_SubscriptionID row) (sub_suspended t));;
  mret tt.

Definition computeHMAC (body : string) (secret : string) : string :=
  hex_EncodeToString (hmac_sha256 secret body).

(** The HTTP client: whether a URL can be requested, and the status or the
    error a POST of a body with an optional signature header ends in. *)
Class HTTPClient := {
  http_NewRequest : string → option error;
  http_Do : string → string → option string → Z → result Z;
}.
Context `{HTTPClient}.

Definition deliverWebhook (row : outboxRow) : M unit :=
  if bool_decide (or_WebhookURL row = "") then mret tt else
  match http_NewRequest (or_WebhookURL row) with
  | Some err => markFailed row ("build request: " +:+ error_text err)
  | None =>
      let body := jsonb_text (or_Event row) in
      let sig := if bool_decide (or_WebhookSecret row = "") then None
                 else Some ("sha256=" +:+ computeHMAC body (or_WebhookSecret row)) in
      t ← time_Now;
      match http_Do (or_WebhookURL row) body sig t with
      | Fail err => markFailed row ("http: " +:+ error_text err)
      | Ok status =>
          if (status <? 200) || (300 <=? status)
          then markFailed row ("webhook returned status " +:+ FormatInt status)
          else
            t ← now;
            catch (update_rows event_outbox (λ o, ob_id o = or_ID row) (with_delivered t));;
            mret tt
      end
  end.

Definition processOutboxBatch : M unit :=
  rows ← catch (claimOutboxBatch 50);
  match rows with
  | Fail _ => mret tt
  | Ok rows => mapM deliverWebhook rows;; mret tt
  end.

Definition day : Z := 24 * 60 * minute.

Definition delivered_before (t : Z) (o : outbox) : bool :=
  match ob_delivered_at o with Some d => d <? t | None => false end.

Definition cleanupOutbox : M unit :=
  t ← now;
  delete_rows event_outbox (delivered_before (t - 7 * day));;
  mret tt.

Definition cleanupEventLog : M unit :=
  t ← now;
  delete_rows event_log (λ r, ev_created_at r < t - 30 * day);;
  mret tt.

(** ** Integrity *)
Lemma insert_outbox_preserves event subID : preserves (insert_outbox event subID).
Proof. unfold insert_outbox. solve_spec. Qed.
Lemma ToCloudEvent_preserves e : preserves (ToCloudEvent e).
Proof. unfold ToCloudEvent. solve_spec. Qed.
#[local] Hint Resolve insert_outbox_preserves ToCloudEvent_preserves : docstore.

Lemma Emit_preserves b e : preserves (Emit b e).
Proof. unfold Emit, insert_event, insertOutboxForEvent. solve_spec. Qed.

Lemma claimOutboxBatch_preserves n : preserves (claimOutboxBatch n).
Proof. unfold claimOutboxBatch. solve_spec. Qed.
Lemma markFailed_preserves row e : preserves (markFailed row e).
Proof. unfold markFailed. solve_spec. Qed.
#[local] Hint Resolve claimOutboxBatch_preserves markFailed_preserves : docstore.

Lemma processOutboxBatch_preserves : preserves processOutboxBatch.
Proof. unfold processOutboxBatch, deliverWebhook. solve_spec. Qed.
Lemma cleanupOutbox_preserves : preserves cleanupOutbox.
Proof. unfold cleanupOutbox. solve_spec. Qed.
Lemma cleanupEventLog_preserves : preserves cleanupEventLog.
Proof. unfold cleanupEventLog. solve_spec. Qed.
End Events.

#[export] Hint Resolve Emit_preserves processOutboxBatch_preserves cleanupOutbox_preserves
  cleanupEventLog_preserves : docstore.
