(* ===== verification/ReadStore.v ===== *)
(** * The read store (internal/store/store.go)

    The queries behind the tree, file, history, diff, chain and commit
    endpoints.  A branch shows its own [file_commits] and those of main up to
    its base sequence ([visible]); the newest visible row of a path decides
    whether the path is a file and which version it has. *)

From S2P Require Import Prelude Schema Tx Blob Commits Merge.

(** ** Joins *)

(** [documents d ON d.version_id = fc.version_id AND d.repo = $1] *)
Definition doc_of (repo : string) (fc : file_commit) (d : document) : Prop :=
  fc_version_id fc = Some (doc_version_id d) ∧ doc_repo d = repo.
#[export] Instance doc_of_dec repo fc d : Decision (doc_of repo fc d).
Proof. unfold doc_of. apply _. Defined.

(** ** Results *)
Record TreeEntry := mkTreeEntry {
  te_Path : string; te_VersionID : string; te_ContentHash : string;
}.
Record FileContent := mkFileContent {
  fl_Path : string; fl_VersionID : string; fl_ContentHash : string;
  fl_Content : option string; fl_ContentType : string;
}.
Record FileHistoryEntry := mkFileHistoryEntry {
  fh_Sequence : Z; fh_VersionID : option string; fh_Message : string;
  fh_Author : string; fh_CreatedAt : Z;
}.
Record CommitFile := mkCommitFile {
  cf_CommitID : string; cf_Path : string; cf_VersionID : option string;
}.
Record CommitDetail := mkCommitDetail {
  cd_Sequence : Z; cd_Branch : string; cd_Message : string; cd_Author : string;
  cd_CreatedAt : Z; cd_Files : list CommitFile;
}.
Record BranchInfo := mkBranchInfo {
  bi_Repo : string; bi_Name : string; bi_HeadSequence : Z; bi_BaseSequence : Z;
  bi_Status : branch_status; bi_Draft : bool; bi_AutoMerge : bool;
}.
Record DiffEntry := mkDiffEntry {
  de_Path : string; de_VersionID : option string; de_Binary : bool;
}.
Record DiffResult := mkDiffResult {
  df_BranchChanges : list DiffEntry; df_MainChanges : list DiffEntry;
  df_Conflicts : list MergeConflict;
}.
Record ChainFile := mkChainFile { chf_Path : string; chf_ContentHash : string }.
Record ChainEntry := mkChainEntry {
  che_Sequence : Z; che_Branch : string; che_Author : string; che_Message : string;
  che_CreatedAt : Z; che_CommitHash : option string; che_Files : list ChainFile;
}.

Definition defaultLimit : Z := 100.
Definition page_limit (n : Z) : Z := if n <=? 0 then defaultLimit else n.

(** [$3::bigint IS NULL OR fc.sequence <= $3] *)
Definition at_most (at_ : option Z) (n : Z) : Prop :=
  match at_ with None => True | Some m => n ≤ m end.
#[export] Instance at_most_dec at_ n : Decision (at_most at_ n).
Proof. destruct at_; cbn; apply _. Defined.

(** ** Visible rows *)

(** [fc.repo = $1 AND (fc.branch = $2 OR (fc.branch = 'main' AND
    fc.sequence <= bi.base_sequence)) AND ($3 IS NULL OR fc.sequence <= $3)] *)
Definition visible_from (repo branch : string) (base : Z) (at_ : option Z)
    (fc : file_commit) : Prop :=
  fc_repo fc = repo ∧
  (fc_branch fc = branch ∨ (fc_branch fc = "main" ∧ fc_sequence fc ≤ base)) ∧
  at_most at_ (fc_sequence fc).
#[export] Instance visible_from_dec repo branch base at_ fc :
  Decision (visible_from repo branch base at_ fc).
Proof. unfold visible_from. apply _. Defined.

(** [file_commits fc CROSS JOIN branch_info bi WHERE ...]: no row when the
    branch does not exist. *)
Definition visible (d : DB) (repo branch : string) (at_ : option Z) : list file_commit :=
  bi ← filter (λ b, br_repo b = repo ∧ br_name b = branch) (db_branches d);
  filter (visible_from repo branch (br_base_sequence bi) at_) (db_file_commits d).

Section ReadStore.
Context `{Collation}.

(** The rows of the query of [MaterializeTree], before [LIMIT]. *)
Definition after_path (afterPath p : string) : Prop :=
  afterPath = "" ∨ (text_le afterPath p ∧ p ≠ afterPath).
#[export] Instance after_path_dec afterPath p : Decision (after_path afterPath p).
Proof. unfold after_path. apply _. Defined.

Definition tree_entry (row : file_commit * document) : TreeEntry :=
  mkTreeEntry (fc_path row.1) (doc_version_id row.2) (doc_content_hash row.2).

Definition tree_entries (d : DB) (repo branch : string) (at_ : option Z)
    (afterPath : string) : list TreeEntry :=
  let latest := latest_rows (visible d repo branch at_) in
  let rows := inner_join (doc_of repo) latest (db_documents d) in
  order_by te_Path (tree_entry <$> filter (λ row, after_path afterPath (fc_path row.1)) rows).

Definition MaterializeTree (repo branch : string) (atSequence : option Z) (lim : Z)
    (afterPath : string) : M (list TreeEntry) :=
  gets (λ w, limit (page_limit lim) (tree_entries (w_db w) repo branch atSequence afterPath)).

(** [s.blobStore] *)
Definition GetFile (blobStore : option BlobStore) (repo branch path : string)
    (atSequence : option Z) : M (option FileContent) :=
  rows ← gets (λ w,
    left_join (doc_of repo)
      (order_by_desc fc_sequence
         (filter (λ fc, fc_path fc = path) (visible (w_db w) repo branch atSequence)))
      (db_documents (w_db w)));
  match rows with
  | [] => mret None
  | (fc, doc) :: _ =>
      match fc_version_id fc with
      | None => mret None
      | Some versionID =>
          let file content := mkFileContent path versionID
            (str_or_empty (doc_content_hash <$> doc)) content
            (str_or_empty (doc ≫= doc_content_type)) in
          match str_or_empty (doc ≫= doc_blob_key) with
          | EmptyString => mret (Some (file (doc ≫= doc_content)))
          | blobKey =>
              match blobStore with
              | None => fail (New ("document " +:+ versionID
                                   +:+ " requires blob store but none is configured"))
              | Some bs =>
                  content ← wrap ("fetch blob " +:+ blobKey) (blob_Get bs blobKey);
                  mret (Some (file (Some content)))
              end
          end
      end
  end.

(** [$4::bigint IS NULL OR fc.sequence < $4] *)
Definition before_seq (after : option Z) (n : Z) : Prop :=
  match after with None => True | Some m => n < m end.
#[export] Instance before_seq_dec after n : Decision (before_seq after n).
Proof. destruct after; cbn; apply _. Defined.

(** [commits c ON c.sequence = fc.sequence AND c.repo = $1] *)
Definition commit_of (repo : string) (fc : file_commit) (c : commit) : Prop :=
  c_sequence c = fc_sequence fc ∧ c_repo c = repo.
#[export] Instance commit_of_dec repo fc c : Decision (commit_of repo fc c).
Proof. unfold commit_of. apply _. Defined.

Definition GetFileHistory (repo branch path : string) (lim : Z) (afterSequence : option Z)
    : M (list FileHistoryEntry) :=
  gets (λ w,
    let rows := inner_join (commit_of repo)
      (filter (λ fc, fc_path fc = path ∧ before_seq afterSequence (fc_sequence fc))
         (visible (w_db w) repo branch None))
      (db_commits (w_db w)) in
    (λ '(fc, c), mkFileHistoryEntry (fc_sequence fc) (fc_version_id fc) (c_message c)
                   (c_author c) (c_created_at c))
      <$> limit (page_limit lim) (order_by_desc (λ row, fc_sequence row.1) rows)).

(** ** Branches *)
Definition branch_info (b : branch) : BranchInfo :=
  mkBranchInfo (br_repo b) (br_name b) (br_head_sequence b) (br_base_sequence b)
    (br_status b) (br_draft b) (br_auto_merge b).

Definition GetBranch (repo branch : string) : M (option BranchInfo) :=
  rows ← select branches (λ b, br_repo b = repo ∧ br_name b = branch);
  mret (branch_info <$> head rows).

(** The cast [$n::branch_status]. *)
Definition parse_branch_status (s : string) : option branch_status :=
  if bool_decide (s = "active") then Some Active
  else if bool_decide (s = "merged") then Some Merged
  else if bool_decide (s = "abandoned") then Some Abandoned
  else None.

(** The WHERE clause [ListBranches] builds. *)
Definition listed (repo : string) (status : option branch_status)
    (includeDraft onlyDraft : bool) (b : branch) : bool :=
  bool_decide (br_repo b = repo)
  && (match status with None => true | Some st => bool_decide (br_status b = st) end)
  && (if onlyDraft then br_draft b
      else if negb includeDraft then negb (br_draft b) else true).

Definition ListBranches (repo statusFilter : string) (includeDraft onlyDraft : bool)
    : M (list BranchInfo) :=
  status ←
    (if bool_decide (statusFilter = "") then mret None
     else match parse_branch_status statusFilter with
          | Some st => mret (Some st)
          | None => fail (Pq "22P02")
          end : M (option branch_status));
  l ← select branches (listed repo status includeDraft onlyDraft);
  mret (branch_info <$> order_by br_name l).

(** ** Diff *)

(** [type diffChangeInfo struct] *)
Record diffChangeInfo := mkDiffChangeInfo {
  dc_versionID : option string; dc_contentType : string;
}.

(** [latestChanges] of this package: DISTINCT ON after the join. *)
Definition diff_rows (d : DB) (repo branch : string) (baseSeq : Z)
    : list (file_commit * option document) :=
  distinct_on (λ row, fc_path row.1)
    (merge_sort (λ a b, path_then_newest a.1 b.1)
       (left_join (doc_of repo) (filter (changed_since repo branch baseSeq) (db_file_commits d))
          (db_documents d))).

Definition diff_changes (d : DB) (repo branch : string) (baseSeq : Z)
    : gmap string diffChangeInfo :=
  foldl (λ changes row,
           <[fc_path row.1 := mkDiffChangeInfo (fc_version_id row.1)
                                (str_or_empty (row.2 ≫= doc_content_type))]> changes)
    ∅ (diff_rows d repo branch baseSeq).

Definition isBinaryContentType (ct : string) : bool :=
  bool_decide (ct ≠ "") && negb (HasPrefix ct "text/").

Definition diff_entry (path : string) (change : diffChangeInfo) : DiffEntry :=
  mkDiffEntry path (dc_versionID change) (isBinaryContentType (dc_contentType change)).

Definition diff_conflicts `{MapRange} (branchChanges mainChanges : gmap string diffChangeInfo)
    : list MergeConflict :=
  '(path, change) ← map_range 4 branchChanges;
  match mainChanges !! path with
  | Some mainChange => [mkMergeConflict path (nullStr (dc_versionID mainChange))
                                             (nullStr (dc_versionID change))]
  | None => []
  end.

Definition GetDiff `{MapRange} (repo branch : string) : M (option DiffResult) :=
  rows ← select branches (λ b, br_repo b = repo ∧ br_name b = branch);
  match rows with
  | [] => mret None
  | b :: _ =>
      branchChanges ← gets (λ w, diff_changes (w_db w) repo branch (br_base_sequence b));
      mainChanges ← gets (λ w, diff_changes (w_db w) repo "main" (br_base_sequence b));
      mret (Some (mkDiffResult
        (uncurry diff_entry <$> map_range 4 branchChanges)
        (uncurry diff_entry <$> map_range 5 mainChanges)
        (diff_conflicts branchChanges mainChanges)))
  end.

(** ** Chain and commits *)

(** [file_commits fc ON fc.sequence = c.sequence AND fc.repo = c.repo] *)
Definition files_of (c : commit) (fc : file_commit) : Prop :=
  fc_sequence fc = c_sequence c ∧ fc_repo fc = c_repo c.
#[export] Instance files_of_dec c fc : Decision (files_of c fc).
Proof. unfold files_of. apply _. Defined.

(** [documents d ON d.version_id = fc.version_id AND d.repo = c.repo] *)
Definition chain_doc (row : commit * option file_commit) (d : document) : Prop :=
  match row.2 with Some fc => doc_of (c_repo row.1) fc d | None => False end.
#[export] Instance chain_doc_dec row d : Decision (chain_doc row d).
Proof. unfold chain_doc. destruct row as [c [fc|]]; cbn; apply _. Defined.

Abbreviation chain_row := (commit * option file_commit * option document)%type.

(** [ORDER BY c.sequence ASC, fc.path ASC].  A row without a file is the only
    one of its commit, so where a NULL path sorts does not matter. *)
Definition chain_order : relation chain_row :=
  order_then (λ row, c_sequence row.1.1) Z.le
    (text_asc (λ row, str_or_empty (fc_path <$> row.1.2))).
#[export] Instance chain_order_dec : RelDecision chain_order.
Proof. apply order_then_dec; apply _. Defined.

Definition chain_rows (d : DB) (repo : string) (from to : Z) : list chain_row :=
  merge_sort chain_order
    (left_join chain_doc
       (left_join files_of
          (filter (λ c, c_repo c = repo ∧ from ≤ c_sequence c ∧ c_sequence c ≤ to)
             (db_commits d))
          (db_file_commits d))
       (db_documents d)).

(** [cur = &ChainEntry{...}] *)
Definition new_entry (c : commit) : ChainEntry :=
  mkChainEntry (c_sequence c) (c_branch c) (c_author c) (c_message c) (c_created_at c)
    (c_commit_hash c) [].

(** [if path.Valid { cur.Files = append(...) }] *)
Definition add_chain_file (row : chain_row) (cur : ChainEntry) : ChainEntry :=
  match row.1.2 with
  | None => cur
  | Some fc =>
      mkChainEntry (che_Sequence cur) (che_Branch cur) (che_Author cur) (che_Message cur)
        (che_CreatedAt cur) (che_CommitHash cur)
        (che_Files cur ++
           [mkChainFile (fc_path fc) (str_or_empty (doc_content_hash <$> row.2))])
  end.

(** The body of the loop: [entries] and [cur]. *)
Definition chain_step (st : list ChainEntry * option ChainEntry) (row : chain_row)
    : list ChainEntry * option ChainEntry :=
  let '(entries, cur) := st in
  match cur with
  | Some e =>
      if bool_decide (che_Sequence e = c_sequence row.1.1)
      then (entries, Some (add_chain_file row e))
      else (entries ++ [e], Some (add_chain_file row (new_entry row.1.1)))
  | None => (entries, Some (add_chain_file row (new_entry row.1.1)))
  end.

Definition chain_entries (rows : list chain_row) : list ChainEntry :=
  let '(entries, cur) := foldl chain_step ([], None) rows in
  entries ++ option_list cur.

Definition GetChain (repo : string) (from to : Z) : M (list ChainEntry) :=
  gets (λ w, chain_entries (chain_rows (w_db w) repo from to)).

Definition GetCommit (repo : string) (sequence : Z) : M (option CommitDetail) :=
  gets (λ w,
    let rows := order_by (λ row, fc_path row.1)
      (inner_join (commit_of repo)
         (filter (λ fc, fc_repo fc = repo ∧ fc_sequence fc = sequence)
            (db_file_commits (w_db w)))
         (db_commits (w_db w))) in
    match rows with
    | [] => None
    | (fc, c) :: _ =>
        Some (mkCommitDetail sequence (fc_branch fc) (c_message c) (c_author c) (c_created_at c)
                ((λ row, mkCommitFile (fc_commit_id row.1) (fc_path row.1) (fc_version_id row.1))
                   <$> rows))
    end).
End ReadStore.
