(* ===== verification/Samples.v ===== *)
(** * Concrete parameters and worlds

    The parameters of the development instantiated by computable functions
    (byte order of strings, numbered UUIDs, map order by [map_to_list]), and
    small worlds made by running the operations from an empty database.  The
    witnesses of the theorems evaluate on them. *)

From S2P Require Import Prelude GoStd Schema Tx Run Integrity Orgs Blob Commits Merge EventTypes Events.

Definition sample_uuids : UuidSource := λ n, "uuid-" +:+ pretty n.

Definition sample_range : MapRange.
Proof. by refine {| map_range V _ m := map_to_list m |}. Defined.

(** JSONB values print as a marker; a POST to "http://down" answers 503, any
    other 200. *)
Definition sample_jsonb : JsonbText := λ _, "{}".
Definition sample_http : HTTPClient :=
  {| http_NewRequest _ := None;
     http_Do url _ _ _ := Ok (if bool_decide (url = "http://down") then 503 else 200) |}.

#[export] Existing Instance sample_jsonb.
#[export] Existing Instance sample_http.
#[export] Existing Instance C_collation.
#[export] Existing Instance sample_uuids.
#[export] Existing Instance sample_range.

(** The world a computation leaves and the value it returns. *)
Definition exec {A} (m : M A) (w : World) : World := (m w).1.
Definition returned {A} (m : M A) (w : World) : option A :=
  match (m w).2 with Ok a => Some a | Fail _ => None end.

Lemma run_exec {A} (m : M A) w a : returned m w = Some a → m w = (exec m w, Ok a).
Proof. unfold returned, exec. destruct (m w) as [w' [b|e]]; cbn; by intros [= ->]. Qed.

Definition empty_db : DB :=
  mkDB [] [] [] [] [] [] [] [] [] [] [] [] [] [] [] [] [] [] [] [] [] [] [].

(** An empty database on 2023-11-14T22:13:20Z. *)
Definition empty_world : World := mkWorld empty_db 0 0 0 ∅ 1700000000000000000.

Lemma empty_world_wf : wf empty_world.
Proof.
  assert (∀ A (T : Table A), t_rows T empty_db = [] → table_ok T empty_db) as Hok.
  { intros A T E. split; rewrite E; [constructor| |constructor].
    intros i j x y Hi. by rewrite lookup_nil in Hi. }
  split; [split; by apply Hok|done|split; constructor].
Qed.

(** An organisation "o" with a repository "o/r". *)
Definition repo_world : World :=
  exec (CreateRepo (mkCreateRepoRequest "o" "r" "root"))
    (exec (CreateOrg "o" "root") empty_world).

Lemma repo_world_wf : wf repo_world.
Proof.
  do 2 (apply preserves_wf; [eauto with docstore|]). apply empty_world_wf.
Qed.

(** Two files on main, then a branch "dev" that changes one of them. *)
Definition file (path content : string) : FileChange := mkFileChange path (Some content) "".
Definition removed (path : string) : FileChange := mkFileChange path None "".

Definition main_commit : CommitRequest :=
  mkCommitRequest "o/r" "main" [file "a" "1"; file "b" "2"] "first" "alice".
Definition dev_commit : CommitRequest :=
  mkCommitRequest "o/r" "dev" [file "a" "1x"; removed "b"; file "c" "2"] "change" "bob".

Definition main_world : World := exec (Commit NewStore main_commit) repo_world.
Definition dev_world : World :=
  exec (CreateBranch (mkCreateBranchRequest "o/r" "dev" false)) main_world.
Definition changed_world : World := exec (Commit NewStore dev_commit) dev_world.

Lemma main_world_wf : wf main_world.
Proof. apply preserves_wf; [apply Commit_preserves|apply repo_world_wf]. Qed.
Lemma dev_world_wf : wf dev_world.
Proof. apply preserves_wf; [apply CreateBranch_preserves|apply main_world_wf]. Qed.
Lemma changed_world_wf : wf changed_world.
Proof. apply preserves_wf; [apply Commit_preserves|apply dev_world_wf]. Qed.

Example changed_world_head :
  (λ b, (br_name b, br_head_sequence b, br_base_sequence b)) <$> db_branches (w_db changed_world)
  = [("main", 1, 0); ("dev", 2, 1)].
Proof. vm_compute. reflexivity. Qed.
