(* ===== verification/Views.v ===== *)
(** * What a branch shows

    [view d repo branch at_ p] is the specification of the tree: the version of
    the newest row of path [p] visible on the branch, no version when that row
    is a deletion or there is none.  [latest_rows], the DISTINCT ON of the
    program's queries, computes it for all paths at once, and the tree query,
    the file query and [latestChanges] agree with it. *)

From S2P Require Import Prelude Schema Tx Run Integrity Blob Commits Merge ReadStore.

(** ** The newest row of a path *)

Definition newest (rows : list file_commit) (p : string) : option file_commit :=
  head (order_by_desc fc_sequence (filter (λ fc, fc_path fc = p) rows)).

Definition view (d : DB) (repo branch : string) (at_ : option Z) (p : string) : option string :=
  newest (visible d repo branch at_) p ≫= fc_version_id.

(** No two rows of a repository have the same path and sequence: what [Commit]
    ensures when the paths of a request are distinct. *)
Definition unambiguous (rows : list file_commit) : Prop :=
  ∀ r r', r ∈ rows → r' ∈ rows → fc_path r = fc_path r' →
    fc_sequence r = fc_sequence r' → r = r'.

Lemma num_desc_sorted {A} (key : A → Z) l : StronglySorted (num_desc key) (order_by_desc key l).
Proof.
  apply merge_sorted; apply _.
Qed.

Lemma order_by_desc_head {A} (key : A → Z) l x :
  head (order_by_desc key l) = Some x → x ∈ l ∧ ∀ y, y ∈ l → key y ≤ key x.
Proof.
  pose proof (num_desc_sorted key l) as HS. unfold order_by_desc in *.
  assert (∀ y, y ∈ merge_sort (num_desc key) l ↔ y ∈ l) as Hel.
  { intros y. apply order_by_elem. }
  destruct (merge_sort (num_desc key) l) as [|z k]; [done|]. intros [= ->].
  apply StronglySorted_cons in HS as [HS _]. rewrite Forall_forall in HS.
  split; [by apply Hel, elem_of_cons; left|].
  intros y [->|Hy]%Hel%elem_of_cons; [done|]. by apply HS.
Qed.

Lemma order_by_desc_none {A} (key : A → Z) l : head (order_by_desc key l) = None ↔ l = [].
Proof.
  unfold order_by_desc. split.
  - intros E. apply Permutation_nil_r. rewrite <- (merge_sort_Permutation (num_desc key) l).
    by destruct (merge_sort _ l).
  - by intros ->.
Qed.

Lemma newest_spec rows p r :
  newest rows p = Some r →
  r ∈ rows ∧ fc_path r = p ∧ ∀ r', r' ∈ rows → fc_path r' = p → fc_sequence r' ≤ fc_sequence r.
Proof.
  intros (Hr & Hmax)%order_by_desc_head. apply list_elem_of_filter in Hr as [Hp Hr].
  split_and!; [done..|]. intros r' Hr' Hp'. apply Hmax. by apply list_elem_of_filter.
Qed.

Lemma newest_intro rows p r :
  r ∈ rows → fc_path r = p →
  (∀ r', r' ∈ rows → fc_path r' = p → r' = r ∨ fc_sequence r' < fc_sequence r) →
  newest rows p = Some r.
Proof.
  intros Hr Hp Hmax. destruct (newest rows p) as [x|] eqn:E.
  - apply newest_spec in E as (Hx & Hpx & Hm).
    destruct (Hmax x Hx Hpx) as [->|Hlt]; [done|]. specialize (Hm r Hr Hp). lia.
  - apply order_by_desc_none in E.
    assert (r ∈ filter (λ fc, fc_path fc = p) rows) as Hin by by apply list_elem_of_filter.
    rewrite E in Hin. by apply elem_of_nil in Hin.
Qed.

Lemma newest_none rows p : newest rows p = None ↔ ∀ r, r ∈ rows → fc_path r ≠ p.
Proof.
  unfold newest. rewrite order_by_desc_none. split.
  - intros E r Hr Hp.
    assert (r ∈ filter (λ fc, fc_path fc = p) rows) as Hin by by apply list_elem_of_filter.
    rewrite E in Hin. by apply elem_of_nil in Hin.
  - intros HN. by apply filter_none.
Qed.

(** Rows that do not touch [p] do not matter for it. *)
Lemma newest_filter_path rows rows' p :
  filter (λ fc, fc_path fc = p) rows = filter (λ fc, fc_path fc = p) rows' →
  newest rows p = newest rows' p.
Proof. unfold newest. by intros ->. Qed.

(** Newer rows decide. *)
Lemma newest_app rows new p :
  (∀ r r', r ∈ rows → r' ∈ new → fc_sequence r < fc_sequence r') →
  unambiguous new →
  newest (rows ++ new) p = match newest new p with Some r => Some r | None => newest rows p end.
Proof.
  intros Hlt Hu. destruct (newest new p) as [r|] eqn:E.
  - apply newest_spec in E as (Hr & Hp & Hm). apply newest_intro; [apply elem_of_app; auto|done|].
    intros r' [Hr'|Hr']%elem_of_app Hp'; [by right; apply Hlt|].
    specialize (Hm r' Hr' Hp'). destruct (decide (fc_sequence r' = fc_sequence r)).
    + left. apply Hu; congruence.
    + right. lia.
  - apply newest_filter_path. rewrite newest_none in E.
    rewrite filter_app, (filter_none _ new), app_nil_r; [done|]. exact E.
Qed.

(** ** DISTINCT ON (path) ... ORDER BY path, sequence DESC *)
Section latest.
Context `{Collation}.

Lemma path_then_newest_sorted_by {X} (f : X → file_commit) (R := λ x y, path_then_newest (f x) (f y))
    `{!RelDecision R} l :
  StronglySorted path_then_newest (f <$> merge_sort R l).
Proof.
  assert (Total path_then_newest) as Ht by (apply order_then_total; apply _).
  assert (Transitive path_then_newest) as Htr by (apply order_then_trans; apply _).
  apply (StronglySorted_fmap f R); [done|].
  apply Sorted_StronglySorted; [intros x y z; apply Htr|].
  assert (Total R) by (intros x y; apply Ht). apply (Sorted_merge_sort R).
Qed.

Lemma path_then_newest_sorted rows :
  StronglySorted path_then_newest (merge_sort path_then_newest rows).
Proof. pose proof (path_then_newest_sorted_by id rows) as H1. by rewrite list_fmap_id in H1. Qed.

(** The first row of each path in a list sorted this way is its newest row,
    whatever list of these rows was sorted. *)
Lemma distinct_on_newest rows l r :
  unambiguous rows → StronglySorted path_then_newest l → (∀ x, x ∈ l ↔ x ∈ rows) →
  r ∈ distinct_on fc_path l ↔ newest rows (fc_path r) = Some r.
Proof.
  intros Hu HS Hl.
  assert (∀ x y, x ∈ distinct_on fc_path l → y ∈ rows → fc_path y = fc_path x →
            x ∈ rows ∧ fc_sequence y ≤ fc_sequence x) as Hfirst.
  { intros x y Hx Hy Hp. split; [by apply Hl; eapply distinct_on_sub|].
    assert (path_then_newest x y) as [[Hn _]|[_ Hle]].
    - eapply (distinct_on_first fc_path); [|exact HS|exact Hx|by apply Hl|done].
      intros z. right. split; [done|]. unfold num_desc. lia.
    - congruence.
    - done. }
  split.
  - intros Hr. apply newest_intro; [by apply Hl; eapply distinct_on_sub|done|].
    intros r' Hr' Hp. destruct (Hfirst r r' Hr Hr' Hp) as [Hin Hle].
    destruct (decide (fc_sequence r' = fc_sequence r)) as [E|N]; [left; by apply Hu|right; lia].
  - intros Hn. apply newest_spec in Hn as (Hr & _ & Hm).
    destruct (distinct_on_complete fc_path l r) as (y & Hy & E); [by apply Hl|].
    destruct (Hfirst y r Hy Hr ltac:(done)) as [Hin Hle]. specialize (Hm y Hin E).
    replace r with y; [done|]. apply Hu; [done..|lia].
Qed.

Lemma latest_rows_newest rows r :
  unambiguous rows → r ∈ latest_rows rows ↔ newest rows (fc_path r) = Some r.
Proof.
  intros Hu. apply distinct_on_newest; [done|apply path_then_newest_sorted|].
  intros x. apply order_by_elem.
Qed.

Lemma latest_rows_NoDup rows : NoDup (fc_path <$> latest_rows rows).
Proof. apply distinct_on_NoDup. Qed.

(** [latestChanges] maps each changed path to its newest version. *)
Lemma foldl_insert_lookup {A V} (key : A → string) (val : A → V) l (m : gmap string V) k :
  NoDup (key <$> l) →
  foldl (λ m r, <[key r := val r]> m) m l !! k
  = match filter (λ r, key r = k) l with r :: _ => Some (val r) | [] => m !! k end.
Proof.
  revert m. induction l as [|x l IH]; intros m; [done|].
  rewrite fmap_cons. intros [Hx HN]%NoDup_cons. cbn [foldl]. rewrite IH by done.
  destruct (decide (key x = k)) as [<-|N].
  - rewrite filter_cons_True by done. rewrite filter_none; [by rewrite lookup_insert_eq|].
    intros y Hy E. apply Hx. rewrite <- E. by apply list_elem_of_fmap_2.
  - rewrite filter_cons_False by done. case_match; [|done]. by rewrite lookup_insert_ne.
Qed.

Lemma changes_of_lookup rows p :
  unambiguous rows → changes_of rows !! p = fc_version_id <$> newest rows p.
Proof.
  intros Hu. unfold changes_of.
  rewrite (foldl_insert_lookup fc_path fc_version_id) by apply latest_rows_NoDup.
  destruct (newest rows p) as [r|] eqn:E.
  - assert (r ∈ latest_rows rows) as Hr.
    { apply latest_rows_newest; [done|]. by pose proof (newest_spec _ _ _ E) as (_ & -> & _). }
    apply newest_spec in E as (_ & <- & _).
    by rewrite (filter_key_unique fc_path _ r) by auto using latest_rows_NoDup.
  - rewrite filter_none; [done|]. intros r Hr Hp.
    apply latest_rows_newest in Hr; [|done]. congruence.
Qed.
End latest.

(** ** Bases and appended rows *)

Definition bases (d : DB) (repo branch : string) : list Z :=
  br_base_sequence <$> filter (λ b, br_repo b = repo ∧ br_name b = branch) (db_branches d).

Lemma visible_bases d repo branch at_ :
  visible d repo branch at_
  = base ← bases d repo branch; filter (visible_from repo branch base at_) (db_file_commits d).
Proof.
  unfold visible, bases. induction (filter _ (db_branches d)) as [|b l IH]; [done|].
  rewrite fmap_cons, !bind_cons. by rewrite IH.
Qed.

Lemma branches_NoDup d : wf_db d → NoDup (br_key <$> db_branches d).
Proof.
  intros Hwf. apply (unique_NoDup (t_clash branches)); [|apply Hwf].
  intros x y E. by apply bool_decide_eq_true.
Qed.

Lemma branch_unique d b b' :
  wf_db d → b ∈ db_branches d → b' ∈ db_branches d →
  br_repo b = br_repo b' → br_name b = br_name b' → b = b'.
Proof.
  intros Hwf Hb Hb' Er En.
  apply (NoDup_fmap_inj br_key _ _ _ (branches_NoDup d Hwf)); [done..|].
  unfold br_key. congruence.
Qed.

(** An existing branch has one base. *)
Lemma bases_branch d b :
  wf_db d → b ∈ db_branches d → bases d (br_repo b) (br_name b) = [br_base_sequence b].
Proof.
  intros Hwf Hb. unfold bases.
  pose proof (filter_key_unique br_key _ b (branches_NoDup d Hwf) Hb) as E.
  erewrite list_filter_iff; [rewrite E; done|].
  intros x. unfold br_key. split; [by intros [-> ->]|by intros [= -> ->]].
Qed.

Lemma bases_cases d repo branch :
  wf_db d →
  bases d repo branch = [] ∨
  ∃ b, b ∈ db_branches d ∧ br_repo b = repo ∧ br_name b = branch ∧
       bases d repo branch = [br_base_sequence b].
Proof.
  intros Hwf. destruct (filter (λ b, br_repo b = repo ∧ br_name b = branch) (db_branches d))
    as [|b l] eqn:E; [left; unfold bases; by rewrite E|right].
  assert (b ∈ filter (λ b, br_repo b = repo ∧ br_name b = branch) (db_branches d)) as Hb.
  { rewrite E. by left. }
  apply list_elem_of_filter in Hb as [[<- <-] Hb]. exists b. split_and!; auto using bases_branch.
Qed.

(** Updates of branches that keep names and bases. *)
Lemma bases_update d d' P `{!∀ b, Decision (P b)} f repo branch :
  db_branches d' = update_where P f (db_branches d) →
  (∀ b, br_repo (f b) = br_repo b ∧ br_name (f b) = br_name b ∧
        br_base_sequence (f b) = br_base_sequence b) →
  bases d' repo branch = bases d repo branch.
Proof.
  intros E Hf. unfold bases. rewrite E. unfold update_where. clear E.
  induction (db_branches d) as [|b l IH]; [done|]. rewrite fmap_cons.
  set (b' := if decide (P b) then f b else b).
  assert (br_repo b' = br_repo b ∧ br_name b' = br_name b ∧
          br_base_sequence b' = br_base_sequence b) as (Er & En & Eb).
  { subst b'. case_decide; [apply Hf|done]. }
  destruct (decide (br_repo b = repo ∧ br_name b = branch)).
  - rewrite !filter_cons_True by (rewrite ?Er, ?En; done). by rewrite !fmap_cons, IH, Eb.
  - rewrite !filter_cons_False by (rewrite ?Er, ?En; done). done.
Qed.

Lemma visible_append d d' repo branch base at_ rows :
  bases d repo branch = [base] → bases d' repo branch = bases d repo branch →
  db_file_commits d' = db_file_commits d ++ rows →
  visible d' repo branch at_
  = visible d repo branch at_ ++ filter (visible_from repo branch base at_) rows.
Proof.
  intros Eb E' Ef. rewrite !visible_bases, E', Eb, Ef; cbn.
  by rewrite !app_nil_r, filter_app.
Qed.

(** New rows that the branch does not show. *)
Lemma view_append_hidden d d' repo branch at_ rows p :
  wf_db d → bases d' repo branch = bases d repo branch →
  db_file_commits d' = db_file_commits d ++ rows →
  (∀ b r, b ∈ db_branches d → br_repo b = repo → br_name b = branch → r ∈ rows →
     ¬ visible_from repo branch (br_base_sequence b) at_ r) →
  view d' repo branch at_ p = view d repo branch at_ p.
Proof.
  intros Hwf E' Ef Hh. unfold view. f_equal. f_equal.
  destruct (bases_cases d repo branch Hwf) as [E|(b & Hb & Hr & Hn & E)].
  - by rewrite !visible_bases, E', E.
  - rewrite (visible_append d d' _ _ _ at_ rows E E' Ef), filter_none, app_nil_r; [done|].
    intros r Hr'. by apply Hh.
Qed.

(** Sequences of file commits are among those of commits. *)
Lemma wf_file_commit_seq w r :
  wf w → r ∈ db_file_commits (w_db w) → fc_sequence r ≤ w_commit_seq w.
Proof.
  intros [Hd _ [Hc _]] Hr.
  pose proof (proj1 (Forall_forall _ _) (ok_fk _ _ (wf_file_commits _ Hd)) r Hr) as Hfk.
  apply bool_decide_eq_true in Hfk as ((c & E & Hin)%list_elem_of_fmap & _).
  rewrite E. by apply (proj1 (Forall_forall _ _) Hc).
Qed.

Lemma visible_elem d repo branch at_ r :
  r ∈ visible d repo branch at_ →
  r ∈ db_file_commits d ∧ ∃ b, b ∈ db_branches d ∧ br_repo b = repo ∧ br_name b = branch ∧
    visible_from repo branch (br_base_sequence b) at_ r.
Proof.
  unfold visible. intros (b & Hr & Hb)%list_elem_of_bind.
  apply list_elem_of_filter in Hr as [Hv Hr], Hb as [[Hbr Hbn] Hb]. eauto 10.
Qed.

(** New rows, newer than all others, that the branch shows. *)
Lemma view_append_shown d d' repo branch base rows p n :
  bases d repo branch = [base] → bases d' repo branch = bases d repo branch →
  db_file_commits d' = db_file_commits d ++ rows →
  (∀ r, r ∈ db_file_commits d → fc_sequence r ≤ n) →
  (∀ r, r ∈ rows → fc_repo r = repo ∧ fc_branch r = branch ∧ n < fc_sequence r) →
  unambiguous rows →
  view d' repo branch None p
  = match newest rows p with
    | Some r => fc_version_id r
    | None => view d repo branch None p
    end.
Proof.
  intros Eb E' Ef Hold Hnew Hu. unfold view.
  assert (filter (visible_from repo branch base None) rows = rows) as Er.
  { apply filter_all. intros r Hr.
    destruct (Hnew r Hr) as (? & ? & _). split; [done|]. split; [by left|done]. }
  rewrite (visible_append d d' _ _ _ None rows Eb E' Ef), Er, newest_app; [|..|done].
  - by destruct (newest rows p).
  - intros r r' [Hr _]%visible_elem Hr'. specialize (Hold r Hr). apply Hnew in Hr'. lia.
Qed.

(** ** The file query *)

Lemma left_join_head {A B} (R : A → B → Prop) `{!∀ a b, Decision (R a b)} a l k :
  head (left_join R (a :: l) k) = Some (a, head (filter (R a) k)).
Proof. unfold left_join. rewrite bind_cons. by destruct (filter (R a) k). Qed.

(** Documents are unique by version. *)
Lemma doc_of_unique d repo fc doc :
  wf_db d → doc ∈ db_documents d → doc_of repo fc doc →
  filter (doc_of repo fc) (db_documents d) = [doc].
Proof.
  intros Hwf Hd [Hv Hr].
  assert (NoDup (doc_version_id <$> db_documents d)) as HN.
  { apply (unique_NoDup (t_clash documents)); [|apply Hwf].
    intros x y E. by apply bool_decide_eq_true. }
  pose proof (filter_key_unique doc_version_id _ doc HN Hd) as E.
  assert (filter (doc_of repo fc) (db_documents d)
    = filter (λ y, doc_repo y = repo) (filter (λ y, doc_version_id y = doc_version_id doc)
        (db_documents d))) as ->.
  { rewrite list_filter_filter. apply list_filter_iff. intros x. unfold doc_of.
    rewrite Hv. split; [by intros [[= ->] ?]|by intros [? ->]]. }
  rewrite E. by rewrite filter_cons_True.
Qed.

(** The content of a document: its column, or the blob it points to. *)
Definition doc_data (w : World) (d : document) : option string :=
  match str_or_empty (doc_blob_key d) with
  | EmptyString => doc_content d
  | key => w_blobs w !! key
  end.

Definition file_of (path : string) (d : document) (content : option string) : FileContent :=
  mkFileContent path (doc_version_id d) (doc_content_hash d) content
    (str_or_empty (doc_content_type d)).

Lemma GetFile_absent bs repo branch path at_ w :
  view (w_db w) repo branch at_ path = None →
  GetFile bs repo branch path at_ w = (w, Ok None).
Proof.
  unfold view, newest, GetFile. intros Hv. unfold gets at 1. unfold mbind at 1, M_bind at 1.
  cbv beta iota. set (l := order_by_desc _ _) in *. destruct l as [|fc l]; [reflexivity|].
  cbn in Hv.
  pose proof (left_join_head (doc_of repo) fc l (db_documents (w_db w))) as Hh.
  destruct (left_join (doc_of repo) (fc :: l) (db_documents (w_db w))) as [|[fc' doc] rest];
    [discriminate Hh|].
  injection Hh as [= -> ->]. by rewrite Hv.
Qed.

Lemma GetFile_found bs repo branch path at_ w v d :
  wf_db (w_db w) → view (w_db w) repo branch at_ path = Some v →
  d ∈ db_documents (w_db w) → doc_version_id d = v → doc_repo d = repo →
  (∀ k, bs_get_err bs k = None) → is_Some (doc_data w d) →
  GetFile (Some bs) repo branch path at_ w = (w, Ok (Some (file_of path d (doc_data w d)))).
Proof.
  intros Hwf Hv Hd Hdv Hdr Hbs [data Hdata]. unfold view, newest in Hv.
  unfold GetFile, gets at 1. unfold mbind at 1, M_bind at 1. cbv beta iota.
  set (l := order_by_desc _ _) in *. destruct l as [|fc l]; [done|]. cbn in Hv.
  pose proof (left_join_head (doc_of repo) fc l (db_documents (w_db w))) as Hh.
  rewrite (doc_of_unique _ repo fc d Hwf Hd) in Hh by (split; congruence).
  destruct (left_join (doc_of repo) (fc :: l) (db_documents (w_db w))) as [|[fc' doc] rest];
    [discriminate Hh|].
  injection Hh as [= -> ->]. rewrite Hv. cbn.
  unfold file_of, doc_data, str_or_empty in *. rewrite Hdv.
  destruct (default "" (doc_blob_key d)) as [|c k]; [reflexivity|].
  unfold wrap, blob_Get, mbind, M_bind. by rewrite Hbs, Hdata.
Qed.
