(* ===== verification/Chain.v ===== *)
(** * The hash chain of a branch

    Each commit stores the hash of its content and of the previous commit of
    its branch.  [chain_ok] says that every stored hash is the one the rest of
    the tables determine, so that a client can recompute it from what [GetChain]
    returns.  The lemmas say when appending a commit, deleting whole branches or
    touching other tables keeps it; [GetChain_entries] relates it to the query. *)

From S2P Require Import Prelude Schema Tx Run Integrity Commits Merge ReadStore Views.
From S2P Require Hash.

(** What [fetchPrevCommitHash] reads. *)
Definition prev_hash (d : DB) (repo branch : string) (seq : Z) : string :=
  let older := filter (λ c, c_repo c = repo ∧ c_branch c = branch ∧ c_sequence c < seq)
                 (db_commits d) in
  match filter (λ c, c_repo c = repo ∧ c_branch c = branch ∧
                     Some (c_sequence c) = sql_max (c_sequence <$> older)) (db_commits d) with
  | [] => Hash.GenesisHash
  | c :: _ =>
      match c_commit_hash c with
      | None => Hash.GenesisHash
      | Some h => if bool_decide (h = "") then Hash.GenesisHash else h
      end
  end.

(** The content hash of a version: empty for a deletion. *)
Definition version_hash (docs : list document) (v : option string) : string :=
  match v with
  | Some v => str_or_empty (doc_content_hash <$> head (filter (λ d, doc_version_id d = v) docs))
  | None => ""
  end.

Definition hash_row (docs : list document) (r : file_commit) : Hash.File :=
  Hash.mkFile (fc_path r) (version_hash docs (fc_version_id r)).

(** The files of a commit. *)
Definition commit_files (d : DB) (c : commit) : list Hash.File :=
  hash_row (db_documents d) <$> filter (files_of c) (db_file_commits d).

Definition hashed_as (prev : string) (files : list Hash.File) (c : commit) : Prop :=
  ∃ files', files' ≡ₚ files ∧
    c_commit_hash c = Some (Hash.CommitHash prev (c_sequence c) (c_repo c) (c_branch c)
                              (c_author c) (c_message c) (c_created_at c) files').

Record chain_ok (d : DB) : Prop := {
  ck_hashed c : c ∈ db_commits d →
    hashed_as (prev_hash d (c_repo c) (c_branch c) (c_sequence c)) (commit_files d c) c;
  ck_rows r c : r ∈ db_file_commits d → c ∈ db_commits d → c_sequence c = fc_sequence r →
    c_repo c = fc_repo r ∧ c_branch c = fc_branch r;
  ck_docs r v : r ∈ db_file_commits d → fc_version_id r = Some v →
    ∃ doc, doc ∈ db_documents d ∧ doc_version_id doc = v ∧ doc_repo doc = fc_repo r;
}.

Lemma fetchPrevCommitHash_ok repo branch seq w w' h :
  fetchPrevCommitHash repo branch seq w = (w', Ok h) →
  w' = w ∧ h = prev_hash (w_db w) repo branch seq.
Proof.
  unfold fetchPrevCommitHash, prev_hash. intros E. inv_ok.
  apply select_ok in E0 as [-> ->], E1 as [-> ->].
  change (t_rows commits) with db_commits in E.
  repeat case_match; inv_ok; by simplify_eq.
Qed.

Lemma documents_NoDup d : wf_db d → NoDup (doc_version_id <$> db_documents d).
Proof.
  intros Hwf. apply (unique_NoDup (t_clash documents)); [|apply Hwf].
  intros x y Exy. cbn. by apply bool_decide_eq_true.
Qed.

Lemma commits_NoDup d : wf_db d → NoDup (c_sequence <$> db_commits d).
Proof.
  intros Hwf. apply (unique_NoDup (t_clash commits)); [|apply Hwf].
  intros x y Exy. cbn. by apply bool_decide_eq_true.
Qed.

Lemma wf_commit_seq w c : wf w → c ∈ db_commits (w_db w) → c_sequence c ≤ w_commit_seq w.
Proof.
  intros Hwf Hc. pose proof (sb_commits _ _ (wf_seq_bounded _ Hwf)) as HF.
  rewrite Forall_forall in HF. auto.
Qed.

(** ** Tables that agree on the history *)

Definition history (d : DB) : list commit * list file_commit * list document :=
  (db_commits d, db_file_commits d, db_documents d).

Lemma chain_ok_history d d' : history d' = history d → chain_ok d → chain_ok d'.
Proof.
  intros [= Ec Ef Ed] [H1 H2 H3].
  assert (∀ r b s, prev_hash d' r b s = prev_hash d r b s) as Hp
    by (intros; unfold prev_hash; by rewrite Ec).
  assert (∀ c, commit_files d' c = commit_files d c) as Hf
    by (intros; unfold commit_files; by rewrite Ef, Ed).
  split; rewrite ?Ec, ?Ef, ?Ed; [|done..]. intros c Hc. rewrite Hp, Hf. auto.
Qed.

(** ** Appending a commit *)

Lemma prev_hash_append d d' c repo branch seq :
  db_commits d' = db_commits d ++ [c] → seq ≤ c_sequence c →
  (∀ c', c' ∈ db_commits d → c_sequence c' < c_sequence c) →
  prev_hash d' repo branch seq = prev_hash d repo branch seq.
Proof.
  intros Ec Hle Hlt. unfold prev_hash. rewrite Ec, !filter_app.
  rewrite (filter_none _ [c]); [|intros x Hx%list_elem_of_singleton (_ & _ & ?); subst; lia].
  rewrite app_nil_r.
  rewrite (filter_none _ [c]); [by rewrite app_nil_r|].
  intros x Hx%list_elem_of_singleton (_ & _ & Hm); subst x.
  pose proof (sql_max_spec (c_sequence <$> filter (λ c, c_repo c = repo ∧ c_branch c = branch ∧
    c_sequence c < seq) (db_commits d))) as Hs. rewrite <- Hm in Hs.
  destruct Hs as [(y & Ey & Hy)%list_elem_of_fmap _].
  apply list_elem_of_filter in Hy as [_ Hy]. specialize (Hlt y Hy). lia.
Qed.

Lemma version_hash_app docs new v :
  (∃ doc, doc ∈ docs ∧ doc_version_id doc = v) →
  version_hash (docs ++ new) (Some v) = version_hash docs (Some v).
Proof.
  intros (doc & Hd & Hv). cbn. rewrite filter_app.
  destruct (filter (λ d, doc_version_id d = v) docs) as [|x l] eqn:E; [|done].
  exfalso. assert (doc ∈ @nil document) as Hin; [|by apply elem_of_nil in Hin].
  rewrite <- E. by apply list_elem_of_filter.
Qed.

Lemma chain_append d d' docs rows c :
  wf_db d → chain_ok d →
  db_documents d' = db_documents d ++ docs →
  db_file_commits d' = db_file_commits d ++ rows →
  db_commits d' = db_commits d ++ [c] →
  (∀ c', c' ∈ db_commits d → c_sequence c' < c_sequence c) →
  (∀ r, r ∈ rows → fc_sequence r = c_sequence c ∧ fc_repo r = c_repo c ∧ fc_branch r = c_branch c) →
  (∀ r v, r ∈ rows → fc_version_id r = Some v →
     ∃ doc, doc ∈ db_documents d' ∧ doc_version_id doc = v ∧ doc_repo doc = fc_repo r) →
  hashed_as (prev_hash d (c_repo c) (c_branch c) (c_sequence c))
    (hash_row (db_documents d') <$> rows) c →
  chain_ok d'.
Proof.
  intros Hwf [H1 H2 H3] Ed Ef Ec Hlt Hrows Hdocs Hc.
  assert (∀ r, r ∈ db_file_commits d → fc_sequence r < c_sequence c) as Hold.
  { intros r Hr. pose proof (ok_fk _ _ (wf_file_commits _ Hwf)) as HF.
    rewrite Forall_forall in HF. specialize (HF r Hr). cbn in HF.
    apply bool_decide_eq_true in HF as ((c' & -> & Hc')%list_elem_of_fmap & _). by apply Hlt. }
  assert (∀ c', c' ∈ db_commits d → commit_files d' c' = commit_files d c') as Hfiles.
  { intros c' Hc'. unfold commit_files. rewrite Ef, filter_app, (filter_none _ rows), app_nil_r.
    - rewrite Ed. apply list_fmap_ext. intros i r [_ Hr]%list_elem_of_lookup_2%list_elem_of_filter.
      unfold hash_row. f_equal. destruct (fc_version_id r) as [v|] eqn:Ev; [|done].
      apply version_hash_app. destruct (H3 r v Hr Ev) as (doc & ? & ? & _). eauto.
    - intros r Hr [Hs _]. destruct (Hrows r Hr) as [Hs' _]. specialize (Hlt c' Hc'). lia. }
  split.
  - rewrite Ec. intros c' [Hc'|Hc']%elem_of_app; [|apply list_elem_of_singleton in Hc' as ->].
    + rewrite (prev_hash_append d d' c) by (try done; apply Z.lt_le_incl; auto).
      rewrite Hfiles by done. auto.
    + rewrite (prev_hash_append d d' c) by (done || lia).
      replace (commit_files d' c) with (hash_row (db_documents d') <$> rows); [done|].
      unfold commit_files. rewrite Ef, filter_app, filter_none, filter_all; [done|..].
      * intros r Hr. by destruct (Hrows r Hr) as (? & ? & _).
      * intros r Hr [Hs _]. specialize (Hold r Hr). lia.
  - rewrite Ef, Ec. intros r c' [Hr|Hr]%elem_of_app [Hc'|Hc']%elem_of_app Hs;
      try (apply list_elem_of_singleton in Hc' as ->).
    + auto.
    + specialize (Hold r Hr). lia.
    + destruct (Hrows r Hr) as [Hs' _]. specialize (Hlt c' Hc'). lia.
    + destruct (Hrows r Hr) as (_ & ? & ?). done.
  - rewrite Ef. intros r v [Hr|Hr]%elem_of_app Hv; [|auto].
    destruct (H3 r v Hr Hv) as (doc & Hd & ?). exists doc. rewrite Ed. split; [|done].
    apply elem_of_app. by left.
Qed.

(** ** Deleting branches *)

Lemma prev_hash_delete (keep : string → string → Prop) `{!∀ r b, Decision (keep r b)} d d' repo branch seq :
  db_commits d' = filter (λ c, keep (c_repo c) (c_branch c)) (db_commits d) → keep repo branch →
  prev_hash d' repo branch seq = prev_hash d repo branch seq.
Proof.
  intros Ec Hk. unfold prev_hash. rewrite Ec.
  assert (∀ (P : commit → Prop) `{!∀ c, Decision (P c)}, (∀ c, P c → c_repo c = repo ∧ c_branch c = branch) →
    filter P (filter (λ c, keep (c_repo c) (c_branch c)) (db_commits d)) = filter P (db_commits d)) as HP.
  { intros P ? HP. rewrite list_filter_filter. apply list_filter_iff. intros c.
    split; [by intros [? _]|]. intros Hc. split; [done|]. by destruct (HP c Hc) as [-> ->]. }
  by rewrite !HP by (by intros ? (? & ? & _)).
Qed.

Lemma chain_delete (keep : string → string → Prop) `{!∀ r b, Decision (keep r b)} d d' :
  chain_ok d →
  db_commits d' = filter (λ c, keep (c_repo c) (c_branch c)) (db_commits d) →
  db_file_commits d' = filter (λ r, keep (fc_repo r) (fc_branch r)) (db_file_commits d) →
  (∃ P (_ : ∀ doc, Decision (P doc)), db_documents d' = filter P (db_documents d) ∧
     ∀ r doc, r ∈ db_file_commits d' → doc ∈ db_documents d → doc_repo doc = fc_repo r →
       fc_version_id r = Some (doc_version_id doc) → P doc) →
  wf_db d →
  chain_ok d'.
Proof.
  intros [H1 H2 H3] Ec Ef (P & HdP & Ed & Hdocs) Hwf.
  assert (∀ r v, r ∈ db_file_commits d' → fc_version_id r = Some v →
    ∃ doc, doc ∈ db_documents d ∧ P doc ∧ doc_version_id doc = v ∧ doc_repo doc = fc_repo r) as Hkept.
  { intros r v Hr Hv. pose proof Hr as Hr'. rewrite Ef in Hr'.
    apply list_elem_of_filter in Hr' as [_ Hr'].
    destruct (H3 r v Hr' Hv) as (doc & Hd & Ev & Erepo). exists doc.
    split_and!; [done| |done..]. apply (Hdocs r); congruence || done. }
  assert (∀ r, r ∈ db_file_commits d' →
    hash_row (db_documents d') r = hash_row (db_documents d) r) as Hrow.
  { intros r Hr. unfold hash_row. f_equal. destruct (fc_version_id r) as [v|] eqn:Ev; [|done].
    destruct (Hkept r v Hr Ev) as (doc & Hd & HPd & Hv & _). cbn. rewrite Ed.
    pose proof (documents_NoDup d Hwf) as HN.
    rewrite <- Hv. rewrite (filter_key_unique doc_version_id (db_documents d) doc) by done.
    rewrite (filter_key_unique doc_version_id (filter P (db_documents d)) doc); [done|..].
    - by apply NoDup_fmap_filter.
    - by apply list_elem_of_filter. }
  split.
  - rewrite Ec. intros c [Hk Hc]%list_elem_of_filter.
    rewrite (prev_hash_delete keep d d') by done.
    replace (commit_files d' c) with (commit_files d c); [by apply H1|].
    unfold commit_files. transitivity (hash_row (db_documents d) <$> filter (files_of c) (db_file_commits d')).
    + f_equal. rewrite Ef. symmetry. apply (filter_filter_same _ _ _). intros r Hr [Hs _].
      destruct (H2 r c Hr Hc) as [<- <-]; [by rewrite Hs|done].
    + apply list_fmap_ext. intros i r [_ Hr]%list_elem_of_lookup_2%list_elem_of_filter. by rewrite Hrow.
  - rewrite Ec, Ef. intros r c [_ Hr]%list_elem_of_filter [_ Hc]%list_elem_of_filter. auto.
  - intros r v Hr Hv. destruct (Hkept r v Hr Hv) as (doc & Hd & HPd & ? & ?).
    exists doc. rewrite Ed. split; [|done]. by apply list_elem_of_filter.
Qed.

(** ** The chain query *)

Definition chain_file (f : ChainFile) : Hash.File := Hash.mkFile (chf_Path f) (chf_ContentHash f).

(** [e] is what the query says of [c]. *)
Record entry_of (d : DB) (c : commit) (e : ChainEntry) : Prop := {
  eo_seq : che_Sequence e = c_sequence c;
  eo_branch : che_Branch e = c_branch c;
  eo_author : che_Author e = c_author c;
  eo_message : che_Message e = c_message c;
  eo_created : che_CreatedAt e = c_created_at c;
  eo_hash : che_CommitHash e = c_commit_hash c;
  eo_files : chain_file <$> che_Files e ≡ₚ commit_files d c;
}.

(** The commits of a repository in a range of sequences, oldest first. *)
Definition commits_between (d : DB) (repo : string) (from to : Z) : list commit :=
  order_by_asc c_sequence
    (filter (λ c, c_repo c = repo ∧ from ≤ c_sequence c ∧ c_sequence c ≤ to) (db_commits d)).

Section groups.
Context {A K : Type} (key : A → Z) (kkey : K → Z).

Lemma sorted_split k (l : list A) :
  StronglySorted (λ x y, key x ≤ key y) l → Forall (λ x, k ≤ key x) l →
  l = filter (λ x, key x = k) l ++ filter (λ x, key x ≠ k) l.
Proof.
  induction l as [|x l IH]; intros HS HF; [done|].
  apply StronglySorted_cons in HS as [Hx HS]. apply Forall_cons in HF as [Hk HF].
  destruct (decide (key x = k)) as [E|N].
  - rewrite filter_cons_True, filter_cons_False by (done || tauto). cbn. f_equal. by apply IH.
  - assert (Forall (λ y, key y ≠ k) (x :: l)) as HN.
    { constructor; [done|]. rewrite Forall_forall in Hx |- *. intros y Hy. specialize (Hx y Hy). lia. }
    rewrite Forall_forall in HN. rewrite filter_none, filter_all; [done|exact HN|].
    intros y Hy E. by apply (HN y Hy).
Qed.

(** A list sorted by a key is the concatenation of its groups. *)
Lemma sorted_groups (ks : list K) (l : list A) :
  StronglySorted (λ x y, key x ≤ key y) l → StronglySorted (λ a b, kkey a < kkey b) ks →
  (∀ x, x ∈ l → key x ∈ kkey <$> ks) →
  l = ks ≫= λ a, filter (λ x, key x = kkey a) l.
Proof.
  revert l. induction ks as [|a ks IH]; intros l HS HK Hin.
  - destruct l as [|x l]; [done|]. specialize (Hin x ltac:(left)). by apply elem_of_nil in Hin.
  - apply StronglySorted_cons in HK as [Ha HK]. rewrite Forall_forall in Ha.
    rewrite bind_cons. rewrite (sorted_split (kkey a) l HS) at 1.
    2: { apply Forall_forall. intros x Hx.
         apply Hin, elem_of_cons in Hx as [->|(b & -> & Hb)%list_elem_of_fmap]; [lia|].
         specialize (Ha b Hb). lia. }
    f_equal. rewrite (IH (filter (λ x, key x ≠ kkey a) l)); [|by apply StronglySorted_filter|done|].
    + apply bind_ext_elem. intros b Hb. apply filter_filter_same. intros x _ E. specialize (Ha b Hb). lia.
    + intros x [Hne Hx]%list_elem_of_filter.
      apply Hin, elem_of_cons in Hx as [?|?]; done.
Qed.
End groups.

Lemma left_join_fst {A B} (R : A → B → Prop) `{!∀ a b, Decision (R a b)} l k a :
  a ∈ (left_join R l k).*1 ↔ a ∈ l.
Proof.
  rewrite list_elem_of_fmap. unfold left_join. setoid_rewrite list_elem_of_bind. split.
  - intros ([a' ob] & -> & a'' & Hin & Ha). cbn.
    destruct (filter (R a'') k); [apply list_elem_of_singleton in Hin; by simplify_eq|].
    apply list_elem_of_fmap in Hin as (? & ? & _). by simplify_eq.
  - intros Ha. destruct (filter (R a) k) as [|b bs] eqn:E.
    + exists (a, None). split; [done|]. exists a. rewrite E. split; [by left|done].
    + exists (a, Some b). split; [done|]. exists a. rewrite E. split; [by left|done].
Qed.

Lemma left_join_one {A B} (R : A → B → Prop) `{!∀ a b, Decision (R a b)} a k :
  left_join R [a] k = match filter (R a) k with
                      | [] => [(a, None)]
                      | bs => (λ b, (a, Some b)) <$> bs
                      end.
Proof. unfold left_join. cbn. by rewrite app_nil_r. Qed.

Lemma left_join_cons {A B} (R : A → B → Prop) `{!∀ a b, Decision (R a b)} a l k :
  left_join R (a :: l) k = left_join R [a] k ++ left_join R l k.
Proof. by rewrite left_join_one. Qed.

(** Filtering a join by its left column. *)
Lemma filter_left_join {A B} (R : A → B → Prop) `{!∀ a b, Decision (R a b)}
    (P : A → Prop) `{!∀ a, Decision (P a)} l k :
  filter (λ row, P row.1) (left_join R l k) = left_join R (filter P l) k.
Proof.
  induction l as [|a l IH]; [done|]. unfold left_join in *. rewrite bind_cons, filter_app, IH.
  assert (∀ row, row ∈ match filter (R a) k with [] => [(a, None)] | bs => (λ b, (a, Some b)) <$> bs end →
            row.1 = a) as Hrow.
  { intros row. destruct (filter (R a) k) as [|b bs].
    - by intros ->%list_elem_of_singleton.
    - by intros (? & -> & _)%list_elem_of_fmap. }
  destruct (decide (P a)).
  - rewrite filter_cons_True, bind_cons by done. f_equal. apply filter_all.
    intros row Hin. by rewrite (Hrow row Hin).
  - rewrite filter_cons_False by done.
    rewrite filter_none; [done|]. intros row Hin. by rewrite (Hrow row Hin).
Qed.

Section rows.
Context `{Collation}.
Abbreviation chain_row := (commit * option file_commit * option document)%type.

(** The loop over the rows of one commit. *)
Definition chain_group (c : commit) (g : list chain_row) : ChainEntry :=
  foldl (λ e row, add_chain_file row e) (new_entry c) g.

Definition row_file (row : chain_row) : option ChainFile :=
  (λ fc, mkChainFile (fc_path fc) (str_or_empty (doc_content_hash <$> row.2))) <$> row.1.2.

Lemma chain_group_entry c g :
  chain_group c g = mkChainEntry (c_sequence c) (c_branch c) (c_author c) (c_message c)
                      (c_created_at c) (c_commit_hash c) (omap row_file g).
Proof.
  unfold chain_group. change (omap row_file g) with ([] ++ omap row_file g). unfold new_entry.
  generalize (@nil ChainFile) as fs. induction g as [|[[c' [fc|]] doc] g IH]; intros fs; cbn.
  - by rewrite app_nil_r.
  - etrans; [apply IH|]. by rewrite <- app_assoc.
  - apply IH.
Qed.

Lemma chain_step_group c g entries cur :
  Forall (λ row, row.1.1 = c) g → g ≠ [] →
  (∀ e, cur = Some e → che_Sequence e ≠ c_sequence c) →
  foldl chain_step (entries, cur) g = (entries ++ option_list cur, Some (chain_group c g)).
Proof.
  intros HF Hne Hcur. destruct g as [|row g]; [done|].
  apply Forall_cons in HF as [<- HF]. cbn [foldl].
  assert (chain_step (entries, cur) row
    = (entries ++ option_list cur, Some (add_chain_file row (new_entry row.1.1)))) as ->.
  { unfold chain_step. destruct cur as [e|]; [|by rewrite app_nil_r].
    rewrite bool_decide_false by (by apply Hcur). done. }
  unfold chain_group. cbn [foldl].
  assert (che_Sequence (add_chain_file row (new_entry row.1.1)) = c_sequence row.1.1) as Hs
    by (by destruct row as [[? [?|]] ?]).
  revert Hs. generalize (add_chain_file row (new_entry row.1.1)) as e.
  generalize (entries ++ option_list cur) as es. clear Hcur Hne.
  induction g as [|row' g IH]; intros es e Hs; [done|]. apply Forall_cons in HF as [Hr HF].
  cbn [foldl]. unfold chain_step at 2. rewrite bool_decide_true by (by rewrite Hr).
  apply IH; [done|]. by destruct row' as [[? [?|]] ?].
Qed.

Lemma chain_step_groups cs (g : commit → list chain_row) entries cur :
  (∀ c, c ∈ cs → Forall (λ row, row.1.1 = c) (g c) ∧ g c ≠ []) →
  NoDup (c_sequence <$> cs) →
  (∀ e c, cur = Some e → c ∈ cs → che_Sequence e ≠ c_sequence c) →
  let '(entries', cur') := foldl chain_step (entries, cur) (cs ≫= g) in
  entries' ++ option_list cur' = entries ++ option_list cur ++ ((λ c, chain_group c (g c)) <$> cs).
Proof.
  revert entries cur. induction cs as [|c cs IH]; intros entries cur Hg HN Hcur.
  - cbn. by rewrite app_nil_r.
  - rewrite bind_cons, foldl_app. destruct (Hg c ltac:(left)) as [HF Hne].
    rewrite (chain_step_group c) by (done || (intros e ->; by apply Hcur; [|left])).
    rewrite fmap_cons in HN. apply NoDup_cons in HN as [Hc HN].
    specialize (IH (entries ++ option_list cur) (Some (chain_group c (g c)))).
    destruct (foldl _ _ _) as [es' cur'] eqn:E. rewrite IH.
    + cbn. by rewrite <- app_assoc.
    + intros c' Hc'. apply Hg. by right.
    + done.
    + intros e c' [= <-] Hc'. rewrite chain_group_entry. cbn. intros E'. apply Hc. rewrite E'.
      by apply list_elem_of_fmap_2.
Qed.

(** The rows of one commit. *)
Definition rows_of (d : DB) (c : commit) : list chain_row :=
  left_join chain_doc (left_join files_of [c] (db_file_commits d)) (db_documents d).

Lemma chain_doc_rows d c fc :
  wf_db d → chain_ok d → fc ∈ db_file_commits d → c_repo c = fc_repo fc →
  ∃ row : chain_row, left_join chain_doc [(c, Some fc)] (db_documents d) = [row] ∧
    row.1 = (c, Some fc) ∧ chain_file <$> row_file row = Some (hash_row (db_documents d) fc).
Proof.
  intros Hwf Hck Hfc Hrepo. rewrite left_join_one.
  destruct (fc_version_id fc) as [v|] eqn:Ev.
  - destruct (ck_docs _ Hck fc v Hfc Ev) as (doc & Hd & Hv & Hr).
    assert (NoDup (doc_version_id <$> db_documents d)) as HN by by apply documents_NoDup.
    assert (filter (chain_doc (c, Some fc)) (db_documents d) = [doc]) as ->.
    { rewrite <- (filter_key_unique doc_version_id (db_documents d) doc HN Hd).
      apply filter_ext_elem. intros x Hx. unfold chain_doc, doc_of. cbn. rewrite Ev, Hv.
      split; [by intros [[= ->] _]|]. intros Ex. split; [congruence|].
      rewrite Hrepo, <- Hr. f_equal. apply (NoDup_fmap_inj doc_version_id (db_documents d)); congruence. }
    eexists. split_and!; [done|done|]. unfold row_file, hash_row. cbn. rewrite Ev. cbn.
    rewrite <- Hv, (filter_key_unique doc_version_id _ doc) by done. done.
  - rewrite filter_none by (intros x _ [Hx _]; cbn in Hx; congruence).
    eexists. split_and!; [done|done|]. unfold row_file, hash_row. cbn. by rewrite Ev.
Qed.

Lemma rows_of_ok d c :
  wf_db d → chain_ok d →
  rows_of d c ≠ [] ∧ Forall (λ row, row.1.1 = c) (rows_of d c) ∧
  chain_file <$> omap row_file (rows_of d c) = commit_files d c.
Proof.
  intros Hwf Hck. unfold rows_of, commit_files. rewrite (left_join_one files_of).
  assert (∀ fc, fc ∈ filter (files_of c) (db_file_commits d) → fc ∈ db_file_commits d ∧ c_repo c = fc_repo fc)
    as Hin by (by intros fc [[_ ?] ?]%list_elem_of_filter).
  destruct (filter (files_of c) (db_file_commits d)) as [|fc fcs].
  - rewrite left_join_one, filter_none by (by intros x _ []).
    split_and!; [done|by repeat constructor|done].
  - split.
    { destruct (Hin fc ltac:(left)) as [Hf Hr].
      destruct (chain_doc_rows d c fc) as (row & E & _); [done..|].
      by rewrite fmap_cons, left_join_cons, E. }
    generalize dependent (fc :: fcs). clear fc fcs. intros l Hin.
    induction l as [|fc l IH]; [split; [constructor|done]|].
    destruct IH as [IH1 IH2]; [intros ? ?; apply Hin; by right|].
    destruct (Hin fc ltac:(left)) as [Hf Hr].
    destruct (chain_doc_rows d c fc) as (row & E & E1 & E2); [done..|].
    rewrite fmap_cons, left_join_cons, E. cbn [app]. split.
    + constructor; [by rewrite E1|done].
    + cbn. destruct (row_file row) as [f|] eqn:Ef; [|done]. apply (inj Some) in E2. cbn. by rewrite E2, IH2.
Qed.

Lemma chain_rows_sorted d repo from to :
  StronglySorted (λ x y : chain_row, c_sequence x.1.1 ≤ c_sequence y.1.1)
    (chain_rows d repo from to).
Proof.
  assert (StronglySorted chain_order (chain_rows d repo from to)) as HS.
  { apply merge_sorted; [apply order_then_trans|apply order_then_total]; apply _. }
  induction HS as [|x l HS IH HF]; constructor; [done|].
  eapply Forall_impl; [exact HF|]. intros y [[_ Hle]|[-> _]]; [done|lia].
Qed.

Lemma order_by_asc_strict {A} (key : A → Z) l :
  NoDup (key <$> l) → StronglySorted (λ a b, key a < key b) (order_by_asc key l).
Proof.
  intros HN. assert (NoDup (key <$> order_by_asc key l)) as HN'.
  { unfold order_by_asc. by rewrite merge_sort_Permutation. }
  assert (StronglySorted (num_asc key) (order_by_asc key l)) as HS.
  { apply merge_sorted; apply _. }
  induction HS as [|x k HS IH HF]; constructor; rewrite fmap_cons in HN';
    apply NoDup_cons in HN' as [Hx HN']; [auto|].
  rewrite Forall_forall in HF |- *. intros y Hy. specialize (HF y Hy). unfold num_asc in HF.
  destruct (decide (key x = key y)) as [E|]; [|lia]. exfalso. apply Hx. rewrite E.
  by apply list_elem_of_fmap_2.
Qed.

(** [GetChain] returns one entry per commit of the range, oldest first. *)
Lemma GetChain_entries d repo from to :
  wf_db d → chain_ok d →
  Forall2 (entry_of d) (commits_between d repo from to) (chain_entries (chain_rows d repo from to)).
Proof.
  intros Hwf Hck. set (cs := commits_between d repo from to).
  set (rows := chain_rows d repo from to).
  assert (NoDup (c_sequence <$> db_commits d)) as HN by by apply commits_NoDup.
  assert (∀ c, c ∈ cs → c ∈ db_commits d ∧ c_repo c = repo ∧ from ≤ c_sequence c ≤ to) as Hcs.
  { intros c. unfold cs, commits_between, order_by_asc. rewrite order_by_elem.
    by intros [? ?]%list_elem_of_filter. }
  assert (NoDup (c_sequence <$> cs)) as HNcs.
  { unfold cs, commits_between, order_by_asc. rewrite merge_sort_Permutation.
    by apply NoDup_fmap_filter. }
  assert (∀ c, c ∈ cs → filter (λ row : chain_row, c_sequence row.1.1 = c_sequence c) rows
                        ≡ₚ rows_of d c) as Hgroup.
  { intros c Hc. unfold rows, chain_rows. rewrite merge_sort_Permutation.
    apply reflexive_eq.
    etrans; [exact (filter_left_join chain_doc (λ x, c_sequence x.1 = c_sequence c) _ _)|].
    unfold rows_of. f_equal.
    etrans; [exact (filter_left_join files_of (λ x, c_sequence x = c_sequence c) _ _)|]. f_equal.
    apply (filter_key_unique c_sequence); [by apply NoDup_fmap_filter|].
    apply list_elem_of_filter. by destruct (Hcs c Hc) as (? & ? & ? & ?). }
  assert (rows = cs ≫= λ c, filter (λ row : chain_row, c_sequence row.1.1 = c_sequence c) rows) as Hrows.
  { apply (sorted_groups (λ row : chain_row, c_sequence row.1.1) c_sequence).
    - apply chain_rows_sorted.
    - unfold cs, commits_between. by apply order_by_asc_strict, NoDup_fmap_filter.
    - intros row. unfold rows, chain_rows. rewrite merge_sort_Permutation. intros Hrow.
      apply list_elem_of_fmap_2. unfold cs, commits_between, order_by_asc. apply order_by_elem.
      apply (list_elem_of_fmap_2 fst), (left_join_fst chain_doc) in Hrow.
      by apply (list_elem_of_fmap_2 fst), (left_join_fst files_of) in Hrow. }
  unfold chain_entries. pose proof (chain_step_groups cs
    (λ c, filter (λ row : chain_row, c_sequence row.1.1 = c_sequence c) rows) [] None) as Hst.
  rewrite <- Hrows in Hst. destruct (foldl chain_step ([], None) rows) as [es cur].
  rewrite Hst; [|..|done|done]; clear Hst.
  - cbn [option_list app]. apply Forall2_fmap_r, Forall2_same_length_lookup_2; [done|]. intros i c c' Hc Hc'. simplify_eq.
    apply list_elem_of_lookup_2 in Hc. destruct (rows_of_ok d c Hwf Hck) as (_ & _ & Hf).
    unfold compose. rewrite chain_group_entry. split; try done. cbn [che_Files]. rewrite <- Hf.
    apply fmap_Permutation, omap_Permutation. by apply Hgroup.
  - intros c Hc. destruct (rows_of_ok d c Hwf Hck) as (Hne & HF & _). split.
    + rewrite Forall_forall in HF |- *. intros row Hrow. apply HF. by rewrite <- (Hgroup c Hc).
    + intros E. apply Hne.
      apply Permutation_nil_r. by rewrite <- (Hgroup c Hc), E.
Qed.
End rows.
