(* ===== verification/CommitSpec.v ===== *)
(** * What Commit does

    [committed s req w w' resp] lists every table row a successful [Commit]
    writes; [Commit_committed] proves it, and the theorems after it read off
    what branches show before and after. *)

From S2P Require Import Prelude GoStd Schema Tx Run Integrity Blob Commits Merge ReadStore Views Chain Samples.
From S2P Require Hash.

(** ** Helpers *)

Lemma set_documents_id d : set_documents (db_documents d) d = d.
Proof. by destruct d. Qed.
Lemma set_file_commits_id d : set_file_commits (db_file_commits d) d = d.
Proof. by destruct d. Qed.

Lemma lock_branch_ok repo name w w' b :
  lock_branch repo name w = (w', Ok b) →
  w' = w ∧ b ∈ db_branches (w_db w) ∧ br_repo b = repo ∧ br_name b = name.
Proof.
  unfold lock_branch. intros (l & [-> E]%select_ok)%query_row_ok.
  assert (b ∈ filter (λ b, br_repo b = repo ∧ br_name b = name) (db_branches (w_db w))) as Hb.
  { cbn in E. rewrite <- E. by left. }
  apply list_elem_of_filter in Hb as [[? ?] ?]. done.
Qed.

Lemma lock_branch_missing repo name w :
  ¬ has_branch (w_db w) repo name → lock_branch repo name w = (w, Fail sql_ErrNoRows).
Proof.
  intros Hn. unfold lock_branch, query_row, select, gets, mbind, M_bind. cbn [t_rows branches].
  rewrite filter_none; [done|]. intros b Hb [<- <-]. apply Hn.
  unfold has_branch. by apply (list_elem_of_fmap_2 br_key).
Qed.

(** In a well-formed database the lock finds the row. *)
Lemma lock_branch_run w b :
  wf_db (w_db w) → b ∈ db_branches (w_db w) →
  lock_branch (br_repo b) (br_name b) w = (w, Ok b).
Proof.
  intros Hwf Hb. unfold lock_branch, query_row, select, gets, mbind, M_bind. cbn [t_rows branches].
  assert (NoDup (br_key <$> db_branches (w_db w))) as HN.
  { apply (unique_NoDup (t_clash branches)); [|apply Hwf].
    intros x y E. by apply bool_decide_eq_true. }
  pose proof (filter_key_unique br_key _ b HN Hb) as E.
  erewrite list_filter_iff; [rewrite E; done|].
  intros x. unfold br_key. split; [by intros [-> ->]|by intros [= -> ->]].
Qed.

Lemma insert_commit_ok repo branch message author w w' n t :
  insert_commit repo branch message author w = (w', Ok (n, t)) →
  n = w_commit_seq w + 1 ∧ t = w_now w / 1000 * 1000 ∧
  w' = with_db (set_commits (db_commits (w_db w) ++ [mkCommit n branch message author t repo None])
                  (w_db w)) (with_commit_seq n w).
Proof.
  unfold insert_commit. intros E. inv_ok.
  apply nextval_commits_ok in E0 as (-> & -> & _).
  unfold now in E1. inv_ok. apply insert_ok in E2 as (_ & _ & _ & ->).
  simplify_eq. done.
Qed.

Lemma updateCommitHash_ok repo seq hash w w' u :
  updateCommitHash repo seq hash w = (w', Ok u) →
  w' = with_db (set_commits (update_where (λ c, c_repo c = repo ∧ c_sequence c = seq)
                  (commit_with_hash hash) (db_commits (w_db w))) (w_db w)) w.
Proof. unfold updateCommitHash. intros E. inv_ok. by apply update_ok in E0 as [-> _]. Qed.

(** The hash written for the commit inserted last. *)
Lemma update_last_commit n repo hash l c :
  Forall (λ c, c_sequence c ≤ n) l → c_sequence c = n + 1 → c_repo c = repo →
  update_where (λ c, c_repo c = repo ∧ c_sequence c = n + 1) (commit_with_hash hash) (l ++ [c])
  = l ++ [commit_with_hash hash c].
Proof.
  intros Hl Hc Hr. rewrite update_where_app, update_where_id.
  - unfold update_where; cbn. by rewrite decide_True.
  - intros x Hx [_ E]. rewrite Forall_forall in Hl. specialize (Hl x Hx). lia.
Qed.

Lemma fetchPrevCommitHash_world repo branch seq w w' h :
  fetchPrevCommitHash repo branch seq w = (w', Ok h) → w' = w.
Proof.
  unfold fetchPrevCommitHash. intros E. inv_ok.
  apply select_ok in E0 as [-> ->], E1 as [-> ->].
  repeat case_match; by inv_ok.
Qed.

(** ** The loop over the files *)
Section CommitSpec.
Context `{UuidSource}.
Implicit Types (req : CommitRequest) (f : FileChange).

(** [w'] is [w] with more documents and file commits. *)
Record extends (w w' : World) (docs : list document) (rows : list file_commit) : Prop := {
  ext_db : w_db w' = set_file_commits (db_file_commits (w_db w) ++ rows)
                       (set_documents (db_documents (w_db w) ++ docs) (w_db w));
  ext_seq : w_commit_seq w' = w_commit_seq w;
  ext_now : w_now w' = w_now w;
}.

Lemma extends_refl w : extends w w [] [].
Proof. split; [|done..]. by rewrite !app_nil_r, set_documents_id, set_file_commits_id. Qed.

Lemma extends_trans w1 w2 w3 ds1 ds2 rs1 rs2 :
  extends w1 w2 ds1 rs1 → extends w2 w3 ds2 rs2 → extends w1 w3 (ds1 ++ ds2) (rs1 ++ rs2).
Proof.
  intros [E1 S1 N1] [E2 S2 N2]. split; [|congruence..].
  rewrite E2, E1. cbn. by rewrite !app_assoc.
Qed.

(** [v] is a version of [content] in [repo]. *)
Definition version_of (docs : list document) (repo content v : string) : Prop :=
  ∃ d, d ∈ docs ∧ doc_version_id d = v ∧ doc_repo d = repo ∧
       doc_content_hash d = sha256_hex content.

Lemma store_content_ok s req f content w w' v :
  store_content s req f content w = (w', Ok v) →
  ∃ docs, extends w w' docs [] ∧
    version_of (db_documents (w_db w) ++ docs) (cq_Repo req) content v.
Proof.
  unfold store_content. intros E. inv_ok. rewrite catch_run in E0. destruct a as [d|e].
  - inv_ok. apply query_row_ok in E0 as (l & [-> El]%select_ok).
    exists []. split; [apply extends_refl|]. exists d.
    assert (d ∈ db_documents (w_db w) ∧ doc_repo d = cq_Repo req
            ∧ doc_content_hash d = sha256_hex content) as (? & ? & ?).
    { assert (d ∈ d :: l) as Hd by by left. cbn in El. rewrite El in Hd.
      apply list_elem_of_filter in Hd as [[? ?] ?]. done. }
    rewrite app_nil_r. done.
  - case_match; [done|]. inv_ok.
    apply query_row_gets_world in E0 as ->.
    apply uuid_ok in E1 as [-> ->]. unfold now in E3. inv_ok.
    apply insert_ok in E4 as (_ & _ & _ & ->).
    match goal with H : (match stored_externally _ _ with _ => _ end) _ = _ |- _ =>
      rename H into Ew end.
    assert (∃ bl, w2 = with_blobs bl (with_uuids (S (w_uuids w)) w)) as [bl ->].
    { destruct (stored_externally s content) as [bs|]; inv_ok; [|by exists (w_blobs w)].
      match goal with H : blob_Put _ _ _ _ = _ |- _ => apply blob_Put_ok in H as -> end.
      by eexists. }
    eexists [_]. split.
    + split; cbn; [|done..]. rewrite app_nil_r. by destruct (w_db w).
    + eexists. split; [apply elem_of_app; right; by left|]. done.
Qed.

(** What the loop writes for one file. *)
Definition file_written (docs : list document) (req : CommitRequest) (seq : Z) (f : FileChange)
    (out : CommitFileResult * Hash.File) (r : file_commit) : Prop :=
  fc_path r = ch_Path f ∧ fc_sequence r = seq ∧
  fc_repo r = cq_Repo req ∧ fc_branch r = cq_Branch req ∧
  out.1 = mkCommitFileResult (ch_Path f) (fc_version_id r) ∧
  match ch_Content f with
  | None => fc_version_id r = None ∧ out.2 = Hash.mkFile (ch_Path f) ""
  | Some content =>
      out.2 = Hash.mkFile (ch_Path f) (sha256_hex content) ∧
      ∃ v, fc_version_id r = Some v ∧ version_of docs (cq_Repo req) content v
  end.

Lemma file_written_mono docs docs' req seq f out r :
  docs ⊆ docs' → file_written docs req seq f out r → file_written docs' req seq f out r.
Proof.
  intros Hs (? & ? & ? & ? & ? & Hc). split_and!; [done..|].
  destruct (ch_Content f); [|done]. destruct Hc as (? & v & ? & d & ? & ?).
  split; [done|]. exists v. split; [done|]. exists d. auto.
Qed.

Lemma commit_file_ok s req seq f w w' out :
  commit_file s req seq f w = (w', Ok out) →
  ∃ docs r, extends w w' docs [r] ∧
    file_written (db_documents (w_db w) ++ docs) req seq f out r.
Proof.
  unfold commit_file. intros E. inv_ok.
  apply uuid_ok in E1 as [-> ->]. apply insert_ok in E2 as (_ & _ & _ & ->).
  destruct (ch_Content f) as [content|] eqn:Ec; inv_ok.
  - simplify_eq. apply store_content_ok in E1 as (docs & [Ed Es En] & Hv).
    exists docs. eexists. split.
    + split; cbn; [|done..]. rewrite Ed. cbn. by rewrite app_nil_r.
    + unfold file_written; cbn. rewrite Ec. eauto 10.
  - simplify_eq. exists []. eexists. split.
    + split; cbn; [|done..]. by rewrite app_nil_r, set_documents_id.
    + unfold file_written; cbn. rewrite Ec. eauto 10.
Qed.

Lemma commit_files_ok s req seq fs w w' outs :
  mapM (commit_file s req seq) fs w = (w', Ok outs) →
  ∃ docs rows, extends w w' docs rows ∧
    Forall2 (λ fo r, file_written (db_documents (w_db w) ++ docs) req seq fo.1 fo.2 r)
      (zip fs outs) rows ∧ length outs = length fs.
Proof.
  revert w w' outs. induction fs as [|f fs IH]; intros w w' outs; cbn; intros E; inv_ok.
  - exists [], []. split_and!; [apply extends_refl|constructor|done].
  - apply commit_file_ok in E0 as (docs & r & Hx & Hw).
    apply IH in E1 as (docs' & rows & Hx' & HF & Hl).
    exists (docs ++ docs'), (r :: rows).
    pose proof (ext_db _ _ _ _ Hx) as Ed.
    assert (db_documents (w_db w0) = db_documents (w_db w) ++ docs) as Edocs by by rewrite Ed.
    split_and!; [by apply (extends_trans _ _ _ _ _ [r] rows Hx Hx')| |by cbn; rewrite Hl].
    constructor.
    + cbn. eapply file_written_mono; [|exact Hw]. rewrite app_assoc. apply list_subseteq_app_l.
      done.
    + rewrite Edocs, <- app_assoc in HF. done.
Qed.

Lemma store_content_no_rollback s req f content : no_rollback (store_content s req f content).
Proof. unfold store_content. solve_no_rollback. Qed.
#[local] Hint Resolve store_content_no_rollback : docstore.

Lemma commit_file_no_rollback s req seq f : no_rollback (commit_file s req seq f).
Proof. unfold commit_file. solve_no_rollback. Qed.
#[local] Hint Resolve commit_file_no_rollback : docstore.

(** The rows and the response of a successful commit. *)
Record committed (req : CommitRequest) (w w' : World) (resp : CommitResponse)
    (docs : list document) (rows : list file_commit) (outs : list (CommitFileResult * Hash.File))
    : Prop := {
  cm_seq : cp_Sequence resp = w_commit_seq w + 1;
  cm_next : w_commit_seq w' = w_commit_seq w + 1;
  cm_files : cp_Files resp = fst <$> outs;
  cm_length : length outs = length (cq_Files req);
  cm_rows : Forall2 (λ fo r, file_written (db_documents (w_db w')) req (cp_Sequence resp) fo.1 fo.2 r)
              (zip (cq_Files req) outs) rows;
  cm_hash : cp_CommitHash resp =
    Hash.CommitHash (prev_hash (w_db w) (cq_Repo req) (cq_Branch req) (cp_Sequence resp))
      (cp_Sequence resp) (cq_Repo req) (cq_Branch req) (cq_Author req) (cq_Message req)
      (w_now w / 1000 * 1000) (snd <$> outs);
  cm_db : w_db w' =
    set_commits (db_commits (w_db w) ++
      [mkCommit (cp_Sequence resp) (cq_Branch req) (cq_Message req) (cq_Author req)
         (w_now w / 1000 * 1000) (cq_Repo req) (Some (cp_CommitHash resp))])
    (set_branches (update_where (λ b, br_repo b = cq_Repo req ∧ br_name b = cq_Branch req)
                     (branch_with_head (cp_Sequence resp)) (db_branches (w_db w)))
    (set_file_commits (db_file_commits (w_db w) ++ rows)
    (set_documents (db_documents (w_db w) ++ docs) (w_db w))));
}.

Lemma Commit_committed s req w w' resp :
  wf w → Commit s req w = (w', Ok resp) →
  (∃ b, b ∈ db_branches (w_db w) ∧ br_repo b = cq_Repo req ∧ br_name b = cq_Branch req ∧
        br_status b = Active) ∧
  ∃ docs rows outs, committed req w w' resp docs rows outs.
Proof.
  intros Hwf. unfold Commit. rewrite in_tx_ok.
  2: { unfold or_not_found, lock_branch, insert_commit, updateCommitHash, fetchPrevCommitHash.
       solve_no_rollback. }
  intros E. inv_ok.
  apply lock_branch_ok in E0 as (-> & Hb & Hr & Hn).
  case_bool_decide as Ha; [done|]. inv_ok.
  apply insert_commit_ok in E0 as (-> & -> & ->).
  apply commit_files_ok in E1 as (docs & rows & [Ed Es En] & HF & Hl).
  apply update_ok in E2 as [-> _].
  apply fetchPrevCommitHash_ok in E3 as [-> ->].
  apply updateCommitHash_ok in E4 as ->.
  split; [by eauto 10|]. exists docs, rows. eexists.
  split; cbn; [done|by rewrite Es|reflexivity|done| | |]; rewrite Ed; cbn.
  - exact HF.
  - f_equal. eapply prev_hash_append; [done|cbn; lia|]. intros c Hc.
    pose proof (wf_commit_seq _ _ Hwf Hc). cbn. lia.
  - rewrite update_last_commit by (try done; apply Hwf). by destruct (w_db w).
Qed.

(** ** Reading [committed] *)

Lemma written_paths ds req seq fs outs rows :
  Forall2 (λ fo r, file_written ds req seq fo.1 fo.2 r) (zip fs outs) rows →
  length outs = length fs → fc_path <$> rows = ch_Path <$> fs.
Proof.
  revert outs rows. induction fs as [|f fs IH]; intros [|out os] rs HF Hl; try done; cbn in *.
  - by apply Forall2_nil_inv_l in HF as ->.
  - apply Forall2_cons_inv_l in HF as (r & rs' & (Hp & _) & HF & ->). cbn.
    rewrite Hp. f_equal. apply (IH os); [done|lia].
Qed.

Section reading.
Context (req : CommitRequest) (w w' : World) (resp : CommitResponse).
Context (docs : list document) (rows : list file_commit).
Context (outs : list (CommitFileResult * Hash.File)).
Context (Hc : committed req w w' resp docs rows outs).

Lemma committed_file_commits : db_file_commits (w_db w') = db_file_commits (w_db w) ++ rows.
Proof. by rewrite (cm_db _ _ _ _ _ _ _ Hc). Qed.
Lemma committed_documents : db_documents (w_db w') = db_documents (w_db w) ++ docs.
Proof. by rewrite (cm_db _ _ _ _ _ _ _ Hc). Qed.

Lemma committed_bases repo branch : bases (w_db w') repo branch = bases (w_db w) repo branch.
Proof. eapply bases_update; [by rewrite (cm_db _ _ _ _ _ _ _ Hc)|done]. Qed.

(** Each row comes from a file of the request. *)
Lemma committed_row r :
  r ∈ rows → ∃ f out, f ∈ cq_Files req ∧
    file_written (db_documents (w_db w')) req (cp_Sequence resp) f out r.
Proof.
  intros [i Hi]%list_elem_of_lookup_1.
  destruct (Forall2_lookup_r _ _ _ _ _ (cm_rows _ _ _ _ _ _ _ Hc) Hi) as ([f out] & Hz & Hw).
  apply lookup_zip_Some in Hz as [Hf _]. exists f, out.
  split; [by eapply list_elem_of_lookup_2|done].
Qed.

(** Each file of the request has its row. *)
Lemma committed_file f :
  f ∈ cq_Files req → ∃ out r, r ∈ rows ∧
    file_written (db_documents (w_db w')) req (cp_Sequence resp) f out r.
Proof.
  intros [i Hi]%list_elem_of_lookup_1.
  destruct (lookup_lt_is_Some_2 outs i) as [out Ho].
  { rewrite (cm_length _ _ _ _ _ _ _ Hc). by eapply lookup_lt_Some. }
  assert (zip (cq_Files req) outs !! i = Some (f, out)) as Hz by by apply lookup_zip_Some.
  destruct (Forall2_lookup_l _ _ _ _ _ (cm_rows _ _ _ _ _ _ _ Hc) Hz) as (r & Hr & Hw).
  exists out, r. split; [by eapply list_elem_of_lookup_2|done].
Qed.

Lemma committed_paths : fc_path <$> rows = ch_Path <$> cq_Files req.
Proof.
  apply (written_paths (db_documents (w_db w')) req (cp_Sequence resp) _ outs rows);
    [apply Hc|by apply (cm_length _ _ _ _ _ _ _ Hc)].
Qed.

Lemma committed_row_new r :
  r ∈ rows → fc_repo r = cq_Repo req ∧ fc_branch r = cq_Branch req ∧
             w_commit_seq w < fc_sequence r.
Proof.
  intros (f & out & _ & (_ & Hs & Hr & Hb & _))%committed_row.
  rewrite Hs, (cm_seq _ _ _ _ _ _ _ Hc). split_and!; [done..|lia].
Qed.

Lemma committed_unambiguous : NoDup (ch_Path <$> cq_Files req) → unambiguous rows.
Proof.
  rewrite <- committed_paths. intros HN r r' Hr Hr' E _. by apply (NoDup_fmap_inj fc_path rows).
Qed.
End reading.

(** ** Contents *)

(** Every document has a content with its hash, in its row or in the blob
    store under the hash as key; every blob has its key as hash. *)
Record content_ok (w : World) : Prop := {
  co_blobs key data : w_blobs w !! key = Some data → sha256_hex data = key;
  co_docs d : d ∈ db_documents (w_db w) →
    (doc_blob_key d = None ∧ sha256_hex <$> doc_content d = Some (doc_content_hash d)) ∨
    (doc_blob_key d = Some (doc_content_hash d) ∧ is_Some (w_blobs w !! doc_content_hash d) ∧
     doc_content_hash d ≠ "");
}.

Lemma content_ok_data w d :
  content_ok w → d ∈ db_documents (w_db w) →
  ∃ data, doc_data w d = Some data ∧ sha256_hex data = doc_content_hash d.
Proof.
  intros [Hb Hd] Hin. unfold doc_data.
  destruct (Hd d Hin) as [[-> Hc]|(-> & [data Hk] & Hne)]; cbn.
  - destruct (doc_content d) as [c|]; [|done]. injection Hc as [= Hc]. eauto.
  - destruct (doc_content_hash d) as [|c k] eqn:E; [done|]. rewrite Hk. eauto.
Qed.

Lemma sha256_hex_nonempty s : sha256_hex s ≠ "".
Proof. intros E. pose proof (sha256_hex_length s) as Hl. by rewrite E in Hl. Qed.

(** Same documents, same blobs. *)
Lemma content_ok_frame w w' :
  db_documents (w_db w') = db_documents (w_db w) → w_blobs w' = w_blobs w →
  content_ok w → content_ok w'.
Proof. intros Ed Eb [Hb Hd]. split; rewrite ?Eb, ?Ed; done. Qed.

(** A blob written under its hash, and a document that refers to it or holds
    its content. *)
Lemma content_ok_put w content :
  content_ok w → content_ok (with_blobs (<[sha256_hex content := content]> (w_blobs w)) w).
Proof.
  intros [Hb Hd]. split; cbn.
  - intros key data. destruct (decide (key = sha256_hex content)) as [->|N].
    + rewrite lookup_insert_eq. by intros [= ->].
    + rewrite lookup_insert_ne by done. apply Hb.
  - intros d Hin. destruct (Hd d Hin) as [?|(? & Hs & ?)]; [by left|right].
    split_and!; [done| |done]. apply lookup_insert_is_Some'; by right.
Qed.

Lemma content_ok_insert w d :
  content_ok w →
  (doc_blob_key d = None ∧ sha256_hex <$> doc_content d = Some (doc_content_hash d)) ∨
  (doc_blob_key d = Some (doc_content_hash d) ∧ is_Some (w_blobs w !! doc_content_hash d) ∧
   doc_content_hash d ≠ "") →
  content_ok (with_db (set_documents (db_documents (w_db w) ++ [d]) (w_db w)) w).
Proof.
  intros [Hb Hd] Hn. split; cbn; [done|].
  intros x [Hx|Hx]%elem_of_app; [auto|]. by apply list_elem_of_singleton in Hx as ->.
Qed.

Lemma store_content_content s req f content w w' v :
  content_ok w → store_content s req f content w = (w', Ok v) → content_ok w'.
Proof.
  intros Hco. unfold store_content. intros E. inv_ok. rewrite catch_run in E0. destruct a as [d|e].
  - inv_ok. by apply query_row_gets_world in E0 as ->.
  - case_match; [done|]. inv_ok. apply query_row_gets_world in E0 as ->.
    apply uuid_ok in E1 as [-> ->]. unfold now in E3. inv_ok.
    apply insert_ok in E4 as (_ & _ & _ & ->).
    assert (content_ok (with_uuids (S (w_uuids w)) w)) as Hco1 by by apply (content_ok_frame w).
    match goal with H : (match stored_externally _ _ with _ => _ end) _ = _ |- _ =>
      destruct (stored_externally s content) as [bs|]; inv_ok end; simplify_eq.
    + match goal with H : blob_Put _ _ _ _ = _ |- _ => apply blob_Put_ok in H as -> end.
      apply (content_ok_insert (with_blobs _ _)); [by apply content_ok_put|right]. cbn.
      split_and!; [done| |apply sha256_hex_nonempty]. rewrite lookup_insert_eq. by eexists.
    + apply (content_ok_insert (with_uuids _ _)); [done|left]. done.
Qed.

Lemma commit_files_content s req seq fs w w' outs :
  content_ok w → mapM (commit_file s req seq) fs w = (w', Ok outs) → content_ok w'.
Proof.
  revert w w' outs. induction fs as [|f fs IH]; intros w w' outs Hco E; cbn in E; inv_ok; [done|].
  eapply IH; [|exact E1]. clear IH E1. unfold commit_file in E0. inv_ok.
  match goal with H : uuid_New _ = _ |- _ => apply uuid_ok in H as [-> ->] end.
  match goal with H : insert_row _ _ _ = _ |- _ => apply insert_ok in H as (_ & _ & _ & ->) end.
  destruct (ch_Content f) as [content|]; inv_ok; simplify_eq.
  - match goal with H : store_content _ _ _ _ _ = _ |- _ =>
      apply store_content_content in H; [|done] end.
    by eapply content_ok_frame; [| |eassumption].
  - by eapply content_ok_frame; [| |eassumption].
Qed.

Lemma Commit_content s req w w' resp :
  content_ok w → Commit s req w = (w', Ok resp) → content_ok w'.
Proof.
  intros Hco. unfold Commit. rewrite in_tx_ok.
  2: { unfold lock_branch, insert_commit, updateCommitHash, fetchPrevCommitHash.
       solve_no_rollback. }
  intros E. inv_ok. apply lock_branch_ok in E0 as (-> & _). case_bool_decide; [done|]. inv_ok.
  apply insert_commit_ok in E0 as (-> & -> & ->).
  apply commit_files_content in E1; [|by apply (content_ok_frame w)].
  apply update_ok in E2 as [-> _]. apply fetchPrevCommitHash_world in E3 as ->.
  apply updateCommitHash_ok in E4 as ->. by (eapply content_ok_frame; [| |eassumption]).
Qed.

Lemma Commit_files_shown s req w w' resp :
  wf w → NoDup (ch_Path <$> cq_Files req) → Commit s req w = (w', Ok resp) →
  (∀ f, f ∈ cq_Files req →
     match ch_Content f with
     | None => view (w_db w') (cq_Repo req) (cq_Branch req) None (ch_Path f) = None
     | Some content => ∃ v,
         view (w_db w') (cq_Repo req) (cq_Branch req) None (ch_Path f) = Some v ∧
         version_of (db_documents (w_db w')) (cq_Repo req) content v
     end) ∧
  (∀ p, p ∉ ch_Path <$> cq_Files req →
     view (w_db w') (cq_Repo req) (cq_Branch req) None p
     = view (w_db w) (cq_Repo req) (cq_Branch req) None p).
Proof.
  intros Hwf HN E.
  destruct (Commit_committed s req w w' resp Hwf E) as ((b & Hb & Hbr & Hbn & _) & docs & rows & outs & Hc).
  pose proof (committed_unambiguous _ _ _ _ _ _ _ Hc HN) as Hu.
  assert (∀ p, view (w_db w') (cq_Repo req) (cq_Branch req) None p
    = match newest rows p with
      | Some r => fc_version_id r
      | None => view (w_db w) (cq_Repo req) (cq_Branch req) None p
      end) as Hview.
  { intros p. apply (view_append_shown _ _ _ _ (br_base_sequence b) rows p (w_commit_seq w));
      [rewrite <- Hbr, <- Hbn; by apply bases_branch, Hb; apply wf_tables|by eapply committed_bases
      |by eapply committed_file_commits|by intros; apply wf_file_commit_seq
      |by eapply committed_row_new|done]. }
  split.
  - intros f Hf. destruct (committed_file _ _ _ _ _ _ _ Hc f Hf) as (out & r & Hr & Hw).
    assert (newest rows (ch_Path f) = Some r) as En.
    { destruct Hw as (Hp & Hs & _). apply newest_intro; [done..|]. intros r' Hr' Hp'. left.
      apply Hu; [done|done|congruence|].
      destruct (committed_row _ _ _ _ _ _ _ Hc r' Hr') as (_ & _ & _ & (_ & Hs' & _)). congruence. }
    destruct Hw as (_ & _ & _ & _ & _ & Hv).
    destruct (ch_Content f) as [content|]; rewrite Hview, En; [|by destruct Hv].
    destruct Hv as (_ & v & -> & Hv). eauto.
  - intros p Hp. rewrite Hview. replace (newest rows p) with (@None file_commit); [done|].
    symmetry. apply newest_none. intros r Hr <-. apply Hp.
    rewrite <- (committed_paths _ _ _ _ _ _ _ Hc). by apply list_elem_of_fmap_2.
Qed.

(** ** Properties *)

(** C1: after a commit with distinct paths, the branch shows each file of the
    request: the version of a document of the repository with the content's
    SHA-256, or nothing for a deletion; and every other path as before. *)
Theorem Commit_tree s req w w' resp :
  wf w → NoDup (ch_Path <$> cq_Files req) → Commit s req w = (w', Ok resp) →
  (∀ f, f ∈ cq_Files req →
     match ch_Content f with
     | None => view (w_db w') (cq_Repo req) (cq_Branch req) None (ch_Path f) = None
     | Some content => ∃ v,
         view (w_db w') (cq_Repo req) (cq_Branch req) None (ch_Path f) = Some v ∧
         version_of (db_documents (w_db w')) (cq_Repo req) content v
     end) ∧
  (∀ p, p ∉ ch_Path <$> cq_Files req →
     view (w_db w') (cq_Repo req) (cq_Branch req) None p
     = view (w_db w) (cq_Repo req) (cq_Branch req) None p).
Proof. apply Commit_files_shown. Qed.

(** A commit to one branch changes no other branch of any repository, main
    and the branches that inherit from it included. *)
Theorem Commit_isolated s req w w' resp repo branch at_ p :
  wf w → Commit s req w = (w', Ok resp) →
  (repo, branch) ≠ (cq_Repo req, cq_Branch req) →
  view (w_db w') repo branch at_ p = view (w_db w) repo branch at_ p.
Proof.
  intros Hwf E Hne.
  destruct (Commit_committed s req w w' resp Hwf E) as (_ & docs & rows & outs & Hc).
  eapply view_append_hidden; eauto using committed_bases, committed_file_commits, wf_tables.
  intros b r Hb Hr Hn Hin (Hr' & Hv & _).
  destruct (committed_row_new _ _ _ _ _ _ _ Hc r Hin) as (Erepo & Ebr & Hlt).
  destruct Hv as [Hv|[_ Hle]]; [congruence|].
  destruct (proj1 (Forall_forall _ _) (sb_branches _ _ (wf_seq_bounded _ Hwf)) b Hb). lia.
Qed.

(** History is immutable: what any branch showed at a sequence already
    drawn is what it shows there after a commit. *)
Theorem Commit_history s req w w' resp repo branch n p :
  wf w → Commit s req w = (w', Ok resp) → n ≤ w_commit_seq w →
  view (w_db w') repo branch (Some n) p = view (w_db w) repo branch (Some n) p.
Proof.
  intros Hwf E Hle.
  destruct (Commit_committed s req w w' resp Hwf E) as (_ & docs & rows & outs & Hc).
  eapply view_append_hidden; eauto using committed_bases, committed_file_commits, wf_tables.
  intros b r Hb Hr Hn Hin (_ & _ & Hat). cbn in Hat.
  destruct (committed_row_new _ _ _ _ _ _ _ Hc r Hin) as (_ & _ & Hlt). lia.
Qed.

(** What is committed can be read back.  After a commit with distinct
    paths, the file query on the branch returns, for each file of the request,
    a content with the same SHA-256 digest and that digest as its hash, whether
    it was stored inline, in the blob store, or deduplicated; and no file for a
    deletion. *)
Theorem Commit_GetFile s req w w' resp bs f :
  wf w → content_ok w → NoDup (ch_Path <$> cq_Files req) →
  Commit s req w = (w', Ok resp) → f ∈ cq_Files req → (∀ k, bs_get_err bs k = None) →
  match ch_Content f with
  | None => GetFile (Some bs) (cq_Repo req) (cq_Branch req) (ch_Path f) None w' = (w', Ok None)
  | Some content => ∃ file stored,
      GetFile (Some bs) (cq_Repo req) (cq_Branch req) (ch_Path f) None w' = (w', Ok (Some file)) ∧
      fl_Path file = ch_Path f ∧ fl_Content file = Some stored ∧
      fl_ContentHash file = sha256_hex content ∧ sha256_hex stored = sha256_hex content
  end.
Proof.
  intros Hwf Hco HN E Hf Hbs.
  assert (wf w') as Hwf'.
  { pose proof (preserves_wf _ w (Commit_preserves s req) Hwf) as Hp. by rewrite E in Hp. }
  destruct (Commit_files_shown s req w w' resp Hwf HN E) as [Hshown _]. specialize (Hshown f Hf).
  destruct (ch_Content f) as [content|]; [|by apply GetFile_absent].
  destruct Hshown as (v & Hv & d & Hd & Hdv & Hdr & Hdh).
  destruct (content_ok_data w' d (Commit_content s req w w' resp Hco E) Hd) as (data & Hdata & Hh).
  exists (file_of (ch_Path f) d (doc_data w' d)), data. split_and!; cbn; try congruence.
  apply (GetFile_found bs _ _ _ _ _ v d); [apply Hwf'|done..|by rewrite Hdata].
Qed.

End CommitSpec.

(** ** Witnesses *)

Ltac run_ok := unfold main_world, changed_world; apply run_exec; vm_compute; reflexivity.

Definition dev_response : CommitResponse :=
  default empty_response (returned (Commit NewStore dev_commit) dev_world).

Lemma dev_commit_run : Commit NewStore dev_commit dev_world = (changed_world, Ok dev_response).
Proof. run_ok. Qed.

Lemma repo_world_content : content_ok repo_world.
Proof.
  assert (w_blobs repo_world = ∅) as Eb by (vm_compute; reflexivity).
  assert (db_documents (w_db repo_world) = []) as Ed by (vm_compute; reflexivity).
  split; [intros key data; by rewrite Eb, lookup_empty|intros d; by rewrite Ed, elem_of_nil].
Qed.

Lemma main_world_content : content_ok main_world.
Proof.
  apply (Commit_content NewStore main_commit repo_world main_world
    (default empty_response (returned (Commit NewStore main_commit) repo_world)));
    [exact repo_world_content|run_ok].
Qed.

Lemma changed_world_content : content_ok changed_world.
Proof.
  apply (Commit_content NewStore dev_commit dev_world changed_world dev_response);
    [|exact dev_commit_run].
  eapply content_ok_frame; [..|exact main_world_content]; vm_compute; reflexivity.
Qed.

Lemma Commit_tree_witness :
  view (w_db changed_world) "o/r" "dev" None "b" = None ∧
  ∃ v, view (w_db changed_world) "o/r" "dev" None "a" = Some v ∧
       version_of (db_documents (w_db changed_world)) "o/r" "1x" v.
Proof.
  destruct (Commit_tree NewStore dev_commit dev_world changed_world dev_response) as [Hf _];
    [exact dev_world_wf|by_decide|exact dev_commit_run|].
  split; [exact (Hf (removed "b") ltac:(right; left))|exact (Hf (file "a" "1x") ltac:(left))].
Defined.

Lemma Commit_isolated_witness :
  view (w_db changed_world) "o/r" "main" None "a" = view (w_db dev_world) "o/r" "main" None "a".
Proof.
  apply (Commit_isolated NewStore dev_commit dev_world changed_world dev_response);
    [exact dev_world_wf|exact dev_commit_run|discriminate].
Defined.

Lemma Commit_history_witness :
  view (w_db changed_world) "o/r" "dev" (Some 1) "a" = view (w_db dev_world) "o/r" "dev" (Some 1) "a".
Proof.
  apply (Commit_history NewStore dev_commit dev_world changed_world dev_response);
    [exact dev_world_wf|exact dev_commit_run|vm_compute; discriminate].
Defined.

Lemma Commit_GetFile_witness :
  ∃ f stored, GetFile (Some reliable) "o/r" "main" "a" None main_world = (main_world, Ok (Some f)) ∧
    fl_Content f = Some stored ∧ sha256_hex stored = sha256_hex "1".
Proof.
  destruct (Commit_GetFile NewStore main_commit repo_world main_world
    (default empty_response (returned (Commit NewStore main_commit) repo_world))
    reliable (file "a" "1")) as (f & stored & H1 & _ & H2 & _ & H3);
    [exact repo_world_wf|exact repo_world_content|by_decide|run_ok|by left|done|].
  exists f, stored. split_and!; [exact H1|exact H2|exact H3].
Defined.
