(* ===== verification/MergeSpec.v ===== *)
(** * What Merge does

    [changed d repo branch base p] specifies [latestChanges]: the newest change
    of path [p] on the branch after its base.  [Merge] refuses exactly the
    paths changed on both sides, and otherwise puts the changes of the branch
    on main in one commit; a dry run answers the same and writes nothing. *)

From S2P Require Import Prelude GoStd Schema Tx Run Integrity Blob Commits Merge ReadStore Views Chain Samples.
From S2P Require Import CommitSpec.
From S2P Require Hash.

Definition changed (d : DB) (repo branch : string) (base : Z) (p : string)
    : option (option string) :=
  fc_version_id <$> newest (filter (changed_since repo branch base) (db_file_commits d)) p.

(** No commit of the repository names a path twice. *)
Definition distinct_paths (d : DB) (repo : string) : Prop :=
  unambiguous (filter (λ r, fc_repo r = repo) (db_file_commits d)).

Lemma unambiguous_sub l k : (∀ r, r ∈ k → r ∈ l) → unambiguous l → unambiguous k.
Proof. intros Hs Hu r r' Hr Hr'. apply Hu; auto. Qed.

Section MergeSpec.
Context {Co : Collation} {Us : UuidSource} {Mr : MapRange}.

Lemma changes_of_changed d repo branch base p :
  distinct_paths d repo →
  changes_of (filter (changed_since repo branch base) (db_file_commits d)) !! p
  = changed d repo branch base p.
Proof.
  intros Hu. apply changes_of_lookup.
  eapply unambiguous_sub; [|exact Hu]. intros r [(Hr & _) Hin]%list_elem_of_filter.
  by apply list_elem_of_filter.
Qed.

Lemma latestChanges_ok repo branch base w w' m :
  distinct_paths (w_db w) repo → latestChanges repo branch base w = (w', Ok m) →
  w' = w ∧ ∀ p, m !! p = changed (w_db w) repo branch base p.
Proof.
  intros Hu E. unfold latestChanges in E. inv_ok. apply select_ok in E0 as [-> ->].
  split; [done|]. intros p. by apply changes_of_changed.
Qed.

(** ** Visiting a map *)

Lemma map_range_elem {V} n (m : gmap string V) p v : (p, v) ∈ map_range n m ↔ m !! p = Some v.
Proof. rewrite map_range_perm. apply elem_of_map_to_list. Qed.

Lemma map_range_NoDup {V} n (m : gmap string V) : NoDup (fst <$> map_range n m).
Proof. rewrite map_range_perm. apply NoDup_fst_map_to_list. Qed.

Lemma find_conflicts_elem m1 m2 c :
  c ∈ find_conflicts m1 m2 ↔
  ∃ v1 v2, m1 !! mc_Path c = Some v1 ∧ m2 !! mc_Path c = Some v2 ∧
    c = mkMergeConflict (mc_Path c) (nullStr v2) (nullStr v1).
Proof.
  unfold find_conflicts. rewrite list_elem_of_bind. split.
  - intros ([p v1] & Hc & Hp%map_range_elem).
    destruct (m2 !! p) as [v2|] eqn:E; [|by apply elem_of_nil in Hc].
    apply list_elem_of_singleton in Hc as ->. cbn. eauto.
  - intros (v1 & v2 & H1 & H2 & Hc). exists (mc_Path c, v1).
    split; [|by apply map_range_elem]. rewrite H2. by apply list_elem_of_singleton.
Qed.

Lemma find_conflicts_none m1 m2 :
  find_conflicts m1 m2 = [] ↔ ∀ p, m1 !! p = None ∨ m2 !! p = None.
Proof.
  split.
  - intros E p. destruct (m1 !! p) as [v1|] eqn:E1; [|by left].
    destruct (m2 !! p) as [v2|] eqn:E2; [|by right].
    assert (mkMergeConflict p (nullStr v2) (nullStr v1) ∈ find_conflicts m1 m2) as Hin.
    { apply find_conflicts_elem. cbn. eauto. }
    rewrite E in Hin. by apply elem_of_nil in Hin.
  - intros Hn. destruct (find_conflicts m1 m2) as [|c l] eqn:E; [done|].
    assert (c ∈ find_conflicts m1 m2) as (v1 & v2 & H1 & H2 & _)%find_conflicts_elem.
    { rewrite E. by left. }
    destruct (Hn (mc_Path c)); congruence.
Qed.

Lemma find_conflicts_NoDup m1 m2 : NoDup (mc_Path <$> find_conflicts m1 m2).
Proof.
  unfold find_conflicts. pose proof (map_range_NoDup 0 m1) as HN. revert HN.
  induction (map_range 0 m1) as [|[p v] l IH]; [constructor|].
  rewrite fmap_cons. intros [Hp HN]%NoDup_cons. rewrite bind_cons.
  destruct (m2 !! p) as [v2|]; [|by apply IH]. cbn [app]. rewrite fmap_cons.
  apply NoDup_cons. split; [|by apply IH]. cbn. intros (c & Hc & Hin)%list_elem_of_fmap.
  apply list_elem_of_bind in Hin as ([q u] & Hin & Hq). apply Hp.
  destruct (m2 !! q); [|by apply elem_of_nil in Hin].
  apply list_elem_of_singleton in Hin as ->. cbn in Hc. subst q.
  by apply (list_elem_of_fmap_2 fst _ (p, u)).
Qed.

(** ** Writing rows *)

Definition row_for (repo branch : string) (seq : Z) (pv : string * option string)
    (r : file_commit) : Prop :=
  fc_path r = pv.1 ∧ fc_version_id r = pv.2 ∧ fc_sequence r = seq ∧ fc_repo r = repo ∧
  fc_branch r = branch.

Lemma insert_file_commit_ok repo branch seq path v w w' u :
  insert_file_commit repo branch seq path v w = (w', Ok u) →
  ∃ r, extends w w' [] [r] ∧ row_for repo branch seq (path, v) r.
Proof.
  unfold insert_file_commit. intros E. inv_ok. apply uuid_ok in E0 as [-> ->].
  apply insert_ok in E as (_ & _ & _ & ->). eexists. split.
  - split; cbn; [|done..]. by rewrite app_nil_r, set_documents_id.
  - done.
Qed.

Lemma insert_file_commits_ok {X} (pv : X → string * option string) repo branch seq f l w w' us :
  (∀ x, f x = insert_file_commit repo branch seq (pv x).1 (pv x).2) →
  mapM f l w = (w', Ok us) →
  ∃ rows, extends w w' [] rows ∧ Forall2 (λ x r, row_for repo branch seq (pv x) r) l rows.
Proof.
  intros Hf. revert w w' us. induction l as [|x l IH]; intros w w' us E; cbn in E; inv_ok.
  - exists []. split; [apply extends_refl|constructor].
  - rewrite Hf in E0. apply insert_file_commit_ok in E0 as (r & Hx & Hr).
    apply IH in E1 as (rows & Hx' & HF). exists (r :: rows). split.
    + by apply (extends_trans _ _ _ [] [] [r] rows Hx Hx').
    + constructor; [|done]. by destruct (pv x).
Qed.

(** The rows written for the changes [m]. *)
Lemma rows_for_newest repo branch seq (m : gmap string (option string)) n rows p :
  Forall2 (λ x r, row_for repo branch seq x r) (map_range n m) rows →
  unambiguous rows ∧ fc_version_id <$> newest rows p = m !! p.
Proof.
  intros HF.
  assert (fc_path <$> rows = fst <$> map_range n m) as Ep.
  { clear p. induction HF as [|[q v] r l k (Hq & _) _ IH]; [done|].
    by rewrite !fmap_cons, IH, Hq. }
  assert (unambiguous rows) as Hu.
  { intros r r' Hr Hr' E _. apply (NoDup_fmap_inj fc_path rows); try done.
    rewrite Ep. apply map_range_NoDup. }
  assert (∀ r, r ∈ rows → m !! fc_path r = Some (fc_version_id r)) as Hm.
  { intros r [i Hi]%list_elem_of_lookup_1.
    destruct (Forall2_lookup_r _ _ _ _ _ HF Hi) as ([q v] & Hx & (Hq & Hv & _)).
    rewrite Hq, Hv. eapply map_range_elem, list_elem_of_lookup_2, Hx. }
  split; [done|]. destruct (newest rows p) as [r|] eqn:E.
  - apply newest_spec in E as (Hr & <- & _). symmetry. by apply Hm.
  - cbn. destruct (m !! p) as [v|] eqn:Ev; [|done]. rewrite newest_none in E.
    apply (map_range_elem n) in Ev. apply list_elem_of_lookup_1 in Ev as [i Hi].
    destruct (Forall2_lookup_l _ _ _ _ _ HF Hi) as (r & Hr & (Hq & _)).
    destruct (E r); [by eapply list_elem_of_lookup_2|done].
Qed.

Lemma rows_for_new repo branch seq (m : gmap string (option string)) n rows r :
  Forall2 (λ x r, row_for repo branch seq x r) (map_range n m) rows → r ∈ rows →
  fc_repo r = repo ∧ fc_branch r = branch ∧ fc_sequence r = seq.
Proof.
  intros HF [i Hi]%list_elem_of_lookup_1.
  by destruct (Forall2_lookup_r _ _ _ _ _ HF Hi) as (x & _ & (_ & _ & ? & ? & ?)).
Qed.

(** ** The run of a merge *)

Lemma set_branch_status_ok repo name st w w' u :
  set_branch_status repo name st w = (w', Ok u) →
  w' = with_db (set_branches (update_where (λ b, br_repo b = repo ∧ br_name b = name)
                  (branch_with_status st) (db_branches (w_db w))) (w_db w)) w.
Proof. unfold set_branch_status. intros E. inv_ok. by apply update_ok in E0 as [-> _]. Qed.

Lemma batchFetch_ok ids w w' m :
  NoDup (doc_version_id <$> db_documents (w_db w)) →
  batchFetchVersionContentHashes ids w = (w', Ok m) →
  w' = w ∧ ∀ v, v ∈ ids → default "" (m !! v) = version_hash (db_documents (w_db w)) (Some v).
Proof.
  intros HN. unfold batchFetchVersionContentHashes.
  destruct ids as [|i ids]; [intros [-> ->]%ret_ok; split; [done|by intros v ?%elem_of_nil]|].
  generalize (i :: ids). clear i ids. intros ids E. inv_ok. apply select_ok in E0 as [-> ->].
  change (t_rows documents) with db_documents. split; [done|]. intros v Hv.
  rewrite (foldl_insert_lookup doc_version_id doc_content_hash)
    by (by apply NoDup_fmap_filter).
  rewrite filter_filter_same by (by intros d _ ->). unfold version_hash.
  by destruct (filter _ _).
Qed.

(** The files a merge or a rebase hashes are those of the rows it writes. *)
Lemma hash_files_rows hashes docs (ids : list string) xs rows repo branch seq :
  (∀ v, v ∈ ids → default "" (hashes !! v) = version_hash docs (Some v)) →
  (∀ x v, x ∈ xs → x.2 = Some v → v ∈ ids) →
  Forall2 (λ x r, row_for repo branch seq x r) xs rows →
  (λ x, hash_file hashes x.1 x.2) <$> xs = hash_row docs <$> rows.
Proof.
  intros Hh Hin HF. induction HF as [|x r xs rows (Hp & Hv & _) _ IH]; [done|].
  rewrite !fmap_cons, IH by (intros y v Hy; apply Hin; by right). f_equal.
  unfold hash_file, hash_row. rewrite Hp, Hv. f_equal.
  destruct x.2 as [v|] eqn:E; [|done]. apply Hh, (Hin x v); [by left|done].
Qed.

(** The rows of a successful merge of the changes [m]. *)
Record merged (req : MergeRequest) (m : gmap string (option string)) (w w' : World) (n : Z)
    (hash : string) (rows : list file_commit) : Prop := {
  mg_seq : n = w_commit_seq w + 1;
  mg_next : w_commit_seq w' = n;
  mg_rows : Forall2 (λ x r, row_for (mq_Repo req) "main" n x r) (map_range 1 m) rows;
  mg_hash : ∃ files, files ≡ₚ hash_row (db_documents (w_db w)) <$> rows ∧
    hash = Hash.CommitHash (prev_hash (w_db w) (mq_Repo req) "main" n) n (mq_Repo req) "main"
             (mq_Author req) ("merge branch '" +:+ mq_Branch req +:+ "'")
             (w_now w / 1000 * 1000) files;
  mg_db : w_db w' =
    set_commits (db_commits (w_db w) ++
      [mkCommit n "main" ("merge branch '" +:+ mq_Branch req +:+ "'") (mq_Author req)
         (w_now w / 1000 * 1000) (mq_Repo req) (Some hash)])
    (set_branches
       (update_where (λ b, br_repo b = mq_Repo req ∧ br_name b = mq_Branch req)
          (branch_with_status Merged)
          (update_where (λ b, br_repo b = mq_Repo req ∧ br_name b = "main")
             (branch_with_head n) (db_branches (w_db w))))
    (set_file_commits (db_file_commits (w_db w) ++ rows) (w_db w)));
}.

Lemma merge_write_ok req m w w' n :
  wf w → merge_write req m w = (w', Ok n) → ∃ hash rows, merged req m w w' n hash rows.
Proof.
  intros Hwf. unfold merge_write. intros E. inv_ok.
  apply insert_commit_ok in E0 as (-> & -> & ->).
  apply (insert_file_commits_ok id (mq_Repo req) "main" (w_commit_seq w + 1)) in E1
    as (rows & [Ed Es En] & HF); [|by intros []].
  rewrite app_nil_r, set_documents_id in Ed.
  apply update_ok in E2 as [-> _]. apply set_branch_status_ok in E3 as ->.
  apply fetchPrevCommitHash_ok in E4 as [-> ->].
  apply batchFetch_ok in E5 as [-> Hh].
  2: { cbn. rewrite Ed. exact (documents_NoDup _ (wf_tables _ Hwf)). }
  apply updateCommitHash_ok in E6 as ->. cbn in Hh. rewrite Ed in Hh. cbn in Hh.
  eexists _, rows. split; cbn; [done|done|exact HF| |].
  2: { rewrite Ed. cbn. by rewrite update_last_commit by (try done; apply Hwf). }
  eexists. split; [|f_equal; eapply prev_hash_append; [done|cbn; lia|]].
  - rewrite <- (hash_files_rows _ _ _ (map_range 1 m) rows (mq_Repo req) "main" (w_commit_seq w + 1) Hh);
      [|intros [p v'] v Hx Ev; cbn in Ev; subst v'|exact HF].
    + rewrite !map_range_perm. apply reflexive_eq, list_fmap_ext. by intros _ [] _.
    + apply list_elem_of_omap. exists (p, Some v). split; [|done]. by rewrite !map_range_perm in *.
  - intros c Hc. pose proof (wf_commit_seq _ _ Hwf Hc). cbn. lia.
Qed.

(** The tests before the write. *)
Record mergeable (req : MergeRequest) (w : World) (b : branch)
    (branchChanges : gmap string (option string)) : Prop := {
  mb_main : ∃ main, lock_branch (mq_Repo req) "main" w = (w, Ok main);
  mb_branch : b ∈ db_branches (w_db w) ∧ br_repo b = mq_Repo req ∧ br_name b = mq_Branch req;
  mb_active : br_status b = Active;
  mb_draft : br_draft b = false;
  mb_changes p : branchChanges !! p =
    changed (w_db w) (mq_Repo req) (mq_Branch req) (br_base_sequence b) p;
}.

(** A transaction of [Merge] that returns: with nothing to merge, with
    conflicts, or with the changes written. *)
Lemma merge_tx_ok req w w' resp conflicts err :
  wf w → distinct_paths (w_db w) (mq_Repo req) →
  merge_tx req w = (w', Ok (resp, conflicts, err)) →
  ∃ b branchChanges, mergeable req w b branchChanges ∧
  ((branchChanges = ∅ ∧ conflicts = [] ∧ is_Some resp ∧
    if mq_DryRun req then w' = w ∧ err = Some errRollback
    else set_branch_status (mq_Repo req) (mq_Branch req) Merged w = (w', Ok tt) ∧ err = None) ∨
   (branchChanges ≠ ∅ ∧ ∃ mainChanges,
    (∀ p, mainChanges !! p = changed (w_db w) (mq_Repo req) "main" (br_base_sequence b) p) ∧
    ((w' = w ∧ resp = None ∧ err = Some ErrMergeConflict ∧ conflicts ≠ [] ∧
      conflicts = find_conflicts branchChanges mainChanges) ∨
     (conflicts = [] ∧ find_conflicts branchChanges mainChanges = [] ∧
      ∃ n hash rows, resp = Some (mkMergeResponse n) ∧ merged req branchChanges w w' n hash rows ∧
        err = if mq_DryRun req then Some errRollback else None)))).
Proof.
  intros Hwf Hu. unfold merge_tx. intros E. inv_ok.
  pose proof E0 as E0'. apply lock_branch_ok in E0 as (-> & _).
  apply lock_branch_ok in E1 as (-> & Hb & Hr & Hn).
  case_bool_decide as Ha; [done|]. destruct (br_draft a0) eqn:Hd; [done|]. inv_ok.
  apply latestChanges_ok in E0 as [-> Hm]; [|done].
  assert (mergeable req w a0 a1) as Hok by (split; eauto).
  exists a0, a1. split; [done|].
  case_bool_decide as He.
  - left. split; [done|]. destruct (mq_DryRun req); inv_ok; simplify_eq; [by eauto|].
    destruct a2. by eauto.
  - right. split; [done|]. inv_ok. apply latestChanges_ok in E0 as [-> Hm']; [|done].
    exists a2. split; [done|]. case_bool_decide as Hc; inv_ok; simplify_eq.
    + by left.
    + right. apply merge_write_ok in E0 as (hash & rows & Hmg); [|done]. eauto 10.
Qed.

Lemma merge_tx_avoids txt req :
  txt ∈ ["rollback"; "merge conflict"] → avoids txt (merge_tx req).
Proof.
  intros Htxt. unfold merge_tx, merge_write, insert_file_commit, set_branch_status, or_not_found,
    lock_branch, insert_commit, updateCommitHash, fetchPrevCommitHash, latestChanges,
    batchFetchVersionContentHashes.
  repeat apply elem_of_cons in Htxt as [->|Htxt]; [..|by apply elem_of_nil in Htxt];
    solve_avoids.
Qed.

(** The three results of [Merge]. *)
Lemma Merge_run req w w' resp conflicts err :
  Merge req w = (w', Ok (resp, conflicts, err)) →
  (∃ w1 resp1 conflicts1 err1,
    merge_tx req w = (w1, Ok (resp1, conflicts1, err1)) ∧
    match err1 with
    | None => w' = w1 ∧ resp = resp1 ∧ conflicts = [] ∧ err = None
    | Some e =>
        w' = rollback w w1 ∧
        if errors_Is e errRollback then resp = resp1 ∧ conflicts = [] ∧ err = None
        else if errors_Is e ErrMergeConflict
        then resp = None ∧ conflicts = conflicts1 ∧ err = Some ErrMergeConflict
        else resp = None ∧ conflicts = [] ∧ err = Some e
    end) ∨
  (∃ w1 e, merge_tx req w = (w1, Fail e) ∧ w' = rollback w w1 ∧
    resp = None ∧ conflicts = [] ∧ err = Some e ∧
    errors_Is e errRollback = false ∧ errors_Is e ErrMergeConflict = false).
Proof.
  unfold Merge, WithTx, mbind, M_bind, mret, M_ret. destruct (merge_tx req w) as [w1 [[[r1 c1] e1]|e]] eqn:E;
    intros Hrun; cbn -[errors_Is] in Hrun.
  - left. exists w1, r1, c1, e1. split; [done|].
    destruct e1 as [e1|]; cbn -[errors_Is] in *; [|by simplify_eq].
    destruct (errors_Is e1 errRollback); cbn -[errors_Is] in *; [by simplify_eq|].
    destruct (errors_Is e1 ErrMergeConflict); cbn -[errors_Is] in *; by simplify_eq.
  - right. exists w1, e. split; [done|].
    assert (errors_Is e errRollback = false) as Hr.
    { eapply (merge_tx_avoids "rollback" req); [by left|exact E]. }
    assert (errors_Is e ErrMergeConflict = false) as Hc.
    { eapply (merge_tx_avoids "merge conflict" req); [right; by left|exact E]. }
    rewrite Hr in Hrun. cbn -[errors_Is] in Hrun. rewrite Hc in Hrun. by simplify_eq.
Qed.

(** ** Reading [merged] *)
Section reading.
Context (req : MergeRequest) (m : gmap string (option string)) (w w' : World) (n : Z).
Context (hash : string) (rows : list file_commit).
Context (Hg : merged req m w w' n hash rows).

Lemma merged_file_commits : db_file_commits (w_db w') = db_file_commits (w_db w) ++ rows.
Proof. by rewrite (mg_db _ _ _ _ _ _ _ Hg). Qed.

Lemma merged_bases repo branch : bases (w_db w') repo branch = bases (w_db w) repo branch.
Proof.
  set (d := set_branches (update_where (λ b, br_repo b = mq_Repo req ∧ br_name b = "main")
                            (branch_with_head n) (db_branches (w_db w))) (w_db w)).
  transitivity (bases d repo branch).
  - eapply bases_update; [by rewrite (mg_db _ _ _ _ _ _ _ Hg)|done].
  - by eapply bases_update.
Qed.

Lemma merged_row r :
  r ∈ rows → fc_repo r = mq_Repo req ∧ fc_branch r = "main" ∧ fc_sequence r = w_commit_seq w + 1.
Proof.
  intros Hr. rewrite <- (mg_seq _ _ _ _ _ _ _ Hg).
  by apply (rows_for_new _ _ _ m 1 rows r); [apply Hg|].
Qed.
End reading.

Lemma view_status d repo name st r b at_ p :
  view (set_branches (update_where (λ b, br_repo b = repo ∧ br_name b = name)
          (branch_with_status st) (db_branches d)) d) r b at_ p = view d r b at_ p.
Proof.
  unfold view. rewrite !visible_bases. f_equal. f_equal.
  erewrite bases_update; [|reflexivity|done]. done.
Qed.

(** The branch after [set_branch_status]. *)
Lemma status_set l repo name st b :
  b ∈ l → br_repo b = repo → br_name b = name →
  branch_with_status st b ∈
    update_where (λ b, br_repo b = repo ∧ br_name b = name) (branch_with_status st) l.
Proof.
  intros Hb Hr Hn. apply elem_of_update_where. exists b. by rewrite decide_True.
Qed.

Lemma head_then_status l repo name main st n b :
  b ∈ l → br_repo b = repo → br_name b = name →
  ∃ b', b' ∈ update_where (λ b, br_repo b = repo ∧ br_name b = name) (branch_with_status st)
              (update_where (λ b, br_repo b = repo ∧ br_name b = main) (branch_with_head n) l) ∧
    br_repo b' = repo ∧ br_name b' = name ∧ br_status b' = st.
Proof.
  intros Hb Hr Hn.
  set (b1 := if decide (br_repo b = repo ∧ br_name b = main) then branch_with_head n b else b).
  assert (br_repo b1 = repo ∧ br_name b1 = name) as [Hr1 Hn1].
  { subst b1. by case_decide. }
  exists (branch_with_status st b1). split; [|done].
  apply status_set; [|done..]. apply elem_of_update_where. by exists b.
Qed.

Lemma view_changed_empty d repo branch base p (m : gmap string (option string)) :
  (∀ p, m !! p = changed d repo branch base p) → m = ∅ → changed d repo branch base p = None.
Proof. intros Hm ->. by rewrite <- Hm, lookup_empty. Qed.

(** ** Properties *)

(** C2: a successful merge puts the changes of an active branch that is not a
    draft on main: main shows the branch's newest change of each path it
    changed since its base, deletions included, and every other path as before;
    no path changed on main since that base is overwritten; the branch is
    marked merged. *)
Theorem Merge_main req w w' resp :
  wf w → distinct_paths (w_db w) (mq_Repo req) → mq_DryRun req = false →
  Merge req w = (w', Ok (Some resp, [], None)) →
  ∃ b, b ∈ db_branches (w_db w) ∧ br_repo b = mq_Repo req ∧ br_name b = mq_Branch req ∧
    br_status b = Active ∧ br_draft b = false ∧
    let change := changed (w_db w) (mq_Repo req) (mq_Branch req) (br_base_sequence b) in
    let main_change := changed (w_db w) (mq_Repo req) "main" (br_base_sequence b) in
    (∀ p, change p = None ∨ main_change p = None) ∧
    (∀ p, view (w_db w') (mq_Repo req) "main" None p =
      match change p with Some v => v | None => view (w_db w) (mq_Repo req) "main" None p end) ∧
    ∃ b', b' ∈ db_branches (w_db w') ∧ br_repo b' = mq_Repo req ∧ br_name b' = mq_Branch req ∧
      br_status b' = Merged.
Proof.
  intros Hwf Hu Hdry Hrun. apply Merge_run in Hrun as [(w1 & r1 & c1 & e1 & E & Hres)|
    (w1 & e & _ & _ & [=] & _)].
  apply merge_tx_ok in E as (b & m & [[main Hmain] (Hb & Hr & Hn) Ha Hd Hm] & Hcase); [|done..].
  rewrite Hdry in Hcase. exists b. split_and!; [done..|].
  destruct Hcase as [(Hm0 & -> & _ & Hs & ->)|(_ & mm & Hmm & [(_ & _ & -> & _)|Hw])].
  - destruct Hres as (-> & _). apply set_branch_status_ok in Hs as ->. cbn.
    pose proof (λ p, view_changed_empty _ _ _ _ p m Hm Hm0) as Hn0.
    split_and!; [by left|intros p; by rewrite view_status, Hn0|].
    exists (branch_with_status Merged b). split_and!; [by apply status_set|done..].
  - by destruct Hres as (_ & [=] & _).
  - destruct Hw as (_ & Hnone & n & hash & rows & -> & Hg & ->). destruct Hres as (-> & _).
    apply lock_branch_ok in Hmain as (_ & Hin & Hmr & Hmn).
    pose proof (λ p, rows_for_newest _ _ _ m 1 rows p (mg_rows _ _ _ _ _ _ _ Hg)) as Hrows.
    split_and!.
    + intros p. rewrite <- Hm, <- Hmm. by apply find_conflicts_none.
    + intros p. destruct (Hrows p) as [Hun Hp].
      rewrite <- Hm, <- Hp.
      rewrite (view_append_shown (w_db w) (w_db w1) _ _ (br_base_sequence main) rows p
        (w_commit_seq w)); [by destruct (newest rows p)|..|done].
      * rewrite <- Hmr, <- Hmn. by apply bases_branch; [apply Hwf|].
      * by eapply merged_bases.
      * by eapply merged_file_commits.
      * intros r Hr'. by apply wf_file_commit_seq.
      * intros r Hr'. destruct (merged_row _ _ _ _ _ _ _ Hg r Hr') as (? & ? & ?).
        split_and!; [done..|lia].
    + rewrite (mg_db _ _ _ _ _ _ _ Hg). by apply head_then_status with b.
Qed.

(** Views of other branches, and of every branch at sequences already drawn. *)
Lemma merged_hidden req m w w' n hash rows repo branch at_ p :
  wf w → merged req m w w' n hash rows →
  (repo, branch) ≠ (mq_Repo req, "main") ∨ (∃ k, at_ = Some k ∧ k ≤ w_commit_seq w) →
  view (w_db w') repo branch at_ p = view (w_db w) repo branch at_ p.
Proof.
  intros Hwf Hg Hne.
  eapply view_append_hidden; eauto using merged_bases, merged_file_commits, wf_tables.
  intros b r Hb Hbr Hbn Hin (Hr & Hv & Hat).
  destruct (merged_row _ _ _ _ _ _ _ Hg r Hin) as (Erepo & Ebr & Hseq).
  destruct Hne as [Hne|(k & -> & Hk)]; [|cbn in Hat; lia].
  destruct Hv as [Hv|[_ Hle]]; [congruence|].
  destruct (proj1 (Forall_forall _ _) (sb_branches _ _ (wf_seq_bounded _ Hwf)) b Hb). lia.
Qed.

(** Whatever its outcome, a merge changes what no branch but main shows,
    and what no branch shows at a sequence already drawn. *)
Theorem Merge_isolated req w w' out repo branch at_ p :
  wf w → distinct_paths (w_db w) (mq_Repo req) → Merge req w = (w', Ok out) →
  (repo, branch) ≠ (mq_Repo req, "main") ∨ (∃ k, at_ = Some k ∧ k ≤ w_commit_seq w) →
  view (w_db w') repo branch at_ p = view (w_db w) repo branch at_ p.
Proof.
  intros Hwf Hu Hrun Hne. destruct out as [[resp conflicts] err].
  apply Merge_run in Hrun as [(w1 & r1 & c1 & e1 & E & Hres)|(w1 & e & _ & -> & _)]; [|done].
  destruct e1 as [e1|]; [by destruct Hres as (-> & _)|destruct Hres as (-> & _)].
  apply merge_tx_ok in E as (b & m & _ & Hcase); [|done..].
  destruct Hcase as [(_ & _ & _ & Hs)|(_ & mm & _ & [(_ & _ & [=] & _)|(_ & _ & Hw)])].
  - destruct (mq_DryRun req); [by destruct Hs as (_ & [=])|].
    destruct Hs as [Hs _]. apply set_branch_status_ok in Hs as ->. apply view_status.
  - destruct Hw as (n & hash & rows & _ & Hg & _). by eapply merged_hidden.
Qed.

Lemma Merge_unchanged req w w' resp conflicts err :
  Merge req w = (w', Ok (resp, conflicts, err)) →
  mq_DryRun req = true ∨ err ≠ None → w_db w' = w_db w.
Proof.
  intros Hrun Hor. apply Merge_run in Hrun as [(w1 & r1 & c1 & e1 & E & Hres)|(w1 & e & _ & -> & _)];
    [|done].
  destruct e1 as [e1|]; [by destruct Hres as (-> & _)|].
  destruct Hor as [Hdry|Hne]; [|by destruct Hres as (_ & _ & _ & ->)].
  destruct Hres as (-> & _). revert E. unfold merge_tx. rewrite Hdry. intros E. inv_ok.
  case_bool_decide; [done|]. destruct (br_draft a0); [done|]. inv_ok.
  case_bool_decide; inv_ok; [done|]. case_bool_decide; inv_ok; [done|]. done.
Qed.

(** C4: a merge is all or nothing: one that returns an error, or a dry run,
    leaves every table as it was. *)
Theorem Merge_atomic req w w' resp conflicts err :
  Merge req w = (w', Ok (resp, conflicts, err)) →
  mq_DryRun req = true ∨ err ≠ None → w_db w' = w_db w.
Proof. apply Merge_unchanged. Qed.

Definition with_dry_run (v : bool) (req : MergeRequest) : MergeRequest :=
  mkMergeRequest (mq_Repo req) (mq_Branch req) (mq_Author req) v.

(** The same run up to its last decision. *)
Lemma merge_tx_dry_run req w :
  match merge_tx (with_dry_run false req) w with
  | (_, Ok (vars, None)) =>
      ∃ w1, merge_tx (with_dry_run true req) w = (w1, Ok (vars, Some errRollback))
  | (w2, r) => merge_tx (with_dry_run true req) w = (w2, r)
  end.
Proof.
  unfold merge_tx. cbn [mq_Repo mq_Branch mq_DryRun with_dry_run].
  unfold mbind, M_bind, mret, M_ret.
  destruct (wrap "lock main" _ w) as [w1 [main|e]]; [|done].
  destruct (or_not_found _ _ _ w1) as [w2 [b|e]]; [|done].
  case_bool_decide; [done|]. destruct (br_draft b); [done|].
  destruct (wrap "branch changes" _ w2) as [w3 [m|e]]; [|done].
  case_bool_decide.
  - unfold set_branch_status, wrap, update_rows, mbind, M_bind, mret, M_ret. cbn. eauto.
  - destruct (wrap "main changes" _ w3) as [w4 [mm|e]]; [|done].
    case_bool_decide; [done|].
    change (merge_write (with_dry_run true req) m w4) with (merge_write (with_dry_run false req) m w4).
    destruct (merge_write _ m w4) as [w5 [n|e]]; [eauto|done].
Qed.

(** A dry run answers what the merge would answer: the same response, the
    same conflicts, the same error. *)
Theorem Merge_dry_run req w :
  (Merge (with_dry_run true req) w).2 = (Merge (with_dry_run false req) w).2.
Proof.
  pose proof (merge_tx_dry_run req w) as Hd.
  unfold Merge, WithTx, mbind, M_bind, mret, M_ret.
  destruct (merge_tx (with_dry_run false req) w) as [w2 [[[resp c] [e|]]|e]] eqn:E.
  - rewrite Hd. cbn -[errors_Is]. done.
  - destruct Hd as [w1 ->]. cbn. done.
  - rewrite Hd. done.
Qed.

(** The run up to the tests on the changes, for an active branch. *)
Lemma merge_tx_forward req w main b :
  wf w →
  main ∈ db_branches (w_db w) → br_repo main = mq_Repo req → br_name main = "main" →
  b ∈ db_branches (w_db w) → br_repo b = mq_Repo req → br_name b = mq_Branch req →
  br_status b = Active → br_draft b = false →
  let rows branch := filter (changed_since (mq_Repo req) branch (br_base_sequence b))
                       (db_file_commits (w_db w)) in
  let m := changes_of (rows (mq_Branch req)) in
  let mm := changes_of (rows "main") in
  find_conflicts m mm ≠ [] →
  merge_tx req w = (w, Ok (None, find_conflicts m mm, Some ErrMergeConflict)).
Proof.
  intros Hwf Hmain Hmr Hmn Hb Hr Hn Ha Hd rows m mm Hc.
  assert (m ≠ ∅) as Hne.
  { intros Hm. apply Hc, find_conflicts_none. intros p. left. by rewrite Hm, lookup_empty. }
  unfold merge_tx.
  pose proof (lock_branch_run w main (wf_tables _ Hwf) Hmain) as L1. rewrite Hmr, Hmn in L1.
  pose proof (lock_branch_run w b (wf_tables _ Hwf) Hb) as L2. rewrite Hr, Hn in L2.
  unfold mbind at 1, M_bind at 1. unfold wrap at 1. rewrite L1.
  unfold mbind at 1, M_bind at 1. unfold or_not_found, on_error. rewrite L2.
  rewrite bool_decide_false by (intros Hx; by apply Hx). rewrite Hd.
  change (latestChanges (mq_Repo req) (mq_Branch req) (br_base_sequence b)) with
    (λ w0, (w0, Ok (changes_of (filter (changed_since (mq_Repo req) (mq_Branch req)
       (br_base_sequence b)) (db_file_commits (w_db w0)))))).
  change (latestChanges (mq_Repo req) "main" (br_base_sequence b)) with
    (λ w0, (w0, Ok (changes_of (filter (changed_since (mq_Repo req) "main"
       (br_base_sequence b)) (db_file_commits (w_db w0)))))).
  unfold mbind at 1, M_bind at 1. unfold wrap at 1. cbv beta iota.
  rewrite bool_decide_false by exact Hne.
  unfold mbind at 1, M_bind at 1. unfold wrap at 1. cbv beta iota.
  by rewrite bool_decide_true.
Qed.

Lemma Merge_of_conflict req w w1 c :
  merge_tx req w = (w1, Ok (None, c, Some ErrMergeConflict)) →
  Merge req w = (rollback w w1, Ok (None, c, Some ErrMergeConflict)).
Proof.
  intros E. unfold Merge, WithTx, mbind, M_bind, mret, M_ret. rewrite E. reflexivity.
Qed.

(** What a merge answers is decided by [find_conflicts]. *)
Lemma Merge_find_conflicts req w w' resp conflicts err main b :
  wf w → distinct_paths (w_db w) (mq_Repo req) →
  main ∈ db_branches (w_db w) → br_repo main = mq_Repo req → br_name main = "main" →
  b ∈ db_branches (w_db w) → br_repo b = mq_Repo req → br_name b = mq_Branch req →
  br_status b = Active → br_draft b = false →
  Merge req w = (w', Ok (resp, conflicts, err)) →
  let changes name := changes_of (filter (changed_since (mq_Repo req) name (br_base_sequence b))
                                    (db_file_commits (w_db w))) in
  let found := find_conflicts (changes (mq_Branch req)) (changes "main") in
  (err = Some ErrMergeConflict ↔ found ≠ []) ∧
  (err = Some ErrMergeConflict → conflicts = found).
Proof.
  intros Hwf Hu Hmain Hmr Hmn Hb Hr Hn Ha Hd Hrun.
  pose proof (merge_tx_forward req w main b Hwf Hmain Hmr Hmn Hb Hr Hn Ha Hd) as Hfwd.
  cbv zeta in *.
  set (m := changes_of (filter (changed_since (mq_Repo req) (mq_Branch req) (br_base_sequence b))
              (db_file_commits (w_db w)))) in *.
  set (mm := changes_of (filter (changed_since (mq_Repo req) "main" (br_base_sequence b))
               (db_file_commits (w_db w)))) in *.
  destruct (decide (find_conflicts m mm = [])) as [Hnone|Hsome].
  - assert (err ≠ Some ErrMergeConflict) as Herr; [|by split].
    intros ->. apply Merge_run in Hrun as [(w1 & r1 & c1 & e1 & E & Hres)|
        (w1 & e & _ & _ & _ & _ & [= <-] & _ & [=])].
    apply merge_tx_ok in E as (b' & m' & [_ (Hb' & Hr' & Hn') _ _ Hm'] & Hcase); [|done..].
    assert (b' = b) as -> by (apply (branch_unique (w_db w)); [apply Hwf|congruence..]).
    destruct Hcase as [(_ & _ & _ & Hs)|(_ & mm' & Hmm' & [(_ & _ & -> & Hc & ->)|(_ & _ & Hw)])].
    + destruct (mq_DryRun req); destruct Hs as [_ ->]; [|by destruct Hres as (_ & _ & _ & [=])].
      cbn in Hres. by destruct Hres as (_ & _ & _ & [=]).
    + apply Hc. apply find_conflicts_none. rewrite find_conflicts_none in Hnone.
      intros p. rewrite Hm', Hmm', <- !changes_of_changed by done. apply Hnone.
    + destruct Hw as (n & hash & rows & _ & _ & ->).
      destruct (mq_DryRun req); cbn in Hres; by destruct Hres as (_ & _ & _ & [=]).
  - specialize (Hfwd Hsome). rewrite (Merge_of_conflict _ _ _ _ Hfwd) in Hrun.
    by injection Hrun as <- <- <- <-.
Qed.

(** C3: conflicts are exactly the paths changed on both sides.  Merging an
    active branch that is not a draft fails with [ErrMergeConflict] exactly
    when some path was changed both on the branch and on main after the
    branch's base; the conflicts then list each such path once, with the two
    versions (empty for a deletion). *)
Theorem Merge_conflicts req w w' resp conflicts err main b :
  wf w → distinct_paths (w_db w) (mq_Repo req) →
  main ∈ db_branches (w_db w) → br_repo main = mq_Repo req → br_name main = "main" →
  b ∈ db_branches (w_db w) → br_repo b = mq_Repo req → br_name b = mq_Branch req →
  br_status b = Active → br_draft b = false →
  Merge req w = (w', Ok (resp, conflicts, err)) →
  let change := changed (w_db w) (mq_Repo req) (mq_Branch req) (br_base_sequence b) in
  let main_change := changed (w_db w) (mq_Repo req) "main" (br_base_sequence b) in
  (err = Some ErrMergeConflict ↔ ∃ p, is_Some (change p) ∧ is_Some (main_change p)) ∧
  (err = Some ErrMergeConflict →
    NoDup (mc_Path <$> conflicts) ∧
    ∀ c, c ∈ conflicts ↔ ∃ v vm, change (mc_Path c) = Some v ∧ main_change (mc_Path c) = Some vm ∧
           c = mkMergeConflict (mc_Path c) (nullStr vm) (nullStr v)).
Proof.
  intros Hwf Hu Hmain Hmr Hmn Hb Hr Hn Ha Hd Hrun change main_change.
  destruct (Merge_find_conflicts req w w' resp conflicts err main b) as [Herr Hc]; [done..|].
  set (found := find_conflicts _ _) in Herr, Hc.
  assert (∀ c, c ∈ found ↔ ∃ v vm, change (mc_Path c) = Some v ∧ main_change (mc_Path c) = Some vm ∧
            c = mkMergeConflict (mc_Path c) (nullStr vm) (nullStr v)) as Hin.
  { intros c. unfold found. rewrite find_conflicts_elem. by setoid_rewrite changes_of_changed. }
  split; [|intros E; rewrite (Hc E); split; [apply find_conflicts_NoDup|exact Hin]].
  rewrite Herr. split.
  - intros Hne. destruct found as [|c l]; [done|].
    assert (c ∈ c :: l) as (v & vm & Hv & Hvm & _)%Hin by (by left).
    exists (mc_Path c). by rewrite Hv, Hvm.
  - intros (p & [v Hv] & [vm Hvm]) Hnone. unfold found in Hnone.
    rewrite find_conflicts_none in Hnone. specialize (Hnone p).
    rewrite !changes_of_changed in Hnone by done. fold change main_change in Hnone.
    destruct Hnone; congruence.
Qed.

End MergeSpec.

(** ** Witnesses *)

Lemma distinct_paths_NoDup d repo :
  NoDup ((λ r, (fc_path r, fc_sequence r)) <$> filter (λ r, fc_repo r = repo) (db_file_commits d)) →
  distinct_paths d repo.
Proof.
  intros HN r r' Hr Hr' Ep Es.
  apply (NoDup_fmap_inj _ _ r r' HN Hr Hr'). by rewrite Ep, Es.
Qed.

Definition merge_dev : MergeRequest := mkMergeRequest "o/r" "dev" "carol" false.
Definition merged_world : World := exec (Merge merge_dev) changed_world.

(** Main changes "a" too, so that "dev" no longer merges. *)
Definition other_commit : CommitRequest :=
  mkCommitRequest "o/r" "main" [file "a" "1y"] "other" "alice".
Definition conflict_world : World := exec (Commit NewStore other_commit) changed_world.

Lemma conflict_world_wf : wf conflict_world.
Proof. apply preserves_wf; [apply Commit_preserves|apply changed_world_wf]. Qed.

Lemma changed_distinct : distinct_paths (w_db changed_world) "o/r".
Proof. apply distinct_paths_NoDup. by_decide. Qed.
Lemma conflict_distinct : distinct_paths (w_db conflict_world) "o/r".
Proof. apply distinct_paths_NoDup. by_decide. Qed.

Lemma merge_dev_run :
  Merge merge_dev changed_world = (merged_world, Ok (Some (mkMergeResponse 3), [], None)).
Proof. unfold merged_world. run_ok. Qed.

Lemma Merge_main_witness :
  ∃ b, br_name b = "dev" ∧
    view (w_db merged_world) "o/r" "main" None "c" =
      match changed (w_db changed_world) "o/r" "dev" (br_base_sequence b) "c" with
      | Some v => v
      | None => view (w_db changed_world) "o/r" "main" None "c"
      end.
Proof.
  destruct (Merge_main merge_dev changed_world merged_world (mkMergeResponse 3))
    as (b & _ & _ & Hn & _ & _ & _ & Hv & _);
    [exact changed_world_wf|exact changed_distinct|reflexivity|exact merge_dev_run|].
  exists b. split; [exact Hn|exact (Hv "c")].
Defined.

Lemma Merge_isolated_witness :
  view (w_db merged_world) "o/r" "main" (Some 2) "a" = view (w_db changed_world) "o/r" "main" (Some 2) "a".
Proof.
  apply (Merge_isolated merge_dev changed_world merged_world _ "o/r" "main" (Some 2) "a"
    changed_world_wf changed_distinct merge_dev_run).
  right. exists 2. split; [reflexivity|vm_compute; discriminate].
Defined.

Lemma Merge_atomic_witness :
  w_db (exec (Merge (with_dry_run true merge_dev)) changed_world) = w_db changed_world.
Proof.
  apply (Merge_atomic (with_dry_run true merge_dev) changed_world _
           (Some (mkMergeResponse 3)) [] None); [run_ok|by left].
Defined.

Definition sample_branch (w : World) (name : string) : branch :=
  default (mkBranch "" "" 0 0 Abandoned 0 "" false false)
    (head (filter (λ b, br_name b = name) (db_branches (w_db w)))).

Lemma Merge_conflicts_witness :
  let out := returned (Merge merge_dev) conflict_world in
  ∃ conflicts, out = Some (None, conflicts, Some ErrMergeConflict) ∧
    NoDup (mc_Path <$> conflicts).
Proof.
  destruct (returned (Merge merge_dev) conflict_world) as [[[resp conflicts] err]|] eqn:E;
    [|vm_compute in E; discriminate E].
  pose proof (Merge_conflicts merge_dev conflict_world (exec (Merge merge_dev) conflict_world)
    resp conflicts err (sample_branch conflict_world "main") (sample_branch conflict_world "dev"))
    as Ht.
  destruct Ht as [Hiff Hc];
    [exact conflict_world_wf|exact conflict_distinct| | | | | | | | |by apply run_exec|].
  1,4: apply list_elem_of_In; vm_compute; tauto.
  1-6: vm_compute; reflexivity.
  assert (err = Some ErrMergeConflict) as -> by (vm_compute in E; injection E; intros; subst; reflexivity).
  assert (resp = None) as -> by (vm_compute in E; injection E; intros; subst; reflexivity).
  exists conflicts. split; [exact eq_refl|exact (proj1 (Hc eq_refl))].
Defined.
