(* ===== verification/RebaseSpec.v ===== *)
(** * Rebase

    [Rebase] replays the commits of a branch on top of main.  [groups_of] cuts
    the changed rows into one group per commit, oldest first; each group becomes
    a new commit, and the last row of a path among the new rows has the version
    of its newest row among the old ones.  So the branch shows its own changes
    over what main shows. *)

From S2P Require Import Prelude GoStd Schema Tx Run Integrity Blob Commits Merge ReadStore Views Chain Samples.
From S2P Require Import CommitSpec MergeSpec.
From S2P Require Hash.

(** ** Groups *)

Definition rebase_file (r : file_commit) : rebaseFile := mkRebaseFile (fc_path r) (fc_version_id r).

(** The rows of one group. *)
Definition group_rows (g : rebaseGroup) (rows : list file_commit) : Prop :=
  Forall (λ r, fc_sequence r = rg_seq g) rows ∧ rg_files g = rebase_file <$> rows.

Lemma add_to_groups_ok gs rss r :
  Forall2 group_rows gs rss →
  ∃ rss', Forall2 group_rows (add_to_groups gs r) rss' ∧ concat rss' = concat rss ++ [r].
Proof.
  intros HF. unfold add_to_groups.
  assert (∃ gs' rss' g rs, (match last gs with
     | Some g => if bool_decide (rg_seq g = fc_sequence r) then gs
                 else gs ++ [mkRebaseGroup (fc_sequence r) []]
     | None => [mkRebaseGroup (fc_sequence r) []]
     end = gs' ++ [g]) ∧ Forall2 group_rows gs' rss' ∧ group_rows g rs ∧
     rg_seq g = fc_sequence r ∧ concat rss = concat rss' ++ rs)
    as (gs' & rss' & g & rs & -> & HF' & [Hs Hf] & Hg & ->).
  { destruct (last gs) as [g|] eqn:E; [apply last_Some in E as [gs' ->]; case_bool_decide as Hb|].
    - apply Forall2_app_inv_l in HF as (rss' & rs' & HF' & Hl & ->).
      apply Forall2_cons_inv_l in Hl as (rs & x & Hg & ->%Forall2_nil_inv_l & ->).
      exists gs', rss', g, rs. split_and!; try done. rewrite concat_app. cbn. by rewrite app_nil_r.
    - eexists (gs' ++ [g]), rss, _, []. split_and!; [done|done|by split; [constructor|]|done|by rewrite app_nil_r].
    - apply last_None in E as ->. apply Forall2_nil_inv_l in HF as ->.
      eexists [], [], _, []. split_and!; [done..|by split|done|done]. }
  exists (rss' ++ [rs ++ [r]]). split.
  - rewrite length_app, Nat.add_sub. cbn. rewrite alter_app_r_alt by lia. rewrite Nat.sub_diag. cbn.
    apply Forall2_app; [done|]. constructor; [|constructor]. split; cbn.
    + apply Forall_app. split; [done|by repeat constructor].
    + by rewrite Hf, fmap_app.
  - rewrite concat_app. cbn. by rewrite app_nil_r, app_assoc.
Qed.

Lemma groups_of_ok `{Collation} rows :
  ∃ rss, Forall2 group_rows (groups_of rows) rss ∧ concat rss = merge_sort oldest_then_path rows.
Proof.
  unfold groups_of. induction (merge_sort oldest_then_path rows) as [|r l (rss & HF & E)] using rev_ind.
  - by exists [].
  - rewrite foldl_snoc. destruct (add_to_groups_ok _ _ r HF) as (rss' & HF' & E').
    exists rss'. split; [done|]. by rewrite E', E.
Qed.

(** ** The newest row of a sorted list is its last one *)

Lemma newest_last rows p :
  StronglySorted (λ a b, fc_sequence a ≤ fc_sequence b) rows → unambiguous rows →
  newest rows p = last (filter (λ r, fc_path r = p) rows).
Proof.
  intros HS Hu. destruct (last (filter (λ r, fc_path r = p) rows)) as [x|] eqn:E.
  - apply last_Some in E as [l E].
    assert (x ∈ filter (λ r, fc_path r = p) rows) as [Hp Hx]%list_elem_of_filter.
    { rewrite E. apply elem_of_app. right. by left. }
    apply newest_intro; [done..|]. intros r Hr Hrp.
    assert (fc_sequence r ≤ fc_sequence x) as Hle.
    { assert (r ∈ l ++ [x]) as Hin by (rewrite <- E; by apply list_elem_of_filter).
      apply (StronglySorted_filter _ (λ r, fc_path r = p)) in HS. rewrite E in HS.
      apply elem_of_app in Hin as [Hin|Hin]; [|apply list_elem_of_singleton in Hin as ->; done].
      eapply StronglySorted_app_1_elem_of in HS; [exact HS|done|by left]. }
    destruct (decide (fc_sequence r = fc_sequence x)); [left; apply Hu; congruence|right; lia].
  - apply last_None in E. apply newest_none. intros r Hr Hp.
    assert (r ∈ @nil file_commit) as Hin; [|by apply elem_of_nil in Hin].
    rewrite <- E. by apply list_elem_of_filter.
Qed.

Lemma oldest_sorted `{Collation} rows :
  StronglySorted (λ a b, fc_sequence a ≤ fc_sequence b) (merge_sort oldest_then_path rows).
Proof.
  assert (StronglySorted oldest_then_path (merge_sort oldest_then_path rows)) as HS.
  { apply merge_sorted; [apply order_then_trans|apply order_then_total]; apply _. }
  induction HS as [|x l HS IH HF]; constructor; [done|].
  eapply Forall_impl; [exact HF|]. intros y [[_ Hle]|[-> _]]; [done|lia].
Qed.

Lemma newest_perm rows rows' p :
  unambiguous rows' → rows ≡ₚ rows' → newest rows p = newest rows' p.
Proof.
  intros Hu Hp. destruct (newest rows' p) as [r|] eqn:E.
  - apply newest_spec in E as (Hr & Hrp & Hm). apply newest_intro; [by rewrite Hp|done|].
    intros r' Hr' Hp'. rewrite Hp in Hr'. specialize (Hm r' Hr' Hp').
    destruct (decide (fc_sequence r' = fc_sequence r)); [left; apply Hu; congruence|right; lia].
  - rewrite newest_none in E |- *. intros r. rewrite Hp. apply E.
Qed.

(** ** The replay *)

(** The effect of inserting a commit with its rows and its hash. *)
Record appended (repo branch : string) (w w' : World) (rows : list file_commit) (c : commit)
    : Prop := {
  ap_seq : c_sequence c = w_commit_seq w + 1;
  ap_next : w_commit_seq w' = c_sequence c;
  ap_now : w_now w' = w_now w;
  ap_repo : c_repo c = repo;
  ap_branch : c_branch c = branch;
  ap_db : w_db w' = set_commits (db_commits (w_db w) ++ [c])
                      (set_file_commits (db_file_commits (w_db w) ++ rows) (w_db w));
  ap_hash : hashed_as (prev_hash (w_db w) repo branch (c_sequence c))
              (hash_row (db_documents (w_db w)) <$> rows) c;
}.

Section RebaseSpec.
Context {Co : Collation} {Us : UuidSource} {Mr : MapRange}.

Abbreviation file_row repo branch seq f r :=
  (row_for repo branch seq (rf_path f, rf_versionID f) r).

Lemma replay_group_ok repo branch author hashes (ids : list string) g w w' n :
  wf w →
  (∀ v, v ∈ ids → default "" (hashes !! v) = version_hash (db_documents (w_db w)) (Some v)) →
  (∀ f v, f ∈ rg_files g → rf_versionID f = Some v → v ∈ ids) →
  replay_group repo branch author hashes g w = (w', Ok n) →
  ∃ rows c, appended repo branch w w' rows c ∧ n = c_sequence c ∧
    Forall2 (λ f r, file_row repo branch n f r) (rg_files g) rows.
Proof.
  intros Hwf Hh Hin. unfold replay_group. intros E. inv_ok.
  apply insert_commit_ok in E0 as (-> & -> & ->).
  apply (insert_file_commits_ok (λ f, (rf_path f, rf_versionID f)) repo branch (w_commit_seq w + 1)) in E1
    as (rows & [Ed Es En] & HF); [|done].
  rewrite app_nil_r, set_documents_id in Ed.
  apply fetchPrevCommitHash_ok in E2 as [-> ->]. apply updateCommitHash_ok in E3 as ->.
  eexists rows, _. split; [split|split]; cbn; [..|exact HF].
  6: { rewrite Ed. cbn. by rewrite update_last_commit by (try done; apply Hwf). }
  all: try done.
  eexists. split; [|cbn; f_equal; f_equal; eapply prev_hash_append; [done|cbn; lia|]].
  - rewrite <- (hash_files_rows hashes _ ids ((λ f, (rf_path f, rf_versionID f)) <$> rg_files g) rows
                  repo branch (w_commit_seq w + 1) Hh).
    + by rewrite <- list_fmap_compose.
    + intros x v (f & -> & Hf)%list_elem_of_fmap Hv. by apply (Hin f).
    + by apply Forall2_fmap_l.
  - intros c Hc. pose proof (wf_commit_seq _ _ Hwf Hc). cbn. lia.
Qed.

(** The rows of the new commits: one list per group, at successive sequences. *)
Fixpoint replayed (repo branch : string) (n : Z) (gs : list rebaseGroup)
    (rowss : list (list file_commit)) : Prop :=
  match gs, rowss with
  | [], [] => True
  | g :: gs, rows :: rowss =>
      Forall2 (λ f r, file_row repo branch (n + 1) f r) (rg_files g) rows ∧
      replayed repo branch (n + 1) gs rowss
  | _, _ => False
  end.

(** The effect of replaying all groups. *)
Record replays (repo branch : string) (gs : list rebaseGroup) (w w' : World) (seqs : list Z)
    (rowss : list (list file_commit)) (cs : list commit) : Prop := {
  rp_db : w_db w' = set_commits (db_commits (w_db w) ++ cs)
                      (set_file_commits (db_file_commits (w_db w) ++ concat rowss) (w_db w));
  rp_next : w_commit_seq w' = w_commit_seq w + Z.of_nat (length gs);
  rp_length : length seqs = length gs;
  rp_last : gs ≠ [] → last seqs = Some (w_commit_seq w');
  rp_rows : replayed repo branch (w_commit_seq w) gs rowss;
  rp_wf : wf w';
  rp_chain : chain_ok (w_db w) →
    (∀ r v, r ∈ concat rowss → fc_version_id r = Some v →
       ∃ doc, doc ∈ db_documents (w_db w) ∧ doc_version_id doc = v ∧ doc_repo doc = repo) →
    chain_ok (w_db w');
}.

Lemma appended_chain repo branch w w' rows c :
  wf w → appended repo branch w w' rows c → chain_ok (w_db w) →
  (∀ r, r ∈ rows → fc_repo r = repo ∧ fc_branch r = branch ∧ fc_sequence r = c_sequence c) →
  (∀ r v, r ∈ rows → fc_version_id r = Some v →
     ∃ doc, doc ∈ db_documents (w_db w) ∧ doc_version_id doc = v ∧ doc_repo doc = repo) →
  chain_ok (w_db w').
Proof.
  intros Hwf [Hs _ _ Hr Hb Hdb Hh] Hck Hrows Hdocs.
  apply (chain_append (w_db w) _ [] rows c); rewrite ?Hdb; cbn; rewrite ?app_nil_r;
    [apply Hwf|done..| | | |by rewrite Hr, Hb].
  - intros c' Hc'. pose proof (wf_commit_seq _ _ Hwf Hc'). lia.
  - intros r Hin. destruct (Hrows r Hin) as (? & ? & ?). by rewrite Hr, Hb.
  - intros r v Hin Hv. destruct (Hrows r Hin) as (-> & _). eauto.
Qed.

Lemma replay_groups_ok repo branch author hashes (ids : list string) gs w w' seqs :
  wf w →
  (∀ v, v ∈ ids → default "" (hashes !! v) = version_hash (db_documents (w_db w)) (Some v)) →
  (∀ g f v, g ∈ gs → f ∈ rg_files g → rf_versionID f = Some v → v ∈ ids) →
  mapM (replay_group repo branch author hashes) gs w = (w', Ok seqs) →
  ∃ rowss cs, replays repo branch gs w w' seqs rowss cs.
Proof.
  intros Hwf. revert w w' seqs Hwf. induction gs as [|g gs IH]; intros w w' seqs Hwf Hh Hin E;
    cbn in E; inv_ok.
  - exists [], []. split; cbn; try done; [|lia].
    rewrite !app_nil_r. by destruct (w_db w).
  - pose proof (replay_group_spec [] repo branch author hashes g w Hwf) as Hspec.
    rewrite E0 in Hspec. destruct Hspec as (Hwf1 & _ & _); [constructor|]. cbn in Hwf1.
    apply (replay_group_ok _ _ _ _ ids) in E0 as (rows & c & Ha & -> & HF); [|done..|].
    2: { intros f v Hf. apply (Hin g); [by left|done]. }
    pose proof Ha as [Hs Hn _ _ _ Hdb _].
    apply IH in E1 as (rowss & cs & Hr); [|done| |by intros g' f v Hg; apply Hin; right].
    2: { rewrite Hdb. exact Hh. }
    exists (rows :: rowss), (c :: cs). destruct Hr as [Rdb Rnext Rlen Rlast Rrows Rwf Rchain].
    split; cbn; [|rewrite Rnext; lia|by rewrite Rlen| |split|done|].
    + rewrite Rdb, Hdb. cbn. rewrite <- !app_assoc. by destruct (w_db w).
    + intros _. rewrite last_cons. destruct gs as [|g' gs']; [|by rewrite Rlast].
      apply nil_length_inv in Rlen as ->. cbn in *. f_equal. lia.
    + by rewrite <- Hs.
    + by rewrite <- Hs, <- Hn.
    + intros Hck Hd. apply Rchain.
      * apply (appended_chain repo branch w _ rows c); [done..| |].
        -- intros r Hrow. apply list_elem_of_lookup_1 in Hrow as [i Hi].
           by destruct (Forall2_lookup_r _ _ _ _ _ HF Hi) as (f & _ & (_ & _ & ? & ? & ?)).
        -- intros r v Hrow. apply Hd. apply elem_of_app. by left.
      * rewrite Hdb. intros r v Hrow. apply Hd. apply elem_of_app. by right.
Qed.

(** ** The replayed rows *)

Definition path_version (r : file_commit) : string * option string := (fc_path r, fc_version_id r).

Lemma replayed_row repo branch n gs rowss r :
  replayed repo branch n gs rowss → r ∈ concat rowss →
  fc_repo r = repo ∧ fc_branch r = branch ∧ n < fc_sequence r.
Proof.
  revert n rowss. induction gs as [|g gs IH]; intros n [|rows rowss] Hr; try done.
  - by intros ?%elem_of_nil.
  - destruct Hr as [HF Hr]. intros [Hin|Hin]%elem_of_app.
    + apply list_elem_of_lookup_1 in Hin as [i Hi].
      destruct (Forall2_lookup_r _ _ _ _ _ HF Hi) as (f & _ & (_ & _ & -> & ? & ?)).
      split_and!; [done..|lia].
    + destruct (IH _ _ Hr Hin) as (? & ? & ?). split_and!; [done..|lia].
Qed.

Lemma replayed_group repo branch n f_rows rows :
  Forall2 (λ f r, file_row repo branch n f r) f_rows rows →
  Forall (λ r, fc_sequence r = n) rows ∧
  path_version <$> rows = (λ f, (rf_path f, rf_versionID f)) <$> f_rows.
Proof.
  induction 1 as [|f r fs rs (Hp & Hv & Hs & _) _ [IH1 IH2]]; [done|].
  split; [by constructor|]. rewrite !fmap_cons, IH2. unfold path_version. by rewrite Hp, Hv.
Qed.

Lemma same_sequence_sorted n rows :
  Forall (λ r, fc_sequence r = n) rows →
  StronglySorted (λ a b, fc_sequence a ≤ fc_sequence b) rows.
Proof.
  induction 1 as [|r rows Hr HF IH]; constructor; [done|].
  eapply Forall_impl; [exact HF|]. intros x Hx. cbn in *. lia.
Qed.

Lemma replayed_sorted repo branch n gs rowss :
  replayed repo branch n gs rowss →
  StronglySorted (λ a b, fc_sequence a ≤ fc_sequence b) (concat rowss).
Proof.
  revert n rowss. induction gs as [|g gs IH]; intros n [|rows rowss] Hr; try done; [constructor|].
  destruct Hr as [HF Hr]. apply replayed_group in HF as [HF _]. cbn.
  apply StronglySorted_app. split_and!; [|by eapply same_sequence_sorted|by eapply IH].
  intros x y Hx Hy. rewrite Forall_forall in HF. rewrite (HF x Hx).
  destruct (replayed_row _ _ _ _ _ y Hr Hy) as (_ & _ & ?). lia.
Qed.

Lemma replayed_unambiguous repo branch n gs rowss :
  replayed repo branch n gs rowss →
  Forall (λ g, NoDup (rf_path <$> rg_files g)) gs → unambiguous (concat rowss).
Proof.
  revert n rowss. induction gs as [|g gs IH]; intros n [|rows rowss] Hr HF; try done.
  - by intros x y ?%elem_of_nil.
  - destruct Hr as [Hg Hr]. apply Forall_cons in HF as [HN HF].
    apply replayed_group in Hg as [Hs Hpv]. rewrite Forall_forall in Hs.
    assert (NoDup (fc_path <$> rows)) as HN'.
    { replace (fc_path <$> rows) with (fst <$> (path_version <$> rows)) by
        (rewrite <- list_fmap_compose; done).
      rewrite Hpv, <- list_fmap_compose. exact HN. }
    intros x y [Hx|Hx]%elem_of_app [Hy|Hy]%elem_of_app Hp Hq.
    + by apply (NoDup_fmap_inj fc_path rows).
    + destruct (replayed_row _ _ _ _ _ y Hr Hy) as (_ & _ & ?). specialize (Hs x Hx). lia.
    + destruct (replayed_row _ _ _ _ _ x Hr Hx) as (_ & _ & ?). specialize (Hs y Hy). lia.
    + by apply (IH _ _ Hr HF).
Qed.

(** What the new rows say of a path is what the old ones said. *)
Lemma replayed_versions repo branch n gs rowss rss :
  replayed repo branch n gs rowss → Forall2 group_rows gs rss →
  path_version <$> concat rowss = path_version <$> concat rss.
Proof.
  revert n rowss rss. induction gs as [|g gs IH]; intros n [|rows rowss] rss Hr HF; try done.
  - by apply Forall2_nil_inv_l in HF as ->.
  - apply Forall2_cons_inv_l in HF as (rs & rss' & [_ Hf] & HF & ->).
    destruct Hr as [Hg Hr]. apply replayed_group in Hg as [_ Hpv]. cbn.
    rewrite !fmap_app, Hpv, Hf, <- list_fmap_compose. f_equal. by eapply IH.
Qed.

Lemma last_path_version rows p :
  fc_version_id <$> last (filter (λ r, fc_path r = p) rows)
  = snd <$> last (filter (λ x, x.1 = p) (path_version <$> rows)).
Proof.
  rewrite filter_fmap, fmap_last, <- option_fmap_compose. done.
Qed.

Lemma newest_path_version rows rows' p :
  StronglySorted (λ a b, fc_sequence a ≤ fc_sequence b) rows →
  StronglySorted (λ a b, fc_sequence a ≤ fc_sequence b) rows' →
  unambiguous rows → unambiguous rows' → path_version <$> rows = path_version <$> rows' →
  fc_version_id <$> newest rows p = fc_version_id <$> newest rows' p.
Proof. intros HS HS' Hu Hu' E. by rewrite !newest_last, !last_path_version, E. Qed.

(** ** The transaction *)

Lemma set_base_head_ok repo name base head w w' u :
  set_base_head repo name base head w = (w', Ok u) →
  w' = with_db (set_branches (update_where (λ b, br_repo b = repo ∧ br_name b = name)
                  (branch_with_base_head base head) (db_branches (w_db w))) (w_db w)) w.
Proof. unfold set_base_head. intros E. inv_ok. by apply update_ok in E0 as [-> _]. Qed.

(** The state in which a rebase of [b] on [main] starts. *)
Record rebasable (req : RebaseRequest) (w : World) (main b : branch) : Prop := {
  rb_main : main ∈ db_branches (w_db w) ∧ br_repo main = rq_Repo req ∧ br_name main = "main";
  rb_branch : b ∈ db_branches (w_db w) ∧ br_repo b = rq_Repo req ∧ br_name b = rq_Branch req;
  rb_active : br_status b = Active;
}.

(** What is written: the new commits, then the base and the head of the branch. *)
Record rebased (req : RebaseRequest) (w w' : World) (resp : RebaseResponse) (main b : branch)
    (gs : list rebaseGroup) (rowss : list (list file_commit)) (cs : list commit) : Prop := {
  rd_groups : gs = groups_of (filter (changed_since (rq_Repo req) (rq_Branch req)
                                        (br_base_sequence b)) (db_file_commits (w_db w)));
  rd_replays : ∃ w1 seqs, replays (rq_Repo req) (rq_Branch req) gs w w1 seqs rowss cs ∧
    w' = with_db (set_branches (update_where
            (λ x, br_repo x = rq_Repo req ∧ br_name x = rq_Branch req)
            (branch_with_base_head (br_head_sequence main) (rp_NewHeadSequence resp))
            (db_branches (w_db w1))) (w_db w1)) w1;
  rd_base : rp_NewBaseSequence resp = br_head_sequence main;
  rd_head : rp_NewHeadSequence resp = if bool_decide (gs = []) then br_head_sequence main
                                      else w_commit_seq w + Z.of_nat (length gs);
  rd_count : rp_CommitsReplayed resp = Z.of_nat (length gs);
}.

Lemma changes_of_nil rows : changes_of rows = ∅ → rows = [].
Proof.
  intros E. destruct rows as [|r l]; [done|]. exfalso. set (rows := r :: l) in *.
  destruct (distinct_on_complete fc_path (merge_sort path_then_newest rows) r) as (y & Hy & _).
  { apply order_by_elem. by left. }
  assert (changes_of rows !! fc_path y = Some (fc_version_id y)) as El.
  { unfold changes_of. rewrite (foldl_insert_lookup fc_path fc_version_id) by apply latest_rows_NoDup.
    by rewrite (filter_key_unique fc_path _ y) by auto using latest_rows_NoDup. }
  by rewrite E, lookup_empty in El.
Qed.

Lemma latestChanges_run repo branch base w w' m :
  latestChanges repo branch base w = (w', Ok m) →
  w' = w ∧ m = changes_of (filter (changed_since repo branch base) (db_file_commits (w_db w))).
Proof. unfold latestChanges. intros E. inv_ok. by apply select_ok in E0 as [-> ->]. Qed.

Lemma groups_nil rows : groups_of rows = [] → rows = [].
Proof.
  intros E. destruct (groups_of_ok rows) as (rss & HF & Hc). rewrite E in HF.
  apply Forall2_nil_inv_l in HF as ->. cbn in Hc.
  apply Permutation_nil_r. by rewrite Hc, merge_sort_Permutation.
Qed.

Lemma replays_nil repo branch w : wf w → replays repo branch [] w w [] [] [].
Proof.
  intros Hwf. split; cbn; try done; [|lia]. rewrite !app_nil_r. by destruct (w_db w).
Qed.

Lemma rebase_tx_ok req w w' resp conflicts err :
  wf w →
  rebase_tx req w = (w', Ok (resp, conflicts, err)) →
  ∃ main b, rebasable req w main b ∧
  let change := changed (w_db w) (rq_Repo req) (rq_Branch req) (br_base_sequence b) in
  let main_change := changed (w_db w) (rq_Repo req) "main" (br_base_sequence b) in
  ((w' = w ∧ resp = None ∧ err = Some ErrRebaseConflict ∧ conflicts ≠ []) ∨
   (conflicts = [] ∧ err = None ∧
    (distinct_paths (w_db w) (rq_Repo req) → ∀ p, change p = None ∨ main_change p = None) ∧
    ∃ r gs rowss cs, resp = Some r ∧ rebased req w w' r main b gs rowss cs)).
Proof.
  intros Hwf. unfold rebase_tx. intros E. inv_ok.
  apply lock_branch_ok in E0 as (-> & Hm). apply lock_branch_ok in E1 as (-> & Hb).
  case_bool_decide as Ha; [done|]. inv_ok.
  apply latestChanges_run in E0 as [-> Ech].
  exists a, a0. split; [by split; [..|destruct (br_status a0)]|].
  case_bool_decide as He.
  - right. inv_ok. simplify_eq. apply set_base_head_ok in E0 as ->.
    assert (filter (changed_since (rq_Repo req) (rq_Branch req) (br_base_sequence a0))
              (db_file_commits (w_db w)) = []) as E by (by apply changes_of_nil).
    split_and!; [done..|intros _ p; left; unfold changed; by rewrite E|].
    eexists _, [], [], []. split; [done|].
    split; cbn; rewrite ?E; try done. exists w, []. split; [by apply replays_nil|done].
  - inv_ok. apply latestChanges_run in E0 as [-> Emch].
    case_bool_decide as Hc; inv_ok; simplify_eq; [by left|right].
    unfold branchCommitGroups in E0. inv_ok. apply select_ok in E4 as [-> ->].
    change (t_rows file_commits) with db_file_commits in *.
    set (rows := filter (changed_since (rq_Repo req) (rq_Branch req) (br_base_sequence a0))
                   (db_file_commits (w_db w))) in *.
    apply batchFetch_ok in E1 as [-> Hh]; [|apply documents_NoDup, Hwf].
    eapply replay_groups_ok in E2 as (rowss & cs & Hr); [|done|exact Hh|].
    2: { intros g f v Hg Hf Hv. apply list_elem_of_bind. exists g. split; [|done].
         apply list_elem_of_omap. eauto. }
    apply set_base_head_ok in E3 as ->.
    assert (groups_of rows ≠ []) as Hne.
    { intros En%groups_nil. apply He. by rewrite En. }
    split_and!; [done..| |].
    { intros Hu p. rewrite <- !changes_of_changed by done. fold rows.
      apply find_conflicts_none. destruct (find_conflicts _ _); [done|by destruct Hc]. }
    eexists _, (groups_of rows), rowss, cs. split; [done|].
    split; cbn; [done| |done| |done].
    + eexists _, _. split; [exact Hr|done].
    + rewrite (rp_last _ _ _ _ _ _ _ _ Hr Hne). rewrite bool_decide_false by done.
      by rewrite (rp_next _ _ _ _ _ _ _ _ Hr).
Qed.

(** A rebase leaves the tables alone or has written its commits; it returns a
    response only in the second case. *)
Lemma Rebase_run req w w' out :
  wf w → Rebase req w = (w', out) →
  (w_db w' = w_db w ∧ ∀ r c e, out ≠ Ok (Some r, c, e)) ∨
  ∃ r main b gs rowss cs, out = Ok (Some r, [], None) ∧ rebasable req w main b ∧
    rebased req w w' r main b gs rowss cs ∧ rq_Branch req ≠ "main" ∧
    (distinct_paths (w_db w) (rq_Repo req) → ∀ p,
       changed (w_db w) (rq_Repo req) (rq_Branch req) (br_base_sequence b) p = None ∨
       changed (w_db w) (rq_Repo req) "main" (br_base_sequence b) p = None).
Proof.
  intros Hwf. unfold Rebase. case_bool_decide as Hmain; [by intros [= <- <-]; left|].
  unfold WithTx, mbind, M_bind, mret, M_ret.
  destruct (rebase_tx req w) as [w1 [[[r1 c1] e1]|e]] eqn:E; cbn -[errors_Is].
  - apply rebase_tx_ok in E as (main & b & Hok & [(-> & -> & -> & _)|(-> & -> & Hd & r & gs & rowss & cs & -> & Hr)]);
      [..|done].
    + intros [= <- <-]. left. split; [done|]. by intros ? ? ? [= ].
    + intros [= <- <-]. right. by exists r, main, b, gs, rowss, cs.
  - intros Hrun. left.
    destruct (errors_Is e errRollback); cbn -[errors_Is] in Hrun; [by injection Hrun as <- <-|].
    destruct (errors_Is e ErrRebaseConflict); by injection Hrun as <- <-.
Qed.

(** The old rows of a group have distinct paths. *)
Lemma group_paths rss rows :
  NoDup rows → unambiguous rows → concat rss ≡ₚ rows →
  ∀ gs, Forall2 group_rows gs rss → Forall (λ g, NoDup (rf_path <$> rg_files g)) gs.
Proof.
  intros HN Hu Hp gs HF.
  assert (NoDup (concat rss)) as HN' by (by rewrite Hp).
  assert (unambiguous (concat rss)) as Hu'.
  { eapply unambiguous_sub; [|exact Hu]. intros r. by rewrite Hp. }
  clear HN Hu Hp. induction HF as [|g rs gs rss [Hs Hf] HF IH]; [constructor|].
  cbn in HN', Hu'. apply NoDup_app in HN' as (HN & _ & HN'). constructor.
  - rewrite Hf, <- list_fmap_compose. rewrite Forall_forall in Hs.
    apply NoDup_fmap_2_strong; [|done]. intros x y Hx Hy Exy.
    apply Hu'; [by apply elem_of_app; left..|done|]. by rewrite (Hs x Hx), (Hs y Hy).
  - apply IH; [done|]. eapply unambiguous_sub; [|exact Hu'].
    intros r Hr. apply elem_of_app. by right.
Qed.

Lemma file_commits_NoDup d : wf_db d → NoDup (db_file_commits d).
Proof.
  intros Hwf. apply (NoDup_fmap_1 fc_commit_id).
  apply (unique_NoDup (t_clash file_commits)); [|apply Hwf].
  intros x y Exy. cbn. by apply bool_decide_eq_true.
Qed.

(** The newest versions among the new rows are the changes of the branch. *)
Lemma rebased_changes req w w' r main b gs rowss cs p :
  wf w → distinct_paths (w_db w) (rq_Repo req) → rebased req w w' r main b gs rowss cs →
  unambiguous (concat rowss) ∧
  fc_version_id <$> newest (concat rowss) p
  = changed (w_db w) (rq_Repo req) (rq_Branch req) (br_base_sequence b) p.
Proof.
  intros Hwf Hu [Eg (w1 & seqs & [_ _ _ _ Hr _ _] & _) _ _ _].
  set (rows := filter _ (db_file_commits (w_db w))) in Eg.
  assert (unambiguous rows) as Hur.
  { eapply unambiguous_sub; [|exact Hu]. intros x [(Hx & _) Hin]%list_elem_of_filter.
    by apply list_elem_of_filter. }
  assert (NoDup rows) as HN by (apply NoDup_filter, file_commits_NoDup, Hwf).
  destruct (groups_of_ok rows) as (rss & HF & Hc). rewrite <- Eg in HF.
  assert (concat rss ≡ₚ rows) as Hp by (by rewrite Hc, merge_sort_Permutation).
  assert (unambiguous (concat rowss)) as Hun.
  { eapply replayed_unambiguous; [exact Hr|]. by eapply group_paths. }
  split; [done|].
  rewrite (newest_path_version (concat rowss) (concat rss)); [|..].
  - unfold changed. fold rows. f_equal. apply newest_perm; [done|done].
  - by eapply replayed_sorted.
  - rewrite Hc. apply oldest_sorted.
  - done.
  - eapply unambiguous_sub; [|exact Hur]. intros x. by rewrite Hp.
  - by eapply replayed_versions.
Qed.

(** A branch without rows of its own for a path shows it as main at the base. *)
Lemma main_at_base w repo name main b p :
  wf w → main ∈ db_branches (w_db w) → br_repo main = repo → br_name main = "main" →
  (∀ r, r ∈ db_file_commits (w_db w) → fc_repo r = repo → fc_branch r = name →
     br_base_sequence b < fc_sequence r) →
  changed (w_db w) repo name (br_base_sequence b) p = None →
  newest (filter (visible_from repo name (br_head_sequence main) None)
            (db_file_commits (w_db w))) p ≫= fc_version_id
  = view (w_db w) repo "main" (Some (br_head_sequence main)) p.
Proof.
  intros Hwf Hm Hr Hn Hnew Hnone. unfold view. f_equal. rewrite visible_bases.
  assert (bases (w_db w) repo "main" = [br_base_sequence main]) as ->.
  { rewrite <- Hr, <- Hn. by apply bases_branch; [apply Hwf|]. }
  cbn. rewrite app_nil_r. apply newest_filter_path.
  rewrite !list_filter_filter. apply filter_ext_elem. intros r Hin.
  apply fmap_None in Hnone. unfold visible_from. cbn. split.
  - intros (<- & Hrepo & [Hbr|[Hbr Hle]] & _); [|by auto 10].
    exfalso. apply (proj1 (newest_none _ _) Hnone r); [|done]. apply list_elem_of_filter.
    split; [split_and!; auto|done].
  - intros (<- & Hrepo & [Hbr|[Hbr Hle]] & Hle'); auto 10.
Qed.

Section reading.
Context (req : RebaseRequest) (w w' : World) (resp : RebaseResponse) (main b : branch).
Context (gs : list rebaseGroup) (rowss : list (list file_commit)) (cs : list commit).
Context (Hwf : wf w) (Hb : rebasable req w main b) (Hd : rebased req w w' resp main b gs rowss cs).

Lemma rebased_db :
  w_db w' = set_branches (update_where (λ x, br_repo x = rq_Repo req ∧ br_name x = rq_Branch req)
              (branch_with_base_head (br_head_sequence main) (rp_NewHeadSequence resp))
              (db_branches (w_db w)))
            (set_commits (db_commits (w_db w) ++ cs)
               (set_file_commits (db_file_commits (w_db w) ++ concat rowss) (w_db w))).
Proof.
  destruct (rd_replays _ _ _ _ _ _ _ _ _ Hd) as (w1 & seqs & Hr & ->). cbn.
  by rewrite (rp_db _ _ _ _ _ _ _ _ Hr).
Qed.

Lemma rebased_row r :
  r ∈ concat rowss →
  fc_repo r = rq_Repo req ∧ fc_branch r = rq_Branch req ∧ w_commit_seq w < fc_sequence r.
Proof.
  destruct (rd_replays _ _ _ _ _ _ _ _ _ Hd) as (w1 & seqs & Hr & _).
  apply (replayed_row _ _ _ _ _ _ (rp_rows _ _ _ _ _ _ _ _ Hr)).
Qed.

(** The branch after the rebase. *)
Definition moved : branch :=
  branch_with_base_head (br_head_sequence main) (rp_NewHeadSequence resp) b.

Lemma moved_in : moved ∈ db_branches (w_db w').
Proof.
  rewrite rebased_db. cbn. apply elem_of_update_where. exists b.
  destruct (rb_branch _ _ _ _ Hb) as (? & ? & ?). by rewrite decide_True.
Qed.

Lemma rebased_bases : wf w' → bases (w_db w') (rq_Repo req) (rq_Branch req) = [br_head_sequence main].
Proof.
  intros Hwf'. destruct (rb_branch _ _ _ _ Hb) as (_ & <- & <-).
  change (br_repo b) with (br_repo moved). change (br_name b) with (br_name moved).
  rewrite (bases_branch (w_db w') moved); [done|apply Hwf'|apply moved_in].
Qed.

(** What the branch shows: the new rows, then what it had or main had at its
    new base. *)
Lemma rebased_view p :
  wf w' → unambiguous (concat rowss) →
  view (w_db w') (rq_Repo req) (rq_Branch req) None p
  = match newest (concat rowss) p with
    | Some r => fc_version_id r
    | None => newest (filter (visible_from (rq_Repo req) (rq_Branch req) (br_head_sequence main) None)
                        (db_file_commits (w_db w))) p ≫= fc_version_id
    end.
Proof.
  intros Hwf' Hu. unfold view. rewrite visible_bases, rebased_bases by done. cbn.
  rewrite app_nil_r, rebased_db. cbn. rewrite filter_app.
  rewrite (filter_all _ (concat rowss)).
  2: { intros r (? & ? & _)%rebased_row. split_and!; [done|by left|done]. }
  rewrite newest_app; [by destruct (newest (concat rowss) p)|..|done].
  intros r r' [_ Hr]%list_elem_of_filter (_ & _ & Hlt)%rebased_row.
  pose proof (wf_file_commit_seq _ _ Hwf Hr). lia.
Qed.
End reading.

End RebaseSpec.

(** ** Witness *)

(** Main changes "d" after "dev" was created, and "dev" is rebased on it. *)
Definition upstream_commit : CommitRequest :=
  mkCommitRequest "o/r" "main" [file "d" "4"] "upstream" "alice".
Definition upstream_world : World := exec (Commit NewStore upstream_commit) changed_world.
Definition rebase_dev : RebaseRequest := mkRebaseRequest "o/r" "dev" "bob".
Definition rebased_world : World := exec (Rebase rebase_dev) upstream_world.

Lemma upstream_world_wf : wf upstream_world.
Proof. apply preserves_wf; [apply Commit_preserves|apply changed_world_wf]. Qed.

Lemma upstream_distinct : distinct_paths (w_db upstream_world) "o/r".
Proof. apply distinct_paths_NoDup. by_decide. Qed.

Lemma rebase_dev_run :
  Rebase rebase_dev upstream_world = (rebased_world, Ok (Some (mkRebaseResponse 3 4 1), [], None)).
Proof. unfold rebased_world. run_ok. Qed.

