(* ===== verification/Reviews.v ===== *)
(** * Reviews, review comments and check runs (internal/db/store.go)

    One definition per method of [Store] on the tables [reviews],
    [review_comments] and [check_runs]. *)

From S2P Require Import Prelude GoStd Schema Tx Run Integrity Orgs Commits.

(** ** Results *)

(** [model.Review], [model.ReviewComment], [model.CheckRun] *)
Record Review := mkReviewResult {
  Review_ID : string; Review_Repo : string; Review_Branch : string; Review_Reviewer : string;
  Review_Sequence : Z; Review_Status : review_status; Review_Body : string; Review_CreatedAt : Z;
}.
Record ReviewComment := mkReviewCommentResult {
  Comment_ID : string; Comment_ReviewID : option string; Comment_Branch : string;
  Comment_Path : string; Comment_VersionID : string; Comment_Body : string;
  Comment_Author : string; Comment_Sequence : Z; Comment_CreatedAt : Z;
}.
Record CheckRun := mkCheckRunResult {
  Check_ID : string; Check_Repo : string; Check_Branch : string; Check_Sequence : Z;
  Check_CheckName : string; Check_Status : check_status; Check_Reporter : string;
  Check_LogURL : option string; Check_CreatedAt : Z; Check_Attempt : Z;
  Check_Metadata : option string;
}.

(** What the queries select from a row. *)
Definition review_result (r : review) : Review :=
  mkReviewResult (rv_id r) (rv_repo r) (rv_branch r) (rv_reviewer r) (rv_sequence r)
    (rv_status r) (str_or_empty (rv_body r)) (rv_created_at r).
Definition comment_result (r : review_comment) : ReviewComment :=
  mkReviewCommentResult (rc_id r) (rc_review_id r) (rc_branch r) (rc_path r) (rc_version_id r)
    (rc_body r) (rc_author r) (rc_sequence r) (rc_created_at r).
Definition check_result (r : check_run) : CheckRun :=
  mkCheckRunResult (cr_id r) (cr_repo r) (cr_branch r) (cr_sequence r) (cr_check_name r)
    (cr_status r) (cr_reporter r) (cr_log_url r) (cr_created_at r) (cr_attempt r)
    (cr_metadata r).

(** [AND sequence = $3] when [atSeq] is given. *)
Definition at_seq (atSeq : option Z) (n : Z) : Prop :=
  match atSeq with None => True | Some m => n = m end.
#[export] Instance at_seq_dec atSeq n : Decision (at_seq atSeq n).
Proof. destruct atSeq; cbn; apply _. Defined.

Section Reviews.
Context {Co : Collation} {Us : UuidSource}.

(** ** Reviews *)

(** Commits of the branch after its base by [author]. *)
Definition authored (repo branch : string) (baseSeq : Z) (author : string) (c : commit) : Prop :=
  c_repo c = repo ∧ c_branch c = branch ∧ baseSeq < c_sequence c ∧ c_author c = author.
#[export] Instance authored_dec repo branch baseSeq author c :
  Decision (authored repo branch baseSeq author c).
Proof. unfold authored. apply _. Defined.

Definition CreateReview (repo branch reviewer : string) (status : review_status)
    (body : string) : M Review :=
  id ← uuid_New;
  in_tx (mkReviewResult "" "" "" "" 0 status "" 0) (
    b ← or_not_found (lock_branch repo branch) ErrBranchNotFound "lock branch";
    let headSeq := br_head_sequence b in
    let baseSeq := br_base_sequence b in
    (if bool_decide (status = Approved) then
       own ← select commits (authored repo branch baseSeq reviewer);
       if 0 <? Z.of_nat (length own) then fail ErrSelfApproval else mret tt
     else mret tt : M unit);;
    createdAt ← now;
    wrap "insert review"
      (insert_row reviews
         (mkReview id repo branch reviewer headSeq status (nullif_empty body) createdAt));;
    mret (mkReviewResult id repo branch reviewer headSeq status body createdAt)).

Definition ListReviews (repo branch : string) (atSeq : option Z) : M (list Review) :=
  l ← select reviews (λ r, rv_repo r = repo ∧ rv_branch r = branch ∧ at_seq atSeq (rv_sequence r));
  mret (review_result <$> order_by_desc rv_created_at l).

(** ** Comments *)

Definition CreateReviewComment (repo branch path versionID body author : string)
    (reviewID : option string) : M ReviewComment :=
  in_tx (mkReviewCommentResult "" None "" "" "" "" "" 0 0) (
    b ← or_not_found (lock_branch repo branch) ErrBranchNotFound "lock branch";
    let headSeq := br_head_sequence b in
    let nullReviewID := reviewID ≫= nullif_empty in
    id ← uuid_New;
    createdAt ← now;
    wrap "insert review_comment"
      (insert_row review_comments
         (mkReviewComment id nullReviewID repo branch path versionID body author headSeq createdAt));;
    mret (mkReviewCommentResult id reviewID branch path versionID body author headSeq createdAt)).

Definition ListReviewComments (repo branch : string) (path : option string)
    : M (list ReviewComment) :=
  l ← select review_comments (λ c, rc_repo c = repo ∧ rc_branch c = branch ∧
                                   opt_ref (λ p, rc_path c = p) path);
  mret (comment_result <$> order_by_asc rc_created_at l).

Definition GetReviewComment (repo id : string) : M ReviewComment :=
  c ← or_not_found
        (query_row (select review_comments (λ c, rc_repo c = repo ∧ rc_id c = id)))
        ErrCommentNotFound "get review_comment";
  mret (comment_result c).

Definition DeleteReviewComment (repo id : string) : M unit :=
  n ← wrap "delete review_comment"
        (delete_rows review_comments (λ c, rc_repo c = repo ∧ rc_id c = id));
  none_affected ErrCommentNotFound n.

(** ** Check runs *)

(** [COALESCE(a, b)] *)
Definition coalesce {A} (a b : option A) : option A :=
  match a with Some _ => a | None => b end.

(** The [DO UPDATE SET] of [CreateCheckRun]. *)
Definition check_updated (status : check_status) (reporter : string) (logURL metadata : option string)
    (r : check_run) : check_run :=
  mkCheckRun (cr_id r) (cr_repo r) (cr_branch r) (cr_sequence r) (cr_check_name r) status reporter
    (coalesce logURL (cr_log_url r)) (cr_created_at r) (cr_attempt r)
    (coalesce metadata (cr_metadata r)).

Definition CreateCheckRun (repo branch checkName : string) (status : check_status)
    (reporter : string) (logURL : option string) (atSequence : option Z) (attempt : Z)
    (metadata : option string) : M CheckRun :=
  newID ← uuid_New;
  in_tx (mkCheckRunResult "" "" "" 0 "" status "" None 0 0 None) (
    b ← or_not_found (lock_branch repo branch) ErrBranchNotFound "lock branch";
    let headSeq := default (br_head_sequence b) atSequence in
    t ← now;
    row ← wrap "insert check_run"
      (upsert_row check_runs
         (λ r, cr_repo r = repo ∧ cr_branch r = branch ∧ cr_sequence r = headSeq ∧
               cr_check_name r = checkName ∧ cr_attempt r = attempt)
         (mkCheckRun newID repo branch headSeq checkName status reporter logURL t attempt metadata)
         (check_updated status reporter logURL metadata));
    mret (mkCheckRunResult (cr_id row) repo branch headSeq checkName status reporter logURL
            (cr_created_at row) attempt metadata)).

Definition runs_of (repo branch : string) (seq : Z) (checkName : string) (r : check_run) : Prop :=
  cr_repo r = repo ∧ cr_branch r = branch ∧ cr_sequence r = seq ∧ cr_check_name r = checkName.
#[export] Instance runs_of_dec repo branch seq checkName r :
  Decision (runs_of repo branch seq checkName r).
Proof. unfold runs_of. apply _. Defined.

(** [ORDER BY check_name, attempt DESC] and [ORDER BY check_name, attempt DESC,
    created_at DESC] *)
Definition name_then_attempt : relation check_run :=
  order_then cr_check_name text_le (num_desc cr_attempt).
#[export] Instance name_then_attempt_dec : RelDecision name_then_attempt.
Proof. apply order_then_dec; apply _. Defined.
Definition name_attempt_created : relation check_run :=
  order_then cr_check_name text_le (order_then cr_attempt (flip Z.le) (num_desc cr_created_at)).
#[export] Instance name_attempt_created_dec : RelDecision name_attempt_created.
Proof. unfold name_attempt_created, order_then, flip, num_desc. intros a b. apply _. Defined.

Definition err_no_checks : error := New "no checks to retry".

(** The loop computing [maxAttempt]. *)
Definition max_attempt (repo branch : string) (seq : Z) (checks : list string) : M Z :=
  foldl (λ m checkName,
    maxAttempt ← m;
    l ← wrap ("query max attempt for " +:+ checkName)
          (select check_runs (runs_of repo branch seq checkName));
    let a := default 0 (sql_max (cr_attempt <$> l)) in
    mret (if maxAttempt <? a then a else maxAttempt)) (mret 0) checks.

Definition retry_insert (repo branch : string) (seq newAttempt : Z) (checkName : string) : M unit :=
  id ← uuid_New;
  t ← now;
  wrap ("insert retry check_run for " +:+ checkName)
    (insert_row check_runs
       (mkCheckRun id repo branch seq checkName CheckPending "system" None t newAttempt None)).

(** [int16] arithmetic wraps around. *)
Definition RetryChecks (repo branch : string) (seq : Z) (checks : list string) : M Z :=
  in_tx 0 (
    or_not_found (lock_branch repo branch) ErrBranchNotFound "lock branch";;
    checks ←
      (if bool_decide (checks = []) then
         l ← select check_runs (λ r, cr_repo r = repo ∧ cr_branch r = branch ∧ cr_sequence r = seq);
         mret (cr_check_name <$> distinct_on cr_check_name (merge_sort name_then_attempt l))
       else mret checks : M (list string));
    if bool_decide (checks = []) then fail err_no_checks else
    maxAttempt ← max_attempt repo branch seq checks;
    let newAttempt := int16_wrap (maxAttempt + 1) in
    mapM (retry_insert repo branch seq newAttempt) checks;;
    mret newAttempt).

Definition ListCheckRuns (repo branch : string) (atSeq : option Z) (history : bool)
    : M (list CheckRun) :=
  l ← select check_runs (λ r, cr_repo r = repo ∧ cr_branch r = branch ∧ at_seq atSeq (cr_sequence r));
  mret (check_result <$>
    if history then order_by_desc cr_created_at l
    else distinct_on cr_check_name (merge_sort name_attempt_created l)).

(** ** Integrity *)

Lemma CreateReview_preserves repo branch reviewer status body :
  preserves (CreateReview repo branch reviewer status body).
Proof. unfold CreateReview. solve_spec. Qed.
Lemma ListReviews_preserves repo branch atSeq : preserves (ListReviews repo branch atSeq).
Proof. unfold ListReviews. solve_spec. Qed.
Lemma CreateReviewComment_preserves repo branch path versionID body author reviewID :
  preserves (CreateReviewComment repo branch path versionID body author reviewID).
Proof. unfold CreateReviewComment. solve_spec. Qed.
Lemma ListReviewComments_preserves repo branch path :
  preserves (ListReviewComments repo branch path).
Proof. unfold ListReviewComments. solve_spec. Qed.
Lemma GetReviewComment_preserves repo id : preserves (GetReviewComment repo id).
Proof. unfold GetReviewComment. solve_spec. Qed.
Lemma DeleteReviewComment_preserves repo id : preserves (DeleteReviewComment repo id).
Proof. unfold DeleteReviewComment. solve_spec. Qed.
Lemma CreateCheckRun_preserves repo branch name status reporter logURL at_ attempt metadata :
  preserves (CreateCheckRun repo branch name status reporter logURL at_ attempt metadata).
Proof. unfold CreateCheckRun. solve_spec. Qed.
Lemma max_attempt_preserves repo branch seq checks : preserves (max_attempt repo branch seq checks).
Proof.
  intros F. unfold max_attempt. assert (preserves (mret 0 : M Z)) as Hm by solve_spec.
  revert Hm F. generalize (mret 0 : M Z). induction checks as [|c l IH]; intros m Hm F; [apply Hm|].
  cbn. apply IH. intros F'. eapply (spec_bind _ _ _ (λ _, [])); [apply Hm|]. solve_spec.
Qed.
#[local] Hint Resolve max_attempt_preserves : docstore.
Lemma RetryChecks_preserves repo branch seq checks : preserves (RetryChecks repo branch seq checks).
Proof. unfold RetryChecks, retry_insert. solve_spec. Qed.
Lemma ListCheckRuns_preserves repo branch atSeq history :
  preserves (ListCheckRuns repo branch atSeq history).
Proof. unfold ListCheckRuns. solve_spec. Qed.

End Reviews.

#[export] Hint Resolve CreateReview_preserves ListReviews_preserves CreateReviewComment_preserves
  ListReviewComments_preserves GetReviewComment_preserves DeleteReviewComment_preserves
  CreateCheckRun_preserves max_attempt_preserves RetryChecks_preserves ListCheckRuns_preserves
  : docstore.
