(* ===== verification/Purge.v ===== *)
(** * Purging old branches (internal/db/store.go)

    [Purge] deletes the rows of merged and abandoned branches whose last
    activity is older than a threshold, and the documents nothing refers to any
    more, in one transaction; blobs of those documents are deleted from the
    external store, which is not part of the transaction. *)

From S2P Require Import Prelude Schema Tx Run Integrity Blob Commits ReadStore.

(** [type PurgeRequest struct]; the duration is in nanoseconds. *)
Record PurgeRequest := mkPurgeRequest {
  pq_Repo : string; pq_OlderThan : Z; pq_DryRun : bool;
}.

(** [type PurgeResult struct] *)
Record PurgeResult := mkPurgeResult {
  pr_BranchesPurged : Z; pr_FileCommitsDeleted : Z; pr_CommitsDeleted : Z;
  pr_DocumentsDeleted : Z; pr_ReviewsDeleted : Z; pr_CheckRunsDeleted : Z;
}.

(** [LEFT JOIN commits c ON c.repo = b.repo AND c.sequence = b.head_sequence] *)
Definition head_commit (b : branch) (c : commit) : Prop :=
  c_repo c = br_repo b ∧ c_sequence c = br_head_sequence b.
#[export] Instance head_commit_dec b c : Decision (head_commit b c).
Proof. unfold head_commit. apply _. Defined.

(** The WHERE clause of the eligible branches. *)
Definition purgeable (repo : string) (threshold : Z) (row : branch * option commit) : Prop :=
  br_repo row.1 = repo ∧
  (br_status row.1 = Merged ∨ br_status row.1 = Abandoned) ∧
  br_name row.1 ≠ "main" ∧
  default (br_created_at row.1) (c_created_at <$> row.2) < threshold.
#[export] Instance purgeable_dec repo threshold row : Decision (purgeable repo threshold row).
Proof. unfold purgeable. apply _. Defined.

Definition eligible (d : DB) (repo : string) (threshold : Z) : list string :=
  (λ row, br_name row.1) <$>
    filter (purgeable repo threshold) (left_join head_commit (db_branches d) (db_commits d)).

(** [SELECT DISTINCT version_id FROM file_commits WHERE repo = $1 AND version_id IS NOT NULL] *)
Definition referenced_versions (d : DB) (repo : string) : list string :=
  omap fc_version_id (filter (λ r, fc_repo r = repo) (db_file_commits d)).

(** [WHERE repo = $1 AND version_id NOT IN (...)] *)
Definition orphan (repo : string) (referenced : list string) (d : document) : Prop :=
  doc_repo d = repo ∧ doc_version_id d ∉ referenced.
#[export] Instance orphan_dec repo referenced d : Decision (orphan repo referenced d).
Proof. unfold orphan. apply _. Defined.

Definition purge_blobs (bs : BlobStore) (keys : list string) : M unit :=
  mapM (λ key, wrap ("delete blob " +:+ key) (blob_Delete bs key)) keys;;
  mret tt.

(** The deletions, steps 1 to 6. *)
Definition purge_delete (s : Store) (req : PurgeRequest) (names : list string) : M PurgeResult :=
  let repo := pq_Repo req in
  fileCommits ← wrap "delete file_commits"
    (delete_rows file_commits (λ r, fc_repo r = repo ∧ fc_branch r ∈ names));
  used ← gets (λ w, fc_sequence <$> filter (λ r, fc_repo r = repo) (db_file_commits (w_db w)));
  commits_ ← wrap "delete commits"
    (delete_rows commits (λ c, c_repo c = repo ∧ c_branch c ∈ names ∧ c_sequence c ∉ used));
  reviews_ ← wrap "delete reviews"
    (delete_rows reviews (λ r, rv_repo r = repo ∧ rv_branch r ∈ names));
  checkRuns ← wrap "delete check_runs"
    (delete_rows check_runs (λ r, cr_repo r = repo ∧ cr_branch r ∈ names));
  referenced ← gets (λ w, referenced_versions (w_db w) repo);
  (match s_blobStore s with
   | None => mret tt
   | Some bs =>
       orphans ← select documents (orphan repo referenced);
       if pq_DryRun req then mret tt else purge_blobs bs (omap doc_blob_key orphans)
   end : M unit);;
  docs ← wrap "delete documents" (delete_rows documents (orphan repo referenced));
  wrap "delete branches" (delete_rows branches (λ b, br_repo b = repo ∧ br_name b ∈ names));;
  mret (mkPurgeResult (Z.of_nat (length names)) fileCommits commits_ docs reviews_ checkRuns).

Definition purge_tx (s : Store) (req : PurgeRequest) : M (option PurgeResult * option error) :=
  exists_ ← gets (λ w, bool_decide (has_repo (w_db w) (pq_Repo req)));
  if negb exists_ then fail ErrRepoNotFound else
  clock ← time_Now;
  let threshold := timestamptz (clock - pq_OlderThan req) in
  names ← gets (λ w, eligible (w_db w) (pq_Repo req) threshold);
  if bool_decide (names = []) then
    mret (Some (mkPurgeResult 0 0 0 0 0 0), Some errRollback)
  else
  result ← purge_delete s req names;
  mret (Some result, if pq_DryRun req then Some errRollback else None).

Definition Purge (s : Store) (req : PurgeRequest) : M (option PurgeResult) :=
  '(purgeResult, err) ← WithTx None (purge_tx s req);
  match err with
  | Some e => fail e
  | None => mret purgeResult
  end.

(** ** Integrity *)

Lemma blob_Delete_preserves bs key : preserves (blob_Delete bs key).
Proof.
  intros F w Hw HF. unfold blob_Delete. case_match; cbn; [done|].
  destruct Hw. split_and!; [by split|done|constructor].
Qed.
#[local] Hint Resolve blob_Delete_preserves : docstore.

Lemma purge_delete_preserves s req names : preserves (purge_delete s req names).
Proof. unfold purge_delete, purge_blobs. solve_spec. Qed.
#[local] Hint Resolve purge_delete_preserves : docstore.

Lemma Purge_preserves s req : preserves (Purge s req).
Proof. unfold Purge, purge_tx. solve_spec. Qed.

#[export] Hint Resolve Purge_preserves : docstore.
