(* ===== verification/Releases.v ===== *)
(** * Releases (internal/db/store.go)

    The methods of [Store] on the table [releases], with the keyset pagination
    of [ListReleases], and [CommitSequenceExists].  UUIDs compare like their
    canonical texts, byte by byte. *)

From S2P Require Import Prelude Schema Tx Run Integrity Orgs GoStd.

(** [model.Release]: the row with [COALESCE(body, '')]. *)
Record Release := mkReleaseResult {
  Release_ID : string; Release_Repo : string; Release_Name : string; Release_Sequence : Z;
  Release_Body : string; Release_CreatedBy : string; Release_CreatedAt : Z;
}.
Definition release_result (r : release) : Release :=
  mkReleaseResult (rel_id r) (rel_repo r) (rel_name r) (rel_sequence r)
    (str_or_empty (rel_body r)) (rel_created_by r) (rel_created_at r).

(** [ORDER BY created_at DESC, id DESC] *)
Definition newest_first : relation release :=
  order_then rel_created_at (flip Z.le) (λ a b, String.le (rel_id b) (rel_id a)).
#[export] Instance newest_first_dec : RelDecision newest_first.
Proof. unfold newest_first, order_then, flip. intros a b. apply _. Defined.

(** [(created_at, id) < (SELECT created_at, id FROM releases WHERE id = $2)] *)
Definition older_than (cursor r : release) : Prop :=
  rel_created_at r < rel_created_at cursor ∨
  (rel_created_at r = rel_created_at cursor ∧
   String.le (rel_id r) (rel_id cursor) ∧ rel_id r ≠ rel_id cursor).
#[export] Instance older_than_dec cursor r : Decision (older_than cursor r).
Proof. unfold older_than. apply _. Defined.

(** [LIMIT] when [limit > 0]. *)
Definition opt_limit {A} (n : Z) (l : list A) : list A := if n <=? 0 then l else limit n l.

Section Releases.
Context {Us : UuidSource}.

Definition CreateRelease (repo name : string) (sequence : Z) (body createdBy : string)
    : M Release :=
  on_error
    (id ← uuid_New;
     t ← now;
     let r := mkRelease id repo name sequence (nullif_empty body) createdBy t in
     insert_row releases r;;
     mret (release_result r))
    (λ err, if isDuplicateKeyError err then ErrReleaseExists else Errorf "insert release" err).

Definition GetRelease (repo name : string) : M Release :=
  r ← on_error (query_row (select releases (λ r, rel_repo r = repo ∧ rel_name r = name)))
        (λ err, if errors_Is err sql_ErrNoRows then ErrReleaseNotFound else err);
  mret (release_result r).

Definition ListReleases (repo : string) (lim : Z) (afterID : string) : M (list Release) :=
  if bool_decide (afterID = "") then
    l ← select releases (λ r, rel_repo r = repo);
    mret (release_result <$> opt_limit lim (merge_sort newest_first l))
  else
    cursor ← select releases (λ r, rel_id r = afterID);
    match cursor with
    | [] => fail ErrInvalidCursor
    | c :: _ =>
        l ← select releases (λ r, rel_repo r = repo ∧ older_than c r);
        mret (release_result <$> opt_limit lim (merge_sort newest_first l))
    end.

Definition DeleteRelease (repo name : string) : M unit :=
  n ← wrap "delete release" (delete_rows releases (λ r, rel_repo r = repo ∧ rel_name r = name));
  none_affected ErrReleaseNotFound n.

Definition CommitSequenceExists (repo : string) (sequence : Z) : M bool :=
  l ← select commits (λ c, c_repo c = repo ∧ c_sequence c = sequence);
  mret (bool_decide (l ≠ [])).

(** ** Integrity *)
Lemma CreateRelease_preserves repo name sequence body createdBy :
  preserves (CreateRelease repo name sequence body createdBy).
Proof. unfold CreateRelease. solve_spec. Qed.
Lemma GetRelease_preserves repo name : preserves (GetRelease repo name).
Proof. unfold GetRelease. solve_spec. Qed.
Lemma ListReleases_preserves repo lim afterID : preserves (ListReleases repo lim afterID).
Proof. unfold ListReleases. solve_spec. Qed.
Lemma DeleteRelease_preserves repo name : preserves (DeleteRelease repo name).
Proof. unfold DeleteRelease. solve_spec. Qed.
Lemma CommitSequenceExists_preserves repo sequence : preserves (CommitSequenceExists repo sequence).
Proof. unfold CommitSequenceExists. solve_spec. Qed.
End Releases.

#[export] Hint Resolve CreateRelease_preserves GetRelease_preserves ListReleases_preserves
  DeleteRelease_preserves CommitSequenceExists_preserves : docstore.

(** * Event subscriptions (internal/db/store.go)

    The methods of [Store] on the table [event_subscriptions]. *)

(** [model.CreateSubscriptionRequest]; the configuration is a JSON value.  A
    nil slice of event types is stored as NULL. *)
Record CreateSubscriptionRequest := mkCreateSubscriptionRequest {
  sq_Repo : option string; sq_EventTypes : option (list string); sq_Backend : string;
  sq_Config : json; sq_CreatedBy : string;
}.

(** What the queries give back: no event types for an empty array. *)
Definition sub_result (s : subscription) : subscription :=
  mkSubscription (sub_id s) (sub_repo s)
    (match sub_event_types s with Some [] => None | o => o end)
    (sub_backend s) (sub_config s) (sub_created_at s) (sub_created_by s)
    (sub_suspended_at s) (sub_failure_count s).

Section Subscriptions.
Context {Us : UuidSource}.

Definition CreateSubscription (req : CreateSubscriptionRequest) : M subscription :=
  id ← uuid_New;
  t ← now;
  let s := mkSubscription id (sq_Repo req) (sq_EventTypes req) (sq_Backend req) (sq_Config req) t
             (sq_CreatedBy req) None 0 in
  wrap "create subscription" (insert_row event_subscriptions s);;
  mret s.

Definition GetSubscription (id : string) : M subscription :=
  s ← or_not_found (query_row (select event_subscriptions (λ s, sub_id s = id)))
        ErrSubscriptionNotFound "get subscription";
  mret (sub_result s).

Definition ListSubscriptions : M (list subscription) :=
  l ← select event_subscriptions (λ _, True);
  mret (sub_result <$> order_by_asc sub_created_at l).

Definition ListSubscriptionsByCreator (createdBy : string) : M (list subscription) :=
  l ← select event_subscriptions (λ s, sub_created_by s = createdBy);
  mret (sub_result <$> order_by_asc sub_created_at l).

Definition DeleteSubscription (id : string) : M unit :=
  n ← wrap "delete subscription" (delete_rows event_subscriptions (λ s, sub_id s = id));
  none_affected ErrSubscriptionNotFound n.

(** [SET suspended_at = NULL, failure_count = 0] *)
Definition sub_resumed (s : subscription) : subscription :=
  mkSubscription (sub_id s) (sub_repo s) (sub_event_types s) (sub_backend s) (sub_config s)
    (sub_created_at s) (sub_created_by s) None 0.

Definition ResumeSubscription (id : string) : M unit :=
  n ← wrap "resume subscription" (update_rows event_subscriptions (λ s, sub_id s = id) sub_resumed);
  none_affected ErrSubscriptionNotFound n.

(** ** Integrity *)
Lemma CreateSubscription_preserves req : preserves (CreateSubscription req).
Proof. unfold CreateSubscription. solve_spec. Qed.
Lemma GetSubscription_preserves id : preserves (GetSubscription id).
Proof. unfold GetSubscription. solve_spec. Qed.
Lemma ListSubscriptions_preserves : preserves ListSubscriptions.
Proof. unfold ListSubscriptions. solve_spec. Qed.
Lemma ListSubscriptionsByCreator_preserves createdBy :
  preserves (ListSubscriptionsByCreator createdBy).
Proof. unfold ListSubscriptionsByCreator. solve_spec. Qed.
Lemma DeleteSubscription_preserves id : preserves (DeleteSubscription id).
Proof. unfold DeleteSubscription. solve_spec. Qed.
Lemma ResumeSubscription_preserves id : preserves (ResumeSubscription id).
Proof. unfold ResumeSubscription. solve_spec. Qed.
End Subscriptions.

#[export] Hint Resolve CreateSubscription_preserves GetSubscription_preserves
  ListSubscriptions_preserves ListSubscriptionsByCreator_preserves DeleteSubscription_preserves
  ResumeSubscription_preserves : docstore.
