(* ===== verification/Issues.v ===== *)
(** * Proposals (internal/db/store.go)

    The methods of [Store] on the table [proposals]: at most one open proposal
    per branch, by the partial unique index. *)

From S2P Require Import Prelude Schema Tx Run Integrity Orgs.

(** [model.Proposal]: a NULL description reads as the empty string. *)
Record Proposal := mkProposalResult {
  Prop_ID : string; Prop_Repo : string; Prop_Branch : string; Prop_BaseBranch : string;
  Prop_Title : string; Prop_Description : string; Prop_Author : string;
  Prop_State : proposal_state; Prop_CreatedAt : Z; Prop_UpdatedAt : Z;
}.
Definition proposal_result (p : proposal) : Proposal :=
  mkProposalResult (p_id p) (p_repo p) (p_branch p) (p_base_branch p) (p_title p)
    (str_or_empty (p_description p)) (p_author p) (p_state p) (p_created_at p) (p_updated_at p).

Definition proposal_with (title description : option string) (t : Z) (p : proposal) : proposal :=
  mkProposal (p_id p) (p_repo p) (p_branch p) (p_base_branch p)
    (default (p_title p) title)
    (match description with Some d => Some d | None => p_description p end)
    (p_author p) (p_state p) (p_created_at p) t.
Definition proposal_with_state (st : proposal_state) (t : Z) (p : proposal) : proposal :=
  mkProposal (p_id p) (p_repo p) (p_branch p) (p_base_branch p) (p_title p) (p_description p)
    (p_author p) st (p_created_at p) t.

Section Proposals.
Context {Us : UuidSource}.

Definition CreateProposal (repo branch baseBranch title description author : string)
    : M Proposal :=
  id ← uuid_New;
  t ← now;
  on_error
    (insert_row proposals
       (mkProposal id repo branch baseBranch title (nullif_empty description) author ProposalOpen t t))
    (λ err, if isDuplicateKeyError err then ErrProposalExists
            else if isForeignKeyViolation err then ErrBranchNotFound
            else Errorf "insert proposal" err);;
  mret (mkProposalResult id repo branch baseBranch title description author ProposalOpen t t).

Definition GetProposal (repo proposalID : string) : M Proposal :=
  p ← or_not_found (query_row (select proposals (λ p, p_repo p = repo ∧ p_id p = proposalID)))
        ErrProposalNotFound "get proposal";
  mret (proposal_result p).

Definition ListProposals (repo : string) (state : option proposal_state) (branch : option string)
    : M (list Proposal) :=
  l ← wrap "list proposals"
        (select proposals (λ p, p_repo p = repo ∧ opt_ref (λ st, p_state p = st) state ∧
                                opt_ref (λ b, p_branch p = b) branch));
  mret (proposal_result <$> order_by_desc p_created_at l).

Definition UpdateProposal (repo proposalID : string) (title description : option string)
    : M Proposal :=
  match title, description with
  | None, None => GetProposal repo proposalID
  | _, _ =>
      t ← now;
      p ← or_not_found
            (query_row (update_returning proposals (λ p, p_repo p = repo ∧ p_id p = proposalID)
               (proposal_with title description t)))
            ErrProposalNotFound "update proposal";
      mret (proposal_result p)
  end.

Definition CloseProposal (repo proposalID : string) : M unit :=
  t ← now;
  n ← wrap "close proposal"
        (update_rows proposals (λ p, p_repo p = repo ∧ p_id p = proposalID)
           (proposal_with_state ProposalClosed t));
  none_affected ErrProposalNotFound n.

Definition MergeProposal (repo branch : string) : M (option Proposal) :=
  t ← now;
  l ← wrap "merge proposal"
        (update_returning proposals
           (λ p, p_repo p = repo ∧ p_branch p = branch ∧ p_state p = ProposalOpen)
           (proposal_with_state ProposalMerged t));
  mret (proposal_result <$> head l).

(** ** Integrity *)

(** A proposal that is not open clashes with others only on its id. *)
Lemma proposal_state_keeps P st t : st ≠ ProposalOpen → keeps proposals P (proposal_with_state st t).
Proof.
  intros Hst. split; cbn; intros; try assumption; try done.
  rewrite bool_decide_eq_false in H0 |- *. intros [E|(E & _)]; [|congruence]. apply H0. by left.
Qed.

Lemma CreateProposal_preserves repo branch baseBranch title description author :
  preserves (CreateProposal repo branch baseBranch title description author).
Proof. unfold CreateProposal. solve_spec. Qed.
Lemma GetProposal_preserves repo proposalID : preserves (GetProposal repo proposalID).
Proof. unfold GetProposal. solve_spec. Qed.
#[local] Hint Resolve GetProposal_preserves : docstore.
Lemma ListProposals_preserves repo state branch : preserves (ListProposals repo state branch).
Proof. unfold ListProposals. solve_spec. Qed.
Lemma UpdateProposal_preserves repo proposalID title description :
  preserves (UpdateProposal repo proposalID title description).
Proof. unfold UpdateProposal. solve_spec. Qed.
Lemma CloseProposal_preserves repo proposalID : preserves (CloseProposal repo proposalID).
Proof.
  intros F. unfold CloseProposal. eapply (spec_bind _ _ _ (λ _, [])); [solve_spec|intros t].
  eapply (spec_bind _ _ _ (λ _, [])); [|solve_spec]. apply spec_wrap.
  refine (spec_update _ _ _ _ _ _); [by apply proposal_state_keeps|solve_keeps].
Qed.
Lemma MergeProposal_preserves repo branch : preserves (MergeProposal repo branch).
Proof.
  intros F. unfold MergeProposal. eapply (spec_bind _ _ _ (λ _, [])); [solve_spec|intros t].
  eapply (spec_bind _ _ _ (λ _, [])); [|solve_spec]. apply spec_wrap.
  refine (spec_update_returning _ _ _ _ _ _); [by apply proposal_state_keeps|solve_keeps].
Qed.
End Proposals.

#[export] Hint Resolve CreateProposal_preserves GetProposal_preserves ListProposals_preserves
  UpdateProposal_preserves CloseProposal_preserves MergeProposal_preserves : docstore.

(** * Issues (internal/db/issues.go)

    One definition per method of [Store] on the tables [issues],
    [issue_comments] and [issue_refs].  Issue numbers are allocated per
    repository as one more than the greatest number in use. *)

(** [model.Issue]: the row with [Body] for the nullable column. *)
Record Issue := mkIssueResult {
  Issue_ID : string; Issue_Repo : string; Issue_Number : Z; Issue_Title : string;
  Issue_Body : string; Issue_Author : string; Issue_State : issue_state;
  Issue_CloseReason : option issue_close_reason; Issue_ClosedBy : option string;
  Issue_Labels : list string; Issue_ClosedAt : option Z; Issue_CreatedAt : Z;
  Issue_UpdatedAt : Z;
}.

(** [func scanIssue] *)
Definition scanIssue (i : issue) : Issue :=
  mkIssueResult (iss_id i) (iss_repo i) (iss_number i) (iss_title i) (str_or_empty (iss_body i))
    (iss_author i) (iss_state i) (iss_close_reason i) (iss_closed_by i) (iss_labels i)
    (iss_closed_at i) (iss_created_at i) (iss_updated_at i).

(** ** Row updates *)
Definition issue_with (title body : option string) (labels : option (list string)) (t : Z)
    (i : issue) : issue :=
  mkIssue (iss_id i) (iss_repo i) (iss_number i) (default (iss_title i) title)
    (match body with Some b => Some b | None => iss_body i end)
    (iss_author i) (iss_state i) (iss_close_reason i) (iss_closed_by i)
    (default (iss_labels i) labels) (iss_closed_at i) (iss_created_at i) t.
Definition issue_closed (reason : issue_close_reason) (closedBy : string) (t : Z) (i : issue)
    : issue :=
  mkIssue (iss_id i) (iss_repo i) (iss_number i) (iss_title i) (iss_body i) (iss_author i)
    IssueClosed (Some reason) (Some closedBy) (iss_labels i) (Some t) (iss_created_at i) t.
Definition issue_reopened (t : Z) (i : issue) : issue :=
  mkIssue (iss_id i) (iss_repo i) (iss_number i) (iss_title i) (iss_body i) (iss_author i)
    IssueOpen None None (iss_labels i) None (iss_created_at i) t.
Definition comment_edited (body : string) (t : Z) (c : issue_comment) : issue_comment :=
  mkIssueComment (ic_id c) (ic_issue_id c) (ic_repo c) body (ic_author c) (ic_created_at c) (Some t).

Definition parse_issue_state (s : string) : option issue_state :=
  if bool_decide (s = "open") then Some IssueOpen
  else if bool_decide (s = "closed") then Some IssueClosed
  else None.

Section Issues.
Context {Us : UuidSource}.

(** [WHERE repo = $1 AND number = $2] *)
Definition numbered (repo : string) (number : Z) (i : issue) : Prop :=
  iss_repo i = repo ∧ iss_number i = number.
#[export] Instance numbered_dec repo number i : Decision (numbered repo number i).
Proof. unfold numbered. apply _. Defined.

(** [SELECT COALESCE(MAX(number), 0) + 1 FROM issues WHERE repo = $1] *)
Definition next_number (repo : string) : M Z :=
  l ← select issues (λ i, iss_repo i = repo);
  let n := default 0 (sql_max (iss_number <$> l)) + 1 in
  if int64_max <? n then fail (Pq "22003") else mret n.

Definition CreateIssue (repo title body author : string) (labels : list string) : M Issue :=
  id ← uuid_New;
  in_tx (mkIssueResult "" "" 0 "" "" "" IssueOpen None None [] None 0 0) (
    number ← wrap "create issue: allocate number" (next_number repo);
    t ← now;
    on_error
      (insert_row issues
         (mkIssue id repo number title (nullif_empty body) author IssueOpen None None labels None t t))
      (λ err, if isForeignKeyViolation err then ErrRepoNotFound
              else Errorf "create issue: insert" err);;
    mret (mkIssueResult id repo number title body author IssueOpen None None labels None t t)).

Definition GetIssue (repo : string) (number : Z) : M Issue :=
  i ← or_not_found (query_row (select issues (numbered repo number))) ErrIssueNotFound "get issue";
  mret (scanIssue i).

Definition ListIssues (repo stateFilter authorFilter labelFilter : string) : M (list Issue) :=
  state ←
    (if bool_decide (stateFilter = "") then mret None
     else match parse_issue_state stateFilter with
          | Some st => mret (Some st)
          | None => fail (Errorf "list issues" (Pq "22P02"))
          end : M (option issue_state));
  l ← select issues (λ i, iss_repo i = repo ∧
        opt_ref (λ st, iss_state i = st) state ∧
        (authorFilter = "" ∨ iss_author i = authorFilter) ∧
        (labelFilter = "" ∨ labelFilter ∈ iss_labels i));
  mret (scanIssue <$> order_by_desc iss_number l).

(** [UPDATE issues SET ... WHERE repo = $1 AND number = $2 RETURNING ...] *)
Definition update_issue (repo : string) (number : Z) (f : issue → issue) (text : string)
    : M Issue :=
  i ← or_not_found (query_row (update_returning issues (numbered repo number) f))
        ErrIssueNotFound text;
  mret (scanIssue i).

Definition UpdateIssue (repo : string) (number : Z) (title body : option string)
    (labels : option (list string)) : M Issue :=
  match title, body, labels with
  | None, None, None => GetIssue repo number
  | _, _, _ =>
      t ← now;
      update_issue repo number (issue_with title body labels t) "update issue"
  end.

Definition CloseIssue (repo : string) (number : Z) (reason : issue_close_reason)
    (closedBy : string) : M Issue :=
  t ← now;
  update_issue repo number (issue_closed reason closedBy t) "close issue".

Definition ReopenIssue (repo : string) (number : Z) : M Issue :=
  t ← now;
  update_issue repo number (issue_reopened t) "reopen issue".

(** ** Comments *)

(** [SELECT id::text FROM issues WHERE repo = $1 AND number = $2] *)
Definition resolve_issue (repo : string) (number : Z) (text : string) : M string :=
  i ← or_not_found (query_row (select issues (numbered repo number))) ErrIssueNotFound text;
  mret (iss_id i).

Definition CreateIssueComment (repo : string) (number : Z) (body author : string)
    : M issue_comment :=
  issueID ← resolve_issue repo number "create issue comment: resolve issue";
  id ← uuid_New;
  t ← now;
  let c := mkIssueComment id issueID repo body author t None in
  wrap "create issue comment" (insert_row issue_comments c);;
  mret c.

Definition GetIssueComment (repo id : string) : M issue_comment :=
  or_not_found (query_row (select issue_comments (λ c, ic_repo c = repo ∧ ic_id c = id)))
    ErrIssueCommentNotFound "get issue comment".

(** [issue_id = (SELECT id FROM issues WHERE repo = $1 AND number = $2)] *)
Definition issue_id_of (d : DB) (repo : string) (number : Z) : option string :=
  iss_id <$> head (filter (numbered repo number) (db_issues d)).

Definition ListIssueComments (repo : string) (number : Z) : M (list issue_comment) :=
  gets (λ w, order_by_asc ic_created_at
    (filter (λ c, ic_repo c = repo ∧ Some (ic_issue_id c) = issue_id_of (w_db w) repo number)
       (db_issue_comments (w_db w)))).

Definition UpdateIssueComment (repo id body : string) : M issue_comment :=
  t ← now;
  or_not_found
    (query_row (update_returning issue_comments (λ c, ic_repo c = repo ∧ ic_id c = id)
       (comment_edited body t)))
    ErrIssueCommentNotFound "update issue comment".

Definition DeleteIssueComment (repo id : string) : M unit :=
  n ← wrap "delete issue comment"
        (delete_rows issue_comments (λ c, ic_repo c = repo ∧ ic_id c = id));
  none_affected ErrIssueCommentNotFound n.

(** ** References *)

Definition CreateIssueRef (repo : string) (number : Z) (refType : issue_ref_type)
    (refID : string) : M issue_ref :=
  issueID ← resolve_issue repo number "create issue ref: resolve issue";
  id ← uuid_New;
  t ← now;
  let r := mkIssueRef id issueID repo refType refID t in
  on_error (insert_row issue_refs r)
    (λ err, if isDuplicateKeyError err then ErrIssueRefExists else Errorf "create issue ref" err);;
  mret r.

Definition ListIssueRefs (repo : string) (number : Z) : M (list issue_ref) :=
  gets (λ w, order_by_asc ir_created_at
    (filter (λ r, ir_repo r = repo ∧ Some (ir_issue_id r) = issue_id_of (w_db w) repo number)
       (db_issue_refs (w_db w)))).

Definition ListIssuesByRef (repo : string) (refType : issue_ref_type) (refID : string)
    : M (list Issue) :=
  gets (λ w,
    let ids := ir_issue_id <$>
      filter (λ r, ir_repo r = repo ∧ ir_ref_type r = refType ∧ ir_ref_id r = refID)
        (db_issue_refs (w_db w)) in
    scanIssue <$> order_by_asc iss_number (filter (λ i, iss_id i ∈ ids) (db_issues (w_db w)))).

(** ** Integrity *)

Lemma next_number_preserves repo : preserves (next_number repo).
Proof. unfold next_number. solve_spec. Qed.
#[local] Hint Resolve next_number_preserves : docstore.
Lemma CreateIssue_preserves repo title body author labels :
  preserves (CreateIssue repo title body author labels).
Proof. unfold CreateIssue. solve_spec. Qed.
Lemma GetIssue_preserves repo number : preserves (GetIssue repo number).
Proof. unfold GetIssue. solve_spec. Qed.
#[local] Hint Resolve GetIssue_preserves : docstore.
Lemma ListIssues_preserves repo st author label : preserves (ListIssues repo st author label).
Proof. unfold ListIssues. solve_spec. Qed.
Lemma UpdateIssue_preserves repo number title body labels :
  preserves (UpdateIssue repo number title body labels).
Proof. unfold UpdateIssue, update_issue. solve_spec. Qed.
Lemma CloseIssue_preserves repo number reason closedBy :
  preserves (CloseIssue repo number reason closedBy).
Proof. unfold CloseIssue, update_issue. solve_spec. Qed.
Lemma ReopenIssue_preserves repo number : preserves (ReopenIssue repo number).
Proof. unfold ReopenIssue, update_issue. solve_spec. Qed.
Lemma CreateIssueComment_preserves repo number body author :
  preserves (CreateIssueComment repo number body author).
Proof. unfold CreateIssueComment, resolve_issue. solve_spec. Qed.
Lemma GetIssueComment_preserves repo id : preserves (GetIssueComment repo id).
Proof. unfold GetIssueComment. solve_spec. Qed.
Lemma ListIssueComments_preserves repo number : preserves (ListIssueComments repo number).
Proof. unfold ListIssueComments. solve_spec. Qed.
Lemma UpdateIssueComment_preserves repo id body : preserves (UpdateIssueComment repo id body).
Proof. unfold UpdateIssueComment. solve_spec. Qed.
Lemma DeleteIssueComment_preserves repo id : preserves (DeleteIssueComment repo id).
Proof. unfold DeleteIssueComment. solve_spec. Qed.
Lemma CreateIssueRef_preserves repo number refType refID :
  preserves (CreateIssueRef repo number refType refID).
Proof. unfold CreateIssueRef, resolve_issue. solve_spec. Qed.
Lemma ListIssueRefs_preserves repo number : preserves (ListIssueRefs repo number).
Proof. unfold ListIssueRefs. solve_spec. Qed.
Lemma ListIssuesByRef_preserves repo refType refID : preserves (ListIssuesByRef repo refType refID).
Proof. unfold ListIssuesByRef. solve_spec. Qed.
End Issues.

#[export] Hint Resolve next_number_preserves CreateIssue_preserves GetIssue_preserves
  ListIssues_preserves UpdateIssue_preserves CloseIssue_preserves ReopenIssue_preserves
  CreateIssueComment_preserves GetIssueComment_preserves ListIssueComments_preserves
  UpdateIssueComment_preserves DeleteIssueComment_preserves CreateIssueRef_preserves
  ListIssueRefs_preserves ListIssuesByRef_preserves : docstore.
