(* ===== verification/CIJobs.v ===== *)
(** * The CI job queue (internal/db/ci_jobs.go, internal/db/ci_oidc_tokens.go)

    One definition per method of [Store] on the tables [ci_jobs] and
    [ci_oidc_tokens].  A job is queued, claimed by a worker pod, and completed
    or put back in the queue when its worker stops sending heartbeats; a
    request token is valid while its job is claimed. *)

From S2P Require Import Prelude Schema Tx Run Integrity Orgs.

(** [model.CIJob]: the row without its token. *)
Record CIJob := mkCIJobResult {
  Job_ID : string; Job_Repo : string; Job_Branch : string; Job_Sequence : Z;
  Job_Status : ci_job_status; Job_ClaimedAt : option Z; Job_LastHeartbeatAt : option Z;
  Job_WorkerPod : option string; Job_WorkerPodIP : option string; Job_LogURL : option string;
  Job_ErrorMessage : option string; Job_CreatedAt : Z; Job_TriggerType : string;
  Job_TriggerBranch : string; Job_TriggerBaseBranch : string;
  Job_TriggerProposalID : option string; Job_Permissions : list string;
}.

(** [func scanCIJob] *)
Definition scanCIJob (j : ci_job) : CIJob :=
  mkCIJobResult (j_id j) (j_repo j) (j_branch j) (j_sequence j) (j_status j) (j_claimed_at j)
    (j_last_heartbeat_at j) (j_worker_pod j) (j_worker_pod_ip j) (j_log_url j) (j_error_message j)
    (j_created_at j) (str_or_empty (j_trigger_type j)) (str_or_empty (j_trigger_branch j))
    (str_or_empty (j_trigger_base_branch j)) (j_trigger_proposal_id j) (j_permissions j).

(** The cast [$2::ci_job_status]. *)
Definition parse_ci_job_status (s : string) : option ci_job_status :=
  if bool_decide (s = "queued") then Some Queued
  else if bool_decide (s = "claimed") then Some Claimed
  else if bool_decide (s = "passed") then Some Passed
  else if bool_decide (s = "failed") then Some Failed
  else None.
Definition cast_status (s : string) : M ci_job_status :=
  match parse_ci_job_status s with
  | Some st => mret st
  | None => fail (Pq "22P02")
  end.

(** ** Row updates *)
Definition job_with_token (token : option string) (exp : option Z) (j : ci_job) : ci_job :=
  mkCiJob (j_id j) (j_repo j) (j_branch j) (j_sequence j) (j_status j) (j_claimed_at j)
    (j_last_heartbeat_at j) (j_worker_pod j) (j_worker_pod_ip j) (j_log_url j) (j_error_message j)
    (j_created_at j) (j_trigger_type j) (j_trigger_branch j) (j_trigger_base_branch j)
    (j_trigger_proposal_id j) token exp (j_permissions j).
Definition job_claimed (t : Z) (podName podIP : string) (j : ci_job) : ci_job :=
  mkCiJob (j_id j) (j_repo j) (j_branch j) (j_sequence j) Claimed (Some t)
    (j_last_heartbeat_at j) (Some podName) (Some podIP) (j_log_url j) (j_error_message j)
    (j_created_at j) (j_trigger_type j) (j_trigger_branch j) (j_trigger_base_branch j)
    (j_trigger_proposal_id j) (j_request_token j) (j_request_token_exp j) (j_permissions j).
Definition job_heartbeat (t : Z) (j : ci_job) : ci_job :=
  mkCiJob (j_id j) (j_repo j) (j_branch j) (j_sequence j) (j_status j) (j_claimed_at j)
    (Some t) (j_worker_pod j) (j_worker_pod_ip j) (j_log_url j) (j_error_message j)
    (j_created_at j) (j_trigger_type j) (j_trigger_branch j) (j_trigger_base_branch j)
    (j_trigger_proposal_id j) (j_request_token j) (j_request_token_exp j) (j_permissions j).
Definition job_completed (st : ci_job_status) (logURL errorMessage : option string) (j : ci_job)
    : ci_job :=
  mkCiJob (j_id j) (j_repo j) (j_branch j) (j_sequence j) st (j_claimed_at j)
    (j_last_heartbeat_at j) (j_worker_pod j) (j_worker_pod_ip j) logURL errorMessage
    (j_created_at j) (j_trigger_type j) (j_trigger_branch j) (j_trigger_base_branch j)
    (j_trigger_proposal_id j) None None (j_permissions j).
Definition job_requeued (j : ci_job) : ci_job :=
  mkCiJob (j_id j) (j_repo j) (j_branch j) (j_sequence j) Queued None None None None
    (j_log_url j) (j_error_message j) (j_created_at j) (j_trigger_type j) (j_trigger_branch j)
    (j_trigger_base_branch j) (j_trigger_proposal_id j) None None (j_permissions j).

Section CIJobs.
Context {Us : UuidSource}.

(** ** Request tokens *)

Definition StoreRequestToken (jobID hashedToken : string) (exp : Z) : M unit :=
  wrap "store request token"
    (update_unique ci_jobs (λ j, j_id j = jobID)
       (job_with_token (Some hashedToken) (Some (timestamptz exp))));;
  mret tt.

(** [request_token = $1 AND request_token_exp > now() AND status = 'claimed'] *)
Definition token_valid (hashedToken : string) (t : Z) (j : ci_job) : Prop :=
  j_request_token j = Some hashedToken ∧
  (match j_request_token_exp j with Some e => t < e | None => False end) ∧
  j_status j = Claimed.
#[export] Instance token_valid_dec hashedToken t j : Decision (token_valid hashedToken t j).
Proof. unfold token_valid. destruct (j_request_token_exp j); apply _. Defined.

Definition LookupRequestToken (hashedToken : string) : M CIJob :=
  t ← now;
  j ← or_not_found (query_row (select ci_jobs (token_valid hashedToken t)))
        ErrTokenInvalid "lookup request token";
  mret (scanCIJob j).

(** ** The queue *)

Definition InsertCIJob (repo branch : string) (sequence : Z)
    (triggerType triggerBranch triggerBaseBranch triggerProposalID : string)
    (permissions : list string) : M CIJob :=
  let permissions := match permissions with [] => ["checks"] | l => l end in
  id ← uuid_New;
  t ← now;
  let j := mkCiJob id repo branch sequence Queued None None None None None None t
             (Some triggerType) (Some triggerBranch) (nullif_empty triggerBaseBranch)
             (nullif_empty triggerProposalID) None None permissions in
  wrap "insert ci job" (insert_row ci_jobs j);;
  mret (scanCIJob j).

Definition GetCIJob (id : string) : M CIJob :=
  j ← or_not_found (query_row (select ci_jobs (λ j, j_id j = id))) ErrCIJobNotFound "get ci job";
  mret (scanCIJob j).

(** The sub-select of [ClaimCIJob]: the oldest queued job, when the pod has no
    claimed job. *)
Definition claimed_by (podName : string) (j : ci_job) : Prop :=
  j_worker_pod j = Some podName ∧ j_status j = Claimed.
#[export] Instance claimed_by_dec podName j : Decision (claimed_by podName j).
Proof. unfold claimed_by. apply _. Defined.

Definition next_queued (podName : string) (jobs : list ci_job) : option ci_job :=
  if bool_decide (filter (claimed_by podName) jobs = [])
  then head (order_by_asc j_created_at (filter (λ j, j_status j = Queued) jobs))
  else None.

Definition ClaimCIJob (podName podIP : string) : M (option CIJob) :=
  t ← now;
  candidate ← gets (λ w, next_queued podName (db_ci_jobs (w_db w)));
  l ← wrap "claim ci job"
        (update_returning ci_jobs (λ j, Some (j_id j) = (j_id <$> candidate))
           (job_claimed t podName podIP));
  mret (scanCIJob <$> head l).

Definition HeartbeatCIJob (id : string) : M unit :=
  t ← now;
  wrap "heartbeat ci job" (update_rows ci_jobs (λ j, j_id j = id) (job_heartbeat t));;
  mret tt.

Definition CompleteCIJob (id status : string) (logURL errorMessage : option string) : M unit :=
  wrap "complete ci job"
    (st ← cast_status status;
     update_rows ci_jobs (λ j, j_id j = id) (job_completed st logURL errorMessage));;
  mret tt.

Definition ListCIJobs (repo : string) (branch status : option string) (lim : Z)
    : M (list CIJob) :=
  st ← wrap "list ci jobs"
    (match status with
     | None => mret None
     | Some s => st ← cast_status s; mret (Some st)
     end : M (option ci_job_status));
  if lim <? 0 then fail (Errorf "list ci jobs" (Pq "2201W")) else
  l ← select ci_jobs (λ j, j_repo j = repo ∧ opt_ref (λ b, j_branch j = b) branch ∧
                           opt_ref (λ st, j_status j = st) st);
  mret (scanCIJob <$> limit lim (order_by_desc j_created_at l)).

Definition CountQueuedCIJobs : M Z :=
  l ← select ci_jobs (λ j, j_status j = Queued);
  mret (Z.of_nat (length l)).

Definition two_minutes : Z := 120 * 1000000000.

(** [COALESCE(last_heartbeat_at, claimed_at) < now() - interval '2 minutes'] *)
Definition stale (t : Z) (j : ci_job) : Prop :=
  j_status j = Claimed ∧
  match (match j_last_heartbeat_at j with Some b => Some b | None => j_claimed_at j end) with
  | Some b => b < t - two_minutes
  | None => False
  end.
#[export] Instance stale_dec t j : Decision (stale t j).
Proof. unfold stale. destruct (j_last_heartbeat_at j), (j_claimed_at j); apply _. Defined.

Definition ReapStaleCIJobs : M (list CIJob) :=
  t ← now;
  l ← wrap "reap stale ci jobs" (update_returning ci_jobs (stale t) job_requeued);
  mret (scanCIJob <$> l).

(** ** OIDC tokens *)

Definition RecordOIDCToken (jti jobID audience : string) (exp : Z) : M unit :=
  t ← now;
  wrap "record oidc token"
    (insert_row ci_oidc_tokens (mkOidcToken jti jobID audience t (timestamptz exp)));;
  mret tt.

(** ** Integrity *)

(** An update that keeps the token, or removes it, keeps tokens unique. *)
Lemma job_keeps P f :
  (∀ j, j_id (f j) = j_id j) →
  (∀ j, j_request_token (f j) = j_request_token j ∨ j_request_token (f j) = None) →
  keeps ci_jobs P f.
Proof.
  intros Hid Htok. split; cbn; intros; try assumption; try done.
  rewrite bool_decide_eq_false in H0 |- *. intros Hc. apply H0.
  destruct Hc as [E|E]; [left; by rewrite Hid in E|].
  destruct (Htok x) as [Ht|Ht]; rewrite Ht in E; [by right|done].
Qed.

Ltac solve_job_keeps := apply job_keeps; intros; cbn; auto.

Lemma StoreRequestToken_preserves jobID hashedToken exp :
  preserves (StoreRequestToken jobID hashedToken exp).
Proof.
  intros F. unfold StoreRequestToken. eapply (spec_bind _ _ _ (λ _, [])); [|solve_spec].
  apply spec_wrap. refine (spec_update_unique _ _ _ _ _ _ _ _); try done; solve_keeps.
Qed.
Lemma LookupRequestToken_preserves hashedToken : preserves (LookupRequestToken hashedToken).
Proof. unfold LookupRequestToken. solve_spec. Qed.
Lemma InsertCIJob_preserves repo branch sequence a b c e permissions :
  preserves (InsertCIJob repo branch sequence a b c e permissions).
Proof. unfold InsertCIJob. solve_spec. Qed.
Lemma GetCIJob_preserves id : preserves (GetCIJob id).
Proof. unfold GetCIJob. solve_spec. Qed.
Lemma ClaimCIJob_preserves podName podIP : preserves (ClaimCIJob podName podIP).
Proof.
  intros F. unfold ClaimCIJob. do 2 (eapply (spec_bind _ _ _ (λ _, [])); [solve_spec|intros ?]).
  eapply (spec_bind _ _ _ (λ _, [])); [|solve_spec]. apply spec_wrap.
  refine (spec_update_returning _ _ _ _ _ _); [solve_job_keeps|solve_keeps].
Qed.
Lemma HeartbeatCIJob_preserves id : preserves (HeartbeatCIJob id).
Proof. unfold HeartbeatCIJob. solve_spec. Qed.
Lemma CompleteCIJob_preserves id status logURL errorMessage :
  preserves (CompleteCIJob id status logURL errorMessage).
Proof.
  intros F. unfold CompleteCIJob, cast_status.
  eapply (spec_bind _ _ _ (λ _, [])); [|solve_spec]. apply spec_wrap.
  eapply (spec_bind _ _ _ (λ _, [])); [solve_spec|intros st].
  refine (spec_update _ _ _ _ _ _); [solve_job_keeps|solve_keeps].
Qed.
Lemma ListCIJobs_preserves repo branch status lim : preserves (ListCIJobs repo branch status lim).
Proof. unfold ListCIJobs, cast_status. solve_spec. Qed.
Lemma CountQueuedCIJobs_preserves : preserves CountQueuedCIJobs.
Proof. unfold CountQueuedCIJobs. solve_spec. Qed.
Lemma ReapStaleCIJobs_preserves : preserves ReapStaleCIJobs.
Proof.
  intros F. unfold ReapStaleCIJobs. eapply (spec_bind _ _ _ (λ _, [])); [solve_spec|intros t].
  eapply (spec_bind _ _ _ (λ _, [])); [|solve_spec]. apply spec_wrap.
  refine (spec_update_returning _ _ _ _ _ _); [solve_job_keeps|solve_keeps].
Qed.
Lemma RecordOIDCToken_preserves jti jobID audience exp :
  preserves (RecordOIDCToken jti jobID audience exp).
Proof. unfold RecordOIDCToken. solve_spec. Qed.
End CIJobs.

#[export] Hint Resolve StoreRequestToken_preserves LookupRequestToken_preserves
  InsertCIJob_preserves GetCIJob_preserves ClaimCIJob_preserves HeartbeatCIJob_preserves
  CompleteCIJob_preserves ListCIJobs_preserves CountQueuedCIJobs_preserves
  ReapStaleCIJobs_preserves RecordOIDCToken_preserves : docstore.

(** * Sealed repository secrets (internal/db/secrets_store.go)

    The methods of [Store] on the table [repo_secrets].  The sealed fields are
    opaque bytes here. *)

(** The fields of the [RepoSecret] given to [SetRepoSecret] that it reads; no
    creation time stands for the zero [time.Time]. *)
Record RepoSecret := mkRepoSecretInput {
  si_ID : string; si_Repo : string; si_Name : string; si_Description : string;
  si_Ciphertext : string; si_Nonce : string; si_EncryptedDEK : string;
  si_KMSKeyName : string; si_SizeBytes : Z; si_CreatedBy : string; si_CreatedAt : option Z;
}.

(** The [DO UPDATE SET]. *)
Definition secret_updated (i : RepoSecret) (t : Z) (s : repo_secret) : repo_secret :=
  mkRepoSecret (sec_id s) (sec_repo s) (sec_name s) (si_Description i) (si_Ciphertext i)
    (si_Nonce i) (si_EncryptedDEK i) (si_KMSKeyName i) (si_SizeBytes i) (sec_created_by s)
    (sec_created_at s) (Some (si_CreatedBy i)) (Some t) (sec_last_used_at s).
Definition secret_touched (t : Z) (s : repo_secret) : repo_secret :=
  mkRepoSecret (sec_id s) (sec_repo s) (sec_name s) (sec_description s) (sec_ciphertext s)
    (sec_nonce s) (sec_encrypted_dek s) (sec_kms_key_name s) (sec_size_bytes s)
    (sec_created_by s) (sec_created_at s) (sec_updated_by s) (sec_updated_at s) (Some t).

(** [WHERE repo = $1 AND name = $2] *)
Definition secret_named (repo name : string) (s : repo_secret) : Prop :=
  sec_repo s = repo ∧ sec_name s = name.
#[export] Instance secret_named_dec repo name s : Decision (secret_named repo name s).
Proof. unfold secret_named. apply _. Defined.

Section SecretsStore.
Context {Co : Collation} {Us : UuidSource}.

Definition SetRepoSecret (i : RepoSecret) : M repo_secret :=
  id ← (if bool_decide (si_ID i = "") then uuid_New else mret (si_ID i) : M string);
  clock ← time_Now;
  let createdAt := default clock (si_CreatedAt i) in
  wrap "set repo secret"
    (upsert_row repo_secrets (secret_named (si_Repo i) (si_Name i))
       (mkRepoSecret id (si_Repo i) (si_Name i) (si_Description i) (si_Ciphertext i) (si_Nonce i)
          (si_EncryptedDEK i) (si_KMSKeyName i) (si_SizeBytes i) (si_CreatedBy i)
          (timestamptz createdAt) None None None)
       (secret_updated i (timestamptz clock))).

Definition GetRepoSecret (repo name : string) : M repo_secret :=
  or_not_found (query_row (select repo_secrets (secret_named repo name)))
    ErrSecretNotFound "get repo secret".

Definition ListRepoSecrets (repo : string) : M (list repo_secret) :=
  l ← select repo_secrets (λ s, sec_repo s = repo);
  mret (order_by sec_name l).

(** [DELETE ... RETURNING] *)
Definition DeleteRepoSecret (repo name : string) : M repo_secret :=
  s ← or_not_found
        (query_row
           (l ← select repo_secrets (secret_named repo name);
            delete_rows repo_secrets (secret_named repo name);;
            mret l))
        ErrSecretNotFound "delete repo secret";
  mret s.

Definition TouchRepoSecretLastUsed (repo name : string) : M unit :=
  t ← now;
  wrap "touch repo secret last used"
    (update_rows repo_secrets (secret_named repo name) (secret_touched t));;
  mret tt.

(** ** Integrity *)
Lemma SetRepoSecret_preserves i : preserves (SetRepoSecret i).
Proof. unfold SetRepoSecret. solve_spec. Qed.
Lemma GetRepoSecret_preserves repo name : preserves (GetRepoSecret repo name).
Proof. unfold GetRepoSecret. solve_spec. Qed.
Lemma ListRepoSecrets_preserves repo : preserves (ListRepoSecrets repo).
Proof. unfold ListRepoSecrets. solve_spec. Qed.
Lemma DeleteRepoSecret_preserves repo name : preserves (DeleteRepoSecret repo name).
Proof. unfold DeleteRepoSecret. solve_spec. Qed.
Lemma TouchRepoSecretLastUsed_preserves repo name : preserves (TouchRepoSecretLastUsed repo name).
Proof. unfold TouchRepoSecretLastUsed. solve_spec. Qed.
End SecretsStore.

#[export] Hint Resolve SetRepoSecret_preserves GetRepoSecret_preserves ListRepoSecrets_preserves
  DeleteRepoSecret_preserves TouchRepoSecretLastUsed_preserves : docstore.
