(* ===== verification/Server.v ===== *)
(** * Requests of the server (internal/server)

    Which handler a request reaches, and as whom: the paths of repositories
    (url.go, handlers.go), the roles (middleware.go) and the chain of handlers
    of [buildHandler] (server.go).  A handler is named by a constructor of
    [Route] that carries the path values it is given; routes outside "/repos/"
    are named by method and path.

    Tokens are validated through an interface, [Tokens], which Auth.v implements.  The requests that authenticate by
    themselves (presigned archives, request tokens) end in the handlers of
    [Route] too; those handlers check their credential.  The paths are those
    that reach a handler: the mux redirects the ones that are not clean. *)

From Stdlib Require Import Ascii.
From S2P Require Import Prelude GoStd Schema Tx Orgs.

(** ** Paths of repositories *)

(** [splitRepoPath] *)
Definition splitRepoPath (path : string) : option (string * string) :=
  if negb (HasPrefix path "/repos/") then None else
  let rest := string_drop 7 path in
  if bool_decide (rest = "") then None else
  match Cut rest "/-/" with
  | None => Some (rest, "")
  | Some (repoName, endpoint) => Some (repoName, endpoint)
  end.

Definition parseRepoPath (path : string) : option (string * string) := splitRepoPath path.

(** [repoAndSubPath]: two empty strings for a path without an endpoint. *)
Definition repoAndSubPath (path : string) : string * string :=
  match splitRepoPath path with
  | Some (repo, subPath) => if bool_decide (subPath = "") then ("", "") else (repo, subPath)
  | None => ("", "")
  end.

(** [repoFromPath] *)
Definition repoFromPath (path : string) : string :=
  if negb (HasPrefix path "/repos/") then "" else
  let rest := string_drop 7 path in
  match Cut rest "/" with Some (repo, _) => repo | None => rest end.

(** [strings.Contains] *)
Definition Contains (s sub : string) : bool := bool_decide (is_Some (Cut s sub)).

(** [strings.SplitN(s, "/", 3)] *)
Definition split3 (s : string) : list string :=
  match Cut s "/" with
  | None => [s]
  | Some (a, s) => match Cut s "/" with None => [a; s] | Some (b, c) => [a; b; c] end
  end.

(** ** Roles *)

Definition is_admin (role : role_type) : bool := bool_decide (role = Admin).
Definition maintainer_up (role : role_type) : bool :=
  bool_decide (role = Maintainer) || bool_decide (role = Admin).
Definition writer_up (role : role_type) : bool :=
  bool_decide (role = Writer) || bool_decide (role = Maintainer) || bool_decide (role = Admin).

(** [roleAllows], a test after another. *)
Definition roleAllows (role : role_type) (method subPath : string) : bool :=
  let verb m := bool_decide (method = m) in
  let at_ p := bool_decide (subPath = p) in
  let under p := HasPrefix subPath p in
  if at_ "roles" || under "roles/" then is_admin role else
  if at_ "secrets" && negb (verb "GET") then is_admin role else
  if under "secrets/" && (verb "PUT" || verb "DELETE") then is_admin role else
  if verb "DELETE" && under "releases/" then is_admin role else
  if verb "POST" && at_ "releases" then maintainer_up role else
  if verb "GET" then true else
  if verb "POST" && at_ "commit" then writer_up role else
  if verb "POST" && at_ "review" then writer_up role else
  if verb "POST" && at_ "comment" then writer_up role else
  if verb "DELETE" && under "comment/" then writer_up role else
  if verb "POST" && at_ "check" then writer_up role else
  if verb "POST" && at_ "proposals" then writer_up role else
  if verb "PATCH" && under "proposals/" then writer_up role else
  if verb "POST" && under "proposals/" && HasSuffix subPath "/close" then writer_up role else
  if verb "POST" && at_ "issues" then writer_up role else
  if verb "POST" && under "issues/" then writer_up role else
  if verb "PATCH" && under "issues/" then writer_up role else
  if verb "DELETE" && under "issues/" then maintainer_up role else
  if verb "POST" && (at_ "branch" || at_ "merge" || at_ "rebase") then maintainer_up role else
  if verb "POST" && at_ "checks/retry" then maintainer_up role else
  if under "branch/" && HasSuffix subPath "/auto-merge" then writer_up role else
  if verb "DELETE" && under "branch/" then maintainer_up role else
  if verb "PATCH" && under "branch/" then writer_up role else
  if verb "POST" && at_ "ci/run" then writer_up role else
  false.

(** ** The handlers of a repository (handlers.go) *)

Inductive Route :=
(* the repository itself *)
| GetRepo_ (name : string) | DeleteRepo_ (name : string)
(* files *)
| Tree (name : string) | Archive (name : string) | Branches (name : string) | Diff (name : string)
| Commit_ (name : string) | Chain_ (name : string) | CommitIssues (name sequence : string)
| GetCommit_ (name sequence : string) | File_ (name path : string)
(* branches *)
| CreateBranch_ (name : string) | Merge_ (name : string) | Rebase_ (name : string)
| EnableAutoMerge (name bname : string) | DisableAutoMerge (name bname : string)
| DeleteBranch_ (name bname : string) | UpdateBranch (name bname : string)
| BranchStatus (name bname : string) | AgentContext (name bname : string)
| BranchGet (name branch : string)
(* reviews and checks *)
| Review_ (name : string) | Check_ (name : string) | RetryChecks_ (name : string)
| CreateReviewComment_ (name : string) | DeleteReviewComment_ (name commentID : string)
(* administration *)
| Purge_ (name : string) | ListRoles_ (name : string) | SetRole_ (name identity : string)
| DeleteRole_ (name identity : string)
(* releases, events *)
| ListReleases_ (name : string) | CreateRelease_ (name : string) | GetRelease_ (name release : string)
| DeleteRelease_ (name release : string) | RepoEvents (name : string)
(* proposals *)
| CreateProposal_ (name : string) | ListProposals_ (name : string)
| CloseProposal_ (name proposalID : string) | ProposalIssues (name proposalID : string)
| GetProposal_ (name proposalID : string) | UpdateProposal_ (name proposalID : string)
(* issues *)
| ListIssues_ (name : string) | CreateIssue_ (name : string) | GetIssue_ (name number : string)
| UpdateIssue_ (name number : string) | CloseIssue_ (name number : string)
| ReopenIssue_ (name number : string) | ListIssueComments_ (name number : string)
| CreateIssueComment_ (name number : string) | ListIssueRefs_ (name number : string)
| AddIssueRef (name number : string) | UpdateIssueComment_ (name number commentID : string)
| DeleteIssueComment_ (name number commentID : string)
(* CI *)
| ListCIJobs_ (name : string) | CIJobLogs (name id check : string) | TriggerCIRun (name : string)
(* secrets *)
| ListSecrets (name : string) | SetSecret (name secname : string) | DeleteSecret_ (name secname : string)
(* requests with a credential of their own *)
| ArchivePresign (name : string) | PresignedArchive (name : string)
| CheckLogs (name checkName : string) | CIConfig (name : string) | CICheck (name : string)
| RevealSecrets (name : string)
(* outside "/repos/" *)
| Mux (method path : string).

(** What a request ends in: an error status, or a handler. *)
Inductive answer (A : Type) := Status (code : Z) | Handle (a : A).
Arguments Status {_} _.
Arguments Handle {_} _.

Definition NotFound {A} : answer A := Status 404.
Definition MethodNotAllowed {A} : answer A := Status 405.

(** The [switch r.Method] of an endpoint: its methods with their handlers. *)
Fixpoint by_method (method : string) (l : list (string * Route)) : answer Route :=
  match l with
  | [] => MethodNotAllowed
  | (m, h) :: l => if bool_decide (method = m) then Handle h else by_method method l
  end.

(** The case "branch/" *)
Definition branch_endpoint (method name bpath : string) : answer Route :=
  match CutSuffix bpath "/auto-merge" with
  | Some b => by_method method [("POST", EnableAutoMerge name b); ("DELETE", DisableAutoMerge name b)]
  | None =>
      by_method method
        [("DELETE", DeleteBranch_ name bpath); ("PATCH", UpdateBranch name bpath);
         ("GET",
           match CutSuffix bpath "/status" with
           | Some b => BranchStatus name b
           | None =>
               match CutSuffix bpath "/agent-context" with
               | Some b => AgentContext name b
               | None => BranchGet name bpath
               end
           end)]
  end.

(** The case "proposals/" *)
Definition proposals_endpoint (method name rest : string) : answer Route :=
  match CutSuffix rest "/close" with
  | Some id => by_method method [("POST", CloseProposal_ name id)]
  | None =>
      match CutSuffix rest "/issues" with
      | Some id => by_method method [("GET", ProposalIssues name id)]
      | None => by_method method [("GET", GetProposal_ name rest); ("PATCH", UpdateProposal_ name rest)]
      end
  end.

(** The case "issues/" *)
Definition issues_endpoint (method name rest : string) : answer Route :=
  match split3 rest with
  | [n] => by_method method [("GET", GetIssue_ name n); ("PATCH", UpdateIssue_ name n)]
  | [n; p] =>
      if bool_decide (p = "close") then by_method method [("POST", CloseIssue_ name n)] else
      if bool_decide (p = "reopen") then by_method method [("POST", ReopenIssue_ name n)] else
      if bool_decide (p = "comments") then
        by_method method [("GET", ListIssueComments_ name n); ("POST", CreateIssueComment_ name n)] else
      if bool_decide (p = "refs") then
        by_method method [("GET", ListIssueRefs_ name n); ("POST", AddIssueRef name n)] else
      NotFound
  | [n; p; id] =>
      if bool_decide (p = "comments") then
        by_method method [("PATCH", UpdateIssueComment_ name n id); ("DELETE", DeleteIssueComment_ name n id)]
      else NotFound
  | _ => NotFound
  end.

(** The [switch] of [handleReposPrefix]. *)
Definition dispatch (method name endpoint : string) : answer Route :=
  let at_ p := bool_decide (endpoint = p) in
  let under p := HasPrefix endpoint p in
  let rest p := TrimPrefix endpoint p in
  if at_ "" then by_method method [("GET", GetRepo_ name); ("DELETE", DeleteRepo_ name)] else
  if at_ "tree" then by_method method [("GET", Tree name)] else
  if at_ "archive" then by_method method [("GET", Archive name)] else
  if at_ "branches" then by_method method [("GET", Branches name)] else
  if at_ "diff" then by_method method [("GET", Diff name)] else
  if at_ "commit" then by_method method [("POST", Commit_ name)] else
  if at_ "branch" then by_method method [("POST", CreateBranch_ name)] else
  if at_ "merge" then by_method method [("POST", Merge_ name)] else
  if at_ "rebase" then by_method method [("POST", Rebase_ name)] else
  if at_ "review" then by_method method [("POST", Review_ name)] else
  if at_ "check" then by_method method [("POST", Check_ name)] else
  if at_ "checks/retry" then by_method method [("POST", RetryChecks_ name)] else
  if at_ "comment" then by_method method [("POST", CreateReviewComment_ name)] else
  if under "comment/" then by_method method [("DELETE", DeleteReviewComment_ name (rest "comment/"))] else
  if at_ "purge" then by_method method [("POST", Purge_ name)] else
  if at_ "roles" then by_method method [("GET", ListRoles_ name)] else
  if at_ "chain" then by_method method [("GET", Chain_ name)] else
  if at_ "releases" then by_method method [("GET", ListReleases_ name); ("POST", CreateRelease_ name)] else
  if under "releases/" then
    by_method method [("GET", GetRelease_ name (rest "releases/"));
                      ("DELETE", DeleteRelease_ name (rest "releases/"))] else
  if under "commit/" then
    match CutSuffix (rest "commit/") "/issues" with
    | Some seq => by_method method [("GET", CommitIssues name seq)]
    | None => by_method method [("GET", GetCommit_ name (rest "commit/"))]
    end else
  if under "file/" then by_method method [("GET", File_ name (rest "file/"))] else
  if under "roles/" then
    by_method method [("PUT", SetRole_ name (rest "roles/")); ("DELETE", DeleteRole_ name (rest "roles/"))] else
  if under "branch/" then branch_endpoint method name (rest "branch/") else
  if at_ "events" then by_method method [("GET", RepoEvents name)] else
  if at_ "proposals" then
    by_method method [("POST", CreateProposal_ name); ("GET", ListProposals_ name)] else
  if under "proposals/" then proposals_endpoint method name (rest "proposals/") else
  if at_ "issues" then by_method method [("GET", ListIssues_ name); ("POST", CreateIssue_ name)] else
  if under "issues/" then issues_endpoint method name (rest "issues/") else
  if at_ "ci-jobs" then by_method method [("GET", ListCIJobs_ name)] else
  if under "ci-jobs/" && Contains endpoint "/logs/" then
    match Cut (rest "ci-jobs/") "/logs/" with
    | Some (id, check) => by_method method [("GET", CIJobLogs name id check)]
    | None => NotFound
    end else
  if at_ "ci/run" then by_method method [("POST", TriggerCIRun name)] else
  if at_ "secrets" then by_method method [("GET", ListSecrets name)] else
  if under "secrets/" then
    by_method method [("PUT", SetSecret name (rest "secrets/")); ("DELETE", DeleteSecret_ name (rest "secrets/"))] else
  NotFound.

(** [handleReposPrefix] *)
Definition handleReposPrefix (method path : string) : answer Route :=
  match parseRepoPath path with
  | None => NotFound
  | Some (repoName, endpoint) =>
      if bool_decide (repoName = "") then NotFound else dispatch method repoName endpoint
  end.

(** The inner mux: "/repos/" goes to [handleReposPrefix]. *)
Definition inner (method path : string) : answer Route :=
  if HasPrefix path "/repos/" then handleReposPrefix method path else Handle (Mux method path).

(** ** Requests *)

(** What the chain of handlers looks at: the header Authorization, the e-mail of
    a valid session cookie, and whether the client accepts HTML and the query
    has a parameter sig. *)
Record Request := mkRequest {
  rq_Method : string; rq_Path : string; rq_Authorization : string;
  rq_Session : option string; rq_AcceptsHTML : bool; rq_Sig : bool;
}.

(** [type JobIdentity struct] *)
Record JobIdentity := mkJobIdentity {
  ji_JobID : string; ji_Repo : string; ji_Branch : string; ji_Subject : string;
  ji_Permissions : list string;
}.

(** Validation of ID tokens of users and of tokens of CI jobs. *)
Class Tokens := {
  validateGoogleIDToken : string → result string;
  validateJobOIDCToken : string → result JobIdentity;
}.

(** [type server struct], as far as routing looks at it.  [sv_oidc]: the key
    cache for job tokens is there; [sv_jobTokens]: the job token store is. *)
Record ServerConfig := mkServerConfig {
  sv_devIdentity : string; sv_bootstrapAdmin : string; sv_sessions : bool;
  sv_oidc : bool; sv_jobTokens : bool;
}.

(** The values of the context a handler is called with. *)
Record Ctx := mkCtx {
  cx_identity : string; cx_role : option role_type; cx_job : option JobIdentity;
}.

(** The bearer token, when the header carries one. *)
Definition bearer (auth : string) : option string :=
  let tok := TrimPrefix auth "Bearer " in
  if bool_decide (tok = "") || bool_decide (tok = auth) then None else Some tok.

Section Server.
Context {Tk : Tokens}.

(** [RBACMiddleware] *)
Definition RBACMiddleware (bootstrapAdmin identity : string) (r : Request) : M (answer (Ctx * Route)) :=
  let next role :=
    match inner (rq_Method r) (rq_Path r) with
    | Handle h => Handle (mkCtx identity role None, h)
    | Status n => Status n
    end in
  let '(repo, subPath) := repoAndSubPath (rq_Path r) in
  if bool_decide (repo = "") || bool_decide (subPath = "") then mret (next None) else
  hasAdmin ←
    (if bool_decide (bootstrapAdmin ≠ "") && bool_decide (identity = bootstrapAdmin)
     then catch (HasAdmin repo) else mret (Ok true));
  match hasAdmin with
  | Ok false => mret (next (Some Admin))
  | _ =>
      role ← catch (GetRole repo identity);
      match role with
      | Fail _ => mret (Status 403)
      | Ok role =>
          if negb (roleAllows (role_Role role) (rq_Method r) subPath) then mret (Status 403)
          else mret (next (Some (role_Role role)))
      end
  end.

(** [newGoogleAuthMiddleware]: the identity of the user, or what is answered. *)
Definition GoogleAuth (sv : ServerConfig) (r : Request) : answer string :=
  if bool_decide (sv_devIdentity sv ≠ "") then Handle (sv_devIdentity sv) else
  match bearer (rq_Authorization r) with
  | Some tok =>
      match validateGoogleIDToken tok with Ok email => Handle email | Fail _ => Status 401 end
  | None =>
      match (if sv_sessions sv then rq_Session r else None) with
      | Some email => Handle email
      | None => if rq_AcceptsHTML r then Status 302 else Status 401
      end
  end.

(** [jobRequiredPermission] *)
Definition jobRequiredPermission (endpoint : string) : string :=
  let at_ p := bool_decide (endpoint = p) in
  let under p := HasPrefix endpoint p in
  if at_ "check" then "checks" else
  if at_ "commit" || at_ "merge" || at_ "rebase" || at_ "purge" then "contents" else
  if at_ "branch" || under "branch/" then "contents" else
  if at_ "review" then "proposals" else
  if at_ "comment" || under "comment/" then "proposals" else
  if at_ "proposals" || under "proposals/" then "proposals" else
  if at_ "issues" || under "issues/" then "issues" else
  if at_ "releases" || under "releases/" then "releases" else
  if at_ "ci/run" then "ci" else "".

(** [jobEndpointAllowed] *)
Definition jobEndpointAllowed (endpoint : string) (permissions : list string) : bool :=
  let required := jobRequiredPermission endpoint in
  if bool_decide (required = "") then false
  else if bool_decide (required = "checks") then true
  else bool_decide (required ∈ permissions).

(** The requests that bring a credential of their own. *)
Definition intercepted (sv : ServerConfig) (r : Request) (name endpoint : string) : option Route :=
  let verb m := bool_decide (rq_Method r = m) in
  let at_ p := bool_decide (endpoint = p) in
  if at_ "archive/presign" && verb "POST" then Some (ArchivePresign name) else
  if at_ "archive" && verb "GET" && rq_Sig r then Some (PresignedArchive name) else
  let checkName := default (TrimPrefix endpoint "check/") (CutSuffix (TrimPrefix endpoint "check/") "/logs") in
  if verb "POST" && HasPrefix endpoint "check/" && HasSuffix endpoint "/logs" && bool_decide (checkName ≠ "")
  then Some (CheckLogs name checkName) else
  if at_ "ci/config" && verb "GET" then Some (CIConfig name) else
  if at_ "check" && verb "POST" && sv_jobTokens sv then Some (CICheck name) else
  if at_ "secrets/reveal" && verb "POST" && sv_jobTokens sv then Some (RevealSecrets name) else
  None.

(** A request with the token of a job. *)
Definition job_request (job : JobIdentity) (r : Request) : answer (Ctx * Route) :=
  let go :=
    match inner (rq_Method r) (rq_Path r) with
    | Handle h => Handle (mkCtx ("ci-job:" +:+ ji_JobID job) None (Some job), h)
    | Status n => Status n
    end in
  if bool_decide (rq_Method r = "GET") || bool_decide (rq_Method r = "HEAD") then go else
  match parseRepoPath (rq_Path r) with
  | None => Status 403
  | Some (urlRepo, endpoint) =>
      if bool_decide (urlRepo = "") then Status 403 else
      if bool_decide (ji_Repo job ≠ urlRepo) then Status 403 else
      if negb (jobEndpointAllowed endpoint (ji_Permissions job)) then Status 403 else go
  end.

(** The handler "/" of the outer mux in [buildHandler]. *)
Definition serve (sv : ServerConfig) (r : Request) : M (answer (Ctx * Route)) :=
  let intercept :=
    match parseRepoPath (rq_Path r) with
    | Some (name, endpoint) =>
        if bool_decide (name = "") then None else intercepted sv r name endpoint
    | None => None
    end in
  match intercept with
  | Some h => mret (Handle (mkCtx "" None None, h))
  | None =>
      match (if sv_oidc sv then bearer (rq_Authorization r) else None) with
      | Some tok =>
          match validateJobOIDCToken tok with
          | Fail _ => mret (Status 401)
          | Ok job => mret (job_request job r)
          end
      | None =>
          match GoogleAuth sv r with
          | Status n => mret (Status n)
          | Handle who => RBACMiddleware (sv_bootstrapAdmin sv) who r
          end
      end
  end.
End Server.
