(* ===== verification/Policy.v ===== *)
(** * Merge policies (internal/policy, internal/merge)

    The policies of a repository are the Rego modules and the OWNERS files of
    its main branch.  [Cache] keeps them per repository, compiled, until it is
    invalidated; [EvaluatePolicy] assembles what the policies look at and
    returns the ones that deny a merge.  The Open Policy Agent itself is a
    parameter: parsing, preparing and evaluating a query.  Its timeout is left
    out, and error texts write a name that the code quotes ([%q]) as it is. *)

From Stdlib Require Import Ascii.
From S2P Require Import Prelude GoStd Schema Tx Orgs Blob Merge ReadStore Reviews Issues EventTypes Events.

(** ** OWNERS files (owners.go) *)

(** [parseOwnersFile] *)
Definition parseOwnersFile (content : string) : list string :=
  filter (λ line, line ≠ "" ∧ HasPrefix line "#" = false) (TrimSpace <$> ScanLines content).

Definition owners_map : Type := gmap string (list string).

(** One file of the loop of [ParseOwners]. *)
Definition add_owners (owners : owners_map) (file : string * string) : owners_map :=
  let '(filePath, content) := file in
  if bool_decide (path_Base filePath ≠ "OWNERS") then owners else
  let dir := if bool_decide (path_Dir filePath = ".") then "" else path_Dir filePath in
  match parseOwnersFile content with
  | [] => owners
  | ids => <[dir := ids]> owners
  end.

(** The length of the match of a key, when it matches. *)
Definition match_len (filePath k : string) : option Z :=
  if bool_decide (k = "") then Some 0
  else if HasPrefix filePath (k +:+ "/") then Some (Z.of_nat (String.length k)) else None.

(** [bestKey], [bestMatchLen] *)
Definition resolve_step (filePath : string) (best : string * Z) (k : string) : string * Z :=
  match match_len filePath k with
  | Some n => if best.2 <? n then (k, n) else best
  | None => best
  end.

Section Owners.
Context `{MapRange}.

Definition ParseOwners (files : gmap string string) : owners_map :=
  foldl add_owners ∅ (map_range 10 files).

Definition ResolveOwners (ownersMap : owners_map) (filePath : string) : option (list string) :=
  let '(bestKey, bestMatchLen) :=
    foldl (resolve_step filePath) ("", -1) (fst <$> map_range 11 ownersMap) in
  if bestMatchLen <? 0 then None else ownersMap !! bestKey.
End Owners.

(** ** The engine (engine.go) *)

(** [type ReviewInput struct], [type CheckRunInput struct], [type ProposalInput struct] *)
Record ReviewInput := mkReviewInput { ri_Reviewer : string; ri_Status : string; ri_Sequence : Z }.
Record CheckRunInput := mkCheckRunInput {
  ci_CheckName : string; ci_Status : string; ci_Sequence : Z;
}.
Record ProposalInput := mkProposalInput {
  pi_ID : string; pi_BaseBranch : string; pi_Title : string; pi_State : string;
}.

(** [type Input struct] *)
Record Input := mkInput {
  in_Actor : string; in_ActorRoles : list string; in_Action : string; in_Repo : string;
  in_Branch : string; in_Draft : bool; in_ChangedPaths : list string;
  in_Reviews : list ReviewInput; in_CheckRuns : list CheckRunInput;
  in_Owners : gmap string (option (list string)); in_HeadSeq : Z; in_BaseSeq : Z;
  in_Proposal : option ProposalInput;
}.

(** The Open Policy Agent: [ast.ParseModule] and the path of the package, a
    query prepared against a module, and its evaluation: the values of the
    expressions of each result. *)
Class OPA := {
  PreparedEvalQuery : Type;
  opa_ParseModule : string → string → result string;
  opa_PrepareForEval : string → string → string → result PreparedEvalQuery;
  opa_Eval : PreparedEvalQuery → Input → result (list (list json));
}.

(** [nameFromPackagePath]: what follows the last dot, unless nothing does. *)
Fixpoint after_last_dot (s : string) : option string :=
  match s with
  | EmptyString => None
  | String c s' =>
      match after_last_dot s' with
      | Some t => Some t
      | None => if bool_decide (c = "."%char) then Some s' else None
      end
  end.

Definition nameFromPackagePath (pkgPath : string) : string :=
  match after_last_dot pkgPath with
  | None | Some EmptyString => pkgPath
  | Some name => name
  end.

(** Results without the world. *)
Definition rbind {A B} (r : result A) (f : A → result B) : result B :=
  match r with Ok a => f a | Fail e => Fail e end.
Definition rwrap {A} (text : string) (r : result A) : result A :=
  match r with Ok a => Ok a | Fail e => Fail (Errorf text e) end.
Fixpoint rmapM {A B} (f : A → result B) (l : list A) : result (list B) :=
  match l with
  | [] => Ok []
  | a :: l => rbind (f a) (λ b, rbind (rmapM f l) (λ bs, Ok (b :: bs)))
  end.

Section Engine.
Context `{MapRange} `{OPA}.

Record preparedPolicy := mkPrepared {
  pp_name : string; pp_allowPQ : PreparedEvalQuery; pp_reasonPQ : PreparedEvalQuery;
}.

(** [type Engine struct] *)
Definition Engine : Type := list preparedPolicy.

Definition prepare_module (m : string * string) : result preparedPolicy :=
  let '(filename, src) := m in
  rbind (rwrap ("parse policy " +:+ filename) (opa_ParseModule filename src)) (λ pkgPath,
  let name := nameFromPackagePath pkgPath in
  rbind (rwrap ("compile policy " +:+ name +:+ " (allow)")
           (opa_PrepareForEval (pkgPath +:+ ".allow") filename src)) (λ allowPQ,
  rbind (rwrap ("compile policy " +:+ name +:+ " (reason)")
           (opa_PrepareForEval (pkgPath +:+ ".reason") filename src)) (λ reasonPQ,
  Ok (mkPrepared name allowPQ reasonPQ)))).

(** No modules, no engine. *)
Definition NewEngine (modules : gmap string string) : result (option Engine) :=
  if bool_decide (modules = ∅) then Ok None
  else rbind (rmapM prepare_module (map_range 12 modules)) (λ queries, Ok (Some queries)).

(** The value of the first expression of the first result. *)
Definition first_value (rs : list (list json)) : option json := head rs ≫= head.

Definition evalPrepared (p : preparedPolicy) (input : Input) : result PolicyResult :=
  rbind (rwrap "allow eval" (opa_Eval (pp_allowPQ p) input)) (λ allowRs,
  if match first_value allowRs with Some (JBool true) => true | _ => false end
  then Ok (mkPolicyResult (pp_name p) true "") else
  rbind (rwrap "reason eval" (opa_Eval (pp_reasonPQ p) input)) (λ reasonRs,
  let reason :=
    match first_value reasonRs with
    | Some (JString r) => if bool_decide (r = "") then "policy denied" else r
    | _ => "policy denied"
    end in
  Ok (mkPolicyResult (pp_name p) false reason))).

Definition Evaluate (e : Engine) (input : Input) : result (list PolicyResult) :=
  rmapM (λ p, rwrap ("evaluate policy " +:+ pp_name p) (evalPrepared p input)) e.

(** ** The cache (cache.go) *)

(** [type cacheEntry struct] *)
Record cacheEntry := mkCacheEntry { ce_engine : option Engine; ce_owners : owners_map }.

(** [type Cache struct]: the loaded repositories, each with its entry, nil in
    bootstrap mode. *)
Definition Cache : Type := gmap string (option cacheEntry).

Definition NewCache : Cache := ∅.
Definition Invalidate (repo : string) (c : Cache) : Cache := delete repo c.

(** What acts on the cache and the store: an error leaves what was done. *)
Definition PM (A : Type) : Type := Cache → World → Cache * World * result A.
#[export] Instance PM_ret : MRet PM := λ A a c w, (c, w, Ok a).
#[export] Instance PM_bind : MBind PM := λ A B f m c w,
  match m c w with
  | (c', w', Ok a) => f a c' w'
  | (c', w', Fail e) => (c', w', Fail e)
  end.
Definition lift {A} (m : M A) : PM A := λ c w, let '(w', r) := m w in (c, w', r).
Definition of_result {A} (r : result A) : PM A := λ c w, (c, w, r).
Definition invalidate (repo : string) : PM unit := λ c w, (Invalidate repo c, w, Ok tt).
Definition pwrap {A} (text : string) (m : PM A) : PM A := λ c w,
  match m c w with (c', w', Fail e) => (c', w', Fail (Errorf text e)) | r => r end.
Definition pcatch {A} (m : PM A) : PM (result A) := λ c w,
  let '(c', w', r) := m c w in (c', w', Ok r).

Context `{Collation}.
Variable blobStore : option BlobStore.

Definition content_string (fc : FileContent) : string := default "" (fl_Content fc).

(** ** Loading (cache.go) *)

Definition policyDir : string := ".docstore/policy/".

(** The loop over the entries: it ends at the first entry outside the directory. *)
Fixpoint load_modules (repo : string) (entries : list TreeEntry) (modules : gmap string string)
    : M (gmap string string) :=
  match entries with
  | [] => mret modules
  | e :: entries =>
      if negb (HasPrefix (te_Path e) policyDir) then mret modules
      else if negb (HasSuffix (te_Path e) ".rego") then load_modules repo entries modules
      else
        fc ← wrap ("read " +:+ te_Path e) (GetFile blobStore repo "main" (te_Path e) None);
        load_modules repo entries
          (match fc with Some fc => <[te_Path e := content_string fc]> modules | None => modules end)
  end.

Definition loadPolicyModules (repo : string) : M (gmap string string) :=
  entries ← MaterializeTree repo "main" None 100 ".docstore/policy";
  load_modules repo entries ∅.

Definition is_owners (p : string) : bool := bool_decide (p = "OWNERS") || HasSuffix p "/OWNERS".

(** One page: the OWNERS files among its entries. *)
Fixpoint load_owners_page (repo : string) (entries : list TreeEntry) (files : gmap string string)
    : M (gmap string string) :=
  match entries with
  | [] => mret files
  | e :: entries =>
      if is_owners (te_Path e) then
        fc ← wrap ("read OWNERS " +:+ te_Path e) (GetFile blobStore repo "main" (te_Path e) None);
        load_owners_page repo entries
          (match fc with Some fc => <[te_Path e := content_string fc]> files | None => files end)
      else load_owners_page repo entries files
  end.

Definition out_of_fuel : error := New "out of fuel".

(** The loop over the pages, with fuel for the number of pages. *)
Fixpoint load_owners (fuel : nat) (repo afterPath : string) (files : gmap string string)
    : M (gmap string string) :=
  match fuel with
  | O => fail out_of_fuel
  | S fuel =>
      entries ← MaterializeTree repo "main" None 200 afterPath;
      match last entries with
      | None => mret files
      | Some e =>
          files ← load_owners_page repo entries files;
          if (length entries <? 200)%nat then mret files
          else load_owners fuel repo (te_Path e) files
      end
  end.

(** Each full page takes 200 of the rows of the tree. *)
Definition loadOwnerFiles (repo : string) : M (gmap string string) :=
  n ← gets (λ w, length (db_file_commits (w_db w)));
  load_owners (S n) repo "" ∅.

(** No modules and no OWNERS files: bootstrap mode. *)
Definition loadEntry (repo : string) : M (option cacheEntry) :=
  modules ← wrap "load policy modules" (loadPolicyModules repo);
  ownerFiles ← wrap "load OWNERS files" (loadOwnerFiles repo);
  if bool_decide (modules = ∅) && bool_decide (ownerFiles = ∅) then mret None else
  match NewEngine modules with
  | Fail e => fail (Errorf "compile policies" e)
  | Ok engine => mret (Some (mkCacheEntry engine (ParseOwners ownerFiles)))
  end.

Definition entry_value (e : option cacheEntry) : option Engine * owners_map :=
  match e with None => (None, ∅) | Some e => (ce_engine e, ce_owners e) end.

(** [Load] holds the lock while it looks into the cache, and again while it
    writes to it, but not in between: [load_lookup] and [load_store] are the
    atomic parts. *)
Definition load_lookup (repo : string) (c : Cache) : option (option cacheEntry) := c !! repo.
Definition load_store (repo : string) (e : option cacheEntry) (c : Cache) : Cache := <[repo := e]> c.

Definition Load (repo : string) : PM (option Engine * owners_map) := λ c w,
  match load_lookup repo c with
  | Some entry => (c, w, Ok (entry_value entry))
  | None =>
      match loadEntry repo w with
      | (w', Fail e) => (c, w', Fail e)
      | (w', Ok entry) => (load_store repo entry c, w', Ok (entry_value entry))
      end
  end.

(** ** The input of the policies (internal/merge/policy.go) *)

Definition review_status_text (s : review_status) : string :=
  match s with Approved => "approved" | Rejected => "rejected" | Dismissed => "dismissed" end.
Definition check_status_text (s : check_status) : string :=
  match s with CheckPending => "pending" | CheckPassed => "passed" | CheckFailed => "failed" end.
Definition proposal_state_text (s : proposal_state) : string :=
  match s with
  | Schema.ProposalOpen => "open" | Schema.ProposalClosed => "closed" | Schema.ProposalMerged => "merged"
  end.
Definition role_text (r : role_type) : string :=
  match r with Reader => "reader" | Writer => "writer" | Maintainer => "maintainer" | Admin => "admin" end.

Definition AssembleInput (repo branch actor : string) (owners : owners_map) : M (option Input) :=
  branchInfo ← wrap "get branch info" (GetBranch repo branch);
  match branchInfo with
  | None => mret None
  | Some branchInfo =>
      diff ← wrap "get diff" (GetDiff repo branch);
      let changedPaths := match diff with Some d => de_Path <$> df_BranchChanges d | None => [] end in
      reviews ← wrap "list reviews" (ListReviews repo branch (Some (bi_HeadSequence branchInfo)));
      checkRuns ← wrap "list check runs"
        (ListCheckRuns repo branch (Some (bi_HeadSequence branchInfo)) false);
      proposals ← wrap "list proposals" (ListProposals repo (Some ProposalOpen) (Some branch));
      let proposalInput :=
        (λ p, mkProposalInput (Prop_ID p) (Prop_BaseBranch p) (Prop_Title p)
                (proposal_state_text (Prop_State p))) <$> head proposals in
      role ← catch (GetRole repo actor);
      let actorRoles := match role with Ok r => [role_text (role_Role r)] | Fail _ => [] end in
      mret (Some (mkInput actor actorRoles "merge" repo branch (bi_Draft branchInfo) changedPaths
        ((λ r, mkReviewInput (Review_Reviewer r) (review_status_text (Review_Status r))
                 (Review_Sequence r)) <$> reviews)
        ((λ r, mkCheckRunInput (Check_CheckName r) (check_status_text (Check_Status r))
                 (Check_Sequence r)) <$> checkRuns)
        (foldl (λ m p, <[p := ResolveOwners owners p]> m) ∅ changedPaths)
        (bi_HeadSequence branchInfo) (bi_BaseSequence branchInfo) proposalInput))
  end.

(** The denials, nil when there is none.  [configured]: both the cache and the
    read store are there. *)
Definition EvaluatePolicy (configured : bool) (repo branch actor : string) : PM (list PolicyResult) :=
  if negb configured then mret [] else
  '(engine, owners) ← Load repo;
  match engine with
  | None => mret []
  | Some engine =>
      input ← lift (AssembleInput repo branch actor owners);
      match input with
      | None => mret []
      | Some input =>
          results ← pwrap "evaluate policies" (of_result (Evaluate engine input));
          mret (filter (λ r, pr_Pass r = false) results)
      end
  end.

(** [computeBranchStatus] (internal/server/handlers_branches.go) *)
Definition computeBranchStatus (repo branch actor : string) : PM (option BranchStatusResponse) :=
  '(engine, owners) ← Load repo;
  branchInfo ← lift (GetBranch repo branch);
  match branchInfo with
  | None => mret None
  | Some branchInfo =>
      match engine with
      | None => mret (Some (mkBranchStatusResponse true [] (bi_AutoMerge branchInfo)))
      | Some engine =>
          input ← lift (AssembleInput repo branch actor owners);
          match input with
          | None => mret None
          | Some input =>
              results ← of_result (Evaluate engine input);
              mret (Some (mkBranchStatusResponse (forallb pr_Pass results) results
                            (bi_AutoMerge branchInfo)))
          end
      end
  end.
End Engine.
