(* ===== verification/System.v ===== *)
(** * The store as a whole

    [store_step] is one call of a method of [Store] (internal/db) by some
    client, with any arguments and whatever its outcome, an event the broker
    emits, a pass of the dispatcher of events, a UUID drawn elsewhere in the
    program, or the passage of time;
    [reachable] are the worlds such steps lead to from an empty database.  Calls
    are atomic: each is one statement or one transaction that locks the rows it
    reads before writing, or a sequence of them that a client could have made. *)

From S2P Require Import Prelude Schema Tx Integrity Orgs Blob Commits Merge Reviews Purge Releases GoStd Issues.
From S2P Require Import CIJobs EventTypes Events Samples.

Section System.
Context {Co : Collation} {Us : UuidSource} {Mr : MapRange} {Jt : JsonbText} {Http : HTTPClient}.

Inductive store_step : World → World → Prop :=
| step_time w t : w_now w ≤ t →
    store_step w (mkWorld (w_db w) (w_commit_seq w) (w_event_seq w) (w_uuids w) (w_blobs w) t)
| step_uuid_New w : store_step w (exec uuid_New w)
| step_CreateOrg name createdBy w : store_step w (exec (CreateOrg name createdBy) w)
| step_GetOrg name w : store_step w (exec (GetOrg name) w)
| step_ListOrgs w : store_step w (exec ListOrgs w)
| step_DeleteOrg name w : store_step w (exec (DeleteOrg name) w)
| step_ListOrgRepos owner w : store_step w (exec (ListOrgRepos owner) w)
| step_CreateRepo req w : store_step w (exec (CreateRepo req) w)
| step_DeleteRepo name w : store_step w (exec (DeleteRepo name) w)
| step_ListRepos w : store_step w (exec ListRepos w)
| step_GetRepo name w : store_step w (exec (GetRepo name) w)
| step_GetRole repo identity w : store_step w (exec (GetRole repo identity) w)
| step_SetRole repo identity role w : store_step w (exec (SetRole repo identity role) w)
| step_DeleteRole repo identity w : store_step w (exec (DeleteRole repo identity) w)
| step_ListRoles repo w : store_step w (exec (ListRoles repo) w)
| step_ListRolesByIdentity identity w : store_step w (exec (ListRolesByIdentity identity) w)
| step_HasAdmin repo w : store_step w (exec (HasAdmin repo) w)
| step_GetOrgMember org identity w : store_step w (exec (GetOrgMember org identity) w)
| step_AddOrgMember org identity role invitedBy w : store_step w (exec (AddOrgMember org identity role invitedBy) w)
| step_RemoveOrgMember org identity w : store_step w (exec (RemoveOrgMember org identity) w)
| step_ListOrgMembers org w : store_step w (exec (ListOrgMembers org) w)
| step_ListOrgMemberships identity w : store_step w (exec (ListOrgMemberships identity) w)
| step_CreateInvite org email role invitedBy token expiresAt w : store_step w (exec (CreateInvite org email role invitedBy token expiresAt) w)
| step_ListInvites org w : store_step w (exec (ListInvites org) w)
| step_GetInviteByToken org token w : store_step w (exec (GetInviteByToken org token) w)
| step_AcceptInvite org token identity w : store_step w (exec (AcceptInvite org token identity) w)
| step_RevokeInvite org inviteID w : store_step w (exec (RevokeInvite org inviteID) w)
| step_Commit s req w : store_step w (exec (Commit s req) w)
| step_CreateBranch req w : store_step w (exec (CreateBranch req) w)
| step_UpdateBranchDraft repo name draft w : store_step w (exec (UpdateBranchDraft repo name draft) w)
| step_SetBranchAutoMerge repo name autoMerge w : store_step w (exec (SetBranchAutoMerge repo name autoMerge) w)
| step_DeleteBranch repo name w : store_step w (exec (DeleteBranch repo name) w)
| step_Merge req w : store_step w (exec (Merge req) w)
| step_Rebase req w : store_step w (exec (Rebase req) w)
| step_Purge s req w : store_step w (exec (Purge s req) w)
| step_CreateReview repo branch reviewer status body w : store_step w (exec (CreateReview repo branch reviewer status body) w)
| step_ListReviews repo branch atSeq w : store_step w (exec (ListReviews repo branch atSeq) w)
| step_CreateReviewComment repo branch path versionID body author reviewID w : store_step w (exec (CreateReviewComment repo branch path versionID body author reviewID) w)
| step_ListReviewComments repo branch path w : store_step w (exec (ListReviewComments repo branch path) w)
| step_GetReviewComment repo id w : store_step w (exec (GetReviewComment repo id) w)
| step_DeleteReviewComment repo id w : store_step w (exec (DeleteReviewComment repo id) w)
| step_CreateCheckRun repo branch checkName status reporter logURL atSequence attempt metadata w : store_step w (exec (CreateCheckRun repo branch checkName status reporter logURL atSequence attempt metadata) w)
| step_RetryChecks repo branch seq checks w : store_step w (exec (RetryChecks repo branch seq checks) w)
| step_ListCheckRuns repo branch atSeq history w : store_step w (exec (ListCheckRuns repo branch atSeq history) w)
| step_CreateRelease repo name sequence body createdBy w : store_step w (exec (CreateRelease repo name sequence body createdBy) w)
| step_GetRelease repo name w : store_step w (exec (GetRelease repo name) w)
| step_ListReleases repo limit afterID w : store_step w (exec (ListReleases repo limit afterID) w)
| step_DeleteRelease repo name w : store_step w (exec (DeleteRelease repo name) w)
| step_CommitSequenceExists repo sequence w : store_step w (exec (CommitSequenceExists repo sequence) w)
| step_CreateSubscription req w : store_step w (exec (CreateSubscription req) w)
| step_GetSubscription id w : store_step w (exec (GetSubscription id) w)
| step_ListSubscriptions w : store_step w (exec ListSubscriptions w)
| step_ListSubscriptionsByCreator createdBy w : store_step w (exec (ListSubscriptionsByCreator createdBy) w)
| step_DeleteSubscription id w : store_step w (exec (DeleteSubscription id) w)
| step_ResumeSubscription id w : store_step w (exec (ResumeSubscription id) w)
| step_CreateProposal repo branch baseBranch title description author w : store_step w (exec (CreateProposal repo branch baseBranch title description author) w)
| step_GetProposal repo proposalID w : store_step w (exec (GetProposal repo proposalID) w)
| step_ListProposals repo state branch w : store_step w (exec (ListProposals repo state branch) w)
| step_UpdateProposal repo proposalID title description w : store_step w (exec (UpdateProposal repo proposalID title description) w)
| step_CloseProposal repo proposalID w : store_step w (exec (CloseProposal repo proposalID) w)
| step_MergeProposal repo branch w : store_step w (exec (MergeProposal repo branch) w)
| step_CreateIssue repo title body author labels w : store_step w (exec (CreateIssue repo title body author labels) w)
| step_GetIssue repo number w : store_step w (exec (GetIssue repo number) w)
| step_ListIssues repo stateFilter authorFilter labelFilter w : store_step w (exec (ListIssues repo stateFilter authorFilter labelFilter) w)
| step_UpdateIssue repo number title body labels w : store_step w (exec (UpdateIssue repo number title body labels) w)
| step_CloseIssue repo number reason closedBy w : store_step w (exec (CloseIssue repo number reason closedBy) w)
| step_ReopenIssue repo number w : store_step w (exec (ReopenIssue repo number) w)
| step_CreateIssueComment repo number body author w : store_step w (exec (CreateIssueComment repo number body author) w)
| step_GetIssueComment repo id w : store_step w (exec (GetIssueComment repo id) w)
| step_ListIssueComments repo number w : store_step w (exec (ListIssueComments repo number) w)
| step_UpdateIssueComment repo id body w : store_step w (exec (UpdateIssueComment repo id body) w)
| step_DeleteIssueComment repo id w : store_step w (exec (DeleteIssueComment repo id) w)
| step_CreateIssueRef repo number refType refID w : store_step w (exec (CreateIssueRef repo number refType refID) w)
| step_ListIssueRefs repo number w : store_step w (exec (ListIssueRefs repo number) w)
| step_ListIssuesByRef repo refType refID w : store_step w (exec (ListIssuesByRef repo refType refID) w)
| step_StoreRequestToken jobID hashedToken exp w : store_step w (exec (StoreRequestToken jobID hashedToken exp) w)
| step_LookupRequestToken hashedToken w : store_step w (exec (LookupRequestToken hashedToken) w)
| step_InsertCIJob repo branch sequence triggerType triggerBranch triggerBaseBranch triggerProposalID permissions w : store_step w (exec (InsertCIJob repo branch sequence triggerType triggerBranch triggerBaseBranch triggerProposalID permissions) w)
| step_GetCIJob id w : store_step w (exec (GetCIJob id) w)
| step_ClaimCIJob podName podIP w : store_step w (exec (ClaimCIJob podName podIP) w)
| step_HeartbeatCIJob id w : store_step w (exec (HeartbeatCIJob id) w)
| step_CompleteCIJob id status logURL errorMessage w : store_step w (exec (CompleteCIJob id status logURL errorMessage) w)
| step_ListCIJobs repo branch status limit w : store_step w (exec (ListCIJobs repo branch status limit) w)
| step_CountQueuedCIJobs w : store_step w (exec CountQueuedCIJobs w)
| step_ReapStaleCIJobs w : store_step w (exec ReapStaleCIJobs w)
| step_RecordOIDCToken jti jobID audience exp w : store_step w (exec (RecordOIDCToken jti jobID audience exp) w)
| step_SetRepoSecret i w : store_step w (exec (SetRepoSecret i) w)
| step_GetRepoSecret repo name w : store_step w (exec (GetRepoSecret repo name) w)
| step_ListRepoSecrets repo w : store_step w (exec (ListRepoSecrets repo) w)
| step_DeleteRepoSecret repo name w : store_step w (exec (DeleteRepoSecret repo name) w)
| step_TouchRepoSecretLastUsed repo name w : store_step w (exec (TouchRepoSecretLastUsed repo name) w)
| step_Emit b e w : store_step w (exec (Emit b e) w)
| step_processOutboxBatch w : store_step w (exec processOutboxBatch w)
| step_cleanupOutbox w : store_step w (exec cleanupOutbox w)
| step_cleanupEventLog w : store_step w (exec cleanupEventLog w).

Inductive reachable : World → Prop :=
| reach_init now : reachable (mkWorld empty_db 0 0 0 ∅ now)
| reach_step w w' : reachable w → store_step w w' → reachable w'.

Lemma init_wf now : wf (mkWorld empty_db 0 0 0 ∅ now).
Proof. destruct empty_world_wf as [Hd H0 Hs]. by split. Qed.

Lemma after_wf {A} (m : M A) w : preserves m → wf w → wf (exec m w).
Proof. apply preserves_wf. Qed.

Lemma reachable_ok w : reachable w → wf w.
Proof.
  induction 1 as [now|w w' _ IH Hstep]; [apply init_wf|].
  destruct Hstep; try (apply after_wf; [first [intros F; apply spec_uuid | eauto with docstore]|exact IH]).
  destruct IH as [Hd H0 Hs]. by split.
Qed.

(** Integrity of the store.  In every reachable world each table satisfies
    its CHECK, UNIQUE and FOREIGN KEY constraints, and no commit, branch head
    or branch base has a sequence beyond the last one drawn. *)
Theorem reachable_wf w : reachable w → wf w.
Proof. apply reachable_ok. Qed.

End System.

(** ** Witness *)

Lemma changed_world_reachable : reachable changed_world.
Proof.
  unfold changed_world, dev_world, main_world, repo_world.
  eapply reach_step; [|apply (step_Commit NewStore dev_commit)].
  eapply reach_step; [|apply (step_CreateBranch (mkCreateBranchRequest "o/r" "dev" false))].
  eapply reach_step; [|apply (step_Commit NewStore main_commit)].
  eapply reach_step; [|apply (step_CreateRepo (mkCreateRepoRequest "o" "r" "root"))].
  eapply reach_step; [|apply (step_CreateOrg "o" "root")]. apply reach_init.
Qed.

Lemma reachable_wf_witness : reachable changed_world ∧ wf changed_world.
Proof.
  split; [exact changed_world_reachable|].
  exact (reachable_wf changed_world changed_world_reachable).
Defined.
