(* ===== verification/TreeSpec.v ===== *)
(** * The tree and diff queries

    [tree_entries] lists, in path order, exactly the files of the [view] of the
    branch; the pages of [MaterializeTree] are its successive parts; the file
    query finds a file exactly where the tree lists one; and the conflicts
    [GetDiff] announces are those [Merge] would fail with. *)

From S2P Require Import Prelude Schema Tx Run Integrity Blob Commits Merge ReadStore Views Chain Samples.
From S2P Require Import CommitSpec MergeSpec.

Section TreeSpec.
Context {Co : Collation} {Us : UuidSource} {Mr : MapRange}.

(** Rows a branch shows come from one repository, so distinct paths per commit
    make them unambiguous. *)
Lemma visible_unambiguous d repo branch at_ :
  distinct_paths d repo → unambiguous (visible d repo branch at_).
Proof.
  intros Hu. eapply unambiguous_sub; [|exact Hu].
  intros r [Hr (b & _ & _ & _ & Hv & _)]%visible_elem. by apply list_elem_of_filter.
Qed.

(** What the tree lists. *)
Lemma tree_entries_elem d repo branch at_ after e :
  distinct_paths d repo →
  e ∈ tree_entries d repo branch at_ after ↔
  after_path after (te_Path e) ∧ view d repo branch at_ (te_Path e) = Some (te_VersionID e) ∧
  ∃ doc, doc ∈ db_documents d ∧ doc_repo doc = repo ∧ doc_version_id doc = te_VersionID e ∧
         doc_content_hash doc = te_ContentHash e.
Proof.
  intros Hu. pose proof (visible_unambiguous d repo branch at_ Hu) as Hv.
  unfold tree_entries, order_by. rewrite order_by_elem, list_elem_of_fmap. split.
  - intros ([r doc] & -> & [Ha Hin]%list_elem_of_filter).
    apply inner_join_elem in Hin as (Hr & Hd & Hver & Hrepo).
    apply (latest_rows_newest _ _ Hv) in Hr. cbn in *. split_and!; [done| |by eauto].
    unfold view. by rewrite Hr.
  - intros (Ha & Hview & doc & Hd & Hrepo & Hver & Hh). unfold view in Hview.
    destruct (newest (visible d repo branch at_) (te_Path e)) as [r|] eqn:En; [|done].
    cbn in Hview. pose proof (newest_spec _ _ _ En) as (_ & Hp & _).
    exists (r, doc). split; [destruct e; unfold tree_entry; cbn in *; congruence|].
    apply list_elem_of_filter. cbn. rewrite Hp. split; [done|]. apply inner_join_elem.
    split_and!; [|done|split; congruence]. apply (latest_rows_newest _ _ Hv). by rewrite Hp.
Qed.

Lemma tree_entries_NoDup d repo branch at_ after :
  wf_db d → NoDup (te_Path <$> tree_entries d repo branch at_ after).
Proof.
  intros Hwf. unfold tree_entries, order_by.
  rewrite (fmap_Permutation te_Path _ _ (merge_sort_Permutation (text_asc te_Path) _)).
  rewrite <- list_fmap_compose.
  apply (NoDup_fmap_filter (λ row : file_commit * document, fc_path row.1)).
  apply (inner_join_NoDup fc_path); [apply latest_rows_NoDup|]. intros r _.
  destruct (filter (doc_of repo r) (db_documents d)) as [|doc l] eqn:E; [cbn; lia|].
  assert (doc ∈ filter (doc_of repo r) (db_documents d)) as Hd by (rewrite E; by left).
  apply list_elem_of_filter in Hd as [HR Hd].
  rewrite (doc_of_unique d repo r doc Hwf Hd HR) in E. injection E as [= <-]. cbn. lia.
Qed.

(** ** Pages *)

Lemma text_asc_sorted {A} (key : A → string) l : StronglySorted (text_asc key) (order_by key l).
Proof.
  apply merge_sorted; apply _.
Qed.

(** The entries after a path are a filter of all the entries. *)
Lemma tree_entries_after d repo branch at_ after :
  wf_db d →
  tree_entries d repo branch at_ after
  = filter (λ e, after_path after (te_Path e)) (tree_entries d repo branch at_ "").
Proof.
  intros Hwf. apply (StronglySorted_unique_strong (text_asc te_Path)).
  - intros x y Hx Hy Hxy Hyx.
    assert (te_Path x = te_Path y) as Ep by (by apply (anti_symm text_le)).
    apply list_elem_of_filter in Hy as [_ Hy].
    assert (x ∈ tree_entries d repo branch at_ "") as Hx'.
    { revert Hx. unfold tree_entries, order_by. rewrite !order_by_elem.
      intros (row & -> & [_ Hrow]%list_elem_of_filter)%list_elem_of_fmap.
      apply list_elem_of_fmap_2, list_elem_of_filter. split; [by left|done]. }
    eapply (NoDup_fmap_inj te_Path); eauto using tree_entries_NoDup.
  - apply text_asc_sorted.
  - apply StronglySorted_filter, text_asc_sorted.
  - unfold tree_entries, order_by at 1. rewrite merge_sort_Permutation.
    unfold order_by. rewrite merge_sort_Permutation.
    rewrite (filter_all (λ row : file_commit * document, after_path "" (fc_path row.1)))
      by (intros ? _; by left).
    by rewrite filter_fmap.
Qed.

(** Filtering a strictly sorted list by "after its k-th key" drops k+1. *)
Lemma filter_after_drop {A} (key : A → string) (l : list A) k e :
  StronglySorted (text_asc key) l → NoDup (key <$> l) → l !! k = Some e → key e ≠ "" →
  filter (λ x, after_path (key e) (key x)) l = drop (S k) l.
Proof.
  revert k. induction l as [|x l IH]; intros k HS HN Hk Hne; [done|].
  apply StronglySorted_cons in HS as [Hx HS]. rewrite fmap_cons in HN.
  apply NoDup_cons in HN as [Hnx HN]. rewrite Forall_forall in Hx.
  destruct k as [|k]; cbn in Hk.
  - injection Hk as [= <-]. rewrite filter_cons_False; [|by intros [?|[_ ?]]].
    cbn. rewrite drop_0. apply filter_all. intros y Hy. right. split; [by apply Hx|].
    intros E. apply Hnx. rewrite <- E. by apply list_elem_of_fmap_2.
  - rewrite filter_cons_False; [by apply IH|]. intros [?|[Hle Hne']]; [done|].
    assert (e ∈ l) as He by (by eapply list_elem_of_lookup_2).
    apply Hne'. apply (anti_symm text_le); [|done]. by apply Hx.
Qed.

(** The entries after the [k]-th one. *)
Lemma tree_entries_drop d repo branch at_ after k e :
  wf_db d → tree_entries d repo branch at_ after !! k = Some e → te_Path e ≠ "" →
  tree_entries d repo branch at_ (te_Path e) = drop (S k) (tree_entries d repo branch at_ after).
Proof.
  intros Hwf Hk Hne.
  rewrite <- (filter_after_drop te_Path _ k e);
    [|apply text_asc_sorted|by apply tree_entries_NoDup|done..].
  rewrite (tree_entries_after _ _ _ _ (te_Path e)), (tree_entries_after _ _ _ _ after) by done.
  rewrite list_filter_filter. apply list_filter_iff. intros x.
  split; [|by intros [? _]]. intros Hx. split; [done|].
  apply list_elem_of_lookup_2 in Hk. rewrite (tree_entries_after _ _ _ _ after) in Hk by done.
  apply list_elem_of_filter in Hk as [Ha _].
  destruct Ha as [->|[Hle Hn]]; [by left|right]. destruct Hx as [?|[Hle' Hn']]; [done|].
  split; [by etrans|]. intros E. apply Hn. apply (anti_symm text_le); [by rewrite E in Hle'|done].
Qed.

(** Reading page after page: where a page ends, the next one goes on. *)
Lemma tree_page d repo branch at_ after n :
  wf_db d → (0 < n)%nat →
  (∀ e, e ∈ tree_entries d repo branch at_ after → te_Path e ≠ "") →
  let E := tree_entries d repo branch at_ after in
  match last (take n E) with
  | None => E = []
  | Some e =>
      e ∈ E ∧
      if (length (take n E) <? n)%nat then take n E = E
      else tree_entries d repo branch at_ (te_Path e) = drop n E
  end.
Proof.
  intros Hwf Hn Hne E. destruct (last (take n E)) as [e|] eqn:El.
  - rewrite last_lookup, length_take in El. apply lookup_take_Some in El as [El _].
    pose proof El as Hin%list_elem_of_lookup_2. split; [done|].
    destruct (Nat.ltb_spec (length (take n E)) n) as [Hlt|Hge].
    + rewrite length_take in Hlt. by rewrite take_ge by lia.
    + rewrite length_take in Hge.
      rewrite (tree_entries_drop _ _ _ _ after _ e Hwf El) by auto.
      f_equal. lia.
  - apply last_None in El. destruct E as [|x E]; [done|]. by destruct n; [lia|].
Qed.

(** ** The diff *)

Lemma distinct_on_fmap {A B K} `{EqDecision K} (f : A → B) (key : B → K) (l : list A) :
  f <$> distinct_on (λ x, key (f x)) l = distinct_on key (f <$> l).
Proof.
  induction l as [|x l IH]; [done|]. cbn. f_equal. rewrite <- IH.
  generalize (distinct_on (λ x, key (f x)) l) as k. intros k.
  induction k as [|y k IHk]; [done|]. rewrite fmap_cons, !filter_cons.
  repeat case_decide; try done; rewrite ?fmap_cons; by f_equal.
Qed.

Lemma diff_rows_fst d repo branch base :
  (diff_rows d repo branch base).*1
  = distinct_on fc_path (merge_sort (λ a b, path_then_newest a.1 b.1)
      (left_join (doc_of repo) (filter (changed_since repo branch base) (db_file_commits d))
         (db_documents d))).*1.
Proof. apply (distinct_on_fmap fst fc_path). Qed.

Lemma diff_changes_changed d repo branch base p :
  distinct_paths d repo →
  dc_versionID <$> diff_changes d repo branch base !! p = changed d repo branch base p.
Proof.
  intros Hu. set (rows := filter (changed_since repo branch base) (db_file_commits d)).
  assert (unambiguous rows) as Hu'.
  { eapply unambiguous_sub; [|exact Hu].
    intros r [(Hr & _) Hin]%list_elem_of_filter. by apply list_elem_of_filter. }
  assert (∀ r, r ∈ (diff_rows d repo branch base).*1 ↔ newest rows (fc_path r) = Some r) as Hnew.
  { intros r. rewrite diff_rows_fst. apply distinct_on_newest; [done| |].
    - apply (path_then_newest_sorted_by fst).
    - intros x. rewrite <- (left_join_fst (doc_of repo) rows (db_documents d)).
      by rewrite merge_sort_Permutation. }
  assert (NoDup ((λ row, fc_path row.1) <$> diff_rows d repo branch base)) as HN
    by apply distinct_on_NoDup.
  unfold diff_changes. rewrite (foldl_insert_lookup (λ row, fc_path row.1) _ _ ∅) by done.
  unfold changed. fold rows. destruct (newest rows p) as [r|] eqn:E.
  - pose proof (newest_spec _ _ _ E) as (_ & <- & _). apply Hnew in E.
    apply list_elem_of_fmap in E as (row & -> & Hrow).
    by rewrite (filter_key_unique (λ row, fc_path row.1) _ row).
  - rewrite filter_none; [done|]. intros row Hrow Hp.
    assert (row.1 ∈ (diff_rows d repo branch base).*1) as Hin by (by apply list_elem_of_fmap_2).
    apply Hnew in Hin. congruence.
Qed.

(** ** Properties *)


(** Pagination.  The page that starts after the last path of a page
    continues it: the two together are the page of the sum of the limits. *)
Theorem MaterializeTree_next_page repo branch at_ lim lim2 after w page page2 e :
  wf w →
  MaterializeTree repo branch at_ lim after w = (w, Ok page) →
  last page = Some e → te_Path e ≠ "" →
  MaterializeTree repo branch at_ lim2 (te_Path e) w = (w, Ok page2) →
  MaterializeTree repo branch at_ (page_limit lim + page_limit lim2) after w
  = (w, Ok (page ++ page2)).
Proof.
  intros Hwf [_ Hp]%gets_ok Hlast Hne [_ Hp2]%gets_ok.
  unfold MaterializeTree, gets. f_equal. f_equal.
  set (E := tree_entries (w_db w) repo branch at_ after) in *.
  assert (E !! pred (length page) = Some e) as Hk.
  { rewrite last_lookup, Hp in Hlast. unfold limit in Hlast.
    apply lookup_take_Some in Hlast as [Hlast _]. rewrite <- Hlast. f_equal. by rewrite Hp. }
  rewrite (tree_entries_drop _ _ _ _ after _ e (wf_tables _ Hwf) Hk Hne) in Hp2. fold E in Hp2.
  assert (0 < page_limit lim ∧ 0 < page_limit lim2) as [Hl Hl2].
  { unfold page_limit, defaultLimit. split; case_match; lia. }
  assert (page_limit (page_limit lim + page_limit lim2) = page_limit lim + page_limit lim2) as ->.
  { unfold page_limit at 1. case_match; [lia|done]. }
  assert (length page ≠ 0%nat) as Hn0 by (destruct page; [done|cbn; lia]).
  rewrite Hp2. replace (S (pred (length page))) with (length page) by lia.
  unfold limit in *. rewrite Hp at 1. rewrite Hp. rewrite length_take.
  destruct (decide (Z.to_nat (page_limit lim) ≤ length E)%nat).
  - rewrite Nat.min_l by done. rewrite Z2Nat.inj_add by lia. by rewrite <- take_take_drop.
  - rewrite Nat.min_r, !take_ge by lia. by rewrite drop_all, take_nil, app_nil_r.
Qed.

Lemma GetFile_entry bs repo branch at_ w e :
  wf w → content_ok w → distinct_paths (w_db w) repo → (∀ k, bs_get_err bs k = None) →
  e ∈ tree_entries (w_db w) repo branch at_ "" →
  ∃ f data, GetFile (Some bs) repo branch (te_Path e) at_ w = (w, Ok (Some f)) ∧
    fl_Path f = te_Path e ∧ fl_VersionID f = te_VersionID e ∧
    fl_ContentHash f = te_ContentHash e ∧ fl_Content f = Some data ∧
    GoStd.sha256_hex data = te_ContentHash e.
Proof.
  intros Hwf Hco Hu Hbs (_ & Hv & doc & Hd & Hr & Hver & Hh)%tree_entries_elem; [|done].
  destruct (content_ok_data w doc Hco Hd) as (data & Hdata & Hhash).
  exists (file_of (te_Path e) doc (doc_data w doc)), data. split_and!; cbn; try congruence.
  apply (GetFile_found bs _ _ _ _ _ (te_VersionID e) doc); [apply Hwf|done..|by rewrite Hdata].
Qed.

(** The file query returns a file for every path the tree lists, with the
    same version and content hash, and its content has that hash. *)
Theorem GetFile_tree bs repo branch at_ w e :
  wf w → content_ok w → distinct_paths (w_db w) repo → (∀ k, bs_get_err bs k = None) →
  e ∈ tree_entries (w_db w) repo branch at_ "" →
  ∃ f data, GetFile (Some bs) repo branch (te_Path e) at_ w = (w, Ok (Some f)) ∧
    fl_Path f = te_Path e ∧ fl_VersionID f = te_VersionID e ∧
    fl_ContentHash f = te_ContentHash e ∧ fl_Content f = Some data ∧
    GoStd.sha256_hex data = te_ContentHash e.
Proof. apply GetFile_entry. Qed.

Lemma diff_conflicts_elem dm dmm m mm c :
  (∀ p, dc_versionID <$> dm !! p = m !! p) → (∀ p, dc_versionID <$> dmm !! p = mm !! p) →
  c ∈ diff_conflicts dm dmm ↔ c ∈ find_conflicts m mm.
Proof.
  intros Hm Hmm. rewrite find_conflicts_elem. unfold diff_conflicts. rewrite list_elem_of_bind.
  setoid_rewrite <- Hm. setoid_rewrite <- Hmm. split.
  - intros ([p ch] & Hc & Hp%map_range_elem). destruct (dmm !! p) as [mc|] eqn:E.
    + apply list_elem_of_singleton in Hc as ->. cbn. rewrite Hp, E. by eexists _, _.
    + by apply elem_of_nil in Hc.
  - intros (v1 & v2 & (ch & Hv1 & E1)%fmap_Some & (mc & Hv2 & E2)%fmap_Some & Ec).
    exists (mc_Path c, ch). split; [|by apply map_range_elem]. cbn. rewrite Hv2.
    apply list_elem_of_singleton. rewrite Ec. cbn. congruence.
Qed.

Lemma diff_conflicts_NoDup dm dmm : NoDup (diff_conflicts dm dmm).
Proof.
  unfold diff_conflicts. pose proof (map_range_NoDup 4 dm) as HN. revert HN.
  induction (map_range 4 dm) as [|[p ch] l IH]; [constructor|].
  rewrite fmap_cons. intros [Hp HN]%NoDup_cons. rewrite bind_cons.
  destruct (dmm !! p) as [mc|]; [|by apply IH]. cbn [app].
  apply NoDup_cons. split; [|by apply IH]. intros ([q ch'] & Hin & Hq)%list_elem_of_bind.
  destruct (dmm !! q); [|by apply elem_of_nil in Hin].
  apply list_elem_of_singleton in Hin as [= <- _ _]. apply Hp. by apply (list_elem_of_fmap_2 fst) in Hq.
Qed.

(** What the diff query returns for a branch. *)
Lemma GetDiff_ok repo branch w w' d :
  GetDiff repo branch w = (w', Ok (Some d)) →
  w' = w ∧ ∃ b, b ∈ db_branches (w_db w) ∧ br_repo b = repo ∧ br_name b = branch ∧
    let changes name := diff_changes (w_db w) repo name (br_base_sequence b) in
    df_BranchChanges d = (uncurry diff_entry <$> map_range 4 (changes branch)) ∧
    df_MainChanges d = (uncurry diff_entry <$> map_range 5 (changes "main")) ∧
    df_Conflicts d = diff_conflicts (changes branch) (changes "main").
Proof.
  unfold GetDiff. intros E. inv_ok. apply select_ok in E0 as [-> ->].
  destruct (filter _ _) as [|b l] eqn:Eb; inv_ok; simplify_eq. split; [done|]. exists b.
  assert (b ∈ b :: l) as Hin by (by left). rewrite <- Eb in Hin.
  by apply list_elem_of_filter in Hin as [[Hr Hn] Hb].
Qed.

Lemma diff_entries_elem n changes p v :
  (∃ e, e ∈ uncurry diff_entry <$> map_range n changes ∧ de_Path e = p ∧ de_VersionID e = v)
  ↔ dc_versionID <$> changes !! p = Some v.
Proof.
  setoid_rewrite list_elem_of_fmap. split.
  - intros (e & ([q ch] & -> & Hq%map_range_elem) & <- & <-). change (dc_versionID <$> changes !! q = Some (dc_versionID ch)). by rewrite Hq.
  - intros (ch & Hp & ->)%fmap_Some_1. exists (diff_entry p ch).
    split; [|done]. exists (p, ch). split; [done|by apply map_range_elem].
Qed.

Lemma diff_entries_NoDup n changes :
  NoDup (de_Path <$> (uncurry diff_entry <$> map_range n changes)).
Proof.
  rewrite <- list_fmap_compose.
  replace (de_Path ∘ uncurry diff_entry <$> map_range n changes) with (fst <$> map_range n changes);
    [apply map_range_NoDup|]. apply list_fmap_ext. by intros _ [p ch] _.
Qed.

(** The diff of a branch.  It exists exactly when the branch does; it
    lists once every path changed on the branch and every path changed on main
    after the branch's base, with the newest version of each (none for a
    deletion), and computing it changes nothing. *)
Theorem GetDiff_changes repo branch w w' r :
  wf w → distinct_paths (w_db w) repo → GetDiff repo branch w = (w', Ok r) →
  w' = w ∧
  match r with
  | None => ∀ b, b ∈ db_branches (w_db w) → ¬ (br_repo b = repo ∧ br_name b = branch)
  | Some d =>
      ∃ b, b ∈ db_branches (w_db w) ∧ br_repo b = repo ∧ br_name b = branch ∧
      ∀ name l, (name, l) ∈ [(branch, df_BranchChanges d); ("main", df_MainChanges d)] →
        NoDup (de_Path <$> l) ∧
        ∀ p v, (∃ e, e ∈ l ∧ de_Path e = p ∧ de_VersionID e = v) ↔
               changed (w_db w) repo name (br_base_sequence b) p = Some v
  end.
Proof.
  intros Hwf Hu E. destruct r as [d|].
  - apply GetDiff_ok in E as (-> & b & Hb & Hr & Hn & E1 & E2 & _). split; [done|].
    exists b. split_and!; [done..|]. intros name l Hin.
    repeat apply elem_of_cons in Hin as [[= -> ->]|Hin]; [..|by apply elem_of_nil in Hin];
      rewrite ?E1, ?E2; (split; [apply diff_entries_NoDup|]); intros p v;
      by rewrite diff_entries_elem, diff_changes_changed.
  - unfold GetDiff in E. inv_ok. apply select_ok in E0 as [-> ->].
    destruct (filter _ _) as [|b l] eqn:Eb; inv_ok; simplify_eq. split; [done|].
    intros b Hb Hk. assert (b ∈ @nil Schema.branch) as Hin; [|by apply elem_of_nil in Hin].
    rewrite <- Eb. by apply list_elem_of_filter.
Qed.

(** C6: the diff predicts the merge.  Merging an active branch that is not a
    draft, in the state the diff was computed in, fails with
    [ErrMergeConflict] exactly when the diff announces a conflict, and then the
    conflicts are the announced ones. *)
Theorem GetDiff_predicts_Merge req w w1 d w' resp conflicts err main b :
  wf w → distinct_paths (w_db w) (mq_Repo req) →
  main ∈ db_branches (w_db w) → br_repo main = mq_Repo req → br_name main = "main" →
  b ∈ db_branches (w_db w) → br_repo b = mq_Repo req → br_name b = mq_Branch req →
  br_status b = Active → br_draft b = false →
  GetDiff (mq_Repo req) (mq_Branch req) w = (w1, Ok (Some d)) →
  Merge req w = (w', Ok (resp, conflicts, err)) →
  (err = Some ErrMergeConflict ↔ df_Conflicts d ≠ []) ∧
  (err = Some ErrMergeConflict → conflicts ≡ₚ df_Conflicts d).
Proof.
  intros Hwf Hu Hmain Hmr Hmn Hb Hr Hn Ha Hdr Hdiff Hrun.
  destruct (Merge_find_conflicts req w w' resp conflicts err main b) as [Herr Hc]; [done..|].
  apply GetDiff_ok in Hdiff as (_ & b' & Hb' & Hr' & Hn' & _ & _ & Ed).
  assert (b' = b) as -> by (apply (branch_unique (w_db w)); [apply Hwf|congruence..]).
  set (found := find_conflicts _ _) in Herr, Hc.
  assert (found ≡ₚ df_Conflicts d) as Hp.
  { apply NoDup_Permutation.
    - apply (NoDup_fmap_1 mc_Path), find_conflicts_NoDup.
    - rewrite Ed. apply diff_conflicts_NoDup.
    - intros c. rewrite Ed. symmetry. apply diff_conflicts_elem; intros p;
        by rewrite diff_changes_changed, changes_of_changed. }
  split.
  { rewrite Herr. split; intros Hne Hnil; apply Hne, Permutation_nil_r; [by rewrite Hp, Hnil|].
    by rewrite <- Hp, Hnil. }
  intros E. by rewrite (Hc E).
Qed.

End TreeSpec.

(** ** Witnesses *)

Definition dev_page (lim : Z) (after : string) : list TreeEntry :=
  default [] (returned (MaterializeTree "o/r" "dev" None lim after) changed_world).


Lemma MaterializeTree_next_page_witness :
  MaterializeTree "o/r" "dev" None 2 "" changed_world
  = (changed_world, Ok (dev_page 1 "" ++ dev_page 1 "a")).
Proof.
  apply (MaterializeTree_next_page "o/r" "dev" None 1 1 "" changed_world (dev_page 1 "")
           (dev_page 1 "a") (default (mkTreeEntry "" "" "") (last (dev_page 1 ""))));
    [exact changed_world_wf|..]; vm_compute; [reflexivity..|discriminate|reflexivity].
Defined.

Lemma GetFile_tree_witness :
  ∃ f, GetFile (Some reliable) "o/r" "dev" "a" None changed_world = (changed_world, Ok (Some f)) ∧
    fl_Path f = "a".
Proof.
  destruct (GetFile_tree reliable "o/r" "dev" None changed_world
    (default (mkTreeEntry "" "" "") (head (dev_page 100 "")))) as (f & data & Hf & Hp & _);
    [exact changed_world_wf|exact changed_world_content|exact changed_distinct|done| |].
  - apply list_elem_of_In. vm_compute. tauto.
  - exists f. split; [exact Hf|exact Hp].
Defined.

Lemma GetDiff_changes_witness :
  ∃ d, returned (GetDiff "o/r" "dev") conflict_world = Some (Some d) ∧
    NoDup (de_Path <$> df_MainChanges d) ∧ de_Path <$> df_MainChanges d = ["a"].
Proof.
  destruct (returned (GetDiff "o/r" "dev") conflict_world) as [[d|]|] eqn:E;
    [|vm_compute in E; discriminate E..].
  destruct (GetDiff_changes "o/r" "dev" conflict_world (exec (GetDiff "o/r" "dev") conflict_world)
    (Some d)) as (_ & b & _ & _ & _ & Hl);
    [exact conflict_world_wf|exact conflict_distinct|by apply run_exec|].
  exists d. split_and!; [done|apply (Hl "main"); right; left|].
  vm_compute in E. injection E as <-. vm_compute. reflexivity.
Defined.

Lemma GetDiff_predicts_Merge_witness :
  ∃ d resp conflicts err,
    returned (GetDiff "o/r" "dev") conflict_world = Some (Some d) ∧
    returned (Merge merge_dev) conflict_world = Some (resp, conflicts, err) ∧
    (err = Some ErrMergeConflict ↔ df_Conflicts d ≠ []) ∧ mc_Path <$> df_Conflicts d = ["a"].
Proof.
  destruct (returned (GetDiff "o/r" "dev") conflict_world) as [[d|]|] eqn:E;
    [|vm_compute in E; discriminate E..].
  destruct (returned (Merge merge_dev) conflict_world) as [[[resp conflicts] err]|] eqn:E2;
    [|vm_compute in E2; discriminate E2].
  pose proof (GetDiff_predicts_Merge merge_dev conflict_world
    (exec (GetDiff "o/r" "dev") conflict_world) d (exec (Merge merge_dev) conflict_world)
    resp conflicts err (sample_branch conflict_world "main") (sample_branch conflict_world "dev"))
    as Ht.
  destruct Ht as [Hiff _];
    [exact conflict_world_wf|exact conflict_distinct| | | | | | | | |by apply run_exec..|].
  1,4: apply list_elem_of_In; vm_compute; tauto.
  1-6: vm_compute; reflexivity.
  exists d, resp, conflicts, err. split_and!; [done..|exact Hiff|].
  vm_compute in E. injection E as <-. vm_compute. reflexivity.
Defined.
