(* ===== verification/ChainSpec.v ===== *)
(** * The hash chain over the life of the store

    Every method of the store keeps [chain_ok]: the methods that write history
    append commits with the right hash (Commit, Merge, Rebase) or remove whole
    branches (Purge, DeleteRepo), the others do not touch it.  So in every
    reachable world a client that walks a branch with [GetChain] recomputes each
    stored hash. *)

From S2P Require Import Prelude GoStd Schema Tx Run Integrity Guarantee Blob Orgs Commits Merge ReadStore Views.
From S2P Require Import Chain Samples CommitSpec MergeSpec RebaseSpec Purge System EventTypes Events.
From S2P Require Hash.

Section ChainSpec.
Context {Co : Collation} {Us : UuidSource} {Mr : MapRange} {Jt : JsonbText} {Http : HTTPClient}.

(** ** Commit *)

Lemma version_hash_doc docs doc :
  NoDup (doc_version_id <$> docs) → doc ∈ docs →
  version_hash docs (Some (doc_version_id doc)) = doc_content_hash doc.
Proof. intros HN Hd. cbn. by rewrite (filter_key_unique doc_version_id _ doc). Qed.

Lemma file_written_hash docs req seq f out r :
  NoDup (doc_version_id <$> docs) → file_written docs req seq f out r → out.2 = hash_row docs r.
Proof.
  intros HN (Hp & _ & _ & _ & _ & Hc). unfold hash_row. rewrite Hp.
  destruct (ch_Content f) as [content|].
  - destruct Hc as (-> & v & -> & doc & Hd & <- & _ & Hh). by rewrite version_hash_doc, Hh.
  - by destruct Hc as [-> ->].
Qed.

Lemma written_hashes docs req seq fs outs rows :
  NoDup (doc_version_id <$> docs) → length outs = length fs →
  Forall2 (λ fo r, file_written docs req seq fo.1 fo.2 r) (zip fs outs) rows →
  snd <$> outs = hash_row docs <$> rows.
Proof.
  intros HN. revert fs rows. induction outs as [|o outs IH]; intros [|f fs] rows Hl HF; try done; cbn in HF.
  - by apply Forall2_nil_inv_l in HF as ->.
  - apply Forall2_cons_inv_l in HF as (r & rows' & Hw & HF & ->). rewrite !fmap_cons. f_equal.
    + by eapply file_written_hash.
    + apply (IH fs); [by injection Hl|done].
Qed.

Lemma Commit_chain s req w :
  wf w → chain_ok (w_db w) → chain_ok (w_db (Commit s req w).1).
Proof.
  intros Hwf Hck. destruct (Commit s req w) as [w' [resp|e]] eqn:E; cbn.
  - assert (wf w') as Hwf'.
    { replace w' with (Commit s req w).1 by (by rewrite E). apply preserves_wf; [apply Commit_preserves|done]. }
    apply Commit_committed in E as (_ & docs & rows & outs & Hc); [|done].
    assert (NoDup (doc_version_id <$> db_documents (w_db w'))) as HN by (apply documents_NoDup, Hwf').
    eapply (chain_append (w_db w) _ docs rows); [apply Hwf|done|by eapply committed_documents|
      by eapply committed_file_commits|by rewrite (cm_db _ _ _ _ _ _ _ Hc)|..]; cbn.
    + intros c Hin. pose proof (wf_commit_seq _ _ Hwf Hin). rewrite (cm_seq _ _ _ _ _ _ _ Hc). lia.
    + intros r (f & out & _ & (_ & Hs & Hr & Hb & _))%(committed_row _ _ _ _ _ _ _ Hc). done.
    + intros r v (f & out & _ & (_ & _ & Hr & _ & _ & Hf))%(committed_row _ _ _ _ _ _ _ Hc) Hv.
      destruct (ch_Content f); [|by destruct Hf; congruence].
      destruct Hf as (_ & v' & Hv' & doc & ? & ? & ? & _). exists doc.
      split_and!; [done|congruence..].
    + eexists. split; [|by rewrite (cm_hash _ _ _ _ _ _ _ Hc)].
      by rewrite (written_hashes _ _ _ _ _ _ HN (cm_length _ _ _ _ _ _ _ Hc) (cm_rows _ _ _ _ _ _ _ Hc)).
  - apply (chain_ok_history (w_db w)); [|done]. f_equal. unfold Commit in E.
    by apply in_tx_fail in E.
Qed.

(** ** Merge *)

Lemma changes_of_row rows p v :
  changes_of rows !! p = Some v → ∃ r, r ∈ rows ∧ fc_path r = p ∧ fc_version_id r = v.
Proof.
  unfold changes_of. rewrite (foldl_insert_lookup fc_path fc_version_id) by apply latest_rows_NoDup.
  destruct (filter _ (latest_rows rows)) as [|r l] eqn:E; [by rewrite lookup_empty|].
  intros [= <-]. assert (r ∈ r :: l) as Hin by (by left). rewrite <- E in Hin.
  apply list_elem_of_filter in Hin as [Hp Hin]. exists r. split_and!; [|done..].
  by apply distinct_on_sub, order_by_elem in Hin.
Qed.

Lemma merge_tx_history req w w' resp c :
  wf w → merge_tx req w = (w', Ok (resp, c, None)) →
  history (w_db w') = history (w_db w) ∨
  ∃ m n hash rows, merged req m w w' n hash rows ∧
    ∀ p v, m !! p = Some (Some v) →
      ∃ r, r ∈ db_file_commits (w_db w) ∧ fc_repo r = mq_Repo req ∧ fc_version_id r = Some v.
Proof.
  intros Hwf. unfold merge_tx. intros E. inv_ok.
  apply lock_branch_ok in E0 as (-> & _). apply lock_branch_ok in E1 as (-> & _).
  case_bool_decide; [done|]. destruct (br_draft a0); [done|]. inv_ok.
  apply latestChanges_run in E0 as [-> Em].
  case_bool_decide.
  - destruct (mq_DryRun req); inv_ok; simplify_eq. apply set_branch_status_ok in E0 as ->. by left.
  - inv_ok. apply latestChanges_run in E0 as [-> _].
    case_bool_decide; inv_ok; simplify_eq. right. destruct (mq_DryRun req); [done|].
    apply merge_write_ok in E0 as (hash & rows & Hg); [|done]. eexists _, _, hash, rows.
    split; [exact Hg|]. intros p v (r & Hr & _ & Hv)%changes_of_row.
    apply list_elem_of_filter in Hr as [(Hrepo & _) Hr]. by exists r.
Qed.

Lemma Merge_chain req w :
  wf w → chain_ok (w_db w) → chain_ok (w_db (Merge req w).1).
Proof.
  intros Hwf Hck.
  assert (history (w_db (Merge req w).1) = history (w_db w) ∨
    ∃ resp c w1, merge_tx req w = (w1, Ok (resp, c, None)) ∧ w_db (Merge req w).1 = w_db w1)
    as [Hh|(resp & c & w1 & E & Edb)].
  { unfold Merge, WithTx, mbind, M_bind, mret, M_ret.
    destruct (merge_tx req w) as [w1 [[[r1 c1] [e|]]|e]] eqn:E; cbn -[errors_Is].
    - left. repeat (case_match; cbn -[errors_Is]; try done).
    - right. by eexists _, _, _.
    - left. repeat (case_match; cbn -[errors_Is]; try done). }
  { by eapply chain_ok_history. }
  rewrite Edb. apply merge_tx_history in E as [Hh|(m & n & hash & rows & Hg & Hm)]; [..|done].
  { by eapply chain_ok_history. }
  destruct (mg_hash _ _ _ _ _ _ _ Hg) as (files & Hf & Hhash).
  eapply (chain_append (w_db w) _ [] rows); [apply Hwf|done|by rewrite (mg_db _ _ _ _ _ _ _ Hg), app_nil_r|
    by eapply merged_file_commits|by rewrite (mg_db _ _ _ _ _ _ _ Hg)|..]; cbn.
  - intros c' Hin. pose proof (wf_commit_seq _ _ Hwf Hin). rewrite (mg_seq _ _ _ _ _ _ _ Hg). lia.
  - intros r Hr. destruct (merged_row _ _ _ _ _ _ _ Hg r Hr) as (? & ? & ->).
    by rewrite (mg_seq _ _ _ _ _ _ _ Hg).
  - intros r v Hr Hv. destruct (merged_row _ _ _ _ _ _ _ Hg r Hr) as (-> & _ & _).
    apply list_elem_of_lookup_1 in Hr as [i Hi].
    destruct (Forall2_lookup_r _ _ _ _ _ (mg_rows _ _ _ _ _ _ _ Hg) Hi) as ([p v'] & Hx & (_ & Hv' & _)).
    apply list_elem_of_lookup_2, map_range_elem in Hx. cbn in Hv'.
    destruct (Hm p v) as (r' & Hr' & <- & Hrv); [congruence|].
    rewrite (mg_db _ _ _ _ _ _ _ Hg). cbn. by apply (ck_docs _ Hck).
  - exists files. split; [|by rewrite Hhash]. rewrite Hf.
    by rewrite (mg_db _ _ _ _ _ _ _ Hg).
Qed.

(** ** Rebase *)

Lemma Rebase_chain req w :
  wf w → chain_ok (w_db w) → chain_ok (w_db (Rebase req w).1).
Proof.
  intros Hwf Hck. destruct (Rebase req w) as [w' out] eqn:E. cbn.
  apply Rebase_run in E as [[Edb _]|(r & main & b & gs & rowss & cs & _ & Hb & Hd & _)]; [by rewrite Edb| |done].
  destruct (rd_replays _ _ _ _ _ _ _ _ _ Hd) as (w1 & seqs & Hr & ->).
  apply (chain_ok_history (w_db w1)); [done|].
  apply (rp_chain _ _ _ _ _ _ _ _ Hr Hck). intros x v Hx Hv.
  destruct (groups_of_ok (filter (changed_since (rq_Repo req) (rq_Branch req) (br_base_sequence b))
                            (db_file_commits (w_db w)))) as (rss & HF & Hc).
  rewrite <- (rd_groups _ _ _ _ _ _ _ _ _ Hd) in HF.
  pose proof (replayed_versions _ _ _ _ _ _ (rp_rows _ _ _ _ _ _ _ _ Hr) HF) as Epv.
  apply (list_elem_of_fmap_2 path_version) in Hx. rewrite Epv, Hc in Hx.
  apply list_elem_of_fmap in Hx as (y & Ey & Hy). apply order_by_elem in Hy.
  apply list_elem_of_filter in Hy as [(Hrepo & _) Hy].
  destruct (ck_docs _ Hck y v Hy) as (doc & ? & ? & ?); [by injection Ey as _ <-|].
  exists doc. split_and!; [done..|congruence].
Qed.

(** ** DeleteRepo *)

Lemma DeleteRepo_history name w w' u :
  DeleteRepo name w = (w', Ok u) →
  db_commits (w_db w') = filter (λ c, c_repo c ≠ name) (db_commits (w_db w)) ∧
  db_file_commits (w_db w') = filter (λ r, fc_repo r ≠ name) (db_file_commits (w_db w)) ∧
  db_documents (w_db w') = filter (λ r, doc_repo r ≠ name) (db_documents (w_db w)).
Proof.
  unfold DeleteRepo. rewrite in_tx_ok by solve_no_rollback. intros E. inv_ok.
  case_match; [done|]. inv_ok.
  repeat match goal with H : delete_rows _ _ _ = _ |- _ => apply delete_ok in H as (_ & -> & _) end.
  done.
Qed.

Lemma DeleteRepo_chain name w :
  wf w → chain_ok (w_db w) → chain_ok (w_db (DeleteRepo name w).1).
Proof.
  intros Hwf Hck. destruct (DeleteRepo name w) as [w' [u|e]] eqn:E; cbn.
  - apply DeleteRepo_history in E as (Ec & Ef & Ed).
    apply (chain_delete (λ r _, r ≠ name) (w_db w)); [done|done|done| |apply Hwf].
    eexists _, _. split; [exact Ed|]. intros r doc Hr _ E2 _. cbn. rewrite E2.
    rewrite Ef in Hr. by apply list_elem_of_filter in Hr as [? _].
  - apply (chain_ok_history (w_db w)); [|done]. f_equal. by apply in_tx_fail in E.
Qed.

(** ** Purge *)

(** The deletions of a purge, as far as the history goes. *)
Lemma purge_delete_history s req names w w' r :
  purge_delete s req names w = (w', Ok r) →
  let repo := pq_Repo req in
  let fcs := filter (λ r, ¬ (fc_repo r = repo ∧ fc_branch r ∈ names)) (db_file_commits (w_db w)) in
  let used := fc_sequence <$> filter (λ r, fc_repo r = repo) fcs in
  db_file_commits (w_db w') = fcs ∧
  db_commits (w_db w') = filter (λ c, ¬ (c_repo c = repo ∧ c_branch c ∈ names ∧ c_sequence c ∉ used))
                           (db_commits (w_db w)) ∧
  db_documents (w_db w') = filter (λ d, ¬ orphan repo (omap fc_version_id
                             (filter (λ r, fc_repo r = repo) fcs)) d) (db_documents (w_db w)).
Proof.
  unfold purge_delete. intros E. inv_ok.
  repeat match goal with H : delete_rows ?T _ ?w = (?w', _) |- _ =>
    lazymatch T with documents => fail | branches => fail | _ =>
      apply delete_ok in H as (_ & -> & _) end end.
  match type of E6 with ?m ?w = _ => assert (w_db w6 = w_db w) as E6' end.
  { match type of E6 with ?m ?w = _ => pose proof (frame_ok id m w) as Hf end.
    rewrite E6 in Hf. apply Hf. clear. solve_framed. }
  apply delete_ok in E7 as (_ & -> & _), E8 as (_ & -> & _). cbn in *. rewrite E6'. done.
Qed.

Lemma Purge_chain s req w :
  wf w → chain_ok (w_db w) → chain_ok (w_db (Purge s req w).1).
Proof.
  intros Hwf Hck.
  assert (w_db (Purge s req w).1 = w_db w ∨
    ∃ names r w', purge_delete s req names w = (w', Ok r) ∧ w_db (Purge s req w).1 = w_db w')
    as [->|(names & r & w' & E & ->)]; [|done|].
  { unfold Purge, WithTx, mbind, M_bind, mret, M_ret.
    destruct (purge_tx s req w) as [w1 [[r1 [e|]]|e]] eqn:E; cbn -[errors_Is].
    1,3: left; repeat (case_match; cbn -[errors_Is]; try done).
    right. unfold purge_tx in E. inv_ok. case_match; [done|]. inv_ok.
    case_bool_decide; [inv_ok; simplify_eq|].
    inv_ok. destruct (pq_DryRun req); simplify_eq.
    apply gets_ok in E0 as [-> _]. eauto. }
  apply purge_delete_history in E as (Ef & Ec & Ed).
  apply (chain_delete (λ r b, ¬ (r = pq_Repo req ∧ b ∈ names)) (w_db w)); [done| |done| |apply Hwf].
  - rewrite Ec. apply filter_ext_elem. intros c Hc. split; [|tauto].
    intros Hk [Hr Hn]. apply Hk. split_and!; [done..|].
    intros (x & Ex & (Hxr & [Hxk Hx]%list_elem_of_filter)%list_elem_of_filter)%list_elem_of_fmap.
    apply Hxk. destruct (ck_rows _ Hck x c Hx Hc Ex) as [<- <-]. done.
  - eexists _, _. split; [exact Ed|]. intros x doc Hx _ Hr Hv [Hrepo Hout]. apply Hout.
    apply list_elem_of_omap. exists x. split; [|done]. apply list_elem_of_filter.
    split; [congruence|]. by rewrite Ef in Hx.
Qed.

(** ** Every reachable world *)

Lemma reachable_chain_ok w : reachable w → chain_ok (w_db w).
Proof.
  intros Hr. induction Hr as [now|w w' Hr IH Hstep].
  - split; cbn; [intros c ?%elem_of_nil|intros r c ?%elem_of_nil|intros r v ?%elem_of_nil]; done.
  - assert (wf w) as Hwf by (by apply reachable_ok).
    assert (history (w_db w') = history (w_db w) ∨ chain_ok (w_db w')) as [Hh|Hk];
      [|by eapply chain_ok_history|done].
    destruct Hstep; try (left; reflexivity);
      try (left; unfold exec; apply (frame_ok history); solve [solve_framed]); right.
    + by apply DeleteRepo_chain.
    + by apply Commit_chain.
    + by apply Merge_chain.
    + by apply Rebase_chain.
    + by apply Purge_chain.
Qed.

(** C9: the hash chain is sound in every reachable world.  Every commit stores
    the hash of its metadata, of the files [file_commits] records for it, with
    the content hashes of their documents, and of the hash of the previous
    commit of its branch. *)
Theorem reachable_chain w : reachable w → chain_ok (w_db w).
Proof. apply reachable_chain_ok. Qed.
End ChainSpec.

(** ** Witness *)

Lemma reachable_chain_witness :
  reachable changed_world ∧ chain_ok (w_db changed_world).
Proof.
  split; [exact changed_world_reachable|exact (reachable_chain _ changed_world_reachable)].
Defined.
