(* ===== verification/EventsSpec.v ===== *)
(** * What the broker and the outbox guarantee

    Polling loses no event and returns none twice; an event reaches the log and
    the outbox of exactly the subscriptions that match it; two dispatchers never
    claim the same delivery; a delivery is tried at most ten times, so that the
    dispatcher comes to an end on any outbox. *)

From S2P Require Import Prelude GoStd Schema Tx Run Integrity Guarantee Chain Samples EventTypes Events System.
From S2P Require Import Orgs Blob Commits Merge Reviews Purge Releases Issues CIJobs.

(** [order_by_asc_strict] and [commits_NoDup] of Chain.v serve here too. *)
Lemma event_log_NoDup d : wf_db d → NoDup (ev_seq <$> db_event_log d).
Proof.
  intros Hwf. apply (unique_NoDup (t_clash event_log)); [|apply Hwf].
  intros x y E. cbn. by apply bool_decide_eq_true.
Qed.

Lemma event_outbox_NoDup d : wf_db d → NoDup (ob_id <$> db_event_outbox d).
Proof.
  intros Hwf. apply (unique_NoDup (t_clash event_outbox)); [|apply Hwf].
  intros x y E. cbn. by apply bool_decide_eq_true.
Qed.

Lemma subscriptions_NoDup d : wf_db d → NoDup (sub_id <$> db_event_subscriptions d).
Proof.
  intros Hwf. apply (unique_NoDup (t_clash event_subscriptions)); [|apply Hwf].
  intros x y E. cbn. by apply bool_decide_eq_true.
Qed.

Lemma take_sub {A} n (l : list A) x : x ∈ take n l → x ∈ l.
Proof. rewrite <- (take_drop n l) at 2. intros Hx. apply elem_of_app. by left. Qed.

Definition last_seq (sinceSeq : Z) (evs : list LoggedEvent) : Z :=
  default sinceSeq (le_Seq <$> last evs).

(** A page of [Poll] lists matching events of the log, each once and in
    the order of their sequence, at most 200 of them; a matching event it does
    not list follows a full page, and is found by polling from the last sequence
    of that page.  So a client that polls from where it stopped misses nothing. *)
Theorem Poll_resume b repo sinceSeq types w w' evs :
  wf w → bk_db b = true → Poll b repo sinceSeq types w = (w', Ok evs) →
  w' = w ∧ (length evs ≤ 200)%nat ∧ StronglySorted (λ x y, le_Seq x < le_Seq y) evs ∧
  (∀ ev, ev ∈ evs →
     ∃ r, r ∈ db_event_log (w_db w) ∧ polled repo sinceSeq types r ∧ ev = logged r) ∧
  (∀ r, r ∈ db_event_log (w_db w) → polled repo sinceSeq types r →
     logged r ∈ evs ∨ (length evs = 200%nat ∧ polled repo (last_seq sinceSeq evs) types r)).
Proof.
  intros Hwf Hb E. unfold Poll in E. rewrite Hb in E. cbn [negb] in E. inv_ok.
  set (L := order_by_asc ev_seq (filter (polled repo sinceSeq types) (db_event_log (w_db w)))).
  assert (∀ r, r ∈ L ↔ polled repo sinceSeq types r ∧ r ∈ db_event_log (w_db w)) as HL.
  { intros r. unfold L, order_by_asc. by rewrite order_by_elem, list_elem_of_filter. }
  assert (StronglySorted (λ x y, ev_seq x < ev_seq y) L) as HS.
  { by apply order_by_asc_strict, NoDup_fmap_filter, event_log_NoDup, Hwf. }
  split_and!; [done|rewrite length_fmap, length_take; unfold pollLimit; lia| | |].
  - apply (StronglySorted_take _ _ pollLimit) in HS. revert HS. generalize (take pollLimit L).
    intros k. induction k as [|x k IH]; [constructor|].
    intros [Hx Hk]%StronglySorted_cons. rewrite fmap_cons. apply StronglySorted_cons.
    split; [by apply Forall_fmap|auto].
  - intros ev (r & -> & Hr%take_sub)%list_elem_of_fmap. exists r. by apply HL in Hr as [? ?].
  - intros r Hr Hp. assert (r ∈ L) as Hin by (by apply HL).
    rewrite <- (take_drop pollLimit L) in Hin. apply elem_of_app in Hin as [Hin|Hin];
      [left; by apply list_elem_of_fmap_2|right].
    assert (length (take pollLimit L) = pollLimit) as Hlen.
    { rewrite length_take. apply list_elem_of_lookup_1 in Hin as [i Hi].
      apply lookup_lt_Some in Hi. rewrite length_drop in Hi. lia. }
    rewrite length_fmap. split; [done|]. unfold last_seq. rewrite fmap_last.
    destruct Hp as (Hseq & Hrepo & Htypes). split; [|done].
    destruct (last (take pollLimit L)) as [x|] eqn:Ex; [cbn|done].
    rewrite <- (take_drop pollLimit L) in HS.
    apply (StronglySorted_app_1_elem_of _ _ _ x r HS); [|done].
    apply last_Some in Ex as [k ->]. apply elem_of_app. right. by left.
Qed.

(** ** One pass of the dispatcher *)
Section outbox.
Context {Co : Collation} {Us : UuidSource} {Mr : MapRange} {Jt : JsonbText} {Http : HTTPClient}.

(** The rows a pass claims. *)
Definition claims (n : nat) (t : Z) (d : DB) : list (outbox * subscription) :=
  take n (order_by_asc (λ row, ob_next_attempt row.1)
    (inner_join (claimable t) (db_event_outbox d) (db_event_subscriptions d))).

Definition sql_now (w : World) : Z := w_now w / 1000 * 1000.

Definition mark_claimed (t : Z) (batch : list outboxRow) (d : DB) : DB :=
  set_event_outbox (update_where (λ o, ob_id o ∈ or_ID <$> batch) (with_next_attempt (t + 5 * minute))
    (db_event_outbox d)) d.

Lemma claim_run n w :
  let batch := outbox_row <$> claims n (sql_now w) (w_db w) in
  claimOutboxBatch n w = (with_db (mark_claimed (sql_now w) batch (w_db w)) w, Ok batch).
Proof.
  cbn. unfold claimOutboxBatch. rewrite in_tx_ok by solve_no_rollback.
  unfold now, wrap, gets, mbind, M_bind, mret, M_ret. cbn.
  fold (sql_now w). change (w_db w) with (w_db w). fold (claims n (sql_now w) (w_db w)).
  destruct (decide _) as [->|]; [|done]. f_equal.
  unfold mark_claimed. rewrite update_where_id by (intros x _ ?%elem_of_nil; done).
  destruct w as [[] ? ? ? ? ?]. done.
Qed.

(** What happens to a claimed delivery. *)
Inductive outcome := Untried | Failed (lastErr : string) | Delivered.

Definition outcome_of (row : outboxRow) (t : Z) : outcome :=
  if bool_decide (or_WebhookURL row = "") then Untried else
  match http_NewRequest (or_WebhookURL row) with
  | Some err => Failed ("build request: " +:+ error_text err)
  | None =>
      let body := jsonb_text (or_Event row) in
      let sig := if bool_decide (or_WebhookSecret row = "") then None
                 else Some ("sha256=" +:+ computeHMAC body (or_WebhookSecret row)) in
      match http_Do (or_WebhookURL row) body sig t with
      | Fail err => Failed ("http: " +:+ error_text err)
      | Ok status =>
          if (status <? 200) || (300 <=? status)
          then Failed ("webhook returned status " +:+ FormatInt status) else Delivered
      end
  end.

(** The row of the outbox after an attempt at the time [t]. *)
Definition attempted (t : Z) (row : outboxRow) (o : outbox) : outbox :=
  match outcome_of row t with
  | Untried => o
  | Failed e =>
      with_failure (or_Attempts row + 1) (timestamptz (t + backoff (or_Attempts row))) e o
  | Delivered => with_delivered (t / 1000 * 1000) o
  end.

Definition suspends (t : Z) (row : outboxRow) : Prop :=
  match outcome_of row t with Failed _ => 10 ≤ or_Attempts row + 1 | _ => False end.
#[export] Instance suspends_dec t row : Decision (suspends t row).
Proof. unfold suspends. destruct (outcome_of row t); apply _. Defined.

Definition after_attempt (t : Z) (d : DB) (row : outboxRow) : DB :=
  let d1 := set_event_outbox (update_where (λ o, ob_id o = or_ID row) (attempted t row)
              (db_event_outbox d)) d in
  if decide (suspends t row)
  then set_event_subscriptions (update_where (λ s, sub_id s = or_SubscriptionID row)
         (sub_suspended (t / 1000 * 1000)) (db_event_subscriptions d1)) d1
  else d1.

Lemma set_event_outbox_same d rows : rows = db_event_outbox d → set_event_outbox rows d = d.
Proof. intros ->. by destruct d. Qed.

Lemma update_where_same {A} (P : A → Prop) `{!∀ x, Decision (P x)} l : update_where P (λ x, x) l = l.
Proof.
  unfold update_where. rewrite <- (list_fmap_id l) at 2. apply list_fmap_ext. intros i x _. by case_decide.
Qed.

Lemma deliver_run row w :
  deliverWebhook row w = (with_db (after_attempt (w_now w) (w_db w) row) w, Ok tt).
Proof.
  assert (∀ e, outcome_of row (w_now w) = Failed e →
    markFailed row e w = (with_db (after_attempt (w_now w) (w_db w) row) w, Ok tt)) as Hfail.
  { intros e He. unfold after_attempt, attempted.
    unfold suspends_dec, suspends. rewrite He.
    unfold markFailed, time_Now, now, gets, catch, update_rows, mbind, M_bind, mret, M_ret. cbn.
    destruct (Z.ltb_spec (or_Attempts row + 1) 10) as [Hlt|Hge].
    - rewrite decide_False by lia. done.
    - rewrite decide_True by done. done. }
  unfold deliverWebhook. pose proof Hfail as Hf. unfold outcome_of in Hf.
  case_bool_decide as Hu.
  { unfold after_attempt, attempted, suspends_dec, suspends, outcome_of.
    rewrite bool_decide_true by done. rewrite decide_False by tauto.
    rewrite update_where_same, set_event_outbox_same by done. by destruct w. }
  destruct (http_NewRequest _) as [err|] eqn:En; [by apply Hf|].
  unfold time_Now, gets, mbind, M_bind.
  destruct (http_Do _ _ _ _) as [status|err] eqn:Ed; [|by apply Hf].
  destruct ((status <? 200) || (300 <=? status)) eqn:Es; [by apply Hf|].
  assert (outcome_of row (w_now w) = Delivered) as Ho.
  { unfold outcome_of. by rewrite bool_decide_false, En, Ed, Es. }
  unfold after_attempt, attempted, suspends_dec, suspends. rewrite Ho.
  rewrite decide_False by tauto. done.
Qed.

Lemma mapM_deliver_run batch w :
  mapM deliverWebhook batch w
  = (with_db (foldl (after_attempt (w_now w)) (w_db w) batch) w, Ok (replicate (length batch) tt)).
Proof.
  revert w. induction batch as [|row batch IH]; intros w; [by destruct w|].
  cbn. unfold mbind, M_bind. rewrite deliver_run, IH. done.
Qed.

Lemma process_run w :
  let batch := outbox_row <$> claims 50 (sql_now w) (w_db w) in
  processOutboxBatch w =
  (with_db (foldl (after_attempt (w_now w)) (mark_claimed (sql_now w) batch (w_db w)) batch) w, Ok tt).
Proof.
  cbn. unfold processOutboxBatch, catch, mbind, M_bind. rewrite claim_run.
  by rewrite mapM_deliver_run.
Qed.

Definition claim_of (batch : list outboxRow) (o : outbox) : option outboxRow :=
  head (filter (λ row, or_ID row = ob_id o) batch).

Lemma attempted_id t row o : ob_id (attempted t row o) = ob_id o.
Proof. unfold attempted. by destruct (outcome_of row t). Qed.

Lemma after_attempt_outbox t d row :
  db_event_outbox (after_attempt t d row)
  = update_where (λ o, ob_id o = or_ID row) (attempted t row) (db_event_outbox d).
Proof. unfold after_attempt. by case_decide. Qed.

Lemma foldl_attempts t batch d :
  NoDup (or_ID <$> batch) →
  db_event_outbox (foldl (after_attempt t) d batch)
  = (λ o, match claim_of batch o with Some row => attempted t row o | None => o end)
      <$> db_event_outbox d.
Proof.
  revert d. induction batch as [|row batch IH]; intros d HN; cbn.
  - rewrite <- (list_fmap_id (db_event_outbox d)) at 1. done.
  - apply NoDup_cons in HN as [Hrow HN]. rewrite (IH _ HN), after_attempt_outbox.
    unfold update_where. rewrite <- list_fmap_compose. apply list_fmap_ext.
    intros i o _. cbn. unfold claim_of. rewrite filter_cons. case_decide as Hid.
    + rewrite decide_True by done. rewrite filter_none; [done|].
      intros r Hr E. rewrite attempted_id, Hid in E. apply Hrow. rewrite <- E.
      by apply list_elem_of_fmap_2.
    + rewrite decide_False by done. done.
Qed.

Lemma claims_elem n t d o s :
  (o, s) ∈ claims n t d →
  o ∈ db_event_outbox d ∧ s ∈ db_event_subscriptions d ∧ claimable t o s.
Proof.
  intros Hin%take_sub. apply order_by_elem in Hin. by apply inner_join_elem in Hin.
Qed.

Lemma claims_NoDup n t d : wf_db d → NoDup (or_ID <$> (outbox_row <$> claims n t d)).
Proof.
  intros Hwf. rewrite <- list_fmap_compose.
  assert (or_ID ∘ outbox_row <$> claims n t d = (λ row, ob_id row.1) <$> claims n t d) as ->.
  { apply list_fmap_ext. by intros _ [o s] _. }
  unfold claims. rewrite fmap_take. apply NoDup_take. unfold order_by_asc.
  rewrite merge_sort_Permutation. apply inner_join_NoDup; [by apply event_outbox_NoDup|].
  intros o _. destruct (ob_subscription_id o) as [i|] eqn:Ei.
  - pose proof (subscriptions_NoDup d Hwf) as HN. revert HN.
    induction (db_event_subscriptions d) as [|s l IH]; intros HN; [cbn; lia|].
    rewrite fmap_cons in HN. apply NoDup_cons in HN as [Hs HN]. rewrite filter_cons.
    case_decide as Hc; [|by apply IH]. rewrite filter_none; [cbn; lia|].
    intros s' Hs' (Hi & _). apply Hs. destruct Hc as (Hc & _).
    assert (sub_id s = sub_id s') as -> by congruence. by apply list_elem_of_fmap_2.
  - rewrite filter_none; [cbn; lia|]. intros s _ (Hs & _). congruence.
Qed.

(** The deliveries after a pass at the time [w_now w]. *)
Definition processed (w : World) (o : outbox) : outbox :=
  match claim_of (outbox_row <$> claims 50 (sql_now w) (w_db w)) o with
  | Some row => attempted (w_now w) row (with_next_attempt (sql_now w + 5 * minute) o)
  | None => o
  end.

Lemma processed_outbox w :
  wf w →
  db_event_outbox (w_db (exec processOutboxBatch w)) = processed w <$> db_event_outbox (w_db w).
Proof.
  intros Hwf. unfold exec. rewrite process_run. cbn [fst w_db with_db].
  rewrite foldl_attempts by apply claims_NoDup, Hwf. cbn.
  unfold update_where. rewrite <- list_fmap_compose. apply list_fmap_ext. intros i o _. cbn.
  unfold processed, claim_of. cbn [ob_id with_next_attempt]. case_decide as Hin.
  { cbn [ob_id with_next_attempt].
    destruct (filter _ _) as [|row l] eqn:E; [|done]. exfalso.
    apply list_elem_of_fmap in Hin as (row & Hid & Hrow). eapply elem_of_nil.
    erewrite <- E. by apply list_elem_of_filter. }
  rewrite filter_none; [done|]. intros row Hrow E. apply Hin. rewrite <- E.
  by apply list_elem_of_fmap_2.
Qed.

(** A claimed delivery was due, undelivered, tried less than ten times, and its
    subscription is an active webhook. *)
Lemma claim_of_Some w o row :
  wf w → o ∈ db_event_outbox (w_db w) →
  claim_of (outbox_row <$> claims 50 (sql_now w) (w_db w)) o = Some row →
  ∃ s, s ∈ db_event_subscriptions (w_db w) ∧ claimable (sql_now w) o s ∧ row = outbox_row (o, s).
Proof.
  intros Hwf Ho Hrow. unfold claim_of in Hrow.
  destruct (filter _ _) as [|x l] eqn:E; [done|]. injection Hrow as ->.
  assert (row ∈ row :: l) as Hin by (by left). rewrite <- E in Hin.
  apply list_elem_of_filter in Hin as [Hid ([o' s] & -> & Hos)%list_elem_of_fmap].
  apply claims_elem in Hos as (Ho' & Hs & Hc).
  assert (o' = o) as ->.
  { apply (NoDup_fmap_inj ob_id (db_event_outbox (w_db w))); try done. apply event_outbox_NoDup, Hwf. }
  eauto.
Qed.

(** ** Tries are bounded *)

Definition tries_bounded (d : DB) : Prop :=
  Forall (λ o, 0 ≤ ob_attempts o ≤ 10) (db_event_outbox d).

Lemma process_tries_bounded w :
  wf w → tries_bounded (w_db w) → tries_bounded (w_db (exec processOutboxBatch w)).
Proof.
  intros Hwf HF. unfold tries_bounded. rewrite processed_outbox by done. apply Forall_fmap.
  unfold tries_bounded in HF. rewrite Forall_forall in HF |- *. intros o Ho. specialize (HF o Ho).
  unfold compose, processed. destruct (claim_of _ o) as [row|] eqn:E; [|done].
  apply claim_of_Some in E as (s & _ & (_ & _ & _ & Hlt & _) & ->); [|done..].
  unfold attempted. destruct (outcome_of _ _); cbn; lia.
Qed.

(** The tries left to the undelivered rows. *)
Definition tries_left (o : outbox) : nat :=
  match ob_delivered_at o with None => Z.to_nat (10 - ob_attempts o) | Some _ => 0 end.
Definition pending (d : DB) : nat := sum_list_with tries_left (db_event_outbox d).

(** Every active webhook has a URL. *)
Definition has_urls (d : DB) : Prop :=
  Forall (λ s, sub_backend s = "webhook" → default "" (json_text "url" (sub_config s)) ≠ "")
    (db_event_subscriptions d).

Lemma sum_list_decrease {A} (f : A → nat) (g : A → A) (P : A → Prop) `{!∀ x, Decision (P x)} l :
  (∀ x, x ∈ l → (f (g x) + (if decide (P x) then 1 else 0) ≤ f x)%nat) →
  (sum_list_with f (g <$> l) + length (filter P l) ≤ sum_list_with f l)%nat.
Proof.
  induction l as [|x l IH]; intros Hl; [done|]. rewrite fmap_cons, filter_cons. cbn.
  pose proof (Hl x ltac:(left)) as Hx. assert (∀ y, y ∈ l → (f (g y) + (if decide (P y) then 1 else 0) ≤ f y)%nat) as Hl'.
  { intros y Hy. apply Hl. by right. }
  specialize (IH Hl'). case_decide; cbn; lia.
Qed.

Lemma process_pending w :
  wf w → has_urls (w_db w) →
  (pending (w_db (exec processOutboxBatch w)) + length (claims 50 (sql_now w) (w_db w))
   ≤ pending (w_db w))%nat.
Proof.
  intros Hwf Hurls. unfold pending. rewrite processed_outbox by done.
  set (batch := outbox_row <$> claims 50 (sql_now w) (w_db w)).
  transitivity (sum_list_with tries_left (processed w <$> db_event_outbox (w_db w))
    + length (filter (λ o, is_Some (claim_of batch o)) (db_event_outbox (w_db w))))%nat.
  - apply Nat.add_le_mono_l. rewrite <- (length_fmap outbox_row). fold batch.
    rewrite <- (length_fmap or_ID batch), <- (length_fmap ob_id (filter _ _)).
    apply submseteq_length, NoDup_submseteq; [by apply claims_NoDup, Hwf|].
    intros i (row & -> & Hrow)%list_elem_of_fmap. pose proof Hrow as Hrow'.
    unfold batch in Hrow. apply list_elem_of_fmap in Hrow as ([o s] & -> & Hos).
    apply claims_elem in Hos as (Ho & _ & _). cbn. apply list_elem_of_fmap_2, list_elem_of_filter.
    split; [|done]. unfold claim_of.
    destruct (filter _ batch) eqn:E; [|by eexists]. exfalso. eapply elem_of_nil. erewrite <- E.
    apply list_elem_of_filter. by split; [|exact Hrow'].
  - apply sum_list_decrease. intros o Ho. unfold processed. fold batch.
    destruct (claim_of batch o) as [row|] eqn:E;
      [|rewrite decide_False by (by intros [? ?]); lia].
    rewrite decide_True by done.
    apply claim_of_Some in E as (s & Hs & (_ & Hdel & _ & Hlt & _ & Hwebhook) & ->); [|done..].
    unfold has_urls in Hurls. rewrite Forall_forall in Hurls. specialize (Hurls s Hs Hwebhook).
    unfold attempted, tries_left at 2. rewrite Hdel.
    destruct (outcome_of _ _) eqn:Eo; cbn.
    + unfold outcome_of in Eo. rewrite bool_decide_false in Eo by exact Hurls.
      repeat case_match; done.
    + unfold tries_left. cbn. rewrite Hdel. lia.
    + lia.
Qed.

Definition at_time (t : Z) (w : World) : World :=
  mkWorld (w_db w) (w_commit_seq w) (w_event_seq w) (w_uuids w) (w_blobs w) t.

(** Passes of the dispatcher at the times [ts], and the attempts they make. *)
Fixpoint passes (ts : list Z) (w : World) : World :=
  match ts with
  | [] => w
  | t :: ts => passes ts (exec processOutboxBatch (at_time t w))
  end.
Fixpoint attempts_made (ts : list Z) (w : World) : nat :=
  match ts with
  | [] => 0
  | t :: ts =>
      length (claims 50 (sql_now (at_time t w)) (w_db w))
      + attempts_made ts (exec processOutboxBatch (at_time t w))
  end.

Lemma process_has_urls w : has_urls (w_db w) → has_urls (w_db (exec processOutboxBatch w)).
Proof.
  revert w. change (guarantees (keeps_inv has_urls) processOutboxBatch). solve_guarantees.
  all: intros Hd; unfold has_urls in *; cbn; try done.
  all: apply Forall_fmap; eapply Forall_impl; [exact Hd|]; intros s Hs; unfold compose; by case_decide.
Qed.

(** C15: the dispatcher comes to rest.  Whatever the endpoints answer and however
    often it runs, it makes at most ten attempts per delivery in the outbox, and
    each attempt uses up one of them or delivers the event; an event is not
    lost in an endless loop of retries.  Every webhook must have a URL: without
    one the dispatcher claims the delivery and puts it back untouched. *)
Theorem dispatcher_rests ts w :
  wf w → has_urls (w_db w) → tries_bounded (w_db w) →
  (pending (w_db (passes ts w)) + attempts_made ts w ≤ pending (w_db w)
   ≤ 10 * length (db_event_outbox (w_db w)))%nat.
Proof.
  intros Hwf Hu Hb. split.
  - clear Hb. revert w Hwf Hu. induction ts as [|t ts IH]; intros w Hwf Hu; cbn; [lia|].
    assert (wf (at_time t w)) as Hwf' by (destruct Hwf; by split).
    pose proof (process_pending (at_time t w) Hwf' Hu) as Hp. cbn [w_db at_time] in Hp.
    assert (wf (exec processOutboxBatch (at_time t w))) as Hwf2.
    { apply preserves_wf; [eauto with docstore|done]. }
    specialize (IH _ Hwf2 (process_has_urls (at_time t w) Hu)). cbn [w_db at_time] in *. lia.
  - unfold tries_bounded in Hb. unfold pending. induction Hb as [|o l Ho Hl IH]; cbn; [lia|].
    unfold tries_left at 1. case_match; lia.
Qed.

(** ** Concurrent dispatchers *)

(** Two dispatchers that claim at the same moment never claim the same
    delivery: what the first one took is no longer due for the second. *)
Theorem claims_disjoint n m w w1 batch1 w2 batch2 id :
  claimOutboxBatch n w = (w1, Ok batch1) → claimOutboxBatch m w1 = (w2, Ok batch2) →
  id ∈ or_ID <$> batch1 → id ∉ or_ID <$> batch2.
Proof.
  rewrite !claim_run. intros [= <- <-] [= <- <-] H1 H2. cbn in H2.
  apply list_elem_of_fmap in H2 as (row & -> & ([o s] & -> & Hos)%list_elem_of_fmap).
  apply claims_elem in Hos as (Ho & _ & (_ & _ & Hdue & _)). cbn in Ho, H1.
  apply elem_of_update_where in Ho as (o' & _ & ->).
  change (sql_now (with_db _ w)) with (sql_now w) in Hdue.
  case_decide as Hd; [|by destruct Hd]. cbn in Hdue. unfold minute in Hdue. lia.
Qed.

(** ** Emitting *)

Definition to_log (e : Event) (r : logged_event) : Prop :=
  ev_repo r = repoFromSource (Source e) ∧ ev_type r = Type_ e.
Definition to_outbox (t : Z) (s : subscription) (o : outbox) : Prop :=
  ob_subscription_id o = Some (sub_id s) ∧ ob_attempts o = 0 ∧ ob_next_attempt o = t ∧
  ob_delivered_at o = None.

(** The identifiers still to be drawn are not those of the outbox. *)
Definition fresh_ids (w : World) : Prop :=
  ∀ k, (w_uuids w ≤ k)%nat → uuid_nth k ∉ ob_id <$> db_event_outbox (w_db w).

Lemma existsb_false {A} (f : A → bool) l : (∀ x, x ∈ l → f x = false) → existsb f l = false.
Proof.
  intros Hl. destruct (existsb f l) eqn:E; [|done].
  apply existsb_exists in E as (x & Hx%list_elem_of_In & Hf). by rewrite Hl in Hf.
Qed.

Lemma insert_outboxes event subs w :
  Inj (=) (=) uuid_nth → fresh_ids w →
  (∀ s, s ∈ subs → s ∈ db_event_subscriptions (w_db w)) →
  ∃ rows rs,
    mapM (λ i, catch (insert_outbox event i)) (sub_id <$> subs) w
    = (mkWorld (set_event_outbox (db_event_outbox (w_db w) ++ rows) (w_db w)) (w_commit_seq w)
         (w_event_seq w) (w_uuids w + length subs) (w_blobs w) (w_now w), Ok rs) ∧
    Forall2 (to_outbox (sql_now w)) subs rows.
Proof.
  intros Hinj. revert w. induction subs as [|s subs IH]; intros w Hf Hs.
  - exists [], []. split; [|constructor]. cbn. unfold mret, M_ret. rewrite app_nil_r, Nat.add_0_r.
    rewrite set_event_outbox_same by done. by destruct w.
  - set (o := mkOutbox (uuid_nth (w_uuids w)) event (Some (sub_id s)) (sql_now w) 0 (sql_now w) None None).
    set (w1 := mkWorld (set_event_outbox (db_event_outbox (w_db w) ++ [o]) (w_db w)) (w_commit_seq w)
                 (w_event_seq w) (S (w_uuids w)) (w_blobs w) (w_now w)).
    assert (catch (insert_outbox event (sub_id s)) w = (w1, Ok (Ok tt))) as E.
    { unfold catch, insert_outbox, uuid_New, now, gets, mbind, M_bind, insert_row. cbn.
      rewrite existsb_false.
      - rewrite bool_decide_true; [done|]. apply list_elem_of_fmap_2, Hs. by left.
      - intros x Hx. apply bool_decide_eq_false. cbn. intros Ex.
        apply (Hf (w_uuids w)); [done|]. rewrite Ex. by apply list_elem_of_fmap_2. }
    destruct (IH w1) as (rows & rs & Er & HF).
    + intros k Hk. cbn in Hk |- *. rewrite fmap_app. intros [Hin|Hin%list_elem_of_singleton]%elem_of_app.
      * apply (Hf k); [lia|done].
      * apply Hinj in Hin. lia.
    + intros x Hx. apply Hs. by right.
    + exists (o :: rows), (Ok tt :: rs). split; [|by constructor].
      rewrite fmap_cons, (mapM_cons_run (λ i, catch (insert_outbox event i)) _ _ _ _ _ _ _ E Er). cbn. f_equal. f_equal; [|lia].
      unfold set_event_outbox. cbn. by rewrite <- (assoc_L (++)).
Qed.

Lemma ToCloudEvent_run e w : ∃ p, ToCloudEvent e w = (with_uuids (S (w_uuids w)) w, Ok p).
Proof. by eexists. Qed.

(** [Emit] logs its errors. *)
Lemma Emit_returns b e w : ∃ w', Emit b e w = (w', Ok tt).
Proof.
  unfold Emit. destruct (negb _); [by exists w|].
  destruct (ToCloudEvent_run e w) as [p E]. unfold mbind, M_bind. rewrite E. unfold catch.
  destruct (insert_event _ _ _ _) as [w1 r1], (insertOutboxForEvent _ _) as [w2 r2]. by exists w2.
Qed.

Lemma insert_event_run repo type payload w :
  (∀ r, r ∈ db_event_log (w_db w) → ev_seq r ≤ w_event_seq w) → w_event_seq w < int64_max →
  catch (insert_event repo type payload) w
  = (mkWorld (set_event_log (db_event_log (w_db w) ++
         [mkLoggedEvent (w_event_seq w + 1) repo type payload (sql_now w)]) (w_db w)) (w_commit_seq w)
       (w_event_seq w + 1) (w_uuids w) (w_blobs w) (w_now w), Ok (Ok tt)).
Proof.
  intros Hseq Hmax. apply catch_run. unfold insert_event.
  erewrite bind_run; [|unfold nextval_event_log; by rewrite (proj2 (Z.ltb_ge _ _)) by lia].
  erewrite bind_run; [|done]. unfold insert_row. cbn. rewrite existsb_false; [done|].
  intros x Hx. apply bool_decide_eq_false. cbn. specialize (Hseq x Hx). lia.
Qed.


(** ** Every reachable world *)

Lemma backoff_small n : 0 ≤ n < 10 → backoff n = 2 ^ n * second.
Proof.
  intros Hn. destruct (Z_of_nat_complete n ltac:(lia)) as [k ->].
  do 10 (destruct k as [|k]; [reflexivity|]). lia.
Qed.

Lemma reachable_tries_ok w : reachable w → tries_bounded (w_db w).
Proof.
  induction 1 as [now|w w' Hr IH Hstep]; [constructor|].
  pose proof (reachable_ok w Hr) as Hwf.
  destruct Hstep; try exact IH; try (by apply process_tries_bounded);
    unfold exec; match goal with |- tries_bounded (w_db (?m ?w).1) =>
      revert w IH Hr Hwf; enough (guarantees (keeps_inv tries_bounded) m) as Hg by (intros w IH _ _; exact (Hg w IH)) end.
  all: solve_guarantees; intros Hd; unfold tries_bounded in *; cbn; try done.
  - by apply Forall_filter_2.
  - apply Forall_app. split; [done|]. apply Forall_singleton. cbn. lia.
  - by apply Forall_delete_where.
Qed.

(** C16: bounds of the outbox.  In every reachable world a delivery has been
    tried between 0 and 10 times.  So the delay before the next try, of a
    delivery tried [n] times, is exactly [2^n] seconds: the shift and the
    product never overflow, and the cap of one hour never applies. *)
Theorem reachable_tries w :
  reachable w →
  tries_bounded (w_db w) ∧
  ∀ o s, o ∈ db_event_outbox (w_db w) → claimable (sql_now w) o s →
    backoff (ob_attempts o) = 2 ^ ob_attempts o * second ∧ backoff (ob_attempts o) < 60 * minute.
Proof.
  intros Hr. pose proof (reachable_tries_ok w Hr) as Hb. split; [done|].
  intros o s Ho (_ & _ & _ & Hlt & _). unfold tries_bounded in Hb. rewrite Forall_forall in Hb.
  specialize (Hb o Ho). rewrite backoff_small by lia. split; [done|].
  pose proof (Z.pow_le_mono_r 2 (ob_attempts o) 9). unfold second, minute. lia.
Qed.

(** ** Events about secrets *)

Definition secret_repo (e : SecretEvent) : string :=
  match e with
  | SecretCreated repo _ _ _ _ | SecretUpdated repo _ _ _ _ | SecretDeleted repo _ _ _
  | SecretAccessed repo _ _ _ _ => repo
  end.

(** The source of an event about a secret names the secret, and what
    [repoFromSource] makes of it is not the repository.  So nobody who follows
    one repository sees the events about its secrets: neither a poll of the
    repository's log, nor a webhook subscription limited to it. *)
Theorem secret_events_unseen (e : SecretEvent) :
  secret_repo e ≠ "*" →
  (∀ r since types, to_log e r → ¬ polled (secret_repo e) since types r) ∧
  (∀ s, sub_repo s = Some (secret_repo e) → ¬ subscribed (repoFromSource (Source e)) (Type_ e) s).
Proof.
  intros Hstar.
  assert (repoFromSource (Source e) ≠ secret_repo e) as Hne.
  { unfold repoFromSource. destruct e; cbn [Source secret_event_source secret_repo];
      rewrite HasPrefix_app, TrimPrefix_app;
      intros E%(f_equal String.length); rewrite !string_length_app in E; cbn in E; lia. }
  split.
  - intros r since types [Hr _] (_ & [?|Hp] & _); [done|]. congruence.
  - intros s Hs (_ & _ & [?|Hp] & _); congruence.
Qed.
End outbox.

(** ** Witnesses *)

Definition sample_broker : Broker := NewBroker true.

(** A repository with a webhook on a dead endpoint. *)
Definition webhook_request : CreateSubscriptionRequest :=
  mkCreateSubscriptionRequest (Some "o/r") None "webhook"
    (JObject [("url", JString "http://down")]) "root".
Definition webhook_world : World := exec (CreateSubscription webhook_request) repo_world.
Definition sample_event : Event := CommitCreated "o/r" "main" 1 "alice" "first" 2.
Definition emitted_world : World := exec (Emit sample_broker sample_event) webhook_world.

Lemma webhook_world_wf : wf webhook_world.
Proof. apply preserves_wf; [eauto with docstore|apply repo_world_wf]. Qed.
Lemma emitted_world_wf : wf emitted_world.
Proof. apply preserves_wf; [eauto with docstore|apply webhook_world_wf]. Qed.
Lemma webhook_world_reachable : reachable webhook_world.
Proof.
  eapply reach_step; [|apply (step_CreateSubscription webhook_request)].
  eapply reach_step; [|apply (step_CreateRepo (mkCreateRepoRequest "o" "r" "root"))].
  eapply reach_step; [|apply (step_CreateOrg "o" "root")]. apply reach_init.
Qed.
Lemma emitted_world_reachable : reachable emitted_world.
Proof.
  eapply reach_step; [apply webhook_world_reachable|apply (step_Emit sample_broker sample_event)].
Qed.

#[local] Instance uuid_nth_inj : Inj (=) (=) (uuid_nth : nat → string).
Proof. intros n m E. unfold uuid_nth, sample_uuids in E. simplify_eq. done. Qed.

Lemma Poll_resume_witness :
  ∃ evs, Poll sample_broker "o/r" 0 [] emitted_world = (emitted_world, Ok evs) ∧
    length evs = 1%nat ∧ (length evs ≤ 200)%nat.
Proof.
  destruct (Poll sample_broker "o/r" 0 [] emitted_world) as [w' [evs|e]] eqn:E;
    [|vm_compute in E; discriminate E].
  destruct (Poll_resume sample_broker "o/r" 0 [] emitted_world w' evs emitted_world_wf eq_refl E)
    as (-> & Hlen & _).
  exists evs. split_and!; [done| |done]. vm_compute in E. injection E as <-. reflexivity.
Defined.

Lemma dispatcher_rests_witness :
  let ts := [1700000001000000000; 1700000002000000000; 1700000600000000000] in
  (pending (w_db (passes ts emitted_world)) + attempts_made ts emitted_world
   ≤ pending (w_db emitted_world) ≤ 10 * length (db_event_outbox (w_db emitted_world)))%nat
  ∧ attempts_made ts emitted_world = 3%nat.
Proof.
  split.
  - apply dispatcher_rests; [exact emitted_world_wf|by vm_compute; repeat constructor|].
    unfold tries_bounded. by_decide.
  - vm_compute. reflexivity.
Defined.

Lemma claims_disjoint_witness :
  let w1 := exec (claimOutboxBatch 50) emitted_world in
  ∃ b1 b2, returned (claimOutboxBatch 50) emitted_world = Some b1 ∧
    returned (claimOutboxBatch 50) w1 = Some b2 ∧ length b1 = 1%nat ∧
    ∀ id, id ∈ or_ID <$> b1 → id ∉ or_ID <$> b2.
Proof.
  destruct (returned (claimOutboxBatch 50) emitted_world) as [b1|] eqn:E1;
    [|vm_compute in E1; discriminate E1].
  destruct (returned (claimOutboxBatch 50) (exec (claimOutboxBatch 50) emitted_world)) as [b2|] eqn:E2;
    [|vm_compute in E2; discriminate E2].
  exists b1, b2. split_and!; [done..|vm_compute in E1; injection E1 as <-; reflexivity|].
  intros id. apply (claims_disjoint 50 50 emitted_world (exec (claimOutboxBatch 50) emitted_world) b1
    (exec (claimOutboxBatch 50) (exec (claimOutboxBatch 50) emitted_world)) b2 id); by apply run_exec.
Defined.


Lemma reachable_tries_witness :
  tries_bounded (w_db emitted_world) ∧ backoff 3 = 8 * second.
Proof.
  split; [exact (proj1 (reachable_tries emitted_world emitted_world_reachable))|reflexivity].
Defined.

Lemma secret_events_unseen_witness :
  ¬ polled "o/r" 0 [] (mkLoggedEvent 1 "o/r/-/secrets/TOKEN" "com.docstore.secret.created" JNull 0).
Proof.
  destruct (secret_events_unseen (SecretCreated "o/r" "TOKEN" "uuid-1" 4 "root")) as [Hp _]; [discriminate|].
  apply Hp. split; reflexivity.
Defined.
