(* ===== verification/PolicySpec.v ===== *)
(** * What the policies guarantee

    The owners of a file are those of the nearest directory that has any; a
    merge is allowed only if every policy says so.  The counterexamples show
    two ways around a policy: a file that sorts between the name of the policy
    directory and its contents hides all policies, and a load that overlaps an
    invalidation keeps the old policies in the cache. *)

From S2P Require Import Prelude GoStd Schema Tx Run Integrity Orgs Blob Commits Merge ReadStore Reviews Issues.
From S2P Require Import EventTypes Events Views Samples CommitSpec MergeSpec TreeSpec Policy.

Section Owners.
Context {Mr : MapRange}.

(** ** Owners *)

(** The directory [k] holds [filePath]. *)
Definition covers (k filePath : string) : Prop :=
  k = "" ∨ HasPrefix filePath (k +:+ "/") = true.

Lemma match_len_covers filePath k n :
  match_len filePath k = Some n ↔ covers k filePath ∧ n = Z.of_nat (String.length k).
Proof.
  unfold match_len, covers. case_bool_decide as E; [subst|].
  - split; [intros [= <-]; by split; [left|]|by intros [_ ->]].
  - destruct (HasPrefix _ _) eqn:Ep.
    + split; [intros [= <-]; by split; [right|]|by intros [_ ->]].
    + split; [done|]. by intros [[?|?] _].
Qed.

(** Two directories of one file with names of one length are the same. *)
Lemma covers_unique k k' filePath :
  covers k filePath → covers k' filePath → String.length k = String.length k' → k = k'.
Proof.
  assert (∀ s t p q, s +:+ p = t +:+ q → String.length s = String.length t → s = t) as Happ.
  { induction s as [|c s IH]; intros [|d t] p q; try done. rewrite !string_app_cons.
    intros [= -> E] [= El]. f_equal. by eapply IH. }
  intros [->|[t Ht]%HasPrefix_spec] [->|[t' Ht']%HasPrefix_spec]; try done.
  - by destruct k'.
  - by destruct k.
  - rewrite Ht, !string_app_assoc in Ht'. intros El. by eapply Happ.
Qed.

Lemma resolve_best filePath keys best0 len0 :
  (0 ≤ len0 → covers best0 filePath ∧ len0 = Z.of_nat (String.length best0)) → -1 ≤ len0 →
  let '(best, len) := foldl (resolve_step filePath) (best0, len0) keys in
  len0 ≤ len ∧ -1 ≤ len ∧
  (0 ≤ len → covers best filePath ∧ len = Z.of_nat (String.length best) ∧
             (len = len0 ∧ best = best0 ∨ best ∈ keys)) ∧
  ∀ k, k ∈ keys → covers k filePath → Z.of_nat (String.length k) ≤ len.
Proof.
  revert best0 len0. induction keys as [|k keys IH]; intros best0 len0 H0 Hlen; cbn.
  - split_and!; [done..| |by intros k ?%elem_of_nil]. intros Hpos.
    destruct (H0 Hpos). split_and!; auto.
  - assert (∀ n, match_len filePath k = Some n → 0 ≤ n) as Hnn.
    { intros n [_ ->]%match_len_covers. lia. }
    unfold resolve_step at 2. cbn [snd].
    destruct (match_len filePath k) as [n|] eqn:E.
    + specialize (Hnn n eq_refl). apply match_len_covers in E as [Hc ->].
      destruct (Z.ltb_spec len0 (Z.of_nat (String.length k))).
      * specialize (IH k (Z.of_nat (String.length k)) ltac:(done) ltac:(lia)).
        destruct (foldl _ _ keys) as [best len]. destruct IH as (Hl & Hm & Hb & Hk).
        split_and!; [lia|done| |].
        -- intros Hpos. destruct (Hb Hpos) as (? & ? & [[? ->]|?]); split_and!; try done; right; [left|by right].
        -- intros k' [->|Hk']%elem_of_cons Hc'; [done|auto].
      * specialize (IH best0 len0 H0 Hlen).
        destruct (foldl _ _ keys) as [best len]. destruct IH as (Hl & Hm & Hb & Hk).
        split_and!; [done|done| |].
        -- intros Hpos. destruct (Hb Hpos) as (? & ? & [?|?]); split_and!; try done; [by left|right; by right].
        -- intros k' [->|Hk']%elem_of_cons Hc'; [lia|auto].
    + specialize (IH best0 len0 H0 Hlen).
      destruct (foldl _ _ keys) as [best len]. destruct IH as (Hl & Hm & Hb & Hk).
      split_and!; [done|done| |].
      * intros Hpos. destruct (Hb Hpos) as (? & ? & [?|?]); split_and!; try done; [by left|right; by right].
      * intros k' [->|Hk']%elem_of_cons Hc'; [|auto].
        assert (match_len filePath k = Some (Z.of_nat (String.length k))) by (by apply match_len_covers).
        congruence.
Qed.

(** The owners of a file are those the map gives to the longest directory
    name that holds the file, whatever order the map is visited in; there are
    none when no directory of the map holds it. *)
Theorem ResolveOwners_nearest m filePath :
  match ResolveOwners m filePath with
  | Some ids =>
      ∃ k, m !! k = Some ids ∧ covers k filePath ∧
        ∀ k', is_Some (m !! k') → covers k' filePath → k' = k ∨ (String.length k' < String.length k)%nat
  | None => ∀ k, is_Some (m !! k) → ¬ covers k filePath
  end.
Proof.
  unfold ResolveOwners.
  assert (∀ k, k ∈ (fst <$> map_range 11 m) ↔ is_Some (m !! k)) as Hkeys.
  { intros k. rewrite map_range_perm, list_elem_of_fmap. split.
    - intros ([k' v] & -> & Hin%elem_of_map_to_list). by exists v.
    - intros [v Hv]. exists (k, v). split; [done|]. by apply elem_of_map_to_list. }
  pose proof (resolve_best filePath (fst <$> map_range 11 m) "" (-1) ltac:(lia) ltac:(lia)) as Hb.
  destruct (foldl _ _ _) as [best len]. destruct Hb as (_ & Hm & Hb & Hk).
  destruct (Z.ltb_spec len 0).
  - intros k Hin%Hkeys Hc. specialize (Hk k Hin Hc). lia.
  - destruct Hb as (Hc & -> & [[? _]|Hin]); [done|lia|].
    apply Hkeys in Hin as [ids Hids]. rewrite Hids. exists best. split_and!; [done..|].
    intros k' Hk' Hc'. pose proof Hk' as Hin%Hkeys. specialize (Hk k' Hin Hc').
    destruct (decide (String.length k' = String.length best)) as [El|]; [|lia].
    left. by eapply covers_unique.
Qed.
End Owners.

Section PolicySpec.
Context {Co : Collation} {Mr : MapRange} {Opa : OPA}.
Variable blob : option BlobStore.

(** ** Evaluation *)

Lemma rmapM_Forall2 {A B} (f : A → result B) l bs :
  rmapM f l = Ok bs → Forall2 (λ a b, f a = Ok b) l bs.
Proof.
  revert bs. induction l as [|a l IH]; intros bs; cbn; [intros [= <-]; constructor|].
  destruct (f a) as [b|] eqn:Ea; [cbn|done]. destruct (rmapM f l) as [bs'|]; [cbn|done].
  intros [= <-]. constructor; auto.
Qed.

(** The policy's rule [allow] is true of the input. *)
Definition allows (p : preparedPolicy) (input : Input) : Prop :=
  ∃ rs, opa_Eval (pp_allowPQ p) input = Ok rs ∧ first_value rs = Some (JBool true).

Lemma evalPrepared_pass p input r :
  evalPrepared p input = Ok r → pr_Pass r = true ↔ allows p input.
Proof.
  unfold evalPrepared, allows. destruct (opa_Eval (pp_allowPQ p) input) as [rs|]; [cbn|done].
  destruct (first_value rs) as [[|[]| | | |]|] eqn:Ef; cbn;
    try (destruct (opa_Eval (pp_reasonPQ p) input) as [rs'|]; cbn; [|done]);
    intros [= <-]; cbn; (split; [done || by intros; eexists|intros (? & [= <-] & ?); congruence || done]).
Qed.

Lemma Load_entry repo c w c' w' v :
  Load blob repo c w = (c', w', Ok v) → ∃ entry, c' !! repo = Some entry ∧ v = entry_value entry.
Proof.
  unfold Load, load_lookup, load_store. destruct (c !! repo) as [entry|] eqn:E.
  - intros [= <- <- <-]. eauto.
  - destruct (loadEntry blob repo w) as [w1 [entry|]]; [|done]. intros [= <- <- <-].
    exists entry. split; [apply (lookup_insert_eq (M:=gmap string))|done].
Qed.

(** C17: a merge is allowed only when every policy says so.  When the evaluation
    returns no denial, either the cache now holds no engine for the repository
    (no policy is defined), or the branch does not exist, or each policy of the
    engine evaluated its rule [allow] to true on the input assembled from the
    branch.  An error of any policy is an error of the evaluation. *)
Theorem EvaluatePolicy_allows repo branch actor c w c' w' :
  EvaluatePolicy blob true repo branch actor c w = (c', w', Ok []) →
  ∃ w1 entry, Load blob repo c w = (c', w1, Ok (entry_value entry)) ∧ c' !! repo = Some entry ∧
  match (entry_value entry).1 with
  | None => True
  | Some engine =>
      ∃ input, AssembleInput repo branch actor (entry_value entry).2 w1 = (w', Ok input) ∧
      match input with
      | None => True
      | Some input => Forall (λ p, allows p input) engine
      end
  end.
Proof.
  unfold EvaluatePolicy. cbn [negb]. unfold mbind, PM_bind, lift, of_result, pwrap, mret, PM_ret.
  destruct (Load blob repo c w) as [[c1 w1] [[engine owners]|e]] eqn:El; [|done].
  destruct (Load_entry _ _ _ _ _ _ El) as (entry & He & Ev).
  destruct engine as [engine|].
  2: { intros [= <- <-]. exists w1, entry. split_and!; [by rewrite Ev|done|]. by rewrite <- Ev. }
  destruct (AssembleInput repo branch actor owners w1) as [w2 [input|]] eqn:Ea; [|done].
  destruct input as [input|].
  - destruct (Evaluate engine input) as [results|] eqn:Er; [|done].
    intros [= <- <- Hf]. exists w1, entry. split_and!; [by rewrite Ev|done|]. rewrite <- Ev. cbn.
    exists (Some input). split; [done|].
    apply rmapM_Forall2 in Er. apply Forall_forall. intros p Hp.
    apply list_elem_of_lookup_1 in Hp as [i Hi].
    destruct (Forall2_lookup_l _ _ _ _ _ Er Hi) as (r & Hr & Hpr).
    assert (evalPrepared p input = Ok r) as Hpr'.
    { destruct (evalPrepared p input); [done|discriminate Hpr]. }
    apply (evalPrepared_pass _ _ _ Hpr'). destruct (pr_Pass r) eqn:Epass; [done|].
    exfalso. eapply elem_of_nil. erewrite <- Hf. apply list_elem_of_filter.
    split; [exact Epass|by eapply list_elem_of_lookup_2].
  - intros [= <- <-]. exists w1, entry. split_and!; [by rewrite Ev|done|]. rewrite <- Ev. cbn. by exists None.
Qed.

(** ** Hiding the policies *)

Lemma load_modules_shadowed repo e rest modules w :
  HasPrefix (te_Path e) policyDir = false →
  load_modules blob repo (e :: rest) modules w = (w, Ok modules).
Proof. intros Hp. cbn. by rewrite Hp. Qed.

Lemma loadEntry_shadowed repo e rest w w' entry :
  tree_entries (w_db w) repo "main" None ".docstore/policy" = e :: rest →
  HasPrefix (te_Path e) policyDir = false →
  loadEntry blob repo w = (w', Ok entry) → (entry_value entry).1 = None.
Proof.
  intros Ht Hp E. unfold loadEntry in E. inv_ok.
  unfold loadPolicyModules in E0. inv_ok. apply gets_ok in E2 as [-> ->].
  rewrite Ht in E0. change (limit (page_limit 100) (e :: rest)) with (e :: take 99 rest) in E0.
  rewrite load_modules_shadowed in E0 by done. simplify_eq.
  assert (NewEngine ∅ = Ok None) as Hne by (unfold NewEngine; by rewrite bool_decide_true).
  rewrite Hne, bool_decide_true in E by done.
  destruct (bool_decide (a0 = ∅)); cbn in E; inv_ok; by simplify_eq.
Qed.

(** One file can switch off every policy.  The policies are looked for in
    the tree after ".docstore/policy", up to the first file outside the
    directory; in byte order a name like ".docstore/policy.md" comes before all
    of ".docstore/policy/".  When such a file heads that part of the tree, a
    repository whose policies are not cached yet denies no merge at all. *)
Theorem policies_shadowed repo branch actor e rest c w c' w' denied :
  tree_entries (w_db w) repo "main" None ".docstore/policy" = e :: rest →
  HasPrefix (te_Path e) policyDir = false →
  c !! repo = None →
  EvaluatePolicy blob true repo branch actor c w = (c', w', Ok denied) → denied = [].
Proof.
  intros Ht Hp Hc. unfold EvaluatePolicy. cbn [negb]. unfold mbind, PM_bind.
  unfold Load, load_lookup. rewrite Hc.
  destruct (loadEntry blob repo w) as [w1 [entry|]] eqn:El; [|done].
  pose proof (loadEntry_shadowed _ _ _ _ _ _ Ht Hp El) as Hnone.
  destruct (entry_value entry) as [engine owners]. cbn in Hnone. subst engine. by intros [= _ _ <-].
Qed.
End PolicySpec.

(** ** Samples *)

(** Policies whose source is the word "allow" allow everything; any other source
    is the reason of a denial. *)
#[export] Instance sample_opa : OPA :=
  {| PreparedEvalQuery := string * string;
     opa_ParseModule filename src := Ok "data.docstore.review";
     opa_PrepareForEval query filename src := Ok (query, src);
     opa_Eval q input :=
       Ok [[if HasSuffix q.1 ".allow" then JBool (bool_decide (q.2 = "allow")) else JString q.2]] |}.

Definition on_main (path content : string) (w : World) : World :=
  exec (Commit NewStore (mkCommitRequest "o/r" "main" [file path content] "policy" "root")) w.

Definition allow_world : World := on_main ".docstore/policy/review.rego" "allow" changed_world.
Definition deny_world : World := on_main ".docstore/policy/review.rego" "needs a review" changed_world.
Definition hidden_world : World := on_main ".docstore/policy.md" "Our policies." deny_world.

Definition denials (c : Cache) (w : World) : option (list PolicyResult) :=
  match (EvaluatePolicy None true "o/r" "dev" "bob" c w).2 with Ok l => Some l | Fail _ => None end.

(** The policy denies the merge of "dev"; one more file on main, and it no
    longer does. *)
Example deny_world_denied :
  denials NewCache deny_world = Some [mkPolicyResult "review" false "needs a review"].
Proof. vm_compute. reflexivity. Qed.

Lemma EvaluatePolicy_allows_witness :
  ∃ engine input, Forall (λ p, allows p input) engine ∧ length engine = 1%nat ∧
    in_ChangedPaths input = ["c"; "a"; "b"].
Proof.
  destruct (EvaluatePolicy None true "o/r" "dev" "bob" NewCache allow_world) as [[c' w'] [l|e]] eqn:E;
    [|vm_compute in E; discriminate E].
  assert (l = []) as -> by (vm_compute in E; by injection E as _ _ <-).
  destruct (EvaluatePolicy_allows None "o/r" "dev" "bob" NewCache allow_world c' w' E)
    as (w1 & entry & El & He & Hm).
  clear E He. destruct (entry_value entry) as [engine owners].
  vm_compute in El. injection El as _ <- <- <-. cbn in Hm.
  destruct Hm as (input & Ha & Hf). vm_compute in Ha. injection Ha as _ <-.
  eexists _, _. split; [exact Hf|]. split; reflexivity.
Defined.

Lemma policies_shadowed_witness :
  denials NewCache hidden_world = Some [].
Proof.
  unfold denials.
  destruct (EvaluatePolicy None true "o/r" "dev" "bob" NewCache hidden_world) as [[c' w'] [l|e]] eqn:E;
    [|exfalso; vm_compute in E; discriminate E].
  cbn. f_equal.
  destruct (tree_entries (w_db hidden_world) "o/r" "main" None ".docstore/policy") as [|e rest] eqn:Et;
    [vm_compute in Et; discriminate Et|].
  apply (policies_shadowed None "o/r" "dev" "bob" e rest NewCache hidden_world c' w'); [done| |done|done].
  vm_compute in Et. by injection Et as <- _.
Defined.

(** A load that missed the cache before an invalidation and writes to it
    afterwards keeps the old policies: the merge is judged by them although the
    policy on main has changed. *)
Example stale_cache :
  match loadEntry None "o/r" allow_world with
  | (_, Ok entry) =>
      denials (load_store "o/r" entry (Invalidate "o/r" NewCache)) deny_world
  | _ => None
  end = Some [].
Proof. vm_compute. reflexivity. Qed.
