(* ===== verification/Service.v ===== *)
(** * The service layer (internal/service/service.go)

    What the handlers of the API and of the web interface share: the checks of
    who may change what, the references found in texts, the events, and the
    invalidation of the cached policies.  A method acts on the cache and the
    store; the role of the caller is given, [None] when there is none.

    The definitions carry the names of the store's methods they call: this file
    is required without being imported, [Service.CreateIssue] is its
    [CreateIssue].  Log lines are left out. *)

From Stdlib Require Import Ascii.
From S2P Require Import Prelude GoStd Schema Tx Orgs Commits Merge Reviews Issues EventTypes Events Policy.

Definition ErrForbidden := New "forbidden".
Definition ErrConflict := New "conflict".

Definition isMaintainerOrAdmin (role : option role_type) : bool :=
  bool_decide (role = Some Maintainer) || bool_decide (role = Some Admin).

(** ** Mentions

    The three regular expressions of [ParseMentions], each as a scanner: [prev]
    is the byte before the text that is left. *)

(** [\w], which is also what [\b] looks at *)
Definition is_word (c : ascii) : bool :=
  let b := byte_of_ascii c in
  is_digit c || ((65 <=? b) && (b <=? 90)) || ((97 <=? b) && (b <=? 122)) || bool_decide (c = "_"%char).
Definition is_hex (c : ascii) : bool :=
  let b := byte_of_ascii c in
  is_digit c || ((65 <=? b) && (b <=? 70)) || ((97 <=? b) && (b <=? 102)).

Definition word_at (c : option ascii) : bool := match c with Some c => is_word c | None => false end.
Definition first_char (s : string) : option ascii :=
  match s with EmptyString => None | String c _ => Some c end.

(** The digits a text begins with, and the rest. *)
Fixpoint span_digits (s : string) : string * string :=
  match s with
  | String c t =>
      if is_digit c then let '(d, r) := span_digits t in (String c d, r) else (EmptyString, s)
  | EmptyString => (EmptyString, EmptyString)
  end.

(** The text has the shape of a UUID: hexadecimal digits and hyphens. *)
Fixpoint has_shape (shape s : string) : bool :=
  match shape, s with
  | EmptyString, _ => true
  | String p shape, String c s =>
      (if bool_decide (p = "-"%char) then bool_decide (c = "-"%char) else is_hex c) && has_shape shape s
  | _, EmptyString => false
  end.
Definition uuid_shape : string := "xxxxxxxx-xxxx-xxxx-xxxx-xxxxxxxxxxxx".

(** A match at the beginning of the text: what is captured, and the length. *)
Definition match_proposal (prev : option ascii) (s : string) : option (string * nat) :=
  let t := string_drop 9 s in
  if negb (word_at prev) && HasPrefix s "proposal:" && has_shape uuid_shape t
     && negb (word_at (first_char (string_drop 36 t)))
  then Some (string_take 36 t, 45%nat) else None.

Definition match_commit (prev : option ascii) (s : string) : option (string * nat) :=
  let '(d, r) := span_digits (string_drop 7 s) in
  if negb (word_at prev) && HasPrefix s "commit:" && bool_decide (d ≠ "") && negb (word_at (first_char r))
  then Some (d, (7 + String.length d)%nat) else None.

(** [^] and a number sign, or a byte other than [&] and [\w] and a number sign. *)
Definition match_issue (prev : option ascii) (s : string) : option (string * nat) :=
  let '(d, _) := span_digits (string_drop 1 s) in
  if bool_decide (prev = None) && HasPrefix s "#" && bool_decide (d ≠ "")
  then Some (d, (1 + String.length d)%nat)
  else
    let '(d, _) := span_digits (string_drop 2 s) in
    match s with
    | String c t =>
        if negb (is_word c) && bool_decide (c ≠ "&"%char) && HasPrefix t "#" && bool_decide (d ≠ "")
        then Some (d, (2 + String.length d)%nat) else None
    | EmptyString => None
    end.

(** [FindAllStringSubmatch]: the matches from the left that do not overlap.
    [skip] is the number of bytes of the last match still to be passed over. *)
Fixpoint find_all (m : option ascii → string → option (string * nat)) (prev : option ascii) (skip : nat)
    (s : string) : list string :=
  match s with
  | EmptyString => []
  | String c t =>
      match skip with
      | S skip => find_all m (Some c) skip t
      | O =>
          match m prev s with
          | Some (found, n) => found :: find_all m (Some c) (n - 1) t
          | None => find_all m (Some c) 0 t
          end
      end
  end.

Definition ParseMentions (body : string) : list string * list Z * list Z :=
  (find_all match_proposal None 0 body,
   omap ParseInt (find_all match_commit None 0 body),
   omap ParseInt (filter (λ d, String.length d ≠ 6%nat) (find_all match_issue None 0 body))).

Example ParseMentions_example :
  ParseMentions "#12, &#34 x#5 (#7) commit:9 commit:9a #123456 proposal:00000000-0000-0000-0000-00000000000f"
  = (["00000000-0000-0000-0000-00000000000f"], [9], [12; 7]).
Proof. vm_compute. reflexivity. Qed.

Definition close_reason_text (r : issue_close_reason) : string :=
  match r with Completed => "completed" | NotPlanned => "not_planned" | Duplicate => "duplicate" end.

Section Service.
Context `{Collation} `{MapRange} `{OPA} {Us : UuidSource}.

(** [type Service struct]: the store of contents and the broker, when there is one. *)
Record Service := mkService { svc_store : Store; svc_emitter : option Broker }.

Variable s : Service.

Definition emit (e : Event) : PM unit :=
  match svc_emitter s with Some b => lift (Events.Emit b e) | None => mret tt end.

Definition invalidatePolicy (repo : string) : PM unit := invalidate repo.

(** [fmt.Errorf("%w: must be ... author or maintainer", ErrForbidden)] *)
Definition forbid {A} (what : string) : PM A :=
  lift (fail (Errorf (what +:+ " author or maintainer") ErrForbidden)).

(** The references of a text: the errors are logged. *)
Fixpoint try_all (l : list (M unit)) : PM unit :=
  match l with [] => mret tt | m :: l => lift (catch m);; try_all l end.

Definition ref_of (repo : string) (number : Z) (t : issue_ref_type) (refID : string) : M unit :=
  CreateIssueRef repo number t refID;; mret tt.

Definition upsertIssueBodyRefs (repo : string) (issueNum : Z) (body : string) : PM unit :=
  let '(proposalIDs, commitSeqs, _) := ParseMentions body in
  try_all ((λ pid, ref_of repo issueNum RefProposal pid) <$> proposalIDs);;
  try_all ((λ seq, ref_of repo issueNum RefCommit (FormatInt seq)) <$> commitSeqs).

Definition upsertProposalMentionRefs (repo proposalID body : string) : PM unit :=
  let '(_, _, issueNums) := ParseMentions body in
  try_all ((λ num, ref_of repo num RefProposal proposalID) <$> issueNums).

(** ** Organisations and repositories *)

Definition CreateOrg (identity name : string) : PM org :=
  o ← lift (Orgs.CreateOrg name identity);
  lift (catch (AddOrgMember (org_name o) identity Owner identity));;
  emit (OrgCreated (org_name o) identity);;
  mret o.

Definition CreateRepo (identity : string) (req : CreateRepoRequest) : PM repo :=
  let req :=
    if bool_decide (crr_CreatedBy req = "")
    then mkCreateRepoRequest (crr_Owner req) (crr_Name req) identity else req in
  r ← lift (Orgs.CreateRepo req);
  lift (catch (SetRole (repo_name r) identity Admin));;
  emit (RepoCreated (repo_name r) (repo_owner r) identity);;
  mret r.

(** ** Issues *)

Definition CreateIssue (identity repo title body : string) (labels : list string) : PM Issue :=
  iss ← lift (Issues.CreateIssue repo title body identity labels);
  upsertIssueBodyRefs repo (Issue_Number iss) body;;
  emit (IssueOpened repo (Issue_ID iss) (Issue_Number iss) identity);;
  mret iss.

Definition UpdateIssue (identity : string) (role : option role_type) (repo : string) (number : Z)
    (title body : option string) (labels : option (list string)) : PM Issue :=
  existing ← lift (GetIssue repo number);
  if bool_decide (Issue_Author existing ≠ identity) && negb (isMaintainerOrAdmin role)
  then forbid "must be issue" else
  iss ← lift (Issues.UpdateIssue repo number title body labels);
  match body with Some b => upsertIssueBodyRefs repo number b | None => mret tt end;;
  emit (IssueUpdated repo (Issue_ID iss) (Issue_Number iss));;
  mret iss.

Definition CloseIssue (identity : string) (role : option role_type) (repo : string) (number : Z)
    (reason : issue_close_reason) : PM Issue :=
  existing ← lift (GetIssue repo number);
  if bool_decide (Issue_Author existing ≠ identity) && negb (isMaintainerOrAdmin role)
  then forbid "must be issue" else
  if bool_decide (Issue_State existing = Schema.IssueClosed)
  then lift (fail (Errorf "issue is already closed" ErrConflict)) else
  iss ← lift (Issues.CloseIssue repo number reason identity);
  emit (EventTypes.IssueClosed repo (Issue_ID iss) (Issue_Number iss) (close_reason_text reason) identity);;
  mret iss.

Definition ReopenIssue (identity : string) (role : option role_type) (repo : string) (number : Z)
    : PM Issue :=
  existing ← lift (GetIssue repo number);
  if bool_decide (Issue_Author existing ≠ identity) && negb (isMaintainerOrAdmin role)
  then forbid "must be issue" else
  if bool_decide (Issue_State existing = IssueOpen)
  then lift (fail (Errorf "issue is already open" ErrConflict)) else
  iss ← lift (Issues.ReopenIssue repo number);
  emit (IssueReopened repo (Issue_ID iss) (Issue_Number iss));;
  mret iss.

Definition CreateIssueComment (identity repo : string) (number : Z) (body : string) : PM issue_comment :=
  c ← lift (Issues.CreateIssueComment repo number body identity);
  upsertIssueBodyRefs repo number body;;
  emit (IssueCommentCreated repo (ic_issue_id c) number (ic_id c) identity);;
  mret c.

Definition UpdateIssueComment (identity : string) (role : option role_type) (repo : string) (number : Z)
    (commentID body : string) : PM issue_comment :=
  existing ← lift (GetIssueComment repo commentID);
  if bool_decide (ic_author existing ≠ identity) && negb (isMaintainerOrAdmin role)
  then forbid "must be comment" else
  c ← lift (Issues.UpdateIssueComment repo commentID body);
  upsertIssueBodyRefs repo number body;;
  emit (IssueCommentUpdated repo (ic_issue_id c) number (ic_id c));;
  mret c.

Definition DeleteIssueComment (identity : string) (role : option role_type) (repo commentID : string)
    : PM unit :=
  existing ← lift (GetIssueComment repo commentID);
  if bool_decide (ic_author existing ≠ identity) && negb (isMaintainerOrAdmin role)
  then forbid "must be comment" else
  lift (Issues.DeleteIssueComment repo commentID).

(** ** Proposals *)

Definition CreateProposal (identity repo branch baseBranch title description : string) : PM Proposal :=
  p ← lift (Issues.CreateProposal repo branch baseBranch title description identity);
  upsertProposalMentionRefs repo (Prop_ID p) description;;
  emit (ProposalOpened repo branch baseBranch (Prop_ID p) identity 0);;
  mret p.

Definition UpdateProposal (identity : string) (role : option role_type) (repo proposalID : string)
    (title description : option string) : PM Proposal :=
  existing ← lift (GetProposal repo proposalID);
  if bool_decide (Prop_Author existing ≠ identity) && negb (isMaintainerOrAdmin role)
  then forbid "must be proposal" else
  p ← lift (Issues.UpdateProposal repo proposalID title description);
  match description with Some d => upsertProposalMentionRefs repo proposalID d | None => mret tt end;;
  mret p.

Definition CloseProposal (identity : string) (role : option role_type) (repo proposalID : string)
    : PM unit :=
  existing ← lift (GetProposal repo proposalID);
  if bool_decide (Prop_Author existing ≠ identity) && negb (isMaintainerOrAdmin role)
  then forbid "must be proposal" else
  lift (Issues.CloseProposal repo proposalID);;
  emit (EventTypes.ProposalClosed repo (Prop_Branch existing) proposalID).

(** ** Reviews and commits *)

Definition CreateReview (identity repo branch : string) (status : review_status) (body : string)
    : PM Review :=
  review ← lift (Reviews.CreateReview repo branch identity status body);
  emit (ReviewSubmitted repo branch (Review_Sequence review) identity (review_status_text status) None);;
  mret review.

Definition DeleteReviewComment (identity : string) (role : option role_type) (repo commentID : string)
    : PM unit :=
  comment ← lift (GetReviewComment repo commentID);
  if bool_decide (Comment_Author comment ≠ identity) && negb (isMaintainerOrAdmin role)
  then forbid "must be comment" else
  lift (Reviews.DeleteReviewComment repo commentID).

Definition Commit (identity : string) (req : CommitRequest) : PM CommitResponse :=
  let req := mkCommitRequest (cq_Repo req) (cq_Branch req) (cq_Files req) (cq_Message req) identity in
  resp ← lift (Commits.Commit (svc_store s) req);
  (if bool_decide (cq_Branch req = "main") then invalidatePolicy (cq_Repo req) else mret tt);;
  emit (CommitCreated (cq_Repo req) (cq_Branch req) (cp_Sequence resp) identity (cq_Message req)
          (Z.of_nat (length (cq_Files req))));;
  mret resp.

(** [GetRole]: none when there is no role, or an error. *)
Definition GetRole (repo identity : string) : PM (option role_type) :=
  r ← lift (catch (Orgs.GetRole repo identity));
  mret (match r with Ok r => Some (role_Role r) | Fail _ => None end).
End Service.
