(* ===== verification/Http.v ===== *)
(** * Replies of the handlers (internal/server/errors.go)

    A handler acts on the cache and the store and replies with an error or with a
    status and a value.  [H] is the monad of their code: [fault] writes an error
    and returns, [call] and [callP] call the store and the service, their errors
    written by a function of the error.  Log lines and metrics are left out. *)

From S2P Require Import Prelude GoStd Schema Tx Orgs Events Policy.
From S2P Require Service.

(** [type APIError struct]; codes are their texts. *)
Record APIError := mkAPIError { ae_Code : string; ae_Message : string; ae_Status : Z }.

(** [statusToCode] *)
Definition statusToCode (status : Z) : string :=
  if status =? 404 then "NOT_FOUND" else
  if status =? 409 then "CONFLICT" else
  if status =? 403 then "FORBIDDEN" else
  if status =? 401 then "UNAUTHORIZED" else
  if status =? 400 then "BAD_REQUEST" else
  if status =? 405 then "METHOD_NOT_ALLOWED" else
  if status =? 410 then "GONE" else
  if status =? 501 then "NOT_IMPLEMENTED" else
  if status =? 412 then "PRECONDITION_FAILED" else
  if status =? 503 then "SERVICE_UNAVAILABLE" else "INTERNAL_ERROR".

Definition writeError (status : Z) (msg : string) : APIError :=
  mkAPIError (statusToCode status) msg status.
Definition bad_request (msg : string) : APIError := writeError 400 msg.
Definition internal (msg : string) : error → APIError := λ _, mkAPIError "INTERNAL_ERROR" msg 500.

(** [writeDBError] *)
Definition writeDBError (err : error) : APIError :=
  let kind e := errors_Is err e in
  if kind ErrBranchNotFound then mkAPIError "BRANCH_NOT_FOUND" "branch not found" 404 else
  if kind ErrBranchNotActive then mkAPIError "BRANCH_NOT_ACTIVE" "branch is not active" 409 else
  if kind ErrBranchExists then mkAPIError "BRANCH_EXISTS" "branch already exists" 409 else
  if kind ErrBranchDraft then mkAPIError "BRANCH_DRAFT" "branch is in draft state" 409 else
  if kind ErrRepoNotFound then mkAPIError "REPO_NOT_FOUND" "repo not found" 404 else
  if kind ErrRepoExists then mkAPIError "REPO_EXISTS" "repo already exists" 409 else
  if kind ErrOrgNotFound then mkAPIError "ORG_NOT_FOUND" "org not found" 404 else
  if kind ErrOrgExists then mkAPIError "ORG_EXISTS" "org already exists" 409 else
  if kind ErrOrgHasRepos then mkAPIError "CONFLICT" "org has repos; delete them first" 409 else
  if kind ErrOrgMemberNotFound then mkAPIError "NOT_FOUND" "member not found" 404 else
  if kind ErrRoleNotFound then mkAPIError "ROLE_NOT_FOUND" "role not found" 404 else
  if kind ErrInviteNotFound then mkAPIError "INVITE_NOT_FOUND" "invite not found" 404 else
  if kind ErrInviteExpired then mkAPIError "GONE" "invite expired" 410 else
  if kind ErrInviteAlreadyAccepted then mkAPIError "CONFLICT" "invite already accepted" 409 else
  if kind ErrEmailMismatch then mkAPIError "FORBIDDEN" "identity does not match invite email" 403 else
  if kind ErrReleaseNotFound then mkAPIError "RELEASE_NOT_FOUND" "release not found" 404 else
  if kind ErrReleaseExists then mkAPIError "CONFLICT" "release already exists" 409 else
  if kind ErrSelfApproval then mkAPIError "FORBIDDEN" "reviewer cannot approve their own commits" 403 else
  if kind ErrCommentNotFound then mkAPIError "COMMENT_NOT_FOUND" "comment not found" 404 else
  if kind ErrProposalNotFound then mkAPIError "PROPOSAL_NOT_FOUND" "proposal not found" 404 else
  if kind ErrProposalExists then mkAPIError "PROPOSAL_EXISTS" "branch already has an open proposal" 409 else
  if kind ErrSubscriptionNotFound then mkAPIError "SUBSCRIPTION_NOT_FOUND" "subscription not found" 404 else
  if kind ErrIssueNotFound then mkAPIError "ISSUE_NOT_FOUND" "issue not found" 404 else
  if kind ErrIssueCommentNotFound then mkAPIError "COMMENT_NOT_FOUND" "comment not found" 404 else
  mkAPIError "INTERNAL_ERROR" "internal server error" 500.

(** The errors of the service that the handlers look at first; their texts put
    the wrapped error first. *)
Definition service_text (err : error) : string :=
  match err with Errorf t e => error_text e +:+ ": " +:+ t | e => error_text e end.
Definition forbidden_or_db (err : error) : APIError :=
  if errors_Is err Service.ErrForbidden then mkAPIError "FORBIDDEN" (service_text err) 403 else writeDBError err.
Definition forbidden_conflict_or_db (err : error) : APIError :=
  if errors_Is err Service.ErrForbidden then mkAPIError "FORBIDDEN" (service_text err) 403
  else if errors_Is err Service.ErrConflict then mkAPIError "CONFLICT" (service_text err) 409
  else writeDBError err.

(** [computeETag]: the parts joined by colons, in quotes. *)
Fixpoint join_colon (parts : list string) : string :=
  match parts with
  | [] => ""
  | [p] => p
  | p :: parts => p +:+ ":" +:+ join_colon parts
  end.
Definition dquote : string := String (ascii_of_byte 34) EmptyString.
Definition computeETag (parts : list string) : string :=
  dquote +:+ sha256_hex (join_colon parts) +:+ dquote.

(** ** The monad of the handlers *)

Inductive reply (A : Type) := Fault (f : APIError) | Reply (status : Z) (a : A).
Arguments Fault {_} _.
Arguments Reply {_} _ _.

Section Monad.
Context {Opa : OPA}.

(** A handler that stops early with an [E].  Inside a handler of the API the
    status of a value is still open. *)
Definition HM (E A : Type) : Type := Cache → World → Cache * World * (E + A).
#[global] Instance H_ret {E} : MRet (HM E) := λ A a c w, (c, w, inr a).
#[global] Instance H_bind {E} : MBind (HM E) := λ A B f m c w,
  match m c w with
  | (c', w', inr a) => f a c' w'
  | (c', w', inl e) => (c', w', inl e)
  end.
Abbreviation H := (HM APIError).

Definition fault {E A} (f : E) : HM E A := λ c w, (c, w, inl f).
Definition callP {E A} (onerr : error → E) (m : PM A) : HM E A := λ c w,
  match m c w with
  | (c', w', Ok a) => (c', w', inr a)
  | (c', w', Fail e) => (c', w', inl (onerr e))
  end.
Definition call {E A} (onerr : error → E) (m : M A) : HM E A := callP onerr (lift m).

(** A call whose error is logged, or looked at. *)
Definition attempt {E A} (m : PM A) : HM E (result A) := λ c w, let '(c', w', r) := m c w in (c', w', inr r).

(** [if cond { writeError(...); return }] *)
Definition guard {E} (cond : bool) (f : E) : HM E unit := if cond then fault f else mret tt.

(** [json.NewDecoder(r.Body).Decode(&req)]: the body, when it is valid JSON of
    that shape. *)
Definition decode {A} (body : option A) : H A :=
  match body with Some req => mret req | None => fault (bad_request "invalid request body") end.

(** The reply of a whole handler. *)
Definition run {A} (m : H (Z * A)) : Cache → World → Cache * World * reply A := λ c w,
  match m c w with
  | (c', w', inr (status, a)) => (c', w', Reply status a)
  | (c', w', inl f) => (c', w', Fault f)
  end.

(** [validateRepo] *)
Definition validateRepo (repo : string) : H unit := _ ← call writeDBError (GetRepo repo); mret tt.
End Monad.
Abbreviation H := (HM APIError).

(** ** Running a handler *)

Section Running.
Context {Opa : OPA} {E : Type}.

Lemma hbind_ok {A B} (m : HM E A) (f : A → HM E B) c w c' w' b :
  (m ≫= f) c w = (c', w', inr b) ↔
  ∃ c1 w1 a, m c w = (c1, w1, inr a) ∧ f a c1 w1 = (c', w', inr b).
Proof.
  unfold mbind, H_bind. destruct (m c w) as [[c1 w1] [e|a]]; split.
  - done.
  - by intros (? & ? & ? & [= ] & _).
  - intros Ef. by exists c1, w1, a.
  - by intros (? & ? & ? & [= -> -> ->] & ?).
Qed.
Lemma hret_ok {A} (a b : A) c w c' w' :
  (mret a : HM E A) c w = (c', w', inr b) ↔ c' = c ∧ w' = w ∧ b = a.
Proof. split; [by intros [= -> -> ->]|by intros (-> & -> & ->)]. Qed.
Lemma guard_ok cond (f : E) c w c' w' u :
  guard cond f c w = (c', w', inr u) ↔ c' = c ∧ w' = w ∧ cond = false.
Proof.
  unfold guard, fault. destruct cond; split; try done; [by intros (_ & _ & ?)|by intros [= -> ->]|].
  intros (-> & -> & _). by destruct u.
Qed.
Lemma decode_ok {A} (body : option A) c w c' w' a :
  decode body c w = (c', w', inr a) ↔ c' = c ∧ w' = w ∧ body = Some a.
Proof.
  destruct body as [b|]; cbn; split; try done; [by intros [= -> -> ->]|by intros (-> & -> & [= ->])|].
  by intros (_ & _ & ?).
Qed.
Lemma callP_ok {A} (h : error → E) (m : PM A) c w c' w' a :
  callP h m c w = (c', w', inr a) ↔ m c w = (c', w', Ok a).
Proof.
  unfold callP. destruct (m c w) as [[c1 w1] [b|e]]; split; try done;
    by intros [= -> -> ->].
Qed.
Lemma call_ok {A} (h : error → E) (m : M A) c w c' w' a :
  call h m c w = (c', w', inr a) ↔ c' = c ∧ m w = (w', Ok a).
Proof.
  unfold call. rewrite callP_ok. unfold lift. destruct (m w) as [w1 r].
  split; [by intros [= -> -> ->]|by intros (-> & [= -> ->])].
Qed.
End Running.

(** Takes a successful run of a handler apart, in the order of its calls. *)
Ltac inv_h :=
  repeat match goal with
  | E : (_ ≫= _) _ _ = (_, _, inr _) |- _ => apply hbind_ok in E as (? & ? & ? & ? & ?)
  | E : mret _ _ _ = (_, _, inr _) |- _ => apply hret_ok in E as (-> & -> & ->)
  | E : guard _ _ _ _ = (_, _, inr _) |- _ => apply guard_ok in E as (-> & -> & E)
  | E : decode _ _ _ = (_, _, inr _) |- _ => apply decode_ok in E as (-> & -> & E)
  | E : call _ _ _ _ = (_, _, inr _) |- _ => apply call_ok in E as (-> & E)
  | E : fault _ _ _ = (_, _, inr _) |- _ => discriminate E
  end.
