(* ===== verification/Handlers.v ===== *)
(** * The handlers of the API (internal/server/handlers_*.go)

    One definition per handler that changes something, and the reads that go
    with them.  A handler takes the values of its context (Server.v), its path
    values, its query parameters and its body, [None] when it does not decode.

    The read store and the policy cache are there, as in production.  Statuses of
    reviews and checks are values of their types: what PostgreSQL does with
    another word is left out.  The author of a commit or a merge is the identity
    of the request, so the field of the body is not a part of the request. *)

From S2P Require Import Prelude GoStd Schema Tx Orgs Blob Commits Merge ReadStore Reviews Purge Releases Issues.
From S2P Require Import CIJobs EventTypes Events Server Policy Http.
From S2P Require Service.

(** [type server struct]: the service, the blob store behind the read store, and
    the administrator of global resources. *)
Record server := mkServer {
  sr_svc : Service.Service; sr_blobs : option BlobStore; sr_globalAdmin : string;
}.

Definition parse_role (s : string) : option role_type :=
  if bool_decide (s = "reader") then Some Reader else
  if bool_decide (s = "writer") then Some Writer else
  if bool_decide (s = "maintainer") then Some Maintainer else
  if bool_decide (s = "admin") then Some Admin else None.
Definition parse_org_role (s : string) : option org_role :=
  if bool_decide (s = "owner") then Some Owner else
  if bool_decide (s = "member") then Some Member else None.
Definition parse_close_reason (s : string) : option issue_close_reason :=
  if bool_decide (s = "completed") then Some Completed else
  if bool_decide (s = "not_planned") then Some NotPlanned else
  if bool_decide (s = "duplicate") then Some Duplicate else None.
Definition parse_ref_type (s : string) : option issue_ref_type :=
  if bool_decide (s = "proposal") then Some RefProposal else
  if bool_decide (s = "commit") then Some RefCommit else None.
Definition parse_proposal_state (s : string) : option proposal_state :=
  if bool_decide (s = "open") then Some ProposalOpen else
  if bool_decide (s = "closed") then Some Schema.ProposalClosed else
  if bool_decide (s = "merged") then Some Schema.ProposalMerged else None.

Definition empty (s : string) : bool := bool_decide (s = "").

(** What a merge or a rebase replies. *)
Inductive merge_reply A :=
| Merged_ (resp : A)
| Conflicts (l : list MergeConflict)
| Denied (l : list PolicyResult).
Arguments Merged_ {_} _.
Arguments Conflicts {_} _.
Arguments Denied {_} _.

Section Handlers.
Context {Co : Collation} {Mr : MapRange} {Op : OPA} {Us : UuidSource}.
Variable s : server.

(** [s.emit] *)
Definition emit (e : Event) : H unit := callP (internal "") (Service.emit (sr_svc s) e).

(** A value parsed from the query, or the error. *)
Definition parsed {A} (o : option A) (msg : string) : H A :=
  match o with Some a => mret a | None => fault (bad_request msg) end.
Definition opt_query {A} (parse : string → option A) (v msg : string) : H (option A) :=
  if empty v then mret None else a ← parsed (parse v) msg; mret (Some a).

Definition query_failed : error → APIError := internal "query failed".
Definition internal_server_error : error → APIError := internal "internal server error".

(** ** Repositories (handlers_repos.go) *)

(** [strings.SplitN(fullName, "/", 2)[0]] *)
Definition first_segment (fullName : string) : string :=
  match Cut fullName "/" with Some (a, _) => a | None => fullName end.

Definition handleCreateRepo (cx : Ctx) (body : option CreateRepoRequest) : H (Z * repo) :=
  req ← decode body;
  guard (empty (crr_Owner req)) (bad_request "owner is required");;
  guard (empty (crr_Name req)) (bad_request "name is required");;
  guard (bool_decide (first_segment (FullName req) ≠ crr_Owner req))
    (bad_request "owner must match first segment of repo name");;
  let req := if empty (crr_CreatedBy req)
             then mkCreateRepoRequest (crr_Owner req) (crr_Name req) (cx_identity cx) else req in
  r ← callP writeDBError (Service.CreateRepo (sr_svc s) (cx_identity cx) req);
  mret (201, r).

Definition handleListRepos : H (Z * list repo) := l ← call query_failed ListRepos; mret (200, l).

Definition handleGetRepo (name : string) : H (Z * repo) :=
  r ← call writeDBError (GetRepo name); mret (200, r).

Definition handleDeleteRepo (cx : Ctx) (name : string) : H (Z * unit) :=
  call writeDBError (DeleteRepo name);;
  emit (RepoDeleted name (cx_identity cx));;
  mret (204, tt).

(** [parseDayDuration]: nanoseconds in an [int64]. *)
Definition parseDayDuration (v : string) : option Z :=
  match CutSuffix v "d" with
  | None | Some EmptyString => None
  | Some n =>
      match ParseInt n with
      | Some n => if n <=? 0 then None else Some (int64_wrap (int64_wrap (n * 24) * 3600000000000))
      | None => None
      end
  end.

(** [type PurgeRequest struct] (api/types.go) *)
Record APIPurgeRequest := mkAPIPurgeRequest { apr_OlderThan : string; apr_DryRun : bool }.

Definition handlePurge (name : string) (body : option APIPurgeRequest) : H (Z * option PurgeResult) :=
  req ← decode body;
  guard (empty (apr_OlderThan req)) (bad_request "older_than is required");;
  dur ← parsed (parseDayDuration (apr_OlderThan req)) "invalid duration";
  result ← call writeDBError
    (Purge (Service.svc_store (sr_svc s)) (mkPurgeRequest name dur (apr_DryRun req)));
  mret (200, result).

(** ** Roles (handlers_users.go) *)

Definition handleListRoles (name : string) : H (Z * list Role) :=
  l ← call query_failed (ListRoles name); mret (200, l).

Definition handleSetRole (cx : Ctx) (name identity : string) (body : option string) : H (Z * Role) :=
  guard (empty identity) (bad_request "identity is required");;
  req ← decode body;
  role ← parsed (parse_role req) "invalid role; must be reader, writer, maintainer, or admin";
  call internal_server_error (SetRole name identity role);;
  emit (RoleChanged name identity req (cx_identity cx));;
  mret (200, mkRole identity role).

Definition handleDeleteRole (cx : Ctx) (name identity : string) : H (Z * unit) :=
  guard (empty identity) (bad_request "identity is required");;
  call writeDBError (DeleteRole name identity);;
  emit (RoleChanged name identity "" (cx_identity cx));;
  mret (204, tt).

(** ** Organisations (handlers_orgs.go) *)

Definition handleCreateOrg (cx : Ctx) (body : option string) : H (Z * org) :=
  name ← decode body;
  guard (empty name) (bad_request "name is required");;
  guard (Contains name "/") (bad_request "org name may not contain '/'");;
  o ← callP writeDBError (Service.CreateOrg (sr_svc s) (cx_identity cx) name);
  mret (201, o).

Definition handleListOrgs : H (Z * list org) := l ← call query_failed ListOrgs; mret (200, l).
Definition handleGetOrg (org : string) : H (Z * Schema.org) :=
  o ← call writeDBError (GetOrg org); mret (200, o).

Definition handleDeleteOrg (cx : Ctx) (org : string) : H (Z * unit) :=
  call writeDBError (DeleteOrg org);;
  emit (OrgDeleted org (cx_identity cx));;
  mret (204, tt).

(** The lookup of the organisation most of the handlers begin with. *)
Definition org_or_fault (org : string) : H unit :=
  call (λ err, if errors_Is err ErrOrgNotFound then mkAPIError "ORG_NOT_FOUND" "org not found" 404
               else query_failed err) (GetOrg org);;
  mret tt.

Definition handleListOrgRepos (org : string) : H (Z * list repo) :=
  org_or_fault org;; l ← call query_failed (ListOrgRepos org); mret (200, l).

Definition member_or_fault (cx : Ctx) (org : string) : H org_member :=
  call (λ err, if errors_Is err ErrOrgMemberNotFound
               then mkAPIError "FORBIDDEN" "forbidden: not an org member" 403 else query_failed err)
    (GetOrgMember org (cx_identity cx)).
Definition requireOrgOwner (cx : Ctx) (org : string) : H unit :=
  m ← member_or_fault cx org;
  guard (bool_decide (om_role m ≠ Owner)) (mkAPIError "FORBIDDEN" "forbidden: org owner required" 403).
Definition requireOrgMember (cx : Ctx) (org : string) : H unit := member_or_fault cx org;; mret tt.

Definition handleListOrgMembers (cx : Ctx) (org : string) : H (Z * list org_member) :=
  org_or_fault org;; requireOrgMember cx org;;
  l ← call query_failed (ListOrgMembers org); mret (200, l).

Definition handleAddOrgMember (cx : Ctx) (org identity : string) (body : option string) : H (Z * unit) :=
  org_or_fault org;; requireOrgOwner cx org;;
  req ← decode body;
  role ← parsed (parse_org_role req) "invalid role; must be 'owner' or 'member'";
  call internal_server_error (AddOrgMember org identity role (cx_identity cx));;
  mret (200, tt).

Definition handleRemoveOrgMember (cx : Ctx) (org identity : string) : H (Z * unit) :=
  org_or_fault org;; requireOrgOwner cx org;;
  call writeDBError (RemoveOrgMember org identity);;
  mret (204, tt).

(** [type CreateInviteRequest struct] *)
Record CreateInviteRequest := mkCreateInviteRequest { cir_Email : string; cir_Role : string }.

(** The random token, [crypto/rand], is given. *)
Definition handleCreateInvite (cx : Ctx) (org token : string) (body : option CreateInviteRequest)
    : H (Z * org_invite) :=
  org_or_fault org;; requireOrgOwner cx org;;
  req ← decode body;
  guard (empty (cir_Email req)) (bad_request "email is required");;
  role ← parsed (parse_org_role (cir_Role req)) "invalid role; must be 'owner' or 'member'";
  t ← call internal_server_error time_Now;
  inv ← call internal_server_error
    (CreateInvite org (cir_Email req) role (cx_identity cx) token (t + 7 * day));
  mret (201, inv).

Definition handleListInvites (cx : Ctx) (org : string) : H (Z * list org_invite) :=
  org_or_fault org;; requireOrgOwner cx org;; l ← call query_failed (ListInvites org); mret (200, l).

Definition handleAcceptInvite (cx : Ctx) (org token : string) : H (Z * unit) :=
  call writeDBError (AcceptInvite org token (cx_identity cx));; mret (204, tt).

Definition handleRevokeInvite (cx : Ctx) (org inviteID : string) : H (Z * unit) :=
  org_or_fault org;; requireOrgOwner cx org;;
  call writeDBError (RevokeInvite org inviteID);; mret (204, tt).

(** ** Releases (handlers_releases.go) *)

(** [type CreateReleaseRequest struct] *)
Record CreateReleaseRequest := mkCreateReleaseRequest {
  crl_Name : string; crl_Sequence : option Z; crl_Body : string;
}.

Definition handleCreateRelease (cx : Ctx) (name : string) (body : option CreateReleaseRequest)
    : H (Z * Release) :=
  validateRepo name;;
  req ← decode body;
  guard (empty (crl_Name req)) (bad_request "name is required");;
  sequence ←
    match crl_Sequence req with
    | Some sequence =>
        exists_ ← call internal_server_error (CommitSequenceExists name sequence);
        guard (negb exists_) (bad_request "sequence not found");;
        mret sequence
    | None =>
        info ← call (internal "could not resolve main head sequence") (GetBranch name "main");
        match info with
        | Some info => mret (bi_HeadSequence info)
        | None => fault (mkAPIError "INTERNAL_ERROR" "could not resolve main head sequence" 500)
        end
    end;
  rel ← call writeDBError (CreateRelease name (crl_Name req) sequence (crl_Body req) (cx_identity cx));
  mret (201, rel).

(** [strconv.Atoi] is [ParseInt]: an [int] has 64 bits. *)
Definition limit_query (v : string) : H Z :=
  if empty v then mret 100 else
  n ← parsed (ParseInt v) "invalid 'limit' parameter";
  guard (n <? 1) (bad_request "invalid 'limit' parameter");;
  mret n.

Definition handleListReleases (name limit after : string) : H (Z * list Release) :=
  validateRepo name;;
  n ← limit_query limit;
  l ← call (λ err, if errors_Is err ErrInvalidCursor then bad_request "invalid pagination cursor"
                   else query_failed err) (ListReleases name n after);
  mret (200, l).

Definition handleGetRelease (name release : string) : H (Z * Release) :=
  validateRepo name;; rel ← call writeDBError (GetRelease name release); mret (200, rel).

Definition handleDeleteRelease (name release : string) : H (Z * unit) :=
  validateRepo name;; call writeDBError (DeleteRelease name release);; mret (204, tt).

(** ** Commits and branches (server.go, handlers_branches.go) *)

(** [handleCommit] *)
Definition handleCommit (cx : Ctx) (name : string) (body : option CommitRequest)
    : H (Z * CommitResponse) :=
  validateRepo name;;
  req ← decode body;
  let req := mkCommitRequest name (cq_Branch req) (cq_Files req) (cq_Message req) (cq_Author req) in
  guard (empty (cq_Branch req)) (bad_request "branch is required");;
  guard (bool_decide (cx_role cx = Some Writer) && bool_decide (cq_Branch req = "main"))
    (mkAPIError "FORBIDDEN" "forbidden" 403);;
  guard (bool_decide (cq_Files req = [])) (bad_request "at least one file is required");;
  guard (empty (cq_Message req)) (bad_request "message is required");;
  guard (existsb (λ f, empty (ch_Path f)) (cq_Files req)) (bad_request "file path is required");;
  resp ← callP writeDBError (Service.Commit (sr_svc s) (cx_identity cx) req);
  mret (201, resp).

Definition handleCreateBranch (cx : Ctx) (name : string) (body : option CreateBranchRequest)
    : H (Z * CreateBranchResponse) :=
  req ← decode body;
  let req := mkCreateBranchRequest name (cb_Name req) (cb_Draft req) in
  guard (empty (cb_Name req)) (bad_request "name is required");;
  guard (bool_decide (cb_Name req = "main")) (bad_request "cannot create branch named 'main'");;
  resp ← call writeDBError (CreateBranch req);
  emit (BranchCreated name (cb_Name req) (cbr_BaseSequence resp) (cx_identity cx));;
  mret (201, resp).

Definition branch_etag (name bname : string) (head : Z) : string :=
  computeETag [name; bname; FormatInt head].

(** [checkBranchIfMatch]: [ifMatch] is the header, empty when absent. *)
Definition checkBranchIfMatch (ifMatch name bname : string) : H unit :=
  if empty ifMatch then mret tt else
  bi ← call query_failed (GetBranch name bname);
  match bi with
  | None => fault (mkAPIError "BRANCH_NOT_FOUND" "branch not found" 404)
  | Some bi =>
      guard (bool_decide (ifMatch ≠ "*") && bool_decide (branch_etag name bname (bi_HeadSequence bi) ≠ ifMatch))
        (mkAPIError "PRECONDITION_FAILED" "ETag mismatch" 412)
  end.

(** What the handlers of one branch begin with. *)
Definition branch_target (ifMatch name bname msg : string) : H unit :=
  validateRepo name;;
  guard (bool_decide (bname = "main")) (bad_request msg);;
  checkBranchIfMatch ifMatch name bname.

Definition handleUpdateBranch (ifMatch name bname : string) (body : option bool) : H (Z * bool) :=
  branch_target ifMatch name bname "cannot modify branch 'main'";;
  draft ← decode body;
  call writeDBError (UpdateBranchDraft name bname draft);;
  mret (200, draft).

Definition handleEnableAutoMerge (cx : Ctx) (ifMatch name bname : string) : H (Z * unit) :=
  branch_target ifMatch name bname "cannot enable auto-merge on branch 'main'";;
  call writeDBError (SetBranchAutoMerge name bname true);;
  emit (BranchAutoMergeEnabled name bname (cx_identity cx));;
  mret (204, tt).

Definition handleDisableAutoMerge (cx : Ctx) (ifMatch name bname : string) : H (Z * unit) :=
  branch_target ifMatch name bname "cannot disable auto-merge on branch 'main'";;
  call writeDBError (SetBranchAutoMerge name bname false);;
  emit (BranchAutoMergeDisabled name bname (cx_identity cx));;
  mret (204, tt).

Definition handleDeleteBranch (cx : Ctx) (ifMatch name bname : string) : H (Z * unit) :=
  branch_target ifMatch name bname "cannot delete branch 'main'";;
  call writeDBError (DeleteBranch name bname);;
  emit (BranchAbandoned name bname (cx_identity cx));;
  mret (204, tt).

(** [handleGetBranch]: the branch and its ETag. *)
Definition handleGetBranch (name bname : string) : H (Z * (BranchInfo * string)) :=
  validateRepo name;;
  bi ← call query_failed (GetBranch name bname);
  match bi with
  | None => fault (mkAPIError "BRANCH_NOT_FOUND" "branch not found" 404)
  | Some bi => mret (200, (bi, branch_etag name bname (bi_HeadSequence bi)))
  end.

Definition branch_status (name bname actor : string) : PM (option BranchStatusResponse) :=
  computeBranchStatus (sr_blobs s) name bname actor.

(** The status for an event: its errors are logged. *)
Definition status_or_none (name bname actor : string) : H (option BranchStatusResponse) :=
  r ← attempt (branch_status name bname actor);
  mret (match r with Ok bs => bs | Fail _ => None end).

Definition handleBranchStatus (cx : Ctx) (name bname : string) : H (Z * BranchStatusResponse) :=
  validateRepo name;;
  resp ← callP (internal "policy evaluation error") (branch_status name bname (cx_identity cx));
  match resp with
  | None => fault (mkAPIError "BRANCH_NOT_FOUND" "branch not found" 404)
  | Some resp => mret (200, resp)
  end.

(** [handleRebase]; [branch] is the field of the body. *)
Definition handleRebase (cx : Ctx) (name : string) (body : option string)
    : H (Z * merge_reply RebaseResponse) :=
  validateRepo name;;
  branch ← decode body;
  guard (empty branch) (bad_request "branch is required");;
  guard (bool_decide (branch = "main")) (bad_request "cannot rebase main");;
  '(resp, conflicts, err) ← call writeDBError (Rebase (mkRebaseRequest name branch (cx_identity cx)));
  match err, resp with
  | Some err, _ =>
      if errors_Is err ErrRebaseConflict then mret (409, Conflicts conflicts)
      else fault (writeDBError err)
  | None, Some resp =>
      bs ← status_or_none name branch (cx_identity cx);
      emit (BranchRebased name branch (rp_NewBaseSequence resp) (rp_NewHeadSequence resp)
              (rp_CommitsReplayed resp) (cx_identity cx) bs);;
      mret (200, Merged_ resp)
  | None, None => fault (internal_server_error (New "nil response"))
  end.
End Handlers.
