(* ===== verification/Handlers2.v ===== *)
(** * The handlers of the API, continued: merges, reviews, issues, CI

    [handleMerge] with the policies, the handlers of reviews, checks, proposals
    and issues. *)

From S2P Require Import Prelude GoStd Schema Tx Orgs Blob Commits Merge ReadStore Reviews Releases Issues CIJobs.
From S2P Require Import EventTypes Events Server Policy Http Handlers.
From S2P Require Service.

Section Handlers.
Context {Co : Collation} {Mr : MapRange} {Op : OPA} {Us : UuidSource}.
Variable s : server.
Abbreviation emit := (emit s).

(** ** Merge (handlers_proposals.go) *)

Definition evaluateMergePolicy (name branch actor : string) : PM (list PolicyResult) :=
  EvaluatePolicy (sr_blobs s) true name branch actor.

(** [type MergeRequest struct] (api/types.go) without the author. *)
Record MergeBody := mkMergeBody { mb_Branch : string; mb_DryRun : bool }.

(** The proposal of a merged branch: an error is logged. *)
Definition merge_proposal (name branch : string) : H unit :=
  mp ← attempt (lift (MergeProposal name branch));
  match mp with
  | Ok (Some p) => emit (EventTypes.ProposalMerged name branch (Prop_BaseBranch p) (Prop_ID p))
  | _ => mret tt
  end.

(** [handleMerge] from the call of the store on. *)
Definition perform_merge (name branch author : string) (dryRun : bool)
    : H (Z * merge_reply MergeResponse) :=
  '(resp, conflicts, err) ← call writeDBError (Merge (mkMergeRequest name branch author dryRun));
  match err, resp with
  | Some err, _ =>
      if errors_Is err ErrMergeConflict then mret (409, Conflicts conflicts) else fault (writeDBError err)
  | None, Some resp =>
      if dryRun then mret (200, Merged_ resp) else
      callP (internal "") (invalidate name);;
      merge_proposal name branch;;
      bs ← status_or_none s name branch author;
      emit (BranchMerged name branch (mp_Sequence resp) author bs);;
      mret (200, Merged_ resp)
  | None, None => fault (internal_server_error (New "nil response"))
  end.

Definition handleMerge (cx : Ctx) (name : string) (body : option MergeBody)
    : H (Z * merge_reply MergeResponse) :=
  validateRepo name;;
  req ← decode body;
  let branch := mb_Branch req in
  guard (empty branch) (bad_request "branch is required");;
  guard (bool_decide (branch = "main")) (bad_request "cannot merge main into itself");;
  let author := cx_identity cx in
  denied ← callP (internal "policy evaluation error") (evaluateMergePolicy name branch author);
  if negb (bool_decide (length denied = 0%nat)) then
    emit (MergeBlocked name branch author (pr_Name <$> denied));;
    mret (403, Denied denied)
  else perform_merge name branch author (mb_DryRun req).

(** ** Reviews and checks *)

(** [type CreateReviewRequest struct] *)
Record CreateReviewRequest := mkCreateReviewRequest {
  crq_Branch : string; crq_Status : option review_status; crq_Body : string;
}.

(** [if req.Status == ""] *)
Definition required {A} (o : option A) (msg : string) : H A := parsed o msg.

Definition handleReview (cx : Ctx) (name : string) (body : option CreateReviewRequest)
    : H (Z * (string * Z)) :=
  validateRepo name;;
  req ← decode body;
  guard (empty (crq_Branch req)) (bad_request "branch is required");;
  status ← required (crq_Status req) "status is required";
  review ← callP writeDBError
    (Service.CreateReview (sr_svc s) (cx_identity cx) name (crq_Branch req) status (crq_Body req));
  mret (201, (Review_ID review, Review_Sequence review)).

(** [type CreateCheckRunRequest struct] *)
Record CreateCheckRunRequest := mkCreateCheckRunRequest {
  ccr_Branch : string; ccr_CheckName : string; ccr_Status : option check_status;
  ccr_LogURL : option string; ccr_Sequence : option Z; ccr_Attempt : option Z;
  ccr_Metadata : option string;
}.

(** What [handleCheck] and [handleCICheck] share. *)
Definition report_check (name reporter : string) (body : option CreateCheckRunRequest)
    : H (Z * (string * Z)) :=
  req ← decode body;
  guard (empty (ccr_Branch req)) (bad_request "branch is required");;
  guard (empty (ccr_CheckName req)) (bad_request "check_name is required");;
  status ← required (ccr_Status req) "status is required";
  let attempt := default 1 (ccr_Attempt req) in
  cr ← call writeDBError (CreateCheckRun name (ccr_Branch req) (ccr_CheckName req) status reporter
         (ccr_LogURL req) (ccr_Sequence req) attempt (ccr_Metadata req));
  bs ← status_or_none s name (ccr_Branch req) reporter;
  emit (CheckReported name (ccr_Branch req) (Check_Sequence cr) (ccr_CheckName req)
          (check_status_text status) reporter bs);;
  mret (201, (Check_ID cr, Check_Sequence cr)).

Definition handleCheck (cx : Ctx) (name : string) (body : option CreateCheckRunRequest)
    : H (Z * (string * Z)) :=
  validateRepo name;;
  let reporter := match cx_job cx with Some job => ji_Subject job | None => cx_identity cx end in
  report_check name reporter body.

Definition at_query (v : string) : H (option Z) := opt_query ParseInt v "invalid 'at' parameter".

Definition handleGetReviews (name branch at_ : string) : H (Z * list Review) :=
  atSeq ← at_query at_; l ← call query_failed (ListReviews name branch atSeq); mret (200, l).

Definition handleGetChecks (name branch at_ : string) (history : bool) : H (Z * list CheckRun) :=
  atSeq ← at_query at_; l ← call query_failed (ListCheckRuns name branch atSeq history); mret (200, l).

(** [type RetryChecksRequest struct] *)
Record RetryChecksRequest := mkRetryChecksRequest {
  rcq_Branch : string; rcq_Sequence : Z; rcq_Checks : list string;
}.

Definition handleRetryChecks (name : string) (body : option RetryChecksRequest) : H (Z * Z) :=
  validateRepo name;;
  req ← decode body;
  guard (empty (rcq_Branch req)) (bad_request "branch is required");;
  attempt ← call writeDBError (RetryChecks name (rcq_Branch req) (rcq_Sequence req) (rcq_Checks req));
  emit (CheckRunRetry name (rcq_Branch req) (rcq_Sequence req) (rcq_Checks req) attempt);;
  mret (202, attempt).

(** [type CreateReviewCommentRequest struct] *)
Record CreateReviewCommentRequest := mkCreateReviewCommentRequest {
  cmr_Branch : string; cmr_Path : string; cmr_VersionID : string; cmr_Body : string;
  cmr_ReviewID : option string;
}.

Definition handleCreateReviewComment (cx : Ctx) (name : string) (body : option CreateReviewCommentRequest)
    : H (Z * (string * Z)) :=
  validateRepo name;;
  req ← decode body;
  guard (empty (cmr_Branch req)) (bad_request "branch is required");;
  guard (empty (cmr_Path req)) (bad_request "path is required");;
  guard (empty (cmr_VersionID req)) (bad_request "version_id is required");;
  guard (empty (cmr_Body req)) (bad_request "body is required");;
  c ← call writeDBError (CreateReviewComment name (cmr_Branch req) (cmr_Path req) (cmr_VersionID req)
        (cmr_Body req) (cx_identity cx) (cmr_ReviewID req));
  mret (201, (Comment_ID c, Comment_Sequence c)).

Definition handleListReviewComments (name branch path : string) : H (Z * list ReviewComment) :=
  l ← call query_failed (ListReviewComments name branch (if empty path then None else Some path));
  mret (200, l).

Definition handleDeleteReviewComment (cx : Ctx) (name commentID : string) : H (Z * unit) :=
  validateRepo name;;
  callP forbidden_or_db (Service.DeleteReviewComment (cx_identity cx) (cx_role cx) name commentID);;
  mret (204, tt).

(** ** Proposals *)

(** [type CreateProposalRequest struct] *)
Record CreateProposalRequest := mkCreateProposalRequest {
  cpq_Branch : string; cpq_BaseBranch : string; cpq_Title : string; cpq_Description : string;
}.

Definition handleCreateProposal (cx : Ctx) (name : string) (body : option CreateProposalRequest)
    : H (Z * string) :=
  validateRepo name;;
  req ← decode body;
  guard (empty (cpq_Branch req)) (bad_request "branch is required");;
  guard (empty (cpq_Title req)) (bad_request "title is required");;
  let baseBranch := if empty (cpq_BaseBranch req) then "main" else cpq_BaseBranch req in
  p ← callP writeDBError (Service.CreateProposal (sr_svc s) (cx_identity cx) name (cpq_Branch req)
        baseBranch (cpq_Title req) (cpq_Description req));
  mret (201, Prop_ID p).

Definition handleListProposals (name state branch : string) : H (Z * list Proposal) :=
  validateRepo name;;
  st ← opt_query parse_proposal_state state "invalid state; must be open, closed, or merged";
  l ← call internal_server_error (ListProposals name st (if empty branch then None else Some branch));
  mret (200, l).

(** The ETag of a proposal: its last update in nanoseconds. *)
Definition proposal_etag (p : Proposal) : string := computeETag [Prop_ID p; FormatInt (Prop_UpdatedAt p)].

Definition handleGetProposal (name proposalID : string) : H (Z * (Proposal * string)) :=
  validateRepo name;;
  p ← call writeDBError (GetProposal name proposalID);
  mret (200, (p, proposal_etag p)).

Definition checkProposalIfMatch (ifMatch : string) (p : Proposal) : H unit :=
  guard (negb (empty ifMatch) && bool_decide (ifMatch ≠ "*") && bool_decide (proposal_etag p ≠ ifMatch))
    (mkAPIError "PRECONDITION_FAILED" "ETag mismatch" 412).

(** [type UpdateProposalRequest struct] *)
Record UpdateProposalRequest := mkUpdateProposalRequest {
  upq_Title : option string; upq_Description : option string;
}.

Definition handleUpdateProposal (cx : Ctx) (ifMatch name proposalID : string)
    (body : option UpdateProposalRequest) : H (Z * Proposal) :=
  validateRepo name;;
  existing ← call writeDBError (GetProposal name proposalID);
  checkProposalIfMatch ifMatch existing;;
  req ← decode body;
  p ← callP forbidden_or_db (Service.UpdateProposal (cx_identity cx) (cx_role cx) name proposalID
        (upq_Title req) (upq_Description req));
  mret (200, p).

Definition handleCloseProposal (cx : Ctx) (ifMatch name proposalID : string) : H (Z * unit) :=
  validateRepo name;;
  existing ← call writeDBError (GetProposal name proposalID);
  checkProposalIfMatch ifMatch existing;;
  callP forbidden_or_db (Service.CloseProposal (sr_svc s) (cx_identity cx) (cx_role cx) name proposalID);;
  mret (204, tt).

(** ** Issues (handlers_issues.go) *)

Definition parseIssueNumber (number : string) : H Z :=
  n ← parsed (ParseInt number) "invalid issue number";
  guard (n <=? 0) (bad_request "invalid issue number");;
  mret n.

Definition handleListIssues (name state author label : string) : H (Z * list Issue) :=
  validateRepo name;;
  let state := if empty state then "open" else state in
  guard (bool_decide (state ∉ ["open"; "closed"; "all"]))
    (bad_request "invalid state; must be open, closed, or all");;
  let stateFilter := if bool_decide (state = "all") then "" else state in
  l ← call internal_server_error (ListIssues name stateFilter author label);
  mret (200, l).

(** [type CreateIssueRequest struct], [type UpdateIssueRequest struct] *)
Record CreateIssueRequest := mkCreateIssueRequest {
  ciq_Title : string; ciq_Body : string; ciq_Labels : list string;
}.
Record UpdateIssueRequest := mkUpdateIssueRequest {
  uiq_Title : option string; uiq_Body : option string; uiq_Labels : option (list string);
}.

Definition handleCreateIssue (cx : Ctx) (name : string) (body : option CreateIssueRequest)
    : H (Z * (string * Z)) :=
  validateRepo name;;
  req ← decode body;
  guard (empty (ciq_Title req)) (bad_request "title is required");;
  iss ← callP internal_server_error
    (Service.CreateIssue (sr_svc s) (cx_identity cx) name (ciq_Title req) (ciq_Body req) (ciq_Labels req));
  mret (201, (Issue_ID iss, Issue_Number iss)).

Definition handleGetIssue (name number : string) : H (Z * Issue) :=
  validateRepo name;; n ← parseIssueNumber number;
  iss ← call writeDBError (GetIssue name n); mret (200, iss).

Definition handleUpdateIssue (cx : Ctx) (name number : string) (body : option UpdateIssueRequest)
    : H (Z * Issue) :=
  validateRepo name;; n ← parseIssueNumber number;
  req ← decode body;
  iss ← callP forbidden_or_db (Service.UpdateIssue (sr_svc s) (cx_identity cx) (cx_role cx) name n
          (uiq_Title req) (uiq_Body req) (uiq_Labels req));
  mret (200, iss).

(** The body is the reason; an absent body has none. *)
Definition handleCloseIssue (cx : Ctx) (name number : string) (body : option string) : H (Z * Issue) :=
  validateRepo name;; n ← parseIssueNumber number;
  reason ← decode body;
  reason ← parsed (parse_close_reason (if empty reason then "completed" else reason)) "invalid close reason";
  iss ← callP forbidden_conflict_or_db
    (Service.CloseIssue (sr_svc s) (cx_identity cx) (cx_role cx) name n reason);
  mret (200, iss).

Definition handleReopenIssue (cx : Ctx) (name number : string) : H (Z * Issue) :=
  validateRepo name;; n ← parseIssueNumber number;
  iss ← callP forbidden_conflict_or_db
    (Service.ReopenIssue (sr_svc s) (cx_identity cx) (cx_role cx) name n);
  mret (200, iss).

Definition handleListIssueComments (name number : string) : H (Z * list issue_comment) :=
  validateRepo name;; n ← parseIssueNumber number;
  l ← call internal_server_error (ListIssueComments name n); mret (200, l).

Definition handleCreateIssueComment (cx : Ctx) (name number : string) (body : option string)
    : H (Z * string) :=
  validateRepo name;; n ← parseIssueNumber number;
  text ← decode body;
  guard (empty text) (bad_request "body is required");;
  c ← callP writeDBError (Service.CreateIssueComment (sr_svc s) (cx_identity cx) name n text);
  mret (201, ic_id c).

Definition handleUpdateIssueComment (cx : Ctx) (name number commentID : string) (body : option string)
    : H (Z * issue_comment) :=
  validateRepo name;; n ← parseIssueNumber number;
  text ← decode body;
  guard (empty text) (bad_request "body is required");;
  c ← callP forbidden_or_db
    (Service.UpdateIssueComment (sr_svc s) (cx_identity cx) (cx_role cx) name n commentID text);
  mret (200, c).

Definition handleDeleteIssueComment (cx : Ctx) (name number commentID : string) : H (Z * unit) :=
  validateRepo name;; parseIssueNumber number;;
  callP forbidden_or_db (Service.DeleteIssueComment (cx_identity cx) (cx_role cx) name commentID);;
  mret (204, tt).

Definition handleListIssueRefs (name number : string) : H (Z * list issue_ref) :=
  validateRepo name;; n ← parseIssueNumber number;
  l ← call internal_server_error (ListIssueRefs name n); mret (200, l).

(** [type AddIssueRefRequest struct] *)
Record AddIssueRefRequest := mkAddIssueRefRequest { air_RefType : string; air_RefID : string }.

Definition handleAddIssueRef (name number : string) (body : option AddIssueRefRequest) : H (Z * string) :=
  validateRepo name;; n ← parseIssueNumber number;
  req ← decode body;
  t ← parsed (parse_ref_type (air_RefType req)) "invalid ref_type; must be proposal or commit";
  guard (empty (air_RefID req)) (bad_request "ref_id is required");;
  ref ← call (λ err, if errors_Is err ErrIssueNotFound then writeError 404 "issue not found"
                     else if errors_Is err ErrIssueRefExists then writeError 409 "ref already exists"
                     else writeError 500 "internal server error")
          (CreateIssueRef name n t (air_RefID req));
  mret (201, ir_id ref).

Definition handleProposalIssues (name proposalID : string) : H (Z * list Issue) :=
  validateRepo name;;
  l ← call internal_server_error (ListIssuesByRef name RefProposal proposalID); mret (200, l).

Definition handleCommitIssues (name sequence : string) : H (Z * list Issue) :=
  validateRepo name;;
  parsed (ParseInt sequence) "invalid sequence number";;
  l ← call internal_server_error (ListIssuesByRef name RefCommit sequence); mret (200, l).
End Handlers.
