(* ===== verification/Secrets.v ===== *)
(** * Repository secrets (internal/secrets, internal/server/handlers_secrets.go)

    The service seals a value and stores the sealed row, and opens the rows a CI
    job asks for; the handlers decide which job may ask.  Sealing is the
    interface [Encryptor], which Envelope.v implements. *)

From Stdlib Require Import Ascii.
From S2P Require Import Prelude GoStd Schema Tx Orgs Merge Issues CIJobs EventTypes Events Server Policy Http.
From S2P Require Import Handlers.

Definition ErrInvalidName := New "secret: invalid name".
Definition ErrReservedName := New "secret: reserved name prefix".
Definition ErrValueTooLarge := New "secret: value exceeds maximum size".
Definition ErrEmptyValue := New "secret: empty value".
Definition ErrNotFound := New "secret: not found".

(** [MaxValueBytes], [reservedNamePrefix] *)
Definition MaxValueBytes : Z := 32768.
Definition reservedNamePrefix : string := "DOCSTORE_".

(** [type Sealed struct], [type Encryptor interface] (encryptor.go) *)
Record Sealed := mkSealed {
  sl_Ciphertext : string; sl_Nonce : string; sl_EncryptedDEK : string; sl_KMSKeyName : string;
}.
Class Encryptor := {
  Encrypt : string → result Sealed;
  Decrypt : Sealed → result string;
}.

(** [^[A-Z][A-Z0-9_]{0,63}$] *)
Definition is_upper (c : ascii) : bool := let b := byte_of_ascii c in (65 <=? b) && (b <=? 90).
Definition name_char (c : ascii) : bool := is_upper c || is_digit c || bool_decide (c = "_"%char).
Fixpoint all_chars (f : ascii → bool) (s : string) : bool :=
  match s with EmptyString => true | String c s => f c && all_chars f s end.
Definition nameRegexp (name : string) : bool :=
  match name with
  | EmptyString => false
  | String c rest => is_upper c && all_chars name_char rest && (String.length rest <=? 63)%nat
  end.

(** [validateName] *)
Definition validateName (name : string) : option error :=
  if negb (nameRegexp name) then Some ErrInvalidName
  else if HasPrefix name reservedNamePrefix then Some ErrReservedName else None.

(** [type Metadata struct], [toMetadata] *)
Record Metadata := mkMetadata {
  md_ID : string; md_Repo : string; md_Name : string; md_Description : string; md_SizeBytes : Z;
  md_CreatedBy : string; md_CreatedAt : Z; md_UpdatedBy : option string; md_UpdatedAt : option Z;
  md_LastUsedAt : option Z;
}.
Definition toMetadata (r : repo_secret) : Metadata :=
  mkMetadata (sec_id r) (sec_repo r) (sec_name r) (sec_description r) (sec_size_bytes r)
    (sec_created_by r) (sec_created_at r) (sec_updated_by r) (sec_updated_at r) (sec_last_used_at r).

Section Service.
Context {Co : Collation} {Us : UuidSource} {Enc : Encryptor}.

Definition of_enc {A} (text : string) (r : result A) : M A :=
  match r with Ok a => mret a | Fail e => fail (Errorf text e) end.

Definition Set_ (repo name description value actor : string) : M Metadata :=
  match validateName name with
  | Some err => fail err
  | None =>
      if bool_decide (value = "") then fail ErrEmptyValue else
      if MaxValueBytes <? Z.of_nat (String.length value) then fail ErrValueTooLarge else
      sealed ← of_enc "encrypt secret" (Encrypt value);
      id ← uuid_New;
      t ← time_Now;
      written ← wrap "store secret"
        (SetRepoSecret (mkRepoSecretInput id repo name description (sl_Ciphertext sealed) (sl_Nonce sealed)
           (sl_EncryptedDEK sealed) (sl_KMSKeyName sealed) (Z.of_nat (String.length value)) actor (Some t)));
      mret (toMetadata written)
  end.

Definition List_ (repo : string) : M (list Metadata) :=
  rows ← wrap "list secrets" (ListRepoSecrets repo); mret (toMetadata <$> rows).

Definition Delete_ (repo name : string) : M Metadata :=
  row ← on_error (DeleteRepoSecret repo name)
    (λ err, if errors_Is err ErrSecretNotFound then ErrNotFound else Errorf "delete secret" err);
  mret (toMetadata row).

Definition sealed_of (r : repo_secret) : Sealed :=
  mkSealed (sec_ciphertext r) (sec_nonce r) (sec_encrypted_dek r) (sec_kms_key_name r).

(** The first loop of [Reveal]: the opened values, by name, and the missing names. *)
Fixpoint open_all (repo : string) (names : list string) (values : gmap string string)
    (missing revealed : list string) : M (gmap string string * list string * list string) :=
  match names with
  | [] => mret (values, missing, revealed)
  | name :: names =>
      row ← catch (GetRepoSecret repo name);
      match row with
      | Fail err =>
          if errors_Is err ErrSecretNotFound then open_all repo names values (missing ++ [name]) revealed
          else fail (Errorf ("get secret " +:+ name) err)
      | Ok row =>
          pt ← of_enc ("decrypt secret " +:+ name) (Decrypt (sealed_of row));
          open_all repo names (<[name := pt]> values) missing (revealed ++ [name])
      end
  end.

Definition Reveal (repo : string) (names : list string) : M (gmap string string * list string) :=
  '(values, missing, revealed) ← open_all repo names ∅ [] [];
  mapM (λ name, catch (TouchRepoSecretLastUsed repo name)) revealed;;
  mret (values, missing).
End Service.

(** ** Tokens of jobs (internal/citoken/citoken.go) *)

Definition HashRequestToken (plaintext : string) : string :=
  RawURLEncoding_EncodeToString (sha256_Sum256 plaintext).

(** [splitRepoOrg]: at the last slash. *)
Fixpoint last_slash (s : string) : option (string * string) :=
  match s with
  | EmptyString => None
  | String c s' =>
      match last_slash s' with
      | Some (a, b) => Some (String c a, b)
      | None => if bool_decide (c = "/"%char) then Some (EmptyString, s') else None
      end
  end.
Definition splitRepoOrg (repo : string) : option (string * string) :=
  match last_slash repo with
  | Some (org, name) => if bool_decide (org = "") || bool_decide (name = "") then None else Some (org, name)
  | None => None
  end.

Section Handlers.
Context {Co : Collation} {Mr : MapRange} {Op : OPA} {Us : UuidSource} {Enc : Encryptor}.
Variable s : server.

(** [allowSecretsForJob]: no reason when the job may have the secrets. *)
Definition allowSecretsForJob (job : CIJob) : M (option string) :=
  let trigger := Job_TriggerType job in
  if bool_decide (trigger ∈ ["push"; "manual"; "schedule"]) then mret None else
  if bool_decide (trigger ∈ ["proposal"; "proposal_synchronized"]) then
    match splitRepoOrg (Job_Repo job) with
    | None => mret (Some "malformed_repo")
    | Some (org, _) =>
        match Job_TriggerProposalID job with
        | None | Some EmptyString => mret (Some "missing_proposal")
        | Some id =>
            prop ← catch (GetProposal (Job_Repo job) id);
            match prop with
            | Fail err =>
                mret (Some (if errors_Is err ErrProposalNotFound then "proposal_not_found" else "lookup_failed"))
            | Ok prop =>
                members ← catch (ListOrgMembers org);
                match members with
                | Fail _ => mret (Some "lookup_failed")
                | Ok members =>
                    mret (if existsb (λ m, bool_decide (om_identity m = Prop_Author prop)) members
                          then None else Some "non_member_proposal")
                end
            end
        end
    end
  else mret (Some "trigger_not_allowed").

(** The job of a request token; [authorization] is the header, and the handler
    says what it replies to a bad token, to a failed query and to the token of a
    job of another repository. *)
Definition job_of_token (authorization name : string) (unauthorized failed mismatch : APIError) : H CIJob :=
  match bearer authorization with
  | None => fault unauthorized
  | Some plaintext =>
      job ← call (λ err, if errors_Is err ErrTokenInvalid then unauthorized else failed)
              (LookupRequestToken (HashRequestToken plaintext));
      guard (bool_decide (Job_Repo job ≠ name)) mismatch;;
      mret job
  end.

(** One [secret.accessed] for each requested name that was opened. *)
Fixpoint emit_accessed (job : CIJob) (name : string) (values : gmap string string) (names : list string)
    : H unit :=
  match names with
  | [] => mret tt
  | n :: names =>
      match values !! n with
      | Some _ => emit s (SecretAccessed name n (Job_ID job) (Job_Sequence job) (Job_Branch job))
      | None => mret tt
      end;;
      emit_accessed job name values names
  end.

Definition handleRevealSecrets (authorization name : string) (body : option (list string))
    : H (Z * (gmap string string * list string)) :=
  job ← job_of_token authorization name (mkAPIError "UNAUTHORIZED" "unauthorized" 401)
          (mkAPIError "INTERNAL_ERROR" "internal server error" 500) (mkAPIError "NOT_FOUND" "not found" 404);
  names ← decode body;
  guard (bool_decide (names = [])) (bad_request "names is required");;
  guard (existsb (λ n, negb (nameRegexp n)) names) (bad_request "invalid secret name");;
  denied ← call internal_server_error (allowSecretsForJob job);
  match denied with
  | Some reason => fault (mkAPIError "FORBIDDEN" ("secrets_blocked: " +:+ reason) 403)
  | None =>
      '(values, missing) ← call internal_server_error (Reveal name names);
      emit_accessed job name values names;;
      mret (200, ((λ v, StdEncoding_EncodeToString (bytes_of_string v)) <$> values, missing))
  end.

(** [type setSecretRequest struct] *)
Record setSecretRequest := mkSetSecretRequest { ssr_Value : string; ssr_Description : string }.

Definition handleListSecrets (name : string) : H (Z * list Metadata) :=
  validateRepo name;; l ← call internal_server_error (List_ name); mret (200, l).

Definition handleSetSecret (cx : Ctx) (name secname : string) (body : option setSecretRequest)
    : H (Z * Metadata) :=
  validateRepo name;;
  req ← decode body;
  meta ← call (λ err,
      if errors_Is err ErrInvalidName then bad_request "invalid secret name" else
      if errors_Is err ErrReservedName then bad_request "secret name uses reserved prefix" else
      if errors_Is err ErrValueTooLarge then bad_request "secret value exceeds maximum size" else
      if errors_Is err ErrEmptyValue then bad_request "secret value is empty" else
      internal_server_error err)
    (Set_ name secname (ssr_Description req) (ssr_Value req) (cx_identity cx));
  match md_UpdatedAt meta with
  | None => emit s (SecretCreated name secname (md_ID meta) (md_SizeBytes meta) (cx_identity cx))
  | Some _ => emit s (SecretUpdated name secname (md_ID meta) (md_SizeBytes meta) (cx_identity cx))
  end;;
  mret (200, meta).

Definition handleDeleteSecret (cx : Ctx) (name secname : string) : H (Z * unit) :=
  validateRepo name;;
  meta ← call (λ err, if errors_Is err ErrNotFound then mkAPIError "NOT_FOUND" "secret not found" 404
                      else internal_server_error err) (Delete_ name secname);
  emit s (SecretDeleted name secname (md_ID meta) (cx_identity cx));;
  mret (204, tt).
End Handlers.
