(* ===== verification/Handlers3.v ===== *)
(** * The handlers of the API: files, subscriptions, CI jobs

    The rest of internal/server/handlers_*.go, with the conventions of
    Handlers.v.  A query parameter that is absent is the empty string.
    [handleCreateSubscription] is left out, for the URL it parses. *)

From S2P Require Import Prelude GoStd Schema Tx Orgs Blob Commits Merge ReadStore Reviews Releases CIJobs.
From S2P Require Import EventTypes Events Server Policy Http Handlers Handlers2 Secrets.

Section Handlers.
Context {Co : Collation} {Mr : MapRange} {Op : OPA} {Us : UuidSource}.
Variable s : server.

(** ** Files (handlers_files.go) *)

Definition branch_or_main (branch : string) : string := if empty branch then "main" else branch.

(** The parameter [at]: a sequence, or else the name of a release. *)
Definition at_or_release (name at_ : string) : H (option Z) :=
  if empty at_ then mret None else
  match ParseInt at_ with
  | Some n => mret (Some n)
  | None =>
      rel ← call (λ _, bad_request "invalid 'at' parameter: not a sequence number or release name")
              (GetRelease name at_);
      mret (Some (Release_Sequence rel))
  end.

Definition handleTree (name branch at_ limit after : string) : H (Z * list TreeEntry) :=
  validateRepo name;;
  atSequence ← at_or_release name at_;
  n ← limit_query limit;
  l ← call query_failed (MaterializeTree name (branch_or_main branch) atSequence n after);
  mret (200, l).

(** The file, in JSON or, with [format=raw], as its type and its bytes. *)
Inductive file_reply :=
| FileJSON (fc : FileContent)
| FileRaw (contentType : string) (content : string)
| History (l : list FileHistoryEntry).

Definition handleFileContent (name path branch at_ format : string) : H (Z * file_reply) :=
  atSequence ← at_or_release name at_;
  fc ← call query_failed (GetFile (sr_blobs s) name (branch_or_main branch) path atSequence);
  match fc with
  | None => fault (mkAPIError "NOT_FOUND" "file not found" 404)
  | Some fc =>
      if bool_decide (format = "raw")
      then mret (200, FileRaw (if empty (fl_ContentType fc) then "application/octet-stream" else fl_ContentType fc)
                        (str_or_empty (fl_Content fc)))
      else mret (200, FileJSON fc)
  end.

Definition handleFileHistory (name path branch limit after : string) : H (Z * file_reply) :=
  n ← limit_query limit;
  afterSeq ← opt_query ParseInt after "invalid 'after' parameter";
  l ← call query_failed (GetFileHistory name (branch_or_main branch) path n afterSeq);
  mret (200, History l).

Definition handleFile (name fullPath branch at_ limit after format : string) : H (Z * file_reply) :=
  validateRepo name;;
  match CutSuffix fullPath "/history" with
  | Some filePath => handleFileHistory name filePath branch limit after
  | None => handleFileContent name fullPath branch at_ format
  end.

Definition handleGetCommit (name sequence : string) : H (Z * CommitDetail) :=
  seq ← parsed (ParseInt sequence) "invalid sequence number";
  detail ← call query_failed (GetCommit name seq);
  match detail with
  | None => fault (mkAPIError "NOT_FOUND" "commit not found" 404)
  | Some detail => mret (200, detail)
  end.

Definition handleDiff (name branch : string) : H (Z * DiffResult) :=
  validateRepo name;;
  guard (empty branch) (bad_request "branch parameter is required");;
  result ← call query_failed (GetDiff name branch);
  match result with
  | None => fault (mkAPIError "BRANCH_NOT_FOUND" "branch not found" 404)
  | Some result => mret (200, result)
  end.

Definition handleBranches (name statusFilter includeDraft draft : string) : H (Z * list BranchInfo) :=
  validateRepo name;;
  l ← call query_failed (ListBranches name statusFilter (bool_decide (includeDraft = "true"))
                           (bool_decide (draft = "true")));
  mret (200, l).

Definition handleChain (name from to : string) : H (Z * list ChainEntry) :=
  validateRepo name;;
  guard (empty from || empty to) (bad_request "from and to query parameters are required");;
  f ← parsed (ParseInt from) "invalid 'from' parameter";
  t ← parsed (ParseInt to) "invalid 'to' parameter";
  guard (t <? f) (bad_request "'from' must be <= 'to'");;
  l ← call query_failed (GetChain name f t);
  mret (200, l).

(** ** Archives *)

(** The files of a page, in order; one that cannot be read is left out. *)
Fixpoint archive_page (repo branch : string) (seq : option Z) (entries : list TreeEntry)
    : M (list (string * string)) :=
  match entries with
  | [] => mret []
  | e :: entries =>
      fc ← catch (GetFile (sr_blobs s) repo branch (te_Path e) seq);
      rest ← archive_page repo branch seq entries;
      match fc with
      | Ok (Some fc) => mret ((te_Path e, str_or_empty (fl_Content fc)) :: rest)
      | _ => mret rest
      end
  end.

(** The loop of [writeArchive]; [fuel] bounds the number of pages. *)
Fixpoint archive_pages (fuel : nat) (repo branch : string) (seq : option Z) (afterPath : string)
    : M (list (string * string)) :=
  match fuel with
  | O => fail (New "out of fuel")
  | S fuel =>
      entries ← wrap "materialize tree" (MaterializeTree repo branch seq 100 afterPath);
      files ← archive_page repo branch seq entries;
      if (length entries <? 100)%nat then mret files else
      match last entries with
      | None => mret files
      | Some e => rest ← archive_pages fuel repo branch seq (te_Path e); mret (files ++ rest)
      end
  end.

(** [writeArchive]: the entries of the archive.  A path is in one page, so there
    are no more pages than rows in file_commits, and the last one. *)
Definition writeArchive (repo branch : string) (atSequence : Z) : M (list (string * string)) :=
  fuel ← gets (λ w, S (length (db_file_commits (w_db w))));
  archive_pages fuel repo branch (if atSequence =? 0 then None else Some atSequence) "".

(** Its errors are logged: the archive then ends early. *)
Definition handleArchive (name branch at_ : string) : H (Z * result (list (string * string))) :=
  validateRepo name;;
  guard (empty branch) (bad_request "branch parameter is required");;
  atSequence ← (if empty at_ then mret 0 else parsed (ParseInt at_) "invalid 'at' parameter");
  bi ← call query_failed (GetBranch name branch);
  match bi with
  | None => fault (mkAPIError "BRANCH_NOT_FOUND" "branch not found" 404)
  | Some _ => files ← attempt (lift (writeArchive name branch atSequence)); mret (200, files)
  end.

(** ** Access (server.go) *)

Definition requireGlobalAdmin (cx : Ctx) : H unit :=
  guard (empty (sr_globalAdmin s)) (writeError 403 "forbidden: no global admin configured");;
  guard (bool_decide (cx_identity cx ≠ sr_globalAdmin s)) (writeError 403 "forbidden: global admin required").

Definition requireRepoReadAccess (cx : Ctx) (repo : string) : H unit :=
  _ ← call (λ err, if errors_Is err ErrRoleNotFound then writeError 403 "forbidden: no access to repo"
                   else writeError 500 "internal server error") (GetRole repo (cx_identity cx));
  mret tt.

(** ** Subscriptions (handlers_events.go) *)

Definition isAdmin (cx : Ctx) : bool :=
  negb (empty (sr_globalAdmin s)) && bool_decide (cx_identity cx = sr_globalAdmin s).

Definition handleListSubscriptions (cx : Ctx) : H (Z * list subscription) :=
  l ← call internal_server_error
        (if isAdmin cx then ListSubscriptions else ListSubscriptionsByCreator (cx_identity cx));
  mret (200, l).

(** The subscription is the caller's, or the caller is the global administrator. *)
Definition require_creator (cx : Ctx) (id : string) : H unit :=
  if isAdmin cx then mret tt else
  sub ← call writeDBError (GetSubscription id);
  guard (bool_decide (sub_created_by sub ≠ cx_identity cx))
    (mkAPIError "FORBIDDEN" "forbidden: not subscription creator" 403).

Definition handleDeleteSubscription (cx : Ctx) (id : string) : H (Z * unit) :=
  require_creator cx id;; call writeDBError (DeleteSubscription id);; mret (204, tt).

Definition handleResumeSubscription (cx : Ctx) (id : string) : H (Z * unit) :=
  require_creator cx id;; call writeDBError (ResumeSubscription id);; mret (204, tt).

(** ** CI jobs (handlers_ci.go) *)

Definition handleListCIJobs (name branch status limit : string) : H (Z * list CIJob) :=
  validateRepo name;;
  guard (negb (empty status) && negb (bool_decide (status ∈ ["queued"; "claimed"; "passed"; "failed"])))
    (bad_request "invalid 'status' parameter: must be one of queued, claimed, passed, failed");;
  n ← (if empty limit then mret 50 else
       n ← parsed (ParseInt limit) "invalid 'limit' parameter: must be between 1 and 200";
       guard ((n <? 1) || (200 <? n)) (bad_request "invalid 'limit' parameter: must be between 1 and 200");;
       mret n);
  l ← call query_failed (ListCIJobs name (nullif_empty branch) (nullif_empty status) n);
  mret (200, l).

(** [body] is the field branch. *)
Definition handleTriggerCIRun (name : string) (body : option string) : H (Z * string) :=
  validateRepo name;;
  branch ← decode body;
  let branch := branch_or_main branch in
  bi ← call query_failed (GetBranch name branch);
  match bi with
  | None => fault (mkAPIError "BRANCH_NOT_FOUND" "branch not found" 404)
  | Some bi =>
      job ← call (internal "insert ci job failed")
              (InsertCIJob name branch (bi_HeadSequence bi) "manual" branch "" "" []);
      mret (201, Job_ID job)
  end.

(** The store returns [ErrCIJobNotFound], never a nil job without an error. *)
Definition handleGetCIJob (cx : Ctx) (id : string) : H (Z * CIJob) :=
  job ← call query_failed (GetCIJob id);
  requireRepoReadAccess cx (Job_Repo job);;
  mret (200, job).

(** ** Requests of CI jobs (handlers_ci_request_token.go) *)

(** [http.Error]: a text without a code. *)
Definition http_Error (msg : string) (status : Z) : APIError := mkAPIError "" msg status.
Definition ci_job_of_token (authorization name : string) : H CIJob :=
  job_of_token authorization name (http_Error "unauthorized" 401) (http_Error "internal error" 500)
    (http_Error "unauthorized" 401).

Definition handleCIConfig (authorization name : string) : H (Z * FileContent) :=
  job ← ci_job_of_token authorization name;
  fc ← call (λ _, http_Error "internal error" 500)
         (GetFile (sr_blobs s) (Job_Repo job) (Job_Branch job) ".docstore/ci.yaml" (Some (Job_Sequence job)));
  match fc with
  | None => fault (http_Error "not found" 404)
  | Some fc => mret (200, fc)
  end.

Definition handleCICheck (authorization name : string) (body : option CreateCheckRunRequest)
    : H (Z * (string * Z)) :=
  job ← ci_job_of_token authorization name;
  report_check s name ("ci-job:" +:+ Job_ID job) body.
End Handlers.
