(* ===== verification/Wire.v ===== *)
(** * Texts decoded: Base64 and JSON

    The decoding half of [encoding/base64], with its round trip, and what
    [json.Unmarshal] does to the fields of a struct.

    The grammar of JSON is a parameter ([JsonUnmarshal], [JsonMarshal]): a text
    decodes to a value, in which the numbers are the integers; what the fields
    of a struct make of a value is written out. *)

From Stdlib Require Import Ascii.
From S2P Require Import Prelude GoStd.

(** ** Base64 *)

(** A character of the alphabet, as six bits. *)
Fixpoint base64_digit (alphabet : string) (c : ascii) (n : Z) : option Z :=
  match alphabet with
  | EmptyString => None
  | String c' alphabet => if bool_decide (c = c') then Some n else base64_digit alphabet c (n + 1)
  end.

Section Base64.
Variables (alphabet : string) (padded : bool).

Definition digit (c : ascii) : option Z := base64_digit alphabet c 0.
Definition is_pad (c : ascii) : bool := padded && bool_decide (c = "="%char).

(** [decodeQuantum] after [decodeQuantum], newlines skipped; the bits left over
    in the last group are not looked at. *)
Fixpoint base64_quanta (l : list ascii) : option (list Z) :=
  match l with
  | [] => Some []
  | [a; b] =>
      if padded then None else
      x ← digit a; y ← digit b; Some [x * 4 + y / 16]
  | [a; b; c] =>
      if padded then None else
      x ← digit a; y ← digit b; z ← digit c; Some [x * 4 + y / 16; y mod 16 * 16 + z / 4]
  | a :: b :: c :: d :: rest =>
      x ← digit a; y ← digit b;
      if is_pad c && is_pad d then (if rest is [] then Some [x * 4 + y / 16] else None) else
      z ← digit c;
      if is_pad d then (if rest is [] then Some [x * 4 + y / 16; y mod 16 * 16 + z / 4] else None) else
      u ← digit d; bytes ← base64_quanta rest;
      Some (x * 4 + y / 16 :: y mod 16 * 16 + z / 4 :: z mod 4 * 64 + u :: bytes)
  | _ => None
  end.

Definition line_break (c : ascii) : Prop := c = ascii_of_byte 10 ∨ c = ascii_of_byte 13.
#[global] Instance line_break_dec c : Decision (line_break c).
Proof. unfold line_break. apply _. Defined.

(** [DecodeString], without the position in its error. *)
Definition base64_decode (s : string) : option (list Z) :=
  base64_quanta (filter (λ c, ¬ line_break c) (String.list_ascii_of_string s)).
End Base64.

Definition StdEncoding_DecodeString : string → option (list Z) := base64_decode base64_std true.
Definition RawURLEncoding_DecodeString : string → option (list Z) := base64_decode base64_url false.

(** RFC 4648, section 10; and what is not strict. *)
Example base64_decode_vectors :
  (option_map string_of_bytes ∘ StdEncoding_DecodeString <$>
     [""; "Zg=="; "Zm8="; "Zm9v"; "Zm9vYmFy"; "Zh=="; "Zg="; "Zg"; "Zg==Zg=="; "Z"; "Zm9vYg=!"])
  = [Some ""; Some "f"; Some "fo"; Some "foo"; Some "foobar"; Some "f"; None; None; None; None; None] ∧
  (option_map string_of_bytes ∘ RawURLEncoding_DecodeString <$> ["Zg"; "Zm8"; "Zg=="; "Zm9vYmF"])
  = [Some "f"; Some "fo"; None; Some "fooba"].
Proof. by vm_compute. Qed.

Definition is_byte (b : Z) : Prop := 0 ≤ b < 256.

(** The two alphabets: a character for each digit, none of them special. *)
Definition alphabet_ok (alphabet : string) : bool :=
  forallb (λ n, match base64_char alphabet n with
                | String c "" =>
                    bool_decide (digit alphabet c = Some n) && bool_decide (¬ line_break c) &&
                    bool_decide (c ∉ ["="%char; "."%char])
                | _ => false
                end) (seqZ 0 64).

Lemma alphabet_char alphabet n : alphabet_ok alphabet = true → 0 ≤ n < 64 →
  ∃ c, base64_char alphabet n = String c "" ∧ digit alphabet c = Some n ∧ ¬ line_break c ∧ c ≠ "="%char ∧ c ≠ "."%char.
Proof.
  intros Ha Hn. unfold alphabet_ok in Ha. rewrite forallb_forall in Ha.
  assert (In n (seqZ 0 64)) as Hin by (apply list_elem_of_In, elem_of_seqZ; lia).
  specialize (Ha n Hin). destruct (base64_char alphabet n) as [|c [|]]; [done| |done].
  apply andb_prop in Ha as [[Hd%bool_decide_eq_true Hl%bool_decide_eq_true]%andb_prop Hs%bool_decide_eq_true].
  exists c. rewrite !not_elem_of_cons in Hs. by destruct Hs as (? & ? & _).
Qed.
Lemma std_ok : alphabet_ok base64_std = true.
Proof. by vm_compute. Qed.
Lemma url_ok : alphabet_ok base64_url = true.
Proof. by vm_compute. Qed.

Section RoundTrip.
Variables (alphabet : string) (padded : bool).
Hypothesis Hok : alphabet_ok alphabet = true.
Let pad : string := if padded then "=" else "".

Lemma six_bits a b c : is_byte a → is_byte b → is_byte c →
  (0 ≤ a / 4 < 64 ∧ 0 ≤ a mod 4 * 16 + b / 16 < 64 ∧ 0 ≤ b mod 16 * 4 + c / 64 < 64 ∧ 0 ≤ c mod 64 < 64) ∧
  (a / 4 * 4 + (a mod 4 * 16 + b / 16) / 16 = a ∧
   (a mod 4 * 16 + b / 16) mod 16 * 16 + (b mod 16 * 4 + c / 64) / 4 = b ∧
   (b mod 16 * 4 + c / 64) mod 4 * 64 + c mod 64 = c).
Proof. unfold is_byte. intros. split_and!; Z.to_euclidean_division_equations; lia. Qed.

(** The digits of a string that are not special characters. *)
Lemma not_pad c : c ≠ "="%char → is_pad padded c = false.
Proof. intros. unfold is_pad. rewrite bool_decide_false by done. apply andb_false_r. Qed.

Lemma base64_encode_spec l : Forall is_byte l →
  ∃ chars, base64_encode alphabet pad l = String.string_of_list_ascii chars ∧
    Forall (λ c, ¬ line_break c ∧ c ≠ "."%char) chars ∧ base64_quanta alphabet padded chars = Some l.
Proof.
  induction l as [l IH] using (induction_ltof1 _ length). unfold ltof in IH. intros Hl.
  assert (¬ line_break "="%char ∧ "="%char ≠ "."%char) as Hp by (split; [intros [?|?]|]; done).
  destruct l as [|a [|b [|d l]]]; cbn [base64_encode].
  - by exists [].
  - apply Forall_cons in Hl as [Ha _]. destruct (six_bits a 0 0) as [(H1 & H2 & _) (E & _)]; [done|by unfold is_byte..|].
    rewrite Z.add_0_r in H2.
    destruct (alphabet_char alphabet (a / 4) Hok H1) as (x & -> & Hx & ?).
    destruct (alphabet_char alphabet (a mod 4 * 16) Hok H2) as (y & -> & Hy & ?).
    exists (x :: y :: if padded then ["="%char; "="%char] else []). unfold pad.
    split_and!; [by destruct padded|destruct padded; repeat constructor; tauto|].
    rewrite Z.add_0_r in E. destruct padded; cbn; rewrite Hx, Hy; cbn; by rewrite E.
  - apply Forall_cons in Hl as [Ha Hl]. apply Forall_cons in Hl as [Hb _].
    destruct (six_bits a b 0) as [(H1 & H2 & H3 & _) (E & E2 & _)]; [done|done|by unfold is_byte|].
    rewrite Z.add_0_r in H3.
    destruct (alphabet_char alphabet _ Hok H1) as (x & -> & Hx & ?).
    destruct (alphabet_char alphabet _ Hok H2) as (y & -> & Hy & ?).
    destruct (alphabet_char alphabet _ Hok H3) as (z & -> & Hz & ? & ? & ?).
    exists (x :: y :: z :: if padded then ["="%char] else []). unfold pad.
    split_and!; [by destruct padded|destruct padded; repeat constructor; tauto|].
    rewrite Z.add_0_r in E2.
    destruct padded; cbn; rewrite Hx, Hy; cbn; rewrite ?bool_decide_false by done; cbn; rewrite Hz; cbn; by rewrite E, E2.
  - apply Forall_cons in Hl as [Ha Hl]. apply Forall_cons in Hl as [Hb Hl]. apply Forall_cons in Hl as [Hd Hl].
    destruct (six_bits a b d) as [(H1 & H2 & H3 & H4) (E & E2 & E3)]; [done..|].
    destruct (alphabet_char alphabet _ Hok H1) as (x & -> & Hx & ?).
    destruct (alphabet_char alphabet _ Hok H2) as (y & -> & Hy & ?).
    destruct (alphabet_char alphabet _ Hok H3) as (z & -> & Hz & ? & ? & ?).
    destruct (alphabet_char alphabet _ Hok H4) as (u & -> & Hu & ? & ? & ?).
    destruct (IH l) as (cs & -> & Hcs & Eq); [cbn; lia|done|].
    exists (x :: y :: z :: u :: cs). split_and!; [done|repeat constructor; tauto|].
    cbn. rewrite Hx, Hy, !not_pad by done. cbn. rewrite Hz, Hu, Eq. cbn. by rewrite E, E2, E3.
Qed.


Lemma base64_roundtrip l : Forall is_byte l → base64_decode alphabet padded (base64_encode alphabet pad l) = Some l.
Proof.
  intros (cs & -> & Hcs & E)%base64_encode_spec. unfold base64_decode.
  rewrite String.list_ascii_of_string_of_list_ascii, filter_all; [done|]. intros c Hc. rewrite Forall_forall in Hcs. by destruct (Hcs c Hc).
Qed.

End RoundTrip.

(** A string without a character. *)
Definition lacks (c : ascii) (s : string) : Prop := Forall (λ c', c' ≠ c) (String.list_ascii_of_string s).
Lemma lacks_app c s t : lacks c s → lacks c t → lacks c (s +:+ t).
Proof. unfold lacks. induction s as [|c' s IH]; [done|]. rewrite string_app_cons. cbn. rewrite !Forall_cons. tauto. Qed.
Lemma lacks_take c n s : lacks c s → lacks c (string_take n s).
Proof. unfold lacks. revert s. induction n as [|n IH]; intros [|c' s]; cbn; try done. rewrite !Forall_cons. intros [??]; auto. Qed.
Lemma lacks_drop c n s : lacks c s → lacks c (string_drop n s).
Proof. unfold lacks. revert s. induction n as [|n IH]; intros [|c' s]; cbn; try done. rewrite !Forall_cons. intros [??]; auto. Qed.

(** The alphabet of URLs has no dot. *)
Lemma base64_no_dot l : lacks "."%char (RawURLEncoding_EncodeToString l).
Proof.
  assert (∀ n, lacks "."%char (base64_char base64_url n)) as Hc.
  { intros n. apply lacks_take, lacks_drop. by_decide. }
  unfold RawURLEncoding_EncodeToString.
  induction l as [l IH] using (induction_ltof1 _ length). unfold ltof in IH.
  destruct l as [|a [|b [|d l]]]; cbn [base64_encode]; repeat apply lacks_app; try apply Hc; try by constructor.
  apply IH. cbn. lia.
Qed.

Lemma bytes_are_bytes s : Forall is_byte (bytes_of_string s).
Proof.
  induction s as [|c s IH]; constructor; [|done]. unfold is_byte, byte_of_ascii.
  pose proof (N_ascii_bounded c). lia.
Qed.
Lemma string_of_bytes_of_string s : string_of_bytes (bytes_of_string s) = s.
Proof.
  induction s as [|c s IH]; cbn; [done|]. rewrite IH. f_equal.
  unfold ascii_of_byte, byte_of_ascii. by rewrite N2Z.id, ascii_N_embedding.
Qed.

Lemma StdEncoding_roundtrip s :
  StdEncoding_DecodeString (StdEncoding_EncodeToString (bytes_of_string s)) = Some (bytes_of_string s).
Proof. apply (base64_roundtrip base64_std true std_ok), bytes_are_bytes. Qed.
Lemma RawURLEncoding_roundtrip s :
  RawURLEncoding_DecodeString (RawURLEncoding_EncodeToString (bytes_of_string s)) = Some (bytes_of_string s).
Proof. apply (base64_roundtrip base64_url false url_ok), bytes_are_bytes. Qed.

(** ** JSON *)

(** [json.Unmarshal] of a text into any value, and [json.Marshal]. *)
Class JsonUnmarshal := json_Unmarshal : string → option json.
Class JsonMarshal := json_Marshal : json → string.

Definition lower_byte (b : Z) : Z := if (65 <=? b) && (b <=? 90) then b + 32 else b.
(** [foldName]: letters of both cases are one, as are the Kelvin sign and "k",
    the long s and "s". *)
Fixpoint fold_name (l : list Z) : list Z :=
  match l with
  | 226 :: 132 :: 170 :: l => 107 :: fold_name l
  | 197 :: 191 :: l => 115 :: fold_name l
  | b :: l => lower_byte b :: fold_name l
  | [] => []
  end.
Definition names_field (key name : string) : Prop :=
  fold_name (bytes_of_string name) = fold_name (bytes_of_string key).
#[global] Instance names_field_dec key name : Decision (names_field key name).
Proof. unfold names_field. apply _. Defined.

Example folded_names :
  (λ n, bool_decide (names_field "kid" n)) <$> ["kid"; "KID"; string_of_bytes [226; 132; 170; 105; 68]; "k_id"]
  = [true; true; true; false].
Proof. by vm_compute. Qed.

(** What [json.Unmarshal] can decode into a struct. *)
Definition is_struct (v : json) : bool := match v with JObject _ | JNull => true | _ => false end.

(** The values given to a field, one after another. *)
Definition field_values (key : string) (v : json) : list json :=
  match v with JObject fields => snd <$> filter (λ kv, names_field key kv.1) fields | _ => [] end.

(** Each value overwrites the one before; null leaves it; a value of another type
    is an error. *)
Fixpoint decode_values {A} (dec : json → option A) (a : A) (l : list json) : option A :=
  match l with
  | [] => Some a
  | JNull :: l => decode_values dec a l
  | v :: l => a' ← dec v; decode_values dec a' l
  end.
Definition decode_field {A} (zero : A) (dec : json → option A) (key : string) (v : json) : option A :=
  decode_values dec zero (field_values key v).

(** A field of type [json.RawMessage] or [any]. *)
Definition any_field (key : string) (v : json) : option json := last (field_values key v).

Definition dec_string (v : json) : option string := match v with JString s => Some s | _ => None end.
Definition dec_bool (v : json) : option bool := match v with JBool b => Some b | _ => None end.
Definition dec_int64 (v : json) : option Z :=
  match v with
  | JNumber n => if (-9223372036854775808 <=? n) && (n <=? 9223372036854775807) then Some n else None
  | _ => None
  end.
(** A slice of strings; an element that is null is the empty string. *)
Definition dec_strings (v : json) : option (list string) :=
  match v with
  | JArray l => mapM (λ x, match x with JNull => Some "" | x => dec_string x end) l
  | _ => None
  end.

(** The [float64] nearest to an integer, ties to even. *)
Definition round_float (n : Z) : Z :=
  let m := Z.abs n in
  if m <? 9007199254740992 then n else
  let ulp := 2 ^ (Z.log2 m - 52) in
  let q := m / ulp in
  let r := m mod ulp in
  let up := (ulp <? 2 * r) || ((2 * r =? ulp) && Z.odd q) in
  Z.sgn n * ((if up then q + 1 else q) * ulp).
(** [int64(x)] of a [float64]; out of range, what amd64 gives. *)
Definition int64_of_float (x : Z) : Z :=
  if (-9223372036854775808 <=? x) && (x <=? 9223372036854775807) then x else -9223372036854775808.
(** A [float64] field, as the integer it is converted to; a number no [float64]
    can be near is an error. *)
Definition dec_float (v : json) : option Z :=
  match v with
  | JNumber n =>
      let x := round_float n in
      if Z.abs x <? 2 ^ 1024 then Some (int64_of_float x) else None
  | _ => None
  end.

Definition string_field : string → json → option string := decode_field "" dec_string.
Definition bool_field : string → json → option bool := decode_field false dec_bool.
Definition int64_field : string → json → option Z := decode_field 0 dec_int64.
Definition strings_field : string → json → option (list string) := decode_field [] dec_strings.
Definition float_field : string → json → option Z := decode_field 0 dec_float.

Example floats :
  round_float <$> [9007199254740993; 9007199254740995; -9007199254740993; 1700000000]
  = [9007199254740992; 9007199254740996; -9007199254740992; 1700000000].
Proof. by vm_compute. Qed.

Lemma dec_float_exact n : 0 ≤ n < 9007199254740992 → dec_float (JNumber n) = Some n.
Proof.
  intros Hn. unfold dec_float, round_float, int64_of_float. rewrite (Z.abs_eq n) by lia. cbv zeta.
  replace (n <? 9007199254740992) with true by lia. rewrite (Z.abs_eq n) by lia.
  replace (n <? 2 ^ 1024) with true; [|symmetry; apply Z.ltb_lt; etrans; [apply Hn|]; by vm_compute].
  replace (-9223372036854775808 <=? n) with true by lia. by replace (n <=? 9223372036854775807) with true by lia.
Qed.
