(* ===== verification/Envelope.v ===== *)
(** * AES-GCM (crypto/aes, crypto/cipher)

    The block cipher of FIPS 197 with keys of 16, 24 and 32 bytes and the mode of
    SP 800-38D with a nonce of 12 bytes and no additional data, as the encryptors
    of secrets use them, on lists of bytes.  The examples evaluate published
    test vectors; [gcm_Open_Seal] is the round trip. *)

From S2P Require Import Prelude GoStd Wire Schema Tx Policy Http Secrets.

(** ** The block cipher *)

Definition xtime (b : Z) : Z := Z.land (Z.lxor (Z.shiftl b 1) (if 128 <=? b then 27 else 0)) 255.
Fixpoint gf_mul_bits (n : nat) (a b : Z) : Z :=
  match n with
  | O => 0
  | S n => Z.lxor (if Z.odd b then a else 0) (gf_mul_bits n (xtime a) (Z.shiftr b 1))
  end.
Definition gf_mul : Z → Z → Z := gf_mul_bits 8.
(** The inverse is the power 254. *)
Definition gf_inv (a : Z) : Z :=
  let a2 := gf_mul a a in let a4 := gf_mul a2 a2 in let a8 := gf_mul a4 a4 in
  let a16 := gf_mul a8 a8 in let a32 := gf_mul a16 a16 in let a64 := gf_mul a32 a32 in let a128 := gf_mul a64 a64 in
  gf_mul a128 (gf_mul a64 (gf_mul a32 (gf_mul a16 (gf_mul a8 (gf_mul a4 a2))))).
Definition rotl8 (b : Z) (n : Z) : Z := Z.land (Z.lor (Z.shiftl b n) (Z.shiftr b (8 - n))) 255.
Definition sub_byte (b : Z) : Z :=
  let i := gf_inv b in
  Z.lxor 99 (Z.lxor i (Z.lxor (rotl8 i 1) (Z.lxor (rotl8 i 2) (Z.lxor (rotl8 i 3) (rotl8 i 4))))).
Definition sbox : list Z := Eval vm_compute in sub_byte <$> seqZ 0 256.
Definition SubByte (b : Z) : Z := nth (Z.to_nat b) sbox 0.

Definition xor_bytes (a b : list Z) : list Z := zip_with Z.lxor a b.

(** The round keys, as words of four bytes: the newest first. *)
Definition rcon (i : nat) : list Z := [Nat.iter (i - 1) xtime 1; 0; 0; 0].
Definition RotWord (w : list Z) : list Z := match w with a :: w => w ++ [a] | [] => [] end.
Fixpoint expand (nk todo i : nat) (words : list (list Z)) : list (list Z) :=
  match todo with
  | O => words
  | S todo =>
      let last := nth 0 words [] in
      let temp :=
        if (i mod nk =? 0)%nat then xor_bytes (SubByte <$> RotWord last) (rcon (i / nk))
        else if (6 <? nk)%nat && (i mod nk =? 4)%nat then SubByte <$> last else last in
      expand nk todo (S i) (xor_bytes (nth (nk - 1) words []) temp :: words)
  end.
Fixpoint chunk (n : nat) (fuel : nat) (l : list Z) : list (list Z) :=
  match fuel, l with
  | S fuel, _ :: _ => take n l :: chunk n fuel (drop n l)
  | _, _ => []
  end.
Definition chunks (n : nat) (l : list Z) : list (list Z) := chunk n (length l) l.
Definition round_keys (key : list Z) : list (list Z) :=
  let nk := (length key / 4)%nat in
  chunks 16 (concat (rev (expand nk (4 * (nk + 7) - nk) nk (rev (chunks 4 key))))).

(** The state is kept column by column. *)
Definition shift_rows (s : list Z) : list Z :=
  (λ i, nth i s 0) <$> [0; 5; 10; 15; 4; 9; 14; 3; 8; 13; 2; 7; 12; 1; 6; 11]%nat.
Definition mix_column (c : list Z) : list Z :=
  match c with
  | [a; b; c; d] =>
      let m x y z w := Z.lxor (gf_mul 2 x) (Z.lxor (gf_mul 3 y) (Z.lxor z w)) in
      [m a b c d; m b c d a; m c d a b; m d a b c]
  | _ => c
  end.
Definition mix_columns (s : list Z) : list Z := concat (mix_column <$> chunks 4 s).
Fixpoint rounds (keys : list (list Z)) (s : list Z) : list Z :=
  match keys with
  | [] => s
  | [k] => xor_bytes (shift_rows (SubByte <$> s)) k
  | k :: keys => rounds keys (xor_bytes (mix_columns (shift_rows (SubByte <$> s))) k)
  end.
Definition encrypt_block (keys : list (list Z)) (block : list Z) : list Z :=
  match keys with
  | k :: keys => rounds keys (xor_bytes block k)
  | [] => block
  end.

(** [aes.NewCipher] *)
Definition NewCipher (key : list Z) : result (list (list Z)) :=
  if bool_decide (length key ∈ [16; 24; 32]%nat) then Ok (round_keys key)
  else Fail (New ("crypto/aes: invalid key size " +:+ FormatInt (Z.of_nat (length key)))).

(** ** The mode *)

Definition of_bytes (l : list Z) : Z := foldl (λ acc b, Z.lor (Z.shiftl acc 8) b) 0 l.
Definition to_bytes (n : nat) (z : Z) : list Z :=
  (λ i, Z.land (Z.shiftr z (8 * Z.of_nat (n - 1 - i))) 255) <$> seq 0 n.

Fixpoint ghash_mul (n : nat) (x v acc : Z) : Z :=
  match n with
  | O => acc
  | S n =>
      ghash_mul n x (Z.lxor (Z.shiftr v 1) (if Z.odd v then Z.shiftl 225 120 else 0))
        (if Z.testbit x (Z.of_nat n) then Z.lxor acc v else acc)
  end.
Definition pad16 (l : list Z) : list Z := l ++ replicate ((16 - length l mod 16) mod 16) 0.
Definition ghash (h : Z) (blocks : list (list Z)) : Z :=
  foldl (λ y b, ghash_mul 128 (Z.lxor y (of_bytes b)) h 0) 0 blocks.

(** The counter block of a nonce of 12 bytes. *)
Definition counter (nonce : list Z) (i : Z) : list Z := nonce ++ to_bytes 4 i.
Fixpoint keystream (keys : list (list Z)) (nonce : list Z) (i : Z) (n : nat) : list Z :=
  match n with
  | O => []
  | S n => encrypt_block keys (counter nonce i) ++ keystream keys nonce (i + 1) n
  end.
Definition ctr (keys : list (list Z)) (nonce data : list Z) : list Z :=
  xor_bytes data (keystream keys nonce 2 (length data / 16 + 1)).
Definition gcm_tag (keys : list (list Z)) (nonce ct : list Z) : list Z :=
  let h := of_bytes (encrypt_block keys (replicate 16 0)) in
  let lengths := to_bytes 8 0 ++ to_bytes 8 (8 * Z.of_nat (length ct)) in
  xor_bytes (to_bytes 16 (ghash h (chunks 16 (pad16 ct) ++ [lengths]))) (encrypt_block keys (counter nonce 1)).

Definition NonceSize : nat := 12.
Definition Overhead : nat := 16.
Definition gcm_Seal (keys : list (list Z)) (nonce plaintext : list Z) : list Z :=
  let ct := ctr keys nonce plaintext in ct ++ gcm_tag keys nonce ct.
Definition errOpen : error := New "cipher: message authentication failed".
Definition gcm_Open (keys : list (list Z)) (nonce sealed : list Z) : result (list Z) :=
  if (length sealed <? Overhead)%nat then Fail errOpen else
  let ct := take (length sealed - Overhead) sealed in
  if bool_decide (drop (length sealed - Overhead) sealed = gcm_tag keys nonce ct) then Ok (ctr keys nonce ct)
  else Fail errOpen.

(** FIPS 197, appendix C; the test cases 13 and 14 of the GCM specification. *)
Definition hex (l : list Z) : string := hex_EncodeToString l.
Example aes_vectors :
  let block := (λ i, 17 * i) <$> seqZ 0 16 in
  (hex (encrypt_block (round_keys (seqZ 0 16)) block), hex (encrypt_block (round_keys (seqZ 0 32)) block)) =
  ("69c4e0d86a7b0430d8cdb78070b4c55a", "8ea2b7ca516745bfeafc49904b496089").
Proof. by vm_compute. Qed.
Example gcm_vectors :
  let keys := round_keys (replicate 32 0) in
  (hex (gcm_Seal keys (replicate 12 0) []), hex (gcm_Seal keys (replicate 12 0) (replicate 16 0))) =
  ("530f8afbc74536b9a963b4f1c4cb738b", "cea7403d4d606b6e074ec5d3baf39d18d0d1c8a799996bf0265b98b5d48ab919").
Proof. by vm_compute. Qed.

(** ** Sizes and ranges *)

Lemma byte_land z : is_byte (Z.land z 255).
Proof.
  unfold is_byte. change 255 with (Z.ones 8). rewrite Z.land_ones by lia.
  apply (Z.mod_pos_bound z (2 ^ 8)). lia.
Qed.
Lemma byte_lxor a b : is_byte a → is_byte b → is_byte (Z.lxor a b).
Proof.
  unfold is_byte. intros Ha Hb. assert (0 ≤ Z.lxor a b) as H0 by (apply Z.lxor_nonneg; lia). split; [done|].
  change 256 with (2 ^ 8). destruct (decide (Z.lxor a b = 0)) as [->|Hn]; [lia|].
  apply Z.log2_lt_pow2; [lia|]. eapply Z.le_lt_trans; [apply Z.log2_lxor; lia|].
  apply Z.max_lub_lt; (destruct (decide (a = 0)) as [->|]; destruct (decide (b = 0)) as [->|]; cbn; try lia; apply Z.log2_lt_pow2; lia).
Qed.
Lemma byte_0 : is_byte 0.
Proof. unfold is_byte. lia. Qed.
Abbreviation bytes := (Forall is_byte).

Lemma xor_bytes_bytes a b : bytes a → bytes b → bytes (xor_bytes a b).
Proof.
  intros Ha. revert b. induction Ha as [|x a Hx _ IH]; intros b Hb; [constructor|]. destruct Hb as [|y b Hy Hb]; [constructor|].
  constructor; [by apply byte_lxor|by apply IH].
Qed.
Lemma xor_bytes_length a b : length (xor_bytes a b) = Nat.min (length a) (length b).
Proof. apply length_zip_with. Qed.
Lemma gf_mul_byte n a b : is_byte a → is_byte (gf_mul_bits n a b).
Proof.
  revert a b. induction n as [|n IH]; intros a b Ha; cbn; [apply byte_0|].
  apply byte_lxor; [by destruct (Z.odd b); [|apply byte_0]|apply IH, byte_land].
Qed.
Lemma nth_bytes i l : bytes l → is_byte (nth i l 0).
Proof. intros Hl. revert i. induction Hl; intros [|i]; cbn; auto using byte_0. Qed.
Lemma sbox_bytes : bytes sbox.
Proof.
  assert (forallb (λ b, (0 <=? b) && (b <? 256)) sbox = true) as H by (vm_compute; reflexivity).
  apply Forall_forall. intros b Hb%list_elem_of_In. rewrite forallb_forall in H. apply H in Hb. unfold is_byte. lia.
Qed.
Lemma SubBytes_bytes l : bytes (SubByte <$> l).
Proof. apply Forall_fmap, Forall_true. intros b. apply nth_bytes, sbox_bytes. Qed.
Lemma to_bytes_bytes n z : bytes (to_bytes n z).
Proof. apply Forall_fmap, Forall_true. intros i. apply byte_land. Qed.
Lemma to_bytes_length n z : length (to_bytes n z) = n.
Proof. unfold to_bytes. by rewrite length_fmap, length_seq. Qed.

Lemma chunk_all (P : Z → Prop) n fuel l : Forall P l → Forall (Forall P) (chunk n fuel l).
Proof.
  revert l. induction fuel as [|fuel IH]; intros l Hl; [constructor|]. destruct l as [|x l]; [constructor|].
  cbn [chunk]. constructor; [by apply Forall_take|by apply IH, Forall_drop].
Qed.
(** A list of a number of pieces is cut into that number. *)
Lemma chunk_sizes n m fuel l :
  (0 < n)%nat → length l = (n * m)%nat → (m ≤ fuel)%nat →
  length (chunk n fuel l) = m ∧ Forall (λ c, length c = n) (chunk n fuel l).
Proof.
  intros Hn. revert m l. induction fuel as [|fuel IH]; intros m l Hl Hm.
  { assert (m = 0)%nat as -> by lia. by split; [|constructor]. }
  destruct m as [|m]; [destruct l; [by split; [|constructor]|cbn in Hl; lia]|].
  destruct l as [|x l]; [cbn in Hl; lia|]. cbn [chunk].
  destruct (IH m (drop n (x :: l))) as [H1 H2]; [rewrite length_drop, Hl; lia|lia|]. cbn [length]. split; [by rewrite H1|].
  constructor; [|done]. rewrite length_take, Hl. nia.
Qed.
Lemma chunks_sizes n m l :
  (0 < n)%nat → length l = (n * m)%nat → length (chunks n l) = m ∧ Forall (λ c, length c = n) (chunks n l).
Proof. intros Hn Hl. apply chunk_sizes; [done|done|]. rewrite Hl. nia. Qed.

Definition word (w : list Z) : Prop := length w = 4%nat ∧ bytes w.
Lemma nth_word i l : Forall word l → (i < length l)%nat → word (nth i l []).
Proof. intros Hl. revert i. induction Hl; intros [|i] Hi; cbn in *; try lia; [done|]. apply IHHl. lia. Qed.
Lemma sub_word w : word w → word (SubByte <$> w).
Proof. intros [Hl _]. split; [by rewrite length_fmap|apply SubBytes_bytes]. Qed.
Lemma rot_word w : word w → word (RotWord w).
Proof.
  intros [Hl Hb]. destruct Hb as [|x w Hx Hb]; [done|]. cbn in *. split; [rewrite length_app; cbn; lia|].
  apply Forall_app. auto.
Qed.
Lemma xor_word a b : word a → word b → word (xor_bytes a b).
Proof. intros [La Ba] [Lb Bb]. split; [rewrite xor_bytes_length; lia|by apply xor_bytes_bytes]. Qed.
Lemma rcon_word i : word (rcon i).
Proof.
  split; [done|]. constructor; [|by repeat constructor; apply byte_0].
  induction (i - 1)%nat as [|n IH]; cbn; [unfold is_byte; lia|apply byte_land].
Qed.
Lemma expand_words nk todo i words :
  (0 < nk)%nat → (nk ≤ length words)%nat → Forall word words →
  length (expand nk todo i words) = (todo + length words)%nat ∧ Forall word (expand nk todo i words).
Proof.
  intros Hnk. revert i words. induction todo as [|todo IH]; intros i words Hl Hw; [done|]. cbn [expand].
  set (temp := if (_ =? _)%nat then _ else _).
  assert (word (nth 0 words [])) as Hlast by (apply nth_word; [done|lia]).
  assert (word temp) as Ht.
  { unfold temp. destruct (_ =? _)%nat; [|destruct (_ && _); [by apply sub_word|done]].
    apply xor_word; [by apply sub_word, rot_word|apply rcon_word]. }
  destruct (IH (S i) (xor_bytes (nth (nk - 1) words []) temp :: words)) as [H1 H2].
  - cbn. lia.
  - constructor; [|done]. apply xor_word; [apply nth_word; [done|lia]|done].
  - split; [rewrite H1; cbn; lia|done].
Qed.

(** A key schedule: round keys of 16 bytes, at least one. *)
Definition schedule (keys : list (list Z)) : Prop :=
  keys ≠ [] ∧ Forall (λ k, length k = 16%nat ∧ bytes k) keys.

Lemma concat_words l : Forall word l → length (concat l) = (4 * length l)%nat ∧ bytes (concat l).
Proof.
  induction 1 as [|w l [Lw Bw] _ [IH1 IH2]]; [by split; [|constructor]|]. cbn [concat length].
  rewrite length_app. split; [lia|by apply Forall_app].
Qed.
Lemma round_keys_schedule key nk :
  length key = (4 * nk)%nat → (0 < nk)%nat → bytes key → schedule (round_keys key).
Proof.
  intros Hl Hnk Hb. unfold round_keys. rewrite Hl, (Nat.mul_comm 4 nk), Nat.div_mul by lia.
  rewrite Nat.mul_comm in Hl. rewrite Nat.mul_comm in Hl. destruct (chunks_sizes 4 nk key) as [Hn H4]; [lia|done|].
  set (words := expand _ _ _ _).
  assert (length words = (4 * (nk + 7))%nat ∧ Forall word words) as [Lw Fw].
  { destruct (expand_words nk (4 * (nk + 7) - nk) nk (rev (chunks 4 key))) as [H1 H2].
    - lia.
    - by rewrite length_rev, Hn.
    - apply Forall_rev, Forall_and. split; [done|by apply chunk_all].
    - split; [|done]. unfold words. rewrite H1, length_rev, Hn. lia. }
  destruct (concat_words (rev words)) as [Lc Bc]; [by apply Forall_rev|].
  rewrite length_rev, Lw in Lc.
  destruct (chunks_sizes 16 (nk + 7) (concat (rev words))) as [Hm H16]; [lia|lia|]. split.
  - destruct (chunks 16 _); [cbn in Hm; lia|done].
  - apply Forall_and. split; [done|by apply chunk_all].
Qed.
Lemma NewCipher_schedule key keys : bytes key → NewCipher key = Ok keys → schedule keys.
Proof.
  unfold NewCipher. intros Hb. case_bool_decide as Hs; [|done]. intros [= <-].
  apply (round_keys_schedule key (length key / 4)); [|..|done];
    apply list_elem_of_In in Hs; cbn in Hs; destruct Hs as [<-|[<-|[<-|[]]]]; cbn; lia.
Qed.

Lemma rounds_block keys s : schedule keys → length (rounds keys s) = 16%nat ∧ bytes (rounds keys s).
Proof.
  intros [Hn Hk]. revert s. induction Hk as [|k keys [Lk Bk] Hk IH]; intros s; [done|].
  destruct keys as [|k' keys]; [|by apply IH]. cbn [rounds]. split.
  - rewrite xor_bytes_length, Lk. unfold shift_rows. by rewrite length_fmap.
  - apply xor_bytes_bytes; [|done]. apply Forall_fmap, Forall_true. intros i. apply nth_bytes, SubBytes_bytes.
Qed.
Lemma encrypt_block_block keys block :
  schedule keys → length block = 16%nat → bytes block →
  length (encrypt_block keys block) = 16%nat ∧ bytes (encrypt_block keys block).
Proof.
  intros [Hn Hk] Lb Bb. destruct Hk as [|k keys [Lk Bk] Hk]; [done|]. cbn [encrypt_block].
  destruct (decide (keys = [])) as [->|Hne]; [|by apply rounds_block].
  cbn [rounds]. split; [rewrite xor_bytes_length; lia|by apply xor_bytes_bytes].
Qed.

(** ** The round trip *)

Lemma counter_block nonce i : length nonce = NonceSize → bytes nonce →
  length (counter nonce i) = 16%nat ∧ bytes (counter nonce i).
Proof.
  intros Hl Hb. unfold counter. rewrite length_app, to_bytes_length, Hl. split; [done|].
  apply Forall_app. split; [done|apply to_bytes_bytes].
Qed.
Section Stream.
Context (keys : list (list Z)) (nonce : list Z).
Hypotheses (Hk : schedule keys) (Hl : length nonce = NonceSize) (Hb : bytes nonce).

Lemma keystream_blocks i n :
  length (keystream keys nonce i n) = (16 * n)%nat ∧ bytes (keystream keys nonce i n).
Proof.
  revert i. induction n as [|n IH]; intros i; [by split; [|constructor]|]. cbn [keystream].
  destruct (counter_block nonce i Hl Hb) as [Lc Bc], (IH (i + 1)) as [L1 B1].
  destruct (encrypt_block_block keys (counter nonce i) Hk Lc Bc) as [Le Be].
  rewrite length_app. split; [lia|by apply Forall_app].
Qed.
Lemma keystream_enough (data : list Z) : (length data ≤ length (keystream keys nonce 2 (length data / 16 + 1)))%nat.
Proof.
  destruct (keystream_blocks 2 (length data / 16 + 1)) as [-> _].
  pose proof (Nat.div_mod_eq (length data) 16). pose proof (Nat.mod_upper_bound (length data) 16). lia.
Qed.
Lemma ctr_length data : length (ctr keys nonce data) = length data.
Proof. unfold ctr. rewrite xor_bytes_length. pose proof (keystream_enough data). lia. Qed.
Lemma ctr_bytes data : bytes data → bytes (ctr keys nonce data).
Proof. intros Hd. apply xor_bytes_bytes; [done|apply keystream_blocks]. Qed.
Lemma ctr_involutive data : ctr keys nonce (ctr keys nonce data) = data.
Proof.
  unfold ctr at 1. rewrite ctr_length. unfold ctr. pose proof (keystream_enough data) as H. revert H.
  generalize (keystream keys nonce 2 (length data / 16 + 1)). unfold xor_bytes.
  induction data as [|x l IH]; intros [|y k] H; cbn in *; try done; [lia|].
  f_equal; [|apply IH; lia]. by rewrite Z.lxor_assoc, Z.lxor_nilpotent, Z.lxor_0_r.
Qed.
Lemma gcm_tag_tag ct : length (gcm_tag keys nonce ct) = Overhead ∧ bytes (gcm_tag keys nonce ct).
Proof.
  destruct (counter_block nonce 1 Hl Hb) as [Lc Bc].
  destruct (encrypt_block_block keys (counter nonce 1) Hk Lc Bc) as [Le Be].
  unfold gcm_tag. rewrite xor_bytes_length, to_bytes_length, Le. split; [done|].
  apply xor_bytes_bytes; [apply to_bytes_bytes|done].
Qed.
Lemma gcm_Seal_length data : length (gcm_Seal keys nonce data) = (length data + Overhead)%nat.
Proof. unfold gcm_Seal. rewrite length_app, ctr_length. f_equal. apply gcm_tag_tag. Qed.
Lemma gcm_Seal_bytes data : bytes data → bytes (gcm_Seal keys nonce data).
Proof. intros Hd. apply Forall_app. split; [by apply ctr_bytes|apply gcm_tag_tag]. Qed.

(** What is sealed opens, and only under its own tag. *)
Lemma gcm_Open_Seal data : gcm_Open keys nonce (gcm_Seal keys nonce data) = Ok data.
Proof.
  unfold gcm_Open. rewrite gcm_Seal_length.
  assert ((length data + Overhead <? Overhead)%nat = false) as -> by (apply Nat.ltb_ge; lia).
  replace (length data + Overhead - Overhead)%nat with (length (ctr keys nonce data)) by (rewrite ctr_length; lia).
  unfold gcm_Seal. rewrite take_app_length, drop_app_length, bool_decide_true by done.
  by rewrite ctr_involutive.
Qed.
Lemma gcm_Open_tag sealed data :
  gcm_Open keys nonce sealed = Ok data → sealed = gcm_Seal keys nonce data.
Proof.
  unfold gcm_Open, gcm_Seal. destruct (_ <? _)%nat eqn:E; [done|].
  case_bool_decide as Ht; [|done]. intros [= <-]. rewrite ctr_involutive, <- Ht. symmetry. apply take_drop.
Qed.
Lemma gcm_Open_bytes sealed data : bytes sealed → gcm_Open keys nonce sealed = Ok data → bytes data.
Proof.
  unfold gcm_Open. intros Hs. destruct (_ <? _)%nat; [done|]. case_bool_decide; [|done]. intros [= <-].
  by apply ctr_bytes, Forall_take.
Qed.
End Stream.

(** * The encryptors of secrets (internal/secrets/local.go, kms.go)

    An envelope: the value is sealed by AES-GCM under a key of its own, and that
    key is wrapped, by AES-GCM under a key kept in a file ([LocalEncryptor]) or
    by the key management service ([KMSEncryptor]).  Byte strings are lists of
    bytes, converted at the interface [Encryptor] of Secrets.v.

    What the random source hands out in one call, in order, is a parameter
    ([Rand]), as are the failures of the disk ([Disk]) and the service ([KMS]).
    [zero] only wipes copies nobody reads again; the observer counts calls for
    the metrics.  Names that the code quotes ([%q]) are taken to need no escape. *)

(** [rand.Read] into [n] bytes: the i-th of a call. *)
Class Rand := rand_Read : nat → nat → result (list Z).
Class RandLaws (R : Rand) := rand_bytes : ∀ i n b, rand_Read i n = Ok b → length b = n ∧ bytes b.

(** [os.ReadFile], [os.MkdirAll], [os.WriteFile] on the files with their contents;
    what fails, when it fails, is an error of the system. *)
Definition os_ErrNotExist : error := New "file does not exist".
Inductive file_op := ReadFile | MkdirAll | WriteFile.
Class Disk := disk_error : file_op → string → option error.
Abbreviation Files := (gmap string string).
Definition os_ReadFile `{Disk} (path : string) (files : Files) : result (list Z) :=
  match disk_error ReadFile path with
  | Some err => Fail err
  | None => match files !! path with Some data => Ok (bytes_of_string data) | None => Fail os_ErrNotExist end
  end.

Definition number (n : nat) : string := FormatInt (Z.of_nat n).

(** ** The key in a file *)

Definition localKeyPrefix : string := "local:".

(** [type LocalEncryptor struct]; the cipher of the key in place of [kekGCM]. *)
Record LocalEncryptor := mkLocalEncryptor {
  le_keyPath : string; le_kekGCM : list (list Z); le_keyName : string;
}.
Definition KeyName (e : LocalEncryptor) : string := le_keyName e.

(** [aes.NewCipher] and [cipher.NewGCM], which does not fail on AES. *)
Definition NewGCM (who : string) (key : list Z) : result (list (list Z)) := rwrap who (NewCipher key).

Section Local.
Context {Dk : Disk}.

Definition loadOrCreateKEK {Rn : Rand} (path : string) (files : Files) : Files * result (list Z) :=
  match os_ReadFile path files with
  | Ok data =>
      if (length data =? 32)%nat then (files, Ok data)
      else (files, Fail (New ("local encryptor: key file " +:+ dquote +:+ path +:+ dquote
                              +:+ ": want 32 bytes, got " +:+ number (length data))))
  | Fail err =>
      if negb (errors_Is err os_ErrNotExist) then (files, Fail (Errorf "local encryptor: read key file" err)) else
      let dir := path_Dir path in
      let mkErr := if bool_decide (dir ≠ "") && bool_decide (dir ≠ ".") then disk_error MkdirAll dir else None in
      match mkErr with
      | Some e => (files, Fail (Errorf "local encryptor: create key dir" e))
      | None =>
          match rand_Read 0 32 with
          | Fail e => (files, Fail (Errorf "local encryptor: generate key" e))
          | Ok key =>
              match disk_error WriteFile path with
              | Some e => (files, Fail (Errorf "local encryptor: write key file" e))
              | None => (<[path := string_of_bytes key]> files, Ok key)
              end
          end
      end
  end.

Definition NewLocalEncryptor {Rn : Rand} (keyPath : string) (files : Files) : Files * result LocalEncryptor :=
  if bool_decide (keyPath = "") then (files, Fail (New "local encryptor: empty key path")) else
  match loadOrCreateKEK keyPath files with
  | (files, Fail e) => (files, Fail e)
  | (files, Ok key) =>
      (files, rbind (NewGCM "local encryptor: aes cipher" key) (λ gcm,
         Ok (mkLocalEncryptor keyPath gcm (localKeyPrefix +:+ path_Base keyPath))))
  end.
End Local.

(** [wrapDEK] makes the third draw of a call of [Encrypt]. *)
Definition wrapDEK `{Rand} (e : LocalEncryptor) (dek : list Z) : result (list Z) :=
  rbind (rwrap "local encrypt: kek nonce" (rand_Read 2 NonceSize)) (λ nonce,
  Ok (nonce ++ gcm_Seal (le_kekGCM e) nonce dek)).

Definition unwrapDEK (e : LocalEncryptor) (wrapped : list Z) : result (list Z) :=
  if (length wrapped <? NonceSize + Overhead)%nat
  then Fail (New ("local decrypt: encrypted dek too short: " +:+ number (length wrapped) +:+ " bytes")) else
  rwrap "local decrypt: unwrap dek"
    (gcm_Open (le_kekGCM e) (take NonceSize wrapped) (drop NonceSize wrapped)).

(** What both encryptors do with the key of a value: the first and the second
    draw, and the opening with that key. *)
Definition seal `{Rand} (who : string) (plaintext : list Z) : result (list Z * list Z * list Z) :=
  rbind (rwrap (who +:+ " encrypt: generate dek") (rand_Read 0 32)) (λ dek,
  rbind (NewGCM (who +:+ " encrypt: dek cipher") dek) (λ dekGCM,
  rbind (rwrap (who +:+ " encrypt: nonce") (rand_Read 1 NonceSize)) (λ nonce,
  Ok (dek, nonce, gcm_Seal dekGCM nonce plaintext)))).
Definition open (who : string) (dek nonce ciphertext : list Z) : result (list Z) :=
  rbind (NewGCM (who +:+ " decrypt: dek cipher") dek) (λ dekGCM,
  if negb (length nonce =? NonceSize)%nat
  then Fail (New (who +:+ " decrypt: nonce size: want " +:+ number NonceSize +:+ ", got " +:+ number (length nonce))) else
  rwrap (who +:+ " decrypt: open") (gcm_Open dekGCM nonce ciphertext)).
Definition not_owned (who name mine : string) : error :=
  New (who +:+ " decrypt: key name " +:+ dquote +:+ name +:+ dquote +:+ " not owned by this encryptor ("
       +:+ dquote +:+ mine +:+ dquote +:+ ")").
Definition to_sealed (ct nonce wrapped : list Z) (name : string) : Sealed :=
  mkSealed (string_of_bytes ct) (string_of_bytes nonce) (string_of_bytes wrapped) name.

Definition local_Encrypt `{Rand} (e : LocalEncryptor) (plaintext : string) : result Sealed :=
  rbind (seal "local" (bytes_of_string plaintext)) (λ '(dek, nonce, ct),
  rbind (wrapDEK e dek) (λ wrapped,
  Ok (to_sealed ct nonce wrapped (le_keyName e)))).

Definition local_Decrypt (e : LocalEncryptor) (sealed : Sealed) : result string :=
  if bool_decide (sl_KMSKeyName sealed ≠ le_keyName e)
  then Fail (not_owned "local" (sl_KMSKeyName sealed) (le_keyName e)) else
  rbind (unwrapDEK e (bytes_of_string (sl_EncryptedDEK sealed))) (λ dek,
  rbind (open "local" dek (bytes_of_string (sl_Nonce sealed)) (bytes_of_string (sl_Ciphertext sealed))) (λ pt,
  Ok (string_of_bytes pt))).

(** ** The key management service *)

(** [type kmsClient interface]: [Encrypt] and [Decrypt] under the key of a name. *)
Class KMS := {
  kms_Encrypt : string → list Z → result (list Z);
  kms_Decrypt : string → list Z → result (list Z);
}.

(** [type KMSEncryptor struct], without its observer; the client is the [KMS] in scope. *)
Record KMSEncryptor := mkKMSEncryptor { ke_keyResource : string }.
Definition kms_KeyName (e : KMSEncryptor) : string := ke_keyResource e.

(** [clientErr]: what opening the client returns. *)
Definition NewKMSEncryptor (clientErr : option error) (keyResource : string) : result KMSEncryptor :=
  if bool_decide (keyResource = "") then Fail (New "kms encryptor: empty key resource") else
  match clientErr with
  | Some e => Fail (Errorf "kms encryptor: new client" e)
  | None => Ok (mkKMSEncryptor keyResource)
  end.
Definition newKMSEncryptorWithClient (keyResource : string) : KMSEncryptor := mkKMSEncryptor keyResource.

Section Kms.
Context {Km : KMS}.

Definition kmse_Encrypt `{Rand} (e : KMSEncryptor) (plaintext : string) : result Sealed :=
  rbind (seal "kms" (bytes_of_string plaintext)) (λ '(dek, nonce, ct),
  rbind (rwrap "kms encrypt: wrap dek" (kms_Encrypt (ke_keyResource e) dek)) (λ wrapped,
  Ok (to_sealed ct nonce wrapped (ke_keyResource e)))).

Definition kmse_Decrypt (e : KMSEncryptor) (sealed : Sealed) : result string :=
  if bool_decide (sl_KMSKeyName sealed ≠ ke_keyResource e)
  then Fail (not_owned "kms" (sl_KMSKeyName sealed) (ke_keyResource e)) else
  rbind (rwrap "kms decrypt: unwrap dek"
           (kms_Decrypt (ke_keyResource e) (bytes_of_string (sl_EncryptedDEK sealed)))) (λ dek,
  rbind (open "kms" dek (bytes_of_string (sl_Nonce sealed)) (bytes_of_string (sl_Ciphertext sealed))) (λ pt,
  Ok (string_of_bytes pt))).
End Kms.

(** ** The encryptors as the service uses them *)

(** The draws of the call that seals a value. *)
Class Draws := draws : string → Rand.

Definition local_encryptor `{Draws} (e : LocalEncryptor) : Encryptor :=
  {| Encrypt v := @local_Encrypt (draws v) e v; Decrypt := local_Decrypt e |}.
Definition kms_encryptor `{KMS} `{Draws} (e : KMSEncryptor) : Encryptor :=
  {| Encrypt v := @kmse_Encrypt _ (draws v) e v; Decrypt := kmse_Decrypt e |}.
