(* ===== verification/CIConfig.v ===== *)
(** * CI configuration (internal/ciconfig)

    The triggers and permissions of [.docstore/ci.yaml] (ciconfig.go), the
    context of a run (context.go) and the [if:] expressions (expr.go): a
    recursive-descent parser that evaluates while it parses.  Decoding YAML and
    matching globs are libraries: [CIConfig] is the decoded value, [Glob] compiles
    a pattern. *)

From Stdlib Require Import Ascii.
From S2P Require Import Prelude GoStd.

(** ** Triggers and permissions *)

Record Permissions := mkPermissions {
  pm_Contents : string; pm_Checks : string; pm_Proposals : string;
  pm_Issues : string; pm_Releases : string; pm_CI : string;
}.
(** [PushTrigger] and [ProposalTrigger]: their globs. *)
Record PushTrigger := mkPushTrigger { pt_Branches : list string }.
Record ProposalTrigger := mkProposalTrigger { qt_BaseBranches : list string }.
Record ScheduleEntry := mkScheduleEntry { sc_Cron : string }.
Record TriggerConfig := mkTriggerConfig {
  tc_Push : option PushTrigger; tc_Proposal : option ProposalTrigger; tc_Schedule : list ScheduleEntry;
}.
Record CIConfig := mkCIConfig { cc_On : option TriggerConfig; cc_Permissions : option Permissions }.

Definition granted (value name : string) : list string :=
  if bool_decide (value = "write") then [name] else [].

Definition EffectivePermissions (cfg : CIConfig) : list string :=
  match cc_Permissions cfg with
  | None => ["checks"]
  | Some p =>
      granted (pm_Checks p) "checks" ++ granted (pm_Contents p) "contents" ++
      granted (pm_Proposals p) "proposals" ++ granted (pm_Issues p) "issues" ++
      granted (pm_Releases p) "releases" ++ granted (pm_CI p) "ci"
  end.

(** [glob.Compile] of gobwas/glob: the test of a pattern, when it is valid. *)
Class Glob := glob_Compile : string → option (string → bool).

Section Triggers.
Context {Gl : Glob}.

(** The loop over the patterns; an invalid one is skipped. *)
Fixpoint any_match (patterns : list string) (name : string) : bool :=
  match patterns with
  | [] => false
  | pattern :: patterns =>
      match glob_Compile pattern with
      | None => any_match patterns name
      | Some g => if g name then true else any_match patterns name
      end
  end.

Definition MatchesPush (cfg : CIConfig) (branch : string) : bool :=
  match cc_On cfg with
  | None => true
  | Some on =>
      match tc_Push on with
      | None => false
      | Some push =>
          if bool_decide (length (pt_Branches push) = 0%nat) then true else any_match (pt_Branches push) branch
      end
  end.

Definition MatchesProposal (cfg : CIConfig) (baseBranch : string) : bool :=
  match cc_On cfg with
  | None => true
  | Some on =>
      match tc_Proposal on with
      | None => false
      | Some proposal =>
          if bool_decide (length (qt_BaseBranches proposal) = 0%nat) then true
          else any_match (qt_BaseBranches proposal) baseBranch
      end
  end.
End Triggers.

(** ** The parser of expressions *)

Record TriggerContext := mkTriggerContext {
  tx_Type : string; tx_Branch : string; tx_BaseBranch : string; tx_ProposalID : string;
}.

(** The length of the longest prefix whose characters all satisfy [P]: where a
    scanning loop stops. *)
Fixpoint span_length (P : ascii → bool) (s : string) : nat :=
  match s with
  | String c s => if P c then S (span_length P s) else O
  | EmptyString => O
  end.

Definition dq : ascii := ascii_of_byte 34.
Definition sq : ascii := ascii_of_byte 39.

Definition is_blank (c : ascii) : bool := bool_decide (c = " "%char) || bool_decide (c = ascii_of_byte 9).
Definition isIdentStart (c : ascii) : bool :=
  let b := byte_of_ascii c in
  ((97 <=? b) && (b <=? 122)) || ((65 <=? b) && (b <=? 90)) || bool_decide (c = "_"%char).
Definition isIdentChar (c : ascii) : bool :=
  let b := byte_of_ascii c in
  isIdentStart c || ((48 <=? b) && (b <=? 57)) || bool_decide (c = "."%char).

Definition expr_error {A} (what : string) (pos : nat) : result A :=
  Fail (New (what +:+ " at position " +:+ FormatInt (Z.of_nat pos))).
Definition no_fuel : error := New "out of fuel".

Section Parser.
(** [type parser struct]: the input and the context stay; the position is
    passed along. *)
Variables (input : string) (ctx : TriggerContext).

(** [p.input[p.pos:]] *)
Definition rest (pos : nat) : string := string_drop pos input.

Definition skipWS (pos : nat) : nat := (pos + span_length is_blank (rest pos))%nat.

Definition consume (pos : nat) (s : string) : option nat :=
  if HasPrefix (rest pos) s then Some (pos + String.length s)%nat else None.

Definition resolveField (field : string) : result string :=
  if bool_decide (field = "event.type") then Ok (tx_Type ctx) else
  if bool_decide (field = "event.branch") then Ok (tx_Branch ctx) else
  if bool_decide (field = "event.base_branch") then Ok (tx_BaseBranch ctx) else
  if bool_decide (field = "event.proposal_id") then Ok (tx_ProposalID ctx) else
  Fail (New ("unknown field reference " +:+ field)).

Definition parseFieldRef (pos : nat) : result (string * nat) :=
  let n := span_length isIdentChar (rest pos) in
  match resolveField (string_take n (rest pos)) with
  | Ok val => Ok (val, (pos + n)%nat)
  | Fail e => Fail e
  end.

Definition parseStringLiteral (quote : ascii) (pos : nat) : result (string * nat) :=
  let start := S pos in
  let n := span_length (λ c, negb (bool_decide (c = quote))) (rest start) in
  if (String.length input <=? start + n)%nat then expr_error "unterminated string literal starting" (start - 1)
  else Ok (string_take n (rest start), S (start + n)).

Definition parseValue (pos : nat) : result (string * nat) :=
  let pos := skipWS pos in
  match rest pos with
  | EmptyString => expr_error "unexpected end of expression" pos
  | String ch _ =>
      if bool_decide (ch = dq) then parseStringLiteral dq pos else
      if bool_decide (ch = sq) then parseStringLiteral sq pos else
      if isIdentStart ch then parseFieldRef pos else
      expr_error ("unexpected character " +:+ String ch EmptyString) pos
  end.

(** [parseComparison] after its parenthesised case. *)
Definition parseTest (pos : nat) : result (bool * nat) :=
  match parseValue pos with
  | Fail e => Fail e
  | Ok (lhs, pos) =>
      let pos := skipWS pos in
      match consume pos "==" with
      | Some pos =>
          match parseValue pos with
          | Fail e => Fail e
          | Ok (rhs, pos) => Ok (bool_decide (lhs = rhs), pos)
          end
      | None =>
          match consume pos "!=" with
          | Some pos =>
              match parseValue pos with
              | Fail e => Fail e
              | Ok (rhs, pos) => Ok (bool_decide (lhs ≠ rhs), pos)
              end
          | None => Ok (bool_decide (lhs ≠ ""), pos)
          end
      end
  end.

(** The recursive descent; [fuel] bounds its depth.  The loops of [parseOr] and
    [parseAnd] have their left operand as argument. *)
Fixpoint parseOr (fuel pos : nat) : result (bool * nat) :=
  match fuel with
  | O => Fail no_fuel
  | S fuel =>
      match parseAnd fuel pos with
      | Fail e => Fail e
      | Ok (lhs, pos) => or_loop fuel lhs pos
      end
  end
with or_loop (fuel : nat) (lhs : bool) (pos : nat) : result (bool * nat) :=
  match fuel with
  | O => Fail no_fuel
  | S fuel =>
      let pos := skipWS pos in
      match consume pos "||" with
      | None => Ok (lhs, pos)
      | Some pos =>
          match parseAnd fuel pos with
          | Fail e => Fail e
          | Ok (rhs, pos) => or_loop fuel (lhs || rhs) pos
          end
      end
  end
with parseAnd (fuel pos : nat) : result (bool * nat) :=
  match fuel with
  | O => Fail no_fuel
  | S fuel =>
      match parseComparison fuel pos with
      | Fail e => Fail e
      | Ok (lhs, pos) => and_loop fuel lhs pos
      end
  end
with and_loop (fuel : nat) (lhs : bool) (pos : nat) : result (bool * nat) :=
  match fuel with
  | O => Fail no_fuel
  | S fuel =>
      let pos := skipWS pos in
      match consume pos "&&" with
      | None => Ok (lhs, pos)
      | Some pos =>
          match parseComparison fuel pos with
          | Fail e => Fail e
          | Ok (rhs, pos) => and_loop fuel (lhs && rhs) pos
          end
      end
  end
with parseComparison (fuel pos : nat) : result (bool * nat) :=
  match fuel with
  | O => Fail no_fuel
  | S fuel =>
      let pos := skipWS pos in
      match consume pos "(" with
      | Some pos =>
          match parseOr fuel pos with
          | Fail e => Fail e
          | Ok (result, pos) =>
              let pos := skipWS pos in
              match consume pos ")" with
              | Some pos => Ok (result, pos)
              | None => expr_error "expected ')'" pos
              end
          end
      | None => parseTest pos
      end
  end.
End Parser.

(** Three calls and one character for each level of parentheses, one call and
    two characters for each operator. *)
Definition expr_fuel (input : string) : nat := (3 * String.length input + 3)%nat.

Definition EvalIf (expr : string) (ctx : TriggerContext) : result bool :=
  let expr := TrimSpace expr in
  if bool_decide (expr = "") then Ok true else
  match parseOr expr ctx (expr_fuel expr) 0 with
  | Fail e => Fail e
  | Ok (value, pos) =>
      let pos := skipWS expr pos in
      if bool_decide (pos ≠ String.length expr) then expr_error "unexpected trailing input" pos else Ok value
  end.

Example EvalIf_example :
  let ctx := mkTriggerContext "proposal" "feature/x" "main" "p1" in
  EvalIf "event.type == 'push' || (event.base_branch=='main' && event.proposal_id)" ctx = Ok true.
Proof. vm_compute. reflexivity. Qed.
