(* ===== verification/ExprSpec.v ===== *)
(** * The language of [if:] expressions

    A grammar of the expressions with their meaning, and the proof that the
    parser of CIConfig.v decides it: it accepts exactly the expressions of the
    grammar, with their meaning, and ends on every input. *)

From Stdlib Require Import Ascii.
From S2P Require Import Prelude GoStd CIConfig.

(** ** The grammar *)

Definition blank (w : string) : Prop := span_length is_blank w = String.length w.

Inductive level := LOr | LAnd | LCmp.

Section Grammar.
Variable ctx : TriggerContext.

(** The fields of the context. *)
Inductive field : string → string → Prop :=
| f_type : field "event.type" (tx_Type ctx)
| f_branch : field "event.branch" (tx_Branch ctx)
| f_base_branch : field "event.base_branch" (tx_BaseBranch ctx)
| f_proposal_id : field "event.proposal_id" (tx_ProposalID ctx).

(** [operand v s]: [s] is a literal or a field, with the value [v]. *)
Inductive operand : string → string → Prop :=
| op_literal q v : q = dq ∨ q = sq → span_length (λ c, negb (bool_decide (c = q))) v = String.length v →
    operand v (String q (v +:+ String q ""))
| op_field s v : field s v → operand v s
| op_blank v w s w' : blank w → blank w' → operand v s → operand v (w +:+ s +:+ w').

(** [phrase l b s]: [s] is an expression of level [l], and it is [b].  "&&" binds
    stronger than "||", and both associate to the left; blanks may surround
    every part. *)
Inductive phrase : level → bool → string → Prop :=
| ph_or a b s t : phrase LOr a s → phrase LAnd b t → phrase LOr (a || b) (s +:+ "||" +:+ t)
| ph_or_and b s : phrase LAnd b s → phrase LOr b s
| ph_and a b s t : phrase LAnd a s → phrase LCmp b t → phrase LAnd (a && b) (s +:+ "&&" +:+ t)
| ph_and_cmp b s : phrase LCmp b s → phrase LAnd b s
| ph_paren b s : phrase LOr b s → phrase LCmp b ("(" +:+ s +:+ ")")
| ph_eq u v s t : operand u s → operand v t → phrase LCmp (bool_decide (u = v)) (s +:+ "==" +:+ t)
| ph_ne u v s t : operand u s → operand v t → phrase LCmp (bool_decide (u ≠ v)) (s +:+ "!=" +:+ t)
| ph_nonempty v s : operand v s → phrase LCmp (bool_decide (v ≠ "")) s
| ph_blank l b w s w' : blank w → blank w' → phrase l b s → phrase l b (w +:+ s +:+ w').
End Grammar.

(** ** Scanning *)

Lemma string_drop_add n m s : string_drop (n + m) s = string_drop m (string_drop n s).
Proof. revert s. induction n as [|n IH]; intros [|c s]; cbn; [done..|by destruct m|apply IH]. Qed.

Lemma length_string_drop n s : String.length (string_drop n s) = (String.length s - n)%nat.
Proof. revert s. induction n; intros [|c s]; cbn; auto. Qed.

Lemma span_length_le P s : (span_length P s ≤ String.length s)%nat.
Proof. induction s as [|c s IH]; cbn; [done|]. destruct (P c); lia. Qed.

(** What a scan leaves begins with a character that fails the test. *)
Definition stops (P : ascii → bool) (s : string) : Prop :=
  match s with String c _ => P c = false | EmptyString => True end.

Lemma span_app P s t :
  span_length P s = String.length s → stops P t → span_length P (s +:+ t) = String.length s.
Proof.
  intros Hs Ht. induction s as [|c s IH]; [destruct t; [done|change (span_length P (String a t) = 0%nat); cbn in *; by rewrite Ht]|]. rewrite string_app_cons. cbn in *.
  destruct (P c); [|done]. f_equal. apply IH. by injection Hs.
Qed.
Lemma span_app_all P s t :
  span_length P s = String.length s → span_length P (s +:+ t) = (String.length s + span_length P t)%nat.
Proof.
  intros Hs. induction s as [|c s IH]; [done|]. rewrite string_app_cons. cbn in *.
  destruct (P c); [|done]. f_equal. apply IH. by injection Hs.
Qed.
Lemma span_take P s : span_length P (string_take (span_length P s) s) = span_length P s.
Proof. induction s as [|c s IH]; cbn; [done|]. destruct (P c) eqn:E; cbn; [by rewrite E, IH|done]. Qed.
Lemma span_stops P s : stops P (string_drop (span_length P s) s).
Proof. induction s as [|c s IH]; cbn; [done|]. by destruct (P c) eqn:E; cbn. Qed.
Lemma length_string_take n s : (n ≤ String.length s)%nat → String.length (string_take n s) = n.
Proof. revert s. induction n; intros [|c s] Hn; cbn in *; [done..|lia|]. rewrite IHn; lia. Qed.
Lemma span_is_blank s : blank (string_take (span_length is_blank s) s).
Proof. unfold blank. rewrite span_take, length_string_take; [done|apply span_length_le]. Qed.

(** ** Positions *)

Section Positions.
Variable input : string.
Abbreviation rest := (rest input).
Abbreviation skipWS := (skipWS input).

(** The input from [p] on is [s] and then what is at [q]. *)
Definition reads (p q : nat) (s : string) : Prop := rest p = s +:+ rest q ∧ q = (p + String.length s)%nat.

Lemma rest_app p s k : rest p = s +:+ k → rest (p + String.length s) = k.
Proof. intros E. unfold CIConfig.rest in *. by rewrite string_drop_add, E, string_drop_app. Qed.
Lemma reads_intro p s k : rest p = s +:+ k → reads p (p + String.length s) s.
Proof. intros E. split; [|done]. by rewrite (rest_app _ _ _ E). Qed.
Lemma reads_take p n : (n ≤ String.length (rest p))%nat → reads p (p + n) (string_take n (rest p)).
Proof.
  intros Hn. rewrite <- (length_string_take n (rest p)) at 1 by done.
  apply (reads_intro _ _ (string_drop n (rest p))). by rewrite string_take_drop.
Qed.
Lemma reads_trans p q r s t : reads p q s → reads q r t → reads p r (s +:+ t).
Proof. intros [E ->] [E' ->]. split; [by rewrite E, E', string_app_assoc|]. rewrite string_length_app. lia. Qed.

Lemma skipWS_reads p : ∃ w, blank w ∧ reads p (skipWS p) w.
Proof. eexists. split; [apply span_is_blank|]. apply reads_take, span_length_le. Qed.
Lemma consume_reads p s q : consume input p s = Some q → reads p q s.
Proof.
  unfold consume. destruct (HasPrefix _ _) eqn:E; [|done]. intros [= <-].
  apply (reads_intro _ _ (string_drop (String.length s) (rest p))). by apply HasPrefix_drop.
Qed.
Lemma reads_le p q s : reads p q s → (p ≤ String.length input)%nat → (p ≤ q ≤ String.length input)%nat.
Proof.
  intros [E ->] Hp. apply (f_equal String.length) in E. revert E.
  unfold CIConfig.rest. rewrite string_length_app, !length_string_drop. lia.
Qed.

Lemma rest_cons p c t : rest p = String c t → rest (S p) = t.
Proof. intros E. pose proof (rest_app p (String c "") t E) as E2. cbn in E2. by rewrite Nat.add_1_r in E2. Qed.

(** ** What is accepted is in the grammar *)

Variable ctx : TriggerContext.

Lemma phrase_before l b w s : blank w → phrase ctx l b s → phrase ctx l b (w +:+ s).
Proof. intros Hw Hs. rewrite <- (string_app_empty_r s). by apply ph_blank. Qed.
Lemma phrase_after l b s w : blank w → phrase ctx l b s → phrase ctx l b (s +:+ w).
Proof. intros Hw Hs. change (s +:+ w) with ("" +:+ (s +:+ w)). by apply ph_blank. Qed.
Lemma operand_before v w s : blank w → operand ctx v s → operand ctx v (w +:+ s).
Proof. intros Hw Hs. rewrite <- (string_app_empty_r s). by apply op_blank. Qed.
Lemma operand_after v s w : blank w → operand ctx v s → operand ctx v (s +:+ w).
Proof. intros Hw Hs. change (s +:+ w) with ("" +:+ (s +:+ w)). by apply op_blank. Qed.

Lemma resolveField_ok name v : resolveField ctx name = Ok v ↔ field ctx name v.
Proof.
  unfold resolveField. split.
  - repeat case_bool_decide; subst; intros [= <-]; constructor.
  - by intros [].
Qed.

Lemma parseStringLiteral_ok q p v p' :
  rest p = String q (rest (S p)) → q = dq ∨ q = sq → parseStringLiteral input q p = Ok (v, p') →
  ∃ s, reads p p' s ∧ operand ctx v s.
Proof.
  intros Hp Hq. unfold parseStringLiteral. set (P := λ c, negb (bool_decide (c = q))).
  set (n := span_length P (rest (S p))).
  destruct (String.length input <=? S p + n)%nat eqn:Hl; [done|]. intros [= <- <-].
  apply Nat.leb_gt in Hl. assert (n ≤ String.length (rest (S p)))%nat as Hn by apply span_length_le.
  assert (rest (S p + n) = String q (rest (S (S p + n)))) as Hq'.
  { pose proof (span_stops P (rest (S p))) as Hst. fold n in Hst.
    assert (string_drop n (rest (S p)) = rest (S p + n)) as E by (unfold CIConfig.rest; by rewrite string_drop_add).
    rewrite E in Hst. destruct (rest (S p + n)) as [|c t] eqn:Er.
    - apply (f_equal String.length) in Er. unfold CIConfig.rest in Er. rewrite length_string_drop in Er.
      change (String.length "") with 0%nat in Er. lia.
    - unfold P in Hst. apply negb_false_iff, bool_decide_eq_true in Hst as ->. by rewrite (rest_cons _ _ _ Er). }
  exists (String q (string_take n (rest (S p)) +:+ String q "")). split.
  - apply (reads_trans p (S p) _ (String q "")); [split; [done|cbn; lia]|].
    apply (reads_trans _ (S p + n) _ _ (String q "")); [by apply reads_take|]. split; [done|cbn; lia].
  - apply op_literal; [done|]. fold P. rewrite length_string_take by done. apply span_take.
Qed.

Lemma parseFieldRef_ok p v p' :
  parseFieldRef input ctx p = Ok (v, p') → ∃ s, reads p p' s ∧ operand ctx v s.
Proof.
  unfold parseFieldRef. destruct (resolveField _ _) eqn:E; [|done]. intros [= <- <-].
  exists (string_take (span_length isIdentChar (rest p)) (rest p)).
  split; [apply reads_take, span_length_le|]. by apply op_field, resolveField_ok.
Qed.

Lemma parseValue_ok p v p' : parseValue input ctx p = Ok (v, p') → ∃ s, reads p p' s ∧ operand ctx v s.
Proof.
  unfold parseValue. destruct (skipWS_reads p) as (w & Hw & Hrw). set (p1 := skipWS p) in *.
  intros E. cut (∃ s, reads p1 p' s ∧ operand ctx v s).
  { intros (s & Hs & Ho). exists (w +:+ s). split; [by eapply reads_trans|by apply operand_before]. }
  destruct (rest p1) as [|c t] eqn:Er; [done|]. pose proof (rest_cons _ _ _ Er) as Et. subst t.
  repeat case_bool_decide; subst.
  - by apply (parseStringLiteral_ok dq); auto.
  - by apply (parseStringLiteral_ok sq); auto.
  - destruct (isIdentStart c); [by apply parseFieldRef_ok|done].
Qed.

(** Blanks, a token, and a token after blanks. *)
Lemma then_token p q s : consume input (skipWS p) s = Some q → ∃ w, blank w ∧ reads p q (w +:+ s).
Proof.
  intros Hc. destruct (skipWS_reads p) as (w & Hw & Hrw). exists w. split; [done|].
  eapply reads_trans; [done|]. by apply consume_reads.
Qed.

Lemma parseTest_ok p b p' : parseTest input ctx p = Ok (b, p') → ∃ s, reads p p' s ∧ phrase ctx LCmp b s.
Proof.
  unfold parseTest. destruct (parseValue _ _ _) as [[u q]|] eqn:Eu; [|done].
  apply parseValue_ok in Eu as (s & Hs & Hu).
  destruct (consume _ _ "==") as [r|] eqn:Ec; [|clear Ec; destruct (consume _ _ "!=") as [r|] eqn:Ec].
  - apply then_token in Ec as (w & Hw & Hc). destruct (parseValue _ _ r) as [[v q']|] eqn:Ev; [|done].
    apply parseValue_ok in Ev as (t & Ht & Hv). intros [= <- <-].
    exists ((s +:+ w) +:+ "==" +:+ t). split; [|by apply ph_eq, Hv; apply operand_after].
    rewrite string_app_assoc, <- (string_app_assoc w). by eauto using reads_trans.
  - apply then_token in Ec as (w & Hw & Hc). destruct (parseValue _ _ r) as [[v q']|] eqn:Ev; [|done].
    apply parseValue_ok in Ev as (t & Ht & Hv). intros [= <- <-].
    exists ((s +:+ w) +:+ "!=" +:+ t). split; [|by apply ph_ne, Hv; apply operand_after].
    rewrite string_app_assoc, <- (string_app_assoc w). by eauto using reads_trans.
  - intros [= <- <-]. destruct (skipWS_reads q) as (w & Hw & Hrw). exists (s +:+ w).
    split; [by eapply reads_trans|]. by apply phrase_after, ph_nonempty.
Qed.

(** The equations of the descent. *)
Lemma parseOr_S f p : parseOr input ctx (S f) p =
  match parseAnd input ctx f p with Fail e => Fail e | Ok (a, p) => or_loop input ctx f a p end.
Proof. done. Qed.
Lemma or_loop_S f a p : or_loop input ctx (S f) a p =
  match consume input (skipWS p) "||" with
  | None => Ok (a, skipWS p)
  | Some p => match parseAnd input ctx f p with Fail e => Fail e | Ok (b, p) => or_loop input ctx f (a || b) p end
  end.
Proof. done. Qed.
Lemma parseAnd_S f p : parseAnd input ctx (S f) p =
  match parseComparison input ctx f p with Fail e => Fail e | Ok (a, p) => and_loop input ctx f a p end.
Proof. done. Qed.
Lemma and_loop_S f a p : and_loop input ctx (S f) a p =
  match consume input (skipWS p) "&&" with
  | None => Ok (a, skipWS p)
  | Some p => match parseComparison input ctx f p with Fail e => Fail e | Ok (b, p) => and_loop input ctx f (a && b) p end
  end.
Proof. done. Qed.
Lemma parseComparison_S f p : parseComparison input ctx (S f) p =
  match consume input (skipWS p) "(" with
  | None => parseTest input ctx (skipWS p)
  | Some p =>
      match parseOr input ctx f p with
      | Fail e => Fail e
      | Ok (b, p) => match consume input (skipWS p) ")" with Some p => Ok (b, p) | None => expr_error "expected ')'" (skipWS p) end
      end
  end.
Proof. done. Qed.

(** What a part of the parser returns from [p] on is in the grammar; so is what
    a loop returns, with its left operand in front. *)
Definition sound (l : level) (p : nat) (r : result (bool * nat)) : Prop :=
  ∀ b q, r = Ok (b, q) → ∃ s, reads p q s ∧ phrase ctx l b s.
Definition sound_after (l : level) (a : bool) (p : nat) (r : result (bool * nat)) : Prop :=
  ∀ s b q, r = Ok (b, q) → phrase ctx l a s → ∃ t, reads p q t ∧ phrase ctx l b (s +:+ t).

Lemma descent_sound fuel :
  (∀ p, sound LOr p (parseOr input ctx fuel p)) ∧ (∀ a p, sound_after LOr a p (or_loop input ctx fuel a p)) ∧
  (∀ p, sound LAnd p (parseAnd input ctx fuel p)) ∧ (∀ a p, sound_after LAnd a p (and_loop input ctx fuel a p)) ∧
  (∀ p, sound LCmp p (parseComparison input ctx fuel p)).
Proof.
  induction fuel as [|fuel (IHor & IHorl & IHand & IHandl & IHcmp)]; [split_and!; intros; intros ?; done|].
  split_and!.
  - intros p b q. rewrite parseOr_S. destruct (parseAnd _ _ _ p) as [[a p1]|] eqn:Ea; [|done]. intros E.
    destruct (IHand _ _ _ Ea) as (s & Hs & Ha).
    destruct (IHorl _ _ _ _ _ E (ph_or_and _ _ _ Ha)) as (t & Ht & Hb).
    exists (s +:+ t). split; [by eapply reads_trans|done].
  - intros a p s b q. rewrite or_loop_S. destruct (consume _ _ "||") as [p1|] eqn:Ec.
    + apply then_token in Ec as (w & Hw & Hc). destruct (parseAnd _ _ _ p1) as [[c p2]|] eqn:Ea; [|done].
      destruct (IHand _ _ _ Ea) as (t & Ht & Hb). intros E Hs.
      destruct (IHorl _ _ _ _ _ E (ph_or _ _ _ _ _ (phrase_after _ _ _ _ Hw Hs) Hb)) as (t' & Ht' & Hb').
      exists ((w +:+ "||") +:+ t +:+ t'). split; [by eauto using reads_trans|].
      rewrite !string_app_assoc in Hb'. by rewrite !string_app_assoc.
    + intros [= <- <-] Hs. destruct (skipWS_reads p) as (w & Hw & Hrw). exists w. split; [done|]. by apply phrase_after.
  - intros p b q. rewrite parseAnd_S. destruct (parseComparison _ _ _ p) as [[a p1]|] eqn:Ea; [|done]. intros E.
    destruct (IHcmp _ _ _ Ea) as (s & Hs & Ha).
    destruct (IHandl _ _ _ _ _ E (ph_and_cmp _ _ _ Ha)) as (t & Ht & Hb).
    exists (s +:+ t). split; [by eapply reads_trans|done].
  - intros a p s b q. rewrite and_loop_S. destruct (consume _ _ "&&") as [p1|] eqn:Ec.
    + apply then_token in Ec as (w & Hw & Hc). destruct (parseComparison _ _ _ p1) as [[c p2]|] eqn:Ea; [|done].
      destruct (IHcmp _ _ _ Ea) as (t & Ht & Hb). intros E Hs.
      destruct (IHandl _ _ _ _ _ E (ph_and _ _ _ _ _ (phrase_after _ _ _ _ Hw Hs) Hb)) as (t' & Ht' & Hb').
      exists ((w +:+ "&&") +:+ t +:+ t'). split; [by eauto using reads_trans|].
      rewrite !string_app_assoc in Hb'. by rewrite !string_app_assoc.
    + intros [= <- <-] Hs. destruct (skipWS_reads p) as (w & Hw & Hrw). exists w. split; [done|]. by apply phrase_after.
  - intros p b q. rewrite parseComparison_S. destruct (consume _ _ "(") as [p1|] eqn:Ec.
    + apply then_token in Ec as (w & Hw & Hc). destruct (parseOr _ _ _ p1) as [[c p2]|] eqn:Ea; [|done].
      destruct (IHor _ _ _ Ea) as (s & Hs & Hb). destruct (consume _ _ ")") as [p3|] eqn:Ec2; [|done].
      apply then_token in Ec2 as (w2 & Hw2 & Hc2). intros [= <- <-].
      exists ((w +:+ "(") +:+ s +:+ (w2 +:+ ")")). split; [by eauto using reads_trans|].
      rewrite string_app_assoc, <- (string_app_assoc s). by apply phrase_before, ph_paren, phrase_after.
    + intros E. apply parseTest_ok in E as (s & Hs & Hb). destruct (skipWS_reads p) as (w & Hw & Hrw).
      exists (w +:+ s). split; [by eapply reads_trans|]. by apply phrase_before.
Qed.

(** ** The parser ends *)

Abbreviation size := (String.length input).

Lemma parseValue_ends p : parseValue input ctx p ≠ Fail no_fuel.
Proof.
  unfold parseValue, parseStringLiteral, parseFieldRef, resolveField, expr_error.
  repeat (case_match; try done); intros [= E]; by simplify_eq.
Qed.
Lemma parseTest_ends p : parseTest input ctx p ≠ Fail no_fuel.
Proof.
  unfold parseTest. pose proof parseValue_ends as Hv. repeat (case_match; try done); congruence.
Qed.

Lemma then_token_le p q s : (p ≤ size)%nat → consume input (skipWS p) s = Some q → (p + String.length s ≤ q ≤ size)%nat.
Proof.
  intros Hp (w & _ & Hr)%then_token. pose proof (reads_le _ _ _ Hr Hp) as Hle. destruct Hr as [_ ->].
  rewrite string_length_app in *. lia.
Qed.
Lemma sound_le l p r b q : sound l p r → r = Ok (b, q) → (p ≤ size)%nat → (p ≤ q ≤ size)%nat.
Proof. intros Hs E Hp. destruct (Hs _ _ E) as (s & Hr & _). by eapply reads_le. Qed.

Lemma descent_ends fuel :
  (∀ p, (3 * (size - p) + 3 ≤ fuel)%nat → (p ≤ size)%nat → parseOr input ctx fuel p ≠ Fail no_fuel) ∧
  (∀ a p, (3 * (size - p) + 1 ≤ fuel)%nat → (p ≤ size)%nat → or_loop input ctx fuel a p ≠ Fail no_fuel) ∧
  (∀ p, (3 * (size - p) + 2 ≤ fuel)%nat → (p ≤ size)%nat → parseAnd input ctx fuel p ≠ Fail no_fuel) ∧
  (∀ a p, (3 * (size - p) + 1 ≤ fuel)%nat → (p ≤ size)%nat → and_loop input ctx fuel a p ≠ Fail no_fuel) ∧
  (∀ p, (3 * (size - p) + 1 ≤ fuel)%nat → (p ≤ size)%nat → parseComparison input ctx fuel p ≠ Fail no_fuel).
Proof.
  induction fuel as [|fuel (IHor & IHorl & IHand & IHandl & IHcmp)]; [split_and!; intros; lia|].
  destruct (descent_sound fuel) as (_ & _ & Sand & _ & Scmp). split_and!.
  - intros p Hf Hp. rewrite parseOr_S. specialize (IHand p ltac:(lia) Hp).
    destruct (parseAnd _ _ _ p) as [[a q]|] eqn:E; [|congruence].
    pose proof (sound_le _ _ _ _ _ (Sand p) E Hp). apply IHorl; lia.
  - intros a p Hf Hp. rewrite or_loop_S. destruct (consume _ _ _) as [q|] eqn:Ec; [|done].
    apply (then_token_le p q "||" Hp) in Ec. change (String.length "||") with 2%nat in Ec.
    specialize (IHand q ltac:(lia) ltac:(lia)). destruct (parseAnd _ _ _ q) as [[b r]|] eqn:E; [|congruence].
    pose proof (sound_le _ _ _ _ _ (Sand q) E ltac:(lia)). apply IHorl; lia.
  - intros p Hf Hp. rewrite parseAnd_S. specialize (IHcmp p ltac:(lia) Hp).
    destruct (parseComparison _ _ _ p) as [[a q]|] eqn:E; [|congruence].
    pose proof (sound_le _ _ _ _ _ (Scmp p) E Hp). apply IHandl; lia.
  - intros a p Hf Hp. rewrite and_loop_S. destruct (consume _ _ _) as [q|] eqn:Ec; [|done].
    apply (then_token_le p q "&&" Hp) in Ec. change (String.length "&&") with 2%nat in Ec.
    specialize (IHcmp q ltac:(lia) ltac:(lia)). destruct (parseComparison _ _ _ q) as [[b r]|] eqn:E; [|congruence].
    pose proof (sound_le _ _ _ _ _ (Scmp q) E ltac:(lia)). apply IHandl; lia.
  - intros p Hf Hp. rewrite parseComparison_S. destruct (consume _ _ "(") as [q|] eqn:Ec; [|apply parseTest_ends].
    apply (then_token_le p q "(" Hp) in Ec. change (String.length "(") with 1%nat in Ec.
    specialize (IHor q ltac:(lia) ltac:(lia)). destruct (parseOr _ _ _ q) as [[b r]|]; [|congruence].
    by destruct (consume _ _ ")").
Qed.

(** ** What is in the grammar is accepted *)

(** What is left after blanks. *)
Definition unblank (k : string) : string := string_drop (span_length is_blank k) k.

Lemma rest_skipWS p : rest (skipWS p) = unblank (rest p).
Proof. unfold CIConfig.rest, CIConfig.skipWS. by rewrite string_drop_add. Qed.
Lemma unblank_blank w k : blank w → unblank (w +:+ k) = unblank k.
Proof. intros Hw. unfold unblank. by rewrite span_app_all, string_drop_add, string_drop_app. Qed.
Lemma unblank_stops k : stops is_blank k → unblank k = k.
Proof. unfold unblank. destruct k as [|c k]; cbn; [done|]. by intros ->. Qed.
Lemma skipWS_blank p w k : rest p = w +:+ k → blank w → skipWS p = skipWS (p + String.length w).
Proof.
  intros E Hw. unfold CIConfig.skipWS. rewrite (rest_app _ _ _ E), E, span_app_all by done. lia.
Qed.
Lemma skipWS_stops p : stops is_blank (rest p) → skipWS p = p.
Proof. unfold CIConfig.skipWS. destruct (rest p) as [|c k]; cbn; [lia|]. intros ->. lia. Qed.
Lemma skipWS_idem p : skipWS (skipWS p) = skipWS p.
Proof. apply skipWS_stops. rewrite rest_skipWS. apply span_stops. Qed.

Lemma consume_app p s k : rest p = s +:+ k → consume input p s = Some (p + String.length s)%nat.
Proof. intros E. unfold consume. by rewrite E, HasPrefix_app. Qed.

(** What may follow an expression of a level. *)
Definition follows (l : level) (k : string) : Prop :=
  unblank k = "" ∨ HasPrefix (unblank k) ")" = true ∨
  (l ≠ LOr ∧ HasPrefix (unblank k) "||" = true) ∨ (l = LCmp ∧ HasPrefix (unblank k) "&&" = true).

Lemma follows_blank l w k : blank w → follows l k → follows l (w +:+ k).
Proof. intros Hw. unfold follows. by rewrite unblank_blank. Qed.
Lemma follows_or k : follows LAnd ("||" +:+ k).
Proof. right. right. left. by rewrite unblank_stops, HasPrefix_app. Qed.
Lemma follows_and k : follows LCmp ("&&" +:+ k).
Proof. right. right. right. by rewrite unblank_stops, HasPrefix_app. Qed.
Lemma follows_paren l k : follows l (")" +:+ k).
Proof. right. left. by rewrite unblank_stops, HasPrefix_app. Qed.
Lemma follows_lower k : follows LOr k ∨ follows LAnd k → follows LCmp k.
Proof. unfold follows. intros [H|H]; destruct H as [?|[?|[[? ?]|[? ?]]]]; try done; naive_solver. Qed.

Lemma blank_not_ident c : is_blank c = true → isIdentChar c = false.
Proof. unfold is_blank. intros [E|E]%orb_true_iff; apply bool_decide_eq_true in E as ->; reflexivity. Qed.
Lemma blank_stops w k : blank w → stops isIdentChar k → stops isIdentChar (w +:+ k).
Proof.
  unfold blank. destruct w as [|c w]; [done|]. intros Hw _. change (isIdentChar c = false). cbn in Hw.
  destruct (is_blank c) eqn:E; [by apply blank_not_ident|done].
Qed.
Lemma follows_stops k : follows LCmp k → stops isIdentChar k.
Proof.
  intros Hk. destruct k as [|c k]; [done|]. cbn. destruct (is_blank c) eqn:E; [by apply blank_not_ident|].
  unfold follows in Hk. rewrite unblank_stops in Hk by done.
  destruct Hk as [?|[Hp|[[_ Hp]|[_ Hp]]]]; [done|apply HasPrefix_spec in Hp as [t Hp]; by injection Hp as -> _..].
Qed.

Lemma parseValue_cong p q : skipWS p = skipWS q → parseValue input ctx p = parseValue input ctx q.
Proof. intros E. unfold parseValue. by rewrite E. Qed.

Lemma parseStringLiteral_accepts q v p k :
  rest p = String q (v +:+ String q k) → span_length (λ c, negb (bool_decide (c = q))) v = String.length v →
  parseStringLiteral input q p = Ok (v, S (S p + String.length v))%nat.
Proof.
  intros Hp Hv. unfold parseStringLiteral. rewrite (rest_cons _ _ _ Hp).
  rewrite (span_app _ v (String q k)); [|done|cbn; by rewrite bool_decide_true].
  rewrite string_take_app. destruct (size <=? S p + String.length v)%nat eqn:El; [|done].
  apply Nat.leb_le in El. apply (f_equal String.length) in Hp. revert Hp.
  unfold CIConfig.rest. rewrite length_string_drop. cbn [String.length]. rewrite string_length_app. cbn [String.length]. lia.
Qed.

Lemma parseValue_accepts v s : operand ctx v s → ∀ p k, rest p = s +:+ k → stops isIdentChar k →
  ∃ p', parseValue input ctx p = Ok (v, p') ∧ skipWS p' = skipWS (p + String.length s).
Proof.
  induction 1 as [q v Hq Hv|s v Hs|v w s w' Hw Hw' _ IH]; intros p k Hp Hk.
  - assert (rest p = String q (v +:+ String q k)) as Hp' by (by rewrite Hp, string_app_cons, string_app_assoc).
    exists (S (S p + String.length v)). split.
    + unfold parseValue. rewrite (skipWS_stops p), Hp' by (rewrite Hp'; by destruct Hq as [-> | ->]).
      destruct Hq as [-> | ->]; by eapply parseStringLiteral_accepts.
    + f_equal. cbn [String.length]. rewrite string_length_app. cbn [String.length]. lia.
  - assert (span_length isIdentChar s = String.length s) as Hn by (by destruct Hs).
    assert (∃ t, s = String "e" t) as [t Ht] by (destruct Hs; eexists; reflexivity).
    exists (p + String.length s)%nat. split; [|done].
    unfold parseValue. rewrite (skipWS_stops p) by (by rewrite Hp, Ht, string_app_cons).
    assert (rest p = String "e" (t +:+ k)) as Hp' by (by rewrite Hp, Ht, string_app_cons).
    rewrite Hp'. rewrite !bool_decide_false by done. change (isIdentStart "e") with true.
    unfold parseFieldRef. rewrite Hp, span_app, string_take_app by done. apply resolveField_ok in Hs. by rewrite Hs.
  - rewrite string_app_assoc, string_app_assoc in Hp.
    rewrite (parseValue_cong p (p + String.length w)) by (by eapply skipWS_blank).
    destruct (IH (p + String.length w)%nat (w' +:+ k) (rest_app _ _ _ Hp)) as (p' & E & Ep); [by apply blank_stops|].
    exists p'. split; [done|]. rewrite Ep, !string_length_app.
    rewrite (skipWS_blank _ w' k (rest_app _ _ _ (rest_app _ _ _ Hp))) by done. f_equal. lia.
Qed.

Lemma parseValue_no_paren p r : parseValue input ctx p = Ok r → consume input (skipWS p) "(" = None.
Proof.
  unfold parseValue, consume. intros E. destruct (HasPrefix _ "(") eqn:Hp; [|done].
  apply HasPrefix_spec in Hp as [t Ht]. rewrite string_app_cons in Ht. by rewrite Ht in E.
Qed.

Lemma parseTest_cong p q : skipWS p = skipWS q → parseTest input ctx p = parseTest input ctx q.
Proof. intros E. unfold parseTest. by rewrite (parseValue_cong p q). Qed.
Lemma parseComparison_cong f p q :
  skipWS p = skipWS q → parseComparison input ctx f p = parseComparison input ctx f q.
Proof. intros E. destruct f; [done|]. by rewrite !parseComparison_S, E. Qed.
Lemma parseAnd_cong f p q : skipWS p = skipWS q → parseAnd input ctx f p = parseAnd input ctx f q.
Proof. intros E. destruct f; [done|]. by rewrite !parseAnd_S, (parseComparison_cong f p q). Qed.
Lemma parseOr_cong f p q : skipWS p = skipWS q → parseOr input ctx f p = parseOr input ctx f q.
Proof. intros E. destruct f; [done|]. by rewrite !parseOr_S, (parseAnd_cong f p q). Qed.

(** The next token, when the position is known up to blanks. *)
Lemma next_token p q c s k :
  skipWS p = skipWS q → is_blank c = false → rest q = String c s +:+ k →
  consume input (skipWS p) (String c s) = Some (q + String.length (String c s))%nat.
Proof.
  intros E Hc Hq. rewrite E, (skipWS_stops q) by (by rewrite Hq, string_app_cons). by eapply consume_app.
Qed.
Lemma no_token p q s l : skipWS p = skipWS q → follows l (rest q) →
  s = "==" ∨ s = "!=" ∨ (s = "&&" ∧ l ≠ LCmp) ∨ (s = "||" ∧ l = LOr) → consume input (skipWS p) s = None.
Proof.
  intros E Hf Hs. unfold consume. rewrite E, rest_skipWS. destruct (HasPrefix _ s) eqn:Hp; [|done]. exfalso.
  apply HasPrefix_spec in Hp as [t Ht]. unfold follows in Hf. rewrite Ht in Hf.
  destruct Hs as [->|[->|[[-> Hl]|[-> Hl]]]]; rewrite !string_app_cons in Hf;
    cbn in Hf; destruct Hf as [Hf|[Hf|[[? Hf]|[? Hf]]]]; solve [discriminate Hf | congruence].
Qed.

Lemma consume_other p q : consume input p "!=" = Some q → consume input p "==" = None.
Proof.
  unfold consume. destruct (HasPrefix _ "!=") eqn:E; [|done]. intros _.
  apply HasPrefix_spec in E as [t ->]. by rewrite string_app_cons.
Qed.

Lemma parseTest_compares u v s t op p k :
  operand ctx u s → operand ctx v t → op = "==" ∨ op = "!=" → rest p = (s +:+ op +:+ t) +:+ k → follows LCmp k →
  ∃ p1 p2 p3, parseValue input ctx p = Ok (u, p1) ∧ consume input (skipWS p1) op = Some p2 ∧
    parseValue input ctx p2 = Ok (v, p3) ∧ skipWS p3 = skipWS (p + String.length (s +:+ op +:+ t)).
Proof.
  intros Hu Hv Hop Hp Hk. rewrite !string_app_assoc in Hp.
  destruct (parseValue_accepts _ _ Hu p (op +:+ t +:+ k) Hp) as (p1 & E1 & Ep1); [by destruct Hop as [-> | ->]|].
  pose proof (rest_app _ _ _ Hp) as Hp2.
  destruct (parseValue_accepts _ _ Hv _ k (rest_app _ _ _ Hp2)) as (p3 & E3 & Ep3); [by apply follows_stops|].
  exists p1, (p + String.length s + String.length op)%nat, p3. split_and!; [done| |done|].
  - destruct Hop as [-> | ->]; by eapply next_token.
  - rewrite Ep3, !string_length_app. f_equal. lia.
Qed.

(** The parser gets through the phrases: to the end of a comparison, and to the
    loop that looks for more operands. *)
Definition accepts (l : level) (b : bool) (s : string) : Prop := ∀ fuel p k,
  rest p = s +:+ k →
  match l with
  | LCmp => follows LCmp k → (3 * String.length s + 1 ≤ fuel)%nat →
      ∃ p', parseComparison input ctx fuel p = Ok (b, p') ∧ skipWS p' = skipWS (p + String.length s)
  | LAnd => follows LCmp k → (3 * String.length s + 2 ≤ fuel)%nat →
      ∃ fuel' p', parseAnd input ctx fuel p = and_loop input ctx fuel' b p' ∧
        skipWS p' = skipWS (p + String.length s) ∧ (fuel ≤ fuel' + String.length s + 1)%nat
  | LOr => follows LAnd k → (3 * String.length s + 3 ≤ fuel)%nat →
      ∃ fuel' p', parseOr input ctx fuel p = or_loop input ctx fuel' b p' ∧
        skipWS p' = skipWS (p + String.length s) ∧ (fuel ≤ fuel' + String.length s + 1)%nat
  end.

Lemma accepts_and_end fuel p q b k :
  skipWS p = skipWS q → rest q = k → follows LAnd k → (1 ≤ fuel)%nat →
  and_loop input ctx fuel b p = Ok (b, skipWS p).
Proof.
  intros E <- Hf Hn. destruct fuel; [lia|]. rewrite and_loop_S, (no_token p q "&&" LAnd); naive_solver.
Qed.
Lemma accepts_or_end fuel p q b k :
  skipWS p = skipWS q → rest q = k → follows LOr k → (1 ≤ fuel)%nat →
  or_loop input ctx fuel b p = Ok (b, skipWS p).
Proof.
  intros E <- Hf Hn. destruct fuel; [lia|]. rewrite or_loop_S, (no_token p q "||" LOr); naive_solver.
Qed.

Lemma accepts_blank l b w s w' : blank w → blank w' → accepts l b s → accepts l b (w +:+ s +:+ w').
Proof.
  intros Hw Hw' Ha fuel p k Hp. rewrite !string_app_assoc in Hp.
  pose proof (rest_app _ _ _ Hp) as Hp1. specialize (Ha fuel _ _ Hp1).
  assert (skipWS (p + String.length w + String.length s) = skipWS (p + String.length (w +:+ s +:+ w'))) as Hend.
  { rewrite (skipWS_blank _ w' k (rest_app _ _ _ Hp1)) by done. rewrite !string_length_app. f_equal. lia. }
  pose proof (skipWS_blank _ _ _ Hp Hw) as Hstart. rewrite <- Hend. clear Hend. rewrite !string_length_app.
  destruct l; intros Hf Hn.
  - rewrite (parseOr_cong fuel p _ Hstart). destruct Ha as (f' & p' & ? & ? & ?); [by apply follows_blank|lia|].
    exists f', p'. split_and!; [done..|lia].
  - rewrite (parseAnd_cong fuel p _ Hstart). destruct Ha as (f' & p' & ? & ? & ?); [by apply follows_blank|lia|].
    exists f', p'. split_and!; [done..|lia].
  - rewrite (parseComparison_cong fuel p _ Hstart). apply Ha; [by apply follows_blank|lia].
Qed.

Lemma phrase_accepted l b s : phrase ctx l b s → accepts l b s.
Proof.
  induction 1 as [a b s t _ IHs _ IHt|b s _ IH|a b s t _ IHs _ IHt|b s _ IH|b s _ IH
    |u v s t Hu Hv|u v s t Hu Hv|v s Hv|l b w s w' Hw Hw' _ IH]; [..|by apply accepts_blank];
    intros fuel p k Hp; cbn; intros Hf Hn.
  - rewrite !string_length_app in *. change (String.length "||") with 2%nat in *. rewrite !string_app_assoc in Hp.
    destruct (IHs fuel p _ Hp) as (f1 & p1 & -> & Ep1 & Hf1); [apply follows_or|lia|].
    pose proof (rest_app _ _ _ Hp) as Hp2. destruct f1 as [|f1]; [lia|]. rewrite or_loop_S.
    rewrite (next_token p1 _ "|" "|" _ Ep1 eq_refl Hp2). pose proof (rest_app _ _ _ Hp2) as Hp3.
    destruct (IHt f1 _ _ Hp3) as (f2 & p2 & -> & Ep2 & Hf2); [apply follows_lower; by right|lia|].
    rewrite (accepts_and_end _ _ _ _ _ Ep2 (rest_app _ _ _ Hp3)) by (done || lia).
    exists f1, (skipWS p2). split_and!; [done| |lia]. rewrite skipWS_idem, Ep2. f_equal.
    change (String.length "||") with 2%nat. lia.
  - destruct fuel as [|fuel]; [lia|]. rewrite parseOr_S.
    destruct (IH fuel p _ Hp) as (f1 & p1 & -> & Ep1 & Hf1); [apply follows_lower; by right|lia|].
    rewrite (accepts_and_end _ _ _ _ _ Ep1 (rest_app _ _ _ Hp)) by (done || lia).
    exists fuel, (skipWS p1). split_and!; [done| |lia]. by rewrite skipWS_idem.
  - rewrite !string_length_app in *. change (String.length "&&") with 2%nat in *. rewrite !string_app_assoc in Hp.
    destruct (IHs fuel p _ Hp) as (f1 & p1 & -> & Ep1 & Hf1); [apply follows_and|lia|].
    pose proof (rest_app _ _ _ Hp) as Hp2. destruct f1 as [|f1]; [lia|]. rewrite and_loop_S.
    rewrite (next_token p1 _ "&" "&" _ Ep1 eq_refl Hp2). pose proof (rest_app _ _ _ Hp2) as Hp3.
    destruct (IHt f1 _ _ Hp3) as (p2 & -> & Ep2); [done|lia|].
    exists f1, p2. split_and!; [done| |lia]. rewrite Ep2. f_equal. change (String.length "&&") with 2%nat. lia.
  - destruct fuel as [|fuel]; [lia|]. rewrite parseAnd_S. destruct (IH fuel p _ Hp) as (p1 & -> & Ep1); [done|lia|].
    exists fuel, p1. split_and!; [done..|lia].
  - rewrite !string_length_app in *. change (String.length "(") with 1%nat in *. change (String.length ")") with 1%nat in *.
    rewrite !string_app_assoc in Hp. destruct fuel as [|fuel]; [lia|]. rewrite parseComparison_S.
    rewrite (next_token p p "(" "" _ eq_refl eq_refl Hp). pose proof (rest_app _ _ _ Hp) as Hp2.
    destruct (IH fuel _ _ Hp2) as (f1 & p1 & -> & Ep1 & Hf1); [apply follows_paren|lia|].
    pose proof (rest_app _ _ _ Hp2) as Hp3.
    rewrite (accepts_or_end _ _ _ _ _ Ep1 Hp3) by (lia || apply follows_paren).
    rewrite (next_token _ _ ")" "" _ (eq_trans (skipWS_idem p1) Ep1) eq_refl Hp3). eexists. split; [done|]. f_equal.
    change (String.length "(") with 1%nat. change (String.length ")") with 1%nat. lia.
  - destruct (parseTest_compares u v s t "==" p k) as (p1 & p2 & p3 & E1 & E2 & E3 & Ep); auto.
    destruct fuel as [|fuel]; [lia|]. rewrite parseComparison_S, (parseValue_no_paren _ _ E1).
    rewrite (parseTest_cong _ p) by apply skipWS_idem. unfold parseTest. rewrite E1, E2, E3. eauto.
  - destruct (parseTest_compares u v s t "!=" p k) as (p1 & p2 & p3 & E1 & E2 & E3 & Ep); auto.
    destruct fuel as [|fuel]; [lia|]. rewrite parseComparison_S, (parseValue_no_paren _ _ E1).
    rewrite (parseTest_cong _ p) by apply skipWS_idem. unfold parseTest. rewrite E1, E2, E3.
    rewrite (consume_other _ _ E2). eauto.
  - destruct (parseValue_accepts _ _ Hv p k Hp) as (p1 & E1 & Ep1); [by apply follows_stops|].
    destruct fuel as [|fuel]; [lia|]. rewrite parseComparison_S, (parseValue_no_paren _ _ E1).
    rewrite (parseTest_cong _ p) by apply skipWS_idem. unfold parseTest. rewrite E1.
    assert (follows LCmp (rest (p + String.length s))) as Hf' by (by rewrite (rest_app _ _ _ Hp)).
    rewrite (no_token p1 _ "==" LCmp Ep1 Hf'), (no_token p1 _ "!=" LCmp Ep1 Hf') by auto.
    exists (skipWS p1). split; [done|]. by rewrite skipWS_idem.
Qed.
End Positions.

Lemma operand_nonempty ctx v s : operand ctx v s → (0 < String.length s)%nat.
Proof. induction 1 as [| |v w s w' _ _ _ IH]; [cbn; lia|by destruct H; cbn; lia|rewrite !string_length_app; lia]. Qed.
Lemma phrase_nonempty ctx l b s : phrase ctx l b s → (0 < String.length s)%nat.
Proof. induction 1; eauto using operand_nonempty; rewrite !string_length_app; cbn; lia. Qed.

Lemma parseOr_whole s ctx b pos :
  parseOr s ctx (expr_fuel s) 0 = Ok (b, pos) → skipWS s pos = String.length s → phrase ctx LOr b s.
Proof.
  intros E Hpos. destruct (descent_sound s ctx (expr_fuel s)) as [Sor _].
  destruct (Sor 0%nat b pos E) as (t & [Ht Hp] & Hphrase). change (rest s 0) with s in Ht. rewrite Ht.
  apply phrase_after; [|done]. unfold blank, skipWS in *. unfold rest in *. rewrite length_string_drop. lia.
Qed.
Lemma phrase_parsed s ctx b :
  phrase ctx LOr b s → ∃ pos, parseOr s ctx (expr_fuel s) 0 = Ok (b, pos) ∧ skipWS s pos = String.length s.
Proof.
  intros Hs. pose proof (eq_sym (string_app_empty_r s)) as Hp. change s with (rest s 0%nat) in Hp at 1.
  destruct (phrase_accepted s ctx LOr b s Hs (expr_fuel s) 0%nat "" Hp) as (f & p & -> & Ep & Hf);
    [by left|unfold expr_fuel; lia|].
  rewrite (accepts_or_end s ctx f p (String.length s) b "" Ep);
    [|by apply (rest_app s 0%nat s "")|by left|unfold expr_fuel in Hf; lia].
  exists (skipWS s p). split; [done|]. rewrite skipWS_idem, Ep. apply (skipWS_stops s (String.length s)).
  by rewrite (rest_app s 0%nat s "" Hp : rest s (String.length s) = "").
Qed.

(** C33: the parser decides the language of the grammar.  [EvalIf] accepts an
    expression just if, trimmed, it is empty or an expression of the grammar,
    and then gives its meaning; it ends on every input. *)
Theorem EvalIf_grammar expr ctx :
  (∀ b, EvalIf expr ctx = Ok b ↔ (TrimSpace expr = "" ∧ b = true) ∨ phrase ctx LOr b (TrimSpace expr)) ∧
  EvalIf expr ctx ≠ Fail no_fuel.
Proof.
  unfold EvalIf. set (s := TrimSpace expr). split.
  - intros b. case_bool_decide as Hs.
    + rewrite Hs. split; [intros [= <-]; by left|intros [[_ ->]|Hp]; [done|]]. apply phrase_nonempty in Hp. cbn in Hp. lia.
    + split.
      * destruct (parseOr s ctx _ 0) as [[v pos]|] eqn:E; [|done]. case_bool_decide as Hp; [done|].
        intros [= <-]. right. apply (parseOr_whole s ctx v pos E). destruct (decide (skipWS s pos = String.length s)); [done|by destruct Hp].
      * intros [[? _]|Hp]; [done|]. destruct (phrase_parsed s ctx b Hp) as (pos & -> & Hpos).
        by rewrite bool_decide_false by (intros Hn; by apply Hn).
  - case_bool_decide as Hs; [done|]. destruct (descent_ends s ctx (expr_fuel s)) as [Hor _].
    specialize (Hor 0%nat ltac:(unfold expr_fuel; lia) ltac:(lia)).
    destruct (parseOr s ctx _ 0) as [[v pos]|]; [|congruence]. by case_bool_decide.
Qed.

(** A condition that names no known field is an error, not false: [Executor.Run]
    runs such a check (executor.go). *)
Example EvalIf_unknown :
  EvalIf "event.kind == 'push'" (mkTriggerContext "push" "main" "" "") = Fail (New "unknown field reference event.kind").
Proof. vm_compute. reflexivity. Qed.
