(* ===== verification/Executor.v ===== *)
(** * The executor of checks (internal/executor/executor.go)

    What a check is, which secrets and variables it may name ([UnmarshalYAML],
    [ValidateSecretsAllowlist], [ValidateEnv]), the environment and the secrets
    it is given, which checks of a configuration run, and the request one check
    makes of BuildKit.  BuildKit itself, the resolution of image names and the
    variables of the process are parameters. *)

From Stdlib Require Import Ascii.
From S2P Require Import Prelude GoStd Merge CIConfig Secrets Samples ExprSpec.
From S2P Require Events.

(** [type SecretRequest struct], [type Check struct], [type Config struct] *)
Record SecretRequest := mkSecretRequest { sr_LocalName : string; sr_RepoName : string }.
Record Check_ := mkCheck {
  ck_Name : string; ck_Image : string; ck_Steps : list string; ck_If : string;
  ck_Needs : list string; ck_Secrets : list SecretRequest; ck_Env : gmap string string;
}.
Record Config := mkConfig {
  cf_Checks : list Check_; cf_Env : gmap string string; cf_AutoEnv : gmap string string;
  cf_CacheRef : string; cf_DockerConfigDir : string; cf_ArchiveChecksum : string;
  cf_OIDCRequestToken : string; cf_OIDCRequestURL : string; cf_UserSecrets : gmap string string;
}.

(** ** Secrets a check asks for *)

(** [yaml.Node], as far as [UnmarshalYAML] looks at it. *)
Inductive Kind := DocumentNode | SequenceNode | MappingNode | ScalarNode | AliasNode.
#[warnings="-register-all"]
Inductive Node := mkNode (kind : Kind) (tag value : string) (line : Z) (content : list Node).
Definition nd_Kind '(mkNode k _ _ _ _) := k.
Definition nd_Tag '(mkNode _ t _ _ _) := t.
Definition nd_Value '(mkNode _ _ v _ _) := v.
Definition nd_Line '(mkNode _ _ _ l _) := l.
Definition nd_Content '(mkNode _ _ _ _ c) := c.

Definition at_line {A} (n : Node) (what : string) : result A :=
  Fail (New ("line " +:+ FormatInt (nd_Line n) +:+ ": " +:+ what)).
(** [node.Tag != "" && node.Tag != "!!str"] *)
Definition not_string (n : Node) : bool := bool_decide (nd_Tag n ≠ "") && bool_decide (nd_Tag n ≠ "!!str").

Definition is_scalar (n : Node) : bool := match nd_Kind n with ScalarNode => true | _ => false end.

Definition UnmarshalYAML (node : Node) : result SecretRequest :=
  match nd_Kind node with
  | ScalarNode =>
      if not_string node then
        at_line node ("secrets entry must be a string or single-key mapping, got " +:+ nd_Tag node)
      else if bool_decide (nd_Value node = "") then at_line node "secrets entry must not be empty"
      else Ok (mkSecretRequest (nd_Value node) (nd_Value node))
  | MappingNode =>
      match nd_Content node with
      | [k; v] =>
          if negb (is_scalar k) || not_string k then at_line k "secrets entry key must be a string" else
          if negb (is_scalar v) || not_string v then at_line v "secrets entry value must be a string" else
          if bool_decide (nd_Value k = "") || bool_decide (nd_Value v = "")
          then at_line node "secrets entry key and value must be non-empty"
          else Ok (mkSecretRequest (nd_Value k) (nd_Value v))
      | _ => at_line node "secrets entry mapping must have exactly one key (LOCAL: REPO)"
      end
  | _ => at_line node "secrets entry must be a string or single-key mapping"
  end.

(** [strings.ToUpper] on ASCII text: the names that get here match a pattern of
    ASCII characters. *)
Definition upper_char (c : ascii) : ascii :=
  let b := byte_of_ascii c in if (97 <=? b) && (b <=? 122) then ascii_of_byte (b - 32) else c.
Fixpoint ToUpper (s : string) : string :=
  match s with EmptyString => EmptyString | String c s => String (upper_char c) (ToUpper s) end.

Definition secretNameRE : string → bool := nameRegexp.
Definition reservedSecretPrefix : string := "DOCSTORE_".

Definition validateSecretName (kind name : string) : option error :=
  if bool_decide (name = "") then Some (New (kind +:+ " must not be empty")) else
  if negb (secretNameRE name) then Some (New (kind +:+ " " +:+ name +:+ " must match ^[A-Z][A-Z0-9_]{0,63}$")) else
  if HasPrefix (ToUpper name) reservedSecretPrefix
  then Some (New (kind +:+ " " +:+ name +:+ " must not use reserved prefix DOCSTORE_")) else None.

Definition in_check (check : Check_) (what : string) (e : error) : error :=
  Errorf ("check " +:+ ck_Name check +:+ " " +:+ what) e.
Definition secret_at_index (check : Check_) (i : Z) (o : option error) : list error :=
  match o with Some e => [in_check check ("secrets[" +:+ FormatInt i +:+ "]") e] | None => [] end.

(** The loop over the secrets of a check. *)
Fixpoint validate_secrets (check : Check_) (i : Z) (l : list SecretRequest) (seen : gset string) : list error :=
  match l with
  | [] => []
  | sec :: l =>
      secret_at_index check i (validateSecretName "local name" (sr_LocalName sec)) ++
      secret_at_index check i (validateSecretName "repo name" (sr_RepoName sec)) ++
      (if bool_decide (sr_LocalName sec ∈ seen) && bool_decide (sr_LocalName sec ≠ "")
       then secret_at_index check i (Some (New ("duplicate local name " +:+ sr_LocalName sec))) else []) ++
      validate_secrets check (i + 1) l ({[sr_LocalName sec]} ∪ seen)
  end.

(** [errors.Join]: no error when the list is empty. *)
Definition ValidateSecretsAllowlist (cfg : option Config) : list error :=
  match cfg with
  | None => []
  | Some cfg => check ← cf_Checks cfg; validate_secrets check 0 (ck_Secrets check) ∅
  end.

(** ** The environment of a check *)

(** [^[A-Za-z_][A-Za-z0-9_]*$] *)
Definition env_start (c : ascii) : bool := isIdentStart c.
Definition env_char (c : ascii) : bool := isIdentStart c || is_digit c.
Definition envNameRE (name : string) : bool :=
  match name with EmptyString => false | String c rest => env_start c && all_chars env_char rest end.

Definition reservedEnvPrefix : string := "DOCSTORE_".
Definition reservedEnvKey : string := "CI".

Definition validateEnvKey (name : string) : option error :=
  if bool_decide (name = "") then Some (New "env key must not be empty") else
  if negb (envNameRE name) then Some (New ("env key " +:+ name +:+ " must match ^[A-Za-z_][A-Za-z0-9_]*$")) else
  let upper := ToUpper name in
  if bool_decide (upper = reservedEnvKey)
  then Some (New ("env key " +:+ name +:+ " is reserved (auto-injected by docstore)")) else
  if HasPrefix upper reservedEnvPrefix
  then Some (New ("env key " +:+ name +:+ " must not use reserved prefix DOCSTORE_")) else None.

Definition env_errors (where_ : string) (visits : list (string * string)) : list error :=
  omap (λ kv, Errorf where_ <$> validateEnvKey kv.1) visits.

Section Validate.
Context {Mr : MapRange}.
Definition ValidateEnv (cfg : option Config) : list error :=
  match cfg with
  | None => []
  | Some cfg =>
      env_errors "top-level env" (map_range 20 (cf_Env cfg)) ++
      (check ← cf_Checks cfg;
       env_errors ("check " +:+ ck_Name check +:+ " env") (map_range 21 (ck_Env check)))
  end.
End Validate.

(** [type AutoEnvMetadata struct] *)
Record AutoEnvMetadata := mkAutoEnvMetadata {
  ae_RunID : string; ae_Repo : string; ae_Branch : string; ae_Sequence : Z; ae_Event : string;
  ae_BaseBranch : string; ae_ProposalID : string;
}.
Definition put_nonempty (k v : string) (m : gmap string string) : gmap string string :=
  if bool_decide (v ≠ "") then <[k := v]> m else m.

Definition BuildAutoEnv (meta : AutoEnvMetadata) : gmap string string :=
  let out := <["CI" := "true"]> ∅ in
  let out := put_nonempty "DOCSTORE_RUN_ID" (ae_RunID meta) out in
  let out := put_nonempty "DOCSTORE_REPO" (ae_Repo meta) out in
  let out := put_nonempty "DOCSTORE_BRANCH" (ae_Branch meta) out in
  let out := if 0 <? ae_Sequence meta then <["DOCSTORE_SEQUENCE" := FormatInt (ae_Sequence meta)]> out else out in
  let out := put_nonempty "DOCSTORE_EVENT" (ae_Event meta) out in
  let out := put_nonempty "DOCSTORE_BASE_BRANCH" (ae_BaseBranch meta) out in
  put_nonempty "DOCSTORE_PROPOSAL_ID" (ae_ProposalID meta) out.

(** [maps.Copy(dst, src)] *)
Definition maps_Copy (dst src : gmap string string) : gmap string string := src ∪ dst.

Definition mergeEnv (top perCheck auto : gmap string string) (checkName : string) : gmap string string :=
  let out := maps_Copy ∅ top in
  let out := maps_Copy out perCheck in
  let out := maps_Copy out auto in
  <["DOCSTORE_CHECK_NAME" := checkName]> out.

Definition buildSecretMap (oidcToken oidcURL : string) (userSecrets : gmap string string)
    : option (gmap string string) :=
  if bool_decide (oidcToken = "") && bool_decide (userSecrets = ∅) then None else
  let out := if bool_decide (oidcToken ≠ "")
             then <["docstore_oidc_request_url" := oidcURL]> (<["docstore_oidc_request_token" := oidcToken]> ∅)
             else ∅ in
  Some (maps_Copy out userSecrets).

(** ** Logs *)

(** [bytes.ReplaceAll(s, old, new)] for a non-empty [old]: its occurrences from
    the left that do not overlap.  Each one shortens what is left. *)
Fixpoint replace_all (fuel : nat) (s old new : string) : string :=
  match fuel with
  | O => s
  | S fuel =>
      match Cut s old with
      | None => s
      | Some (before, after) => before +:+ new +:+ replace_all fuel after old new
      end
  end.
Definition ReplaceAll (s old new : string) : string := replace_all (String.length s) s old new.

Section Run.
Context {Mr : MapRange}.

Definition scrubLogs (buf : string) (secrets : gmap string string) : string :=
  if bool_decide (secrets = ∅) || bool_decide (buf = "") then buf else
  foldl (λ out kv, if bool_decide (kv.2 = "") then out else ReplaceAll out kv.2 "***")
    buf (map_range 22 secrets).

(** ** What is asked of BuildKit *)

(** The mount of the sources: an archive fetched from a URL and its checksum, a
    local directory, or nothing. *)
Inductive Source := HTTPSource (url checksum : string) | LocalSource (dir : string) | ScratchSource.

(** A step: its command, the variables in the order they are set, and the names
    of the secrets mounted under /run/secrets. *)
Record Step := mkStep { st_Command : string; st_Env : list (string * string); st_Secrets : list string }.

(** The request: the secrets of the session, the cache to import and export, the
    platform, the sources, the image and the steps, each on the state the one
    before leaves. *)
Record Solve := mkSolve {
  so_Secrets : option (gmap string string); so_DockerConfig : string; so_CacheRef : string;
  so_Arm64 : bool; so_Source : Source; so_Image : string; so_Steps : list Step;
}.

(** [bk_Build req]: the log of the build, the vertexes found in the cache, and
    its error; of a build whose callback fails with an error when [req] is one.
    [bk_ResolveImageConfig] gives the variables of an image, none when its
    configuration cannot be read. *)
Class Buildkit := {
  bk_normalize : string → string;
  bk_ResolveImageConfig : string → result (list string);
  bk_Build : result Solve → string * Z * option error;
  os_Getenv : string → string;
  runtime_arm64 : bool;
}.
Context {Bk : Buildkit}.

Inductive check_outcome := check_passed | check_failed.
Record CheckResult := mkCheckResult {
  cr_Name : string; cr_Status : check_outcome; cr_Logs : string; cr_CacheHits : Z;
}.

Definition docker_config (dir : string) : string :=
  if bool_decide (dir ≠ "") then dir else
  let dir := os_Getenv "DOCKER_CONFIG" in
  if bool_decide (dir ≠ "") then dir else
  let home := os_Getenv "HOME" in
  (if bool_decide (home = "") then "/root" else home) +:+ "/.docker".

(** [strings.Cut(env, "=")] *)
Definition env_pair (env : string) : string * string := default (env, "") (Cut env "=").

(** [slices.Sorted(maps.Keys(env))] with the values, in the order of bytes. *)
Definition sorted_env (env : gmap string string) : list (string * string) :=
  @order_by C_collation _ fst (map_range 23 env).

Definition oidc_mounts (oidcToken : string) : list string :=
  if bool_decide (oidcToken ≠ "") then ["docstore_oidc_request_token"; "docstore_oidc_request_url"] else [].

(** The callback of [e.client.Build]. *)
Definition solve_request (src : Source) (check : Check_) (cacheRef dockerConfigDir oidcToken oidcURL : string)
    (userSecrets env : gmap string string) : result Solve :=
  let imageRef := bk_normalize (ck_Image check) in
  match bk_ResolveImageConfig imageRef with
  | Fail e => Fail (Errorf ("resolve image config for " +:+ imageRef) e)
  | Ok image_env =>
      let vars := (env_pair <$> image_env) ++ [("DOCKER_HOST", "tcp://localhost:2375")] ++ sorted_env env in
      let mounts := oidc_mounts oidcToken ++ (sr_LocalName <$> ck_Secrets check) in
      Ok (mkSolve (buildSecretMap oidcToken oidcURL userSecrets) (docker_config dockerConfigDir) cacheRef
            runtime_arm64 src (ck_Image check) ((λ step, mkStep step vars mounts) <$> ck_Steps check))
  end.

Definition runCheck (source : string) (check : Check_)
    (cacheRef dockerConfigDir archiveChecksum oidcToken oidcURL : string)
    (userSecrets env : gmap string string) : CheckResult :=
  let isHTTP := HasPrefix source "http://" || HasPrefix source "https://" in
  let isLocal := bool_decide (source ≠ "") && negb isHTTP in
  if isLocal && bool_decide (".." ∈ split_slash (path_Clean source))
  then mkCheckResult (ck_Name check) check_failed "invalid source path: '..' path traversal is not allowed" 0 else
  let src := if isHTTP then HTTPSource source archiveChecksum
             else if isLocal then LocalSource source else ScratchSource in
  let '(logBuf, cacheHits, solveErr) :=
    bk_Build (solve_request src check cacheRef dockerConfigDir oidcToken oidcURL userSecrets env) in
  let logs := scrubLogs logBuf userSecrets in
  match solveErr with
  | None => mkCheckResult (ck_Name check) check_passed logs cacheHits
  | Some e =>
      mkCheckResult (ck_Name check) check_failed
        (if bool_decide (logs = "") then Events.error_text e else logs) cacheHits
  end.

(** The checks whose condition holds, or cannot be evaluated. *)
Definition should_run (triggerCtx : TriggerContext) (check : Check_) : bool :=
  if bool_decide (ck_If check = "") then true else
  match EvalIf (ck_If check) triggerCtx with
  | Fail _ => true
  | Ok run => run
  end.

(** [Run]: the checks run side by side, each filling the result of its index. *)
Definition Run (source : string) (cfg : Config) (triggerCtx : TriggerContext) : list CheckResult :=
  let toRun := filter (λ check, should_run triggerCtx check = true) (cf_Checks cfg) in
  (λ check,
     let env := mergeEnv (cf_Env cfg) (ck_Env check) (cf_AutoEnv cfg) (ck_Name check) in
     runCheck source check (cf_CacheRef cfg) (cf_DockerConfigDir cfg) (cf_ArchiveChecksum cfg)
       (cf_OIDCRequestToken cfg) (cf_OIDCRequestURL cfg) (cf_UserSecrets cfg) env) <$> toRun.
End Run.

(** * What a check is given, and what its log shows

    The variables docstore sets cannot be overridden by a configuration that
    passes [ValidateEnv]; a step sees no secret but those its check lists; and
    the log of a check holds no secret, as long as no secret contains the
    character the log is scrubbed with. *)

(** ** Occurrences *)

Definition occurs (v s : string) : Prop := ∃ a b, s = a +:+ v +:+ b.

Fixpoint has (c : ascii) (s : string) : bool :=
  match s with EmptyString => false | String c' s => bool_decide (c' = c) || has c s end.

Lemma occurs_empty s : occurs "" s.
Proof. by exists "", s. Qed.
Lemma occurs_cons v c s : occurs v s → occurs v (String c s).
Proof. intros (a & b & ->). exists (String c a), b. by rewrite string_app_cons. Qed.

(** Text without [c] at the start of [a +:+ String c b] is at the start of [a]. *)
Lemma prefix_before v q a c b : v +:+ q = a +:+ String c b → has c v = false → ∃ r, a = v +:+ r.
Proof.
  revert a. induction v as [|x v IH]; intros a E Hc; [by exists a|]. cbn in Hc.
  apply orb_false_iff in Hc as [Hx Hc]. apply bool_decide_eq_false in Hx.
  rewrite string_app_cons in E. destruct a as [|y a].
  - change (String x (v +:+ q) = String c b) in E. injection E as -> _. done.
  - rewrite string_app_cons in E. injection E as -> E. destruct (IH a E Hc) as [r ->].
    exists r. by rewrite string_app_cons.
Qed.

(** ... and one anywhere in it is in [a] or in [b]. *)
Lemma occurs_split v a c b : occurs v (a +:+ String c b) → has c v = false → occurs v a ∨ occurs v b.
Proof.
  intros (p & q & E) Hc. revert p E. induction a as [|x a IH]; intros p E.
  - change (String c b = p +:+ v +:+ q) in E. destruct p as [|y p].
    + destruct (prefix_before v q "" c b (eq_sym E) Hc) as [r Hr]. destruct v; [left; apply occurs_empty|done].
    + rewrite string_app_cons in E. injection E as _ ->. right. by exists p, q.
  - destruct p as [|y p].
    + destruct (prefix_before v q (String x a) c b (eq_sym E) Hc) as [r ->]. left. by exists "", r.
    + rewrite !string_app_cons in E. injection E as _ E.
      destruct (IH p E) as [H|H]; [left; by apply occurs_cons|by right].
Qed.

Abbreviation star := ("*"%char).
Lemma occurs_stars v a b : occurs v (a +:+ "***" +:+ b) → has star v = false → occurs v a ∨ occurs v b.
Proof.
  intros H Hc. change ("***" +:+ b) with (String star ("**" +:+ b)) in H.
  destruct (occurs_split _ _ _ _ H Hc) as [?|H1]; [by left|].
  destruct (occurs_split v "" star ("*" +:+ b) H1 Hc) as [(p & q & E)|H2].
  - destruct p; [|done]. destruct v; [left; apply occurs_empty|done].
  - destruct (occurs_split v "" star b H2 Hc) as [(p & q & E)|H3]; [|by right].
    destruct p; [|done]. destruct v; [left; apply occurs_empty|done].
Qed.

Lemma Cut_occurs s sep : Cut s sep = None → ¬ occurs sep s.
Proof. intros Hc (a & b & E). by apply (Cut_None s sep Hc a b). Qed.

(** What is before the first occurrence holds none. *)
Lemma Cut_before s sep a b : sep ≠ "" → Cut s sep = Some (a, b) → ¬ occurs sep a.
Proof.
  intros Hne. revert a b. induction s as [|c s IH]; intros a b; cbn [Cut]; case_match eqn:Hp; try done.
  - intros [= <- <-] (p & q & E). destruct p; [|done]. by destruct sep.
  - intros [= <- <-] (p & q & E). destruct p; [|done]. by destruct sep.
  - intros ([a' b'] & Ec & [= -> ->])%fmap_Some (p & q & E). pose proof (Cut_Some _ _ _ _ Ec) as Es. destruct p as [|x p].
    + assert (HasPrefix (String c s) sep = true) as H2; [|congruence]. apply HasPrefix_spec.
      rewrite Es, <- string_app_cons. exists (q +:+ sep +:+ b'). cbn in E. change (String c a' = sep +:+ q) in E.
      by rewrite E, string_app_assoc.
    + rewrite string_app_cons in E. injection E as _ ->. apply (IH _ _ Ec). by exists p, q.
Qed.

(** ** Scrubbing *)

Lemma Cut_shorter s sep a b : sep ≠ "" → Cut s sep = Some (a, b) → (String.length b < String.length s)%nat.
Proof.
  intros Hne ->%Cut_Some. rewrite !string_length_app. destruct sep; [done|]. cbn. lia.
Qed.

Lemma replace_all_hides fuel s v :
  v ≠ "" → has star v = false → (String.length s ≤ fuel)%nat → ¬ occurs v (replace_all fuel s v "***").
Proof.
  intros Hne Hs. revert s. induction fuel as [|fuel IH]; intros s Hn.
  - destruct s; [|cbn in Hn; lia]. intros (a & b & E). destruct a; [|done]. by destruct v.
  - cbn. destruct (Cut s v) as [[a b]|] eqn:Ec; [|by apply Cut_occurs].
    intros [H|H]%occurs_stars; [by eapply Cut_before| |done].
    apply Cut_shorter in Ec; [|done]. eapply IH; [|done]. lia.
Qed.

(** No occurrence of another text is made. *)
Lemma replace_all_keeps fuel s v old :
  v ≠ "" → has star v = false → ¬ occurs v s → ¬ occurs v (replace_all fuel s old "***").
Proof.
  intros Hne Hs. revert s. induction fuel as [|fuel IH]; intros s Ho; [done|].
  cbn. destruct (Cut s old) as [[a b]|] eqn:Ec; [|done]. apply Cut_Some in Ec as ->.
  intros [H|H]%occurs_stars; [| |done].
  - apply Ho. destruct H as (p & q & ->). exists p, (q +:+ old +:+ b). by rewrite !string_app_assoc.
  - eapply IH; [|done]. intros (p & q & ->). apply Ho. exists (a +:+ old +:+ p), q. by rewrite !string_app_assoc.
Qed.

Definition scrub_one (out : string) (kv : string * string) : string :=
  if bool_decide (kv.2 = "") then out else ReplaceAll out kv.2 "***".

Lemma scrub_keeps l v out :
  v ≠ "" → has star v = false → ¬ occurs v out → ¬ occurs v (foldl scrub_one out l).
Proof.
  intros Hne Hs. revert out. induction l as [|kv l IH]; intros out Ho; [done|]. cbn. apply IH.
  unfold scrub_one. case_bool_decide; [done|]. by apply replace_all_keeps.
Qed.
Lemma scrub_hides_all l out kv :
  kv ∈ l → kv.2 ≠ "" → has star kv.2 = false → ¬ occurs kv.2 (foldl scrub_one out l).
Proof.
  intros Hin Hne Hs. revert out. induction l as [|kv' l IH]; intros out; [by apply not_elem_of_nil in Hin|].
  cbn. apply elem_of_cons in Hin as [<-|Hin]; [|by apply IH].
  apply scrub_keeps; [done..|]. unfold scrub_one. rewrite bool_decide_false by done. by apply replace_all_hides.
Qed.

Section Spec.
Context {Mr : MapRange} {Bk : Buildkit}.

Lemma scrubLogs_hides buf secrets name v :
  secrets !! name = Some v → v ≠ "" → has star v = false → ¬ occurs v (scrubLogs buf secrets).
Proof.
  intros Hl Hne Hs. unfold scrubLogs. rewrite (bool_decide_false (secrets = ∅)) by (intros ->; by rewrite lookup_empty in Hl).
  cbn. case_bool_decide as Hb.
  - subst. intros (a & b & E). destruct a; [|done]. by destruct v.
  - apply (scrub_hides_all (map_range 22 secrets) buf (name, v)); [|done..].
    rewrite (map_range_perm 22 secrets). by apply elem_of_map_to_list.
Qed.

(** ** Variables *)

Lemma map_copy_lookup dst src k : maps_Copy dst src !! k = match src !! k with Some v => Some v | None => dst !! k end.
Proof. unfold maps_Copy. rewrite lookup_union. by destruct (src !! k), (dst !! k). Qed.

Lemma mergeEnv_lookup top perCheck auto name k :
  mergeEnv top perCheck auto name !! k =
  if bool_decide (k = "DOCSTORE_CHECK_NAME") then Some name else
  match auto !! k with Some v => Some v | None =>
  match perCheck !! k with Some v => Some v | None => top !! k end end.
Proof.
  unfold mergeEnv. case_bool_decide as Hk; [subst; apply lookup_insert_eq|].
  rewrite lookup_insert_ne, !map_copy_lookup, lookup_empty by done. by destruct (top !! k).
Qed.

(** The value a list of assignments leaves a variable with. *)
Definition var_of (vars : list (string * string)) (k : string) : option string :=
  snd <$> last (filter (λ kv, kv.1 = k) vars).

Lemma var_of_app l l' k :
  var_of (l ++ l') k = match var_of l' k with Some v => Some v | None => var_of l k end.
Proof.
  unfold var_of. rewrite filter_app, last_app. by destruct (last (filter _ l')) as [[]|].
Qed.

Lemma var_of_other x l k : x.1 ≠ k → var_of (x :: l) k = var_of l k.
Proof. intros Hx. unfold var_of. by rewrite filter_cons_False. Qed.

Lemma var_of_sorted env k : var_of (sorted_env env) k = env !! k.
Proof.
  unfold var_of, sorted_env, order_by. set (l := merge_sort _ _).
  assert (l ≡ₚ map_to_list env) as Hl by (unfold l; by rewrite merge_sort_Permutation, (map_range_perm 23 env)).
  destruct (env !! k) as [v|] eqn:E.
  - assert (filter (λ kv, kv.1 = k) l = [(k, v)]) as ->; [|done].
    apply (filter_key_unique fst l (k, v)); rewrite Hl; [apply NoDup_fst_map_to_list|by apply elem_of_map_to_list].
  - assert (filter (λ kv, kv.1 = k) l = []) as ->; [|done]. apply filter_none. intros [k' v'] Hin <-.
    rewrite Hl in Hin. apply elem_of_map_to_list in Hin. cbn in E. congruence.
Qed.

Definition reserved (k : string) : Prop := k = "CI" ∨ HasPrefix k "DOCSTORE_" = true.

Lemma ToUpper_app s t : ToUpper (s +:+ t) = ToUpper s +:+ ToUpper t.
Proof. induction s as [|c s IH]; [done|]. rewrite !string_app_cons. cbn. by rewrite IH, string_app_cons. Qed.

Lemma validateEnvKey_free k : validateEnvKey k = None → ¬ reserved k.
Proof.
  intros Hv [->|[t ->]%HasPrefix_spec]; [done|]. revert Hv. unfold validateEnvKey. cbv zeta.
  rewrite ToUpper_app. change (ToUpper "DOCSTORE_") with "DOCSTORE_". unfold reservedEnvPrefix.
  rewrite HasPrefix_app. by repeat case_match.
Qed.

Lemma env_errors_nil where_ n env k v :
  env_errors where_ (map_range n env) = [] → env !! k = Some v → ¬ reserved k.
Proof.
  intros He Hk. apply validateEnvKey_free. destruct (validateEnvKey k) as [e|] eqn:E; [|done]. exfalso.
  assert (Errorf where_ e ∈ env_errors where_ (map_range n env)) as Hin; [|rewrite He in Hin; by apply not_elem_of_nil in Hin].
  unfold env_errors. apply list_elem_of_omap. exists (k, v). split; [|cbn; by rewrite E].
  rewrite (map_range_perm n env). by apply elem_of_map_to_list.
Qed.

Lemma ValidateEnv_free cfg check k :
  ValidateEnv (Some cfg) = [] → check ∈ cf_Checks cfg → reserved k →
  cf_Env cfg !! k = None ∧ ck_Env check !! k = None.
Proof.
  intros [Ht Hc]%app_nil Hin Hr. split.
  - destruct (cf_Env cfg !! k) as [v|] eqn:E; [|done]. by destruct (env_errors_nil _ _ _ _ _ Ht E Hr).
  - destruct (ck_Env check !! k) as [v|] eqn:E; [|done]. exfalso.
    apply (env_errors_nil ("check " +:+ ck_Name check +:+ " env") 21 (ck_Env check) k v); [|exact E|exact Hr].
    apply elem_of_nil_inv. intros e He. apply (not_elem_of_nil e). rewrite <- Hc.
    apply list_elem_of_bind. by exists check.
Qed.

(** The variables of docstore cannot be forged by the configuration.  When
    [ValidateEnv] finds nothing, every step of a check sees for CI and for every
    name that begins with DOCSTORE_ the value docstore sets; and one docstore
    leaves out is what the image says, whatever the configuration says. *)
Theorem reserved_env cfg meta check src cacheRef dockerDir token url secrets req st k :
  ValidateEnv (Some cfg) = [] → cf_AutoEnv cfg = BuildAutoEnv meta → check ∈ cf_Checks cfg →
  solve_request src check cacheRef dockerDir token url secrets
    (mergeEnv (cf_Env cfg) (ck_Env check) (cf_AutoEnv cfg) (ck_Name check)) = Ok req →
  st ∈ so_Steps req → reserved k →
  var_of (st_Env st) k =
    if bool_decide (k = "DOCSTORE_CHECK_NAME") then Some (ck_Name check) else
    match BuildAutoEnv meta !! k with
    | Some v => Some v
    | None =>
        match bk_ResolveImageConfig (bk_normalize (ck_Image check)) with
        | Ok image_env => var_of (env_pair <$> image_env) k
        | Fail _ => None
        end
    end.
Proof.
  intros Hv Ha Hc. unfold solve_request. destruct (bk_ResolveImageConfig _) as [image_env|e]; [|done].
  intros [= <-] Hst Hr. apply list_elem_of_fmap in Hst as (step & -> & _). cbn [st_Env].
  rewrite var_of_app, var_of_other, var_of_sorted, mergeEnv_lookup, Ha by (cbn; by intros <-; destruct Hr).
  destruct (ValidateEnv_free cfg check k Hv Hc Hr) as [-> ->]. case_bool_decide; [done|].
  by destruct (BuildAutoEnv meta !! k).
Qed.

(** ** Logs *)

Lemma runCheck_hides source check cacheRef dockerDir checksum token url secrets env name v :
  HasPrefix source "http://" = true ∨ HasPrefix source "https://" = true →
  (∀ req e, (bk_Build req).2 = Some e → ¬ occurs v (Events.error_text e)) →
  secrets !! name = Some v → v ≠ "" → has star v = false →
  ¬ occurs v (cr_Logs (runCheck source check cacheRef dockerDir checksum token url secrets env)).
Proof.
  intros Hsrc Herr Hl Hne Hs. unfold runCheck.
  assert (HasPrefix source "http://" || HasPrefix source "https://" = true) as -> by (apply orb_true_iff; tauto).
  cbn [negb andb]. rewrite andb_false_r. cbn [andb].
  match goal with |- context [bk_Build ?r] => specialize (Herr r); destruct (bk_Build r) as [[buf hits] [e|]] end; cbn.
  - case_bool_decide; [by apply Herr|by eapply scrubLogs_hides].
  - by eapply scrubLogs_hides.
Qed.

End Spec.

(** ** Samples *)

(** An image that sets a name of docstore's, and a build that prints a secret. *)
#[export] Instance sample_buildkit : Buildkit :=
  {| bk_normalize image := image +:+ ":latest";
     bk_ResolveImageConfig _ := Ok ["PATH=/bin"; "DOCSTORE_PROPOSAL_ID=forged"];
     bk_Build req := match req with Ok _ => ("the token is s3cret.", 0, None) | Fail _ => ("", 0, Some (New "build failed")) end;
     os_Getenv _ := ""; runtime_arm64 := false |}.

Definition sample_check : Check_ :=
  mkCheck "test" "alpine" ["make"] "event.type == 'push'" [] [mkSecretRequest "TOKEN" "TOKEN"] {["LANG" := "C"]}.
Definition sample_meta : AutoEnvMetadata := mkAutoEnvMetadata "job-1" "o/r" "dev" 2 "push" "" "".
Definition sample_config : Config :=
  mkConfig [sample_check] ∅ (BuildAutoEnv sample_meta) "" "" "" "" "" {["TOKEN" := "s3cret"]}.
Definition push_to_dev : TriggerContext := mkTriggerContext "push" "dev" "" "".

Definition sample_request : result Solve :=
  solve_request (HTTPSource "https://src" "") sample_check "" "" "" "" {["TOKEN" := "s3cret"]}
    (mergeEnv (cf_Env sample_config) (ck_Env sample_check) (cf_AutoEnv sample_config) (ck_Name sample_check)).

(** The name of the branch is docstore's; that of the proposal, which a push has
    none of, is the one of the image. *)
Lemma reserved_env_witness :
  ∃ req st, sample_request = Ok req ∧ st ∈ so_Steps req ∧
    var_of (st_Env st) "DOCSTORE_BRANCH" = Some "dev" ∧ var_of (st_Env st) "DOCSTORE_PROPOSAL_ID" = Some "forged".
Proof.
  destruct sample_request as [req|e] eqn:E; [|vm_compute in E; discriminate E].
  destruct (so_Steps req) as [|st l] eqn:Es; [vm_compute in E; injection E as <-; discriminate Es|].
  exists req, st. split; [done|]. split; [rewrite Es; left|].
  split; (rewrite (reserved_env sample_config sample_meta sample_check (HTTPSource "https://src" "") "" "" "" ""
    {["TOKEN" := "s3cret"]} req st);
    [vm_compute; reflexivity|vm_compute; reflexivity|reflexivity|by left|exact E|rewrite Es; left|by right]).
Defined.


(** The condition on asterisks is needed: scrubbing can print such a secret. *)
Example star_shown : occurs "**" (scrubLogs "a**b" {["TOKEN" := "**"]}).
Proof. exists "a", "*b". vm_compute. reflexivity. Qed.
