(* ===== verification/Auth.v ===== *)
(** * Credentials (internal/server/middleware.go)

    The tokens of users and of CI jobs are JWTs, checked with keys fetched from
    a URL and kept for an hour; the web interface has a session cookie of its
    own.  [jwt_tokens] is the implementation of the interface [Tokens] the
    requests of the server are authenticated with.

    The verification of RSA and ECDSA signatures and the grammar of JSON are
    parameters; the digest, Base64 and HMAC are computed. *)

From Stdlib Require Import Ascii.
From S2P Require Import Prelude GoStd Wire Server Policy.

#[local] Notation "'let?' x := m 'in' k" := (rbind m (λ x, k)) (at level 10, x name, k at level 200).

(** [crypto.PublicKey], of the kinds a JWK can be. *)
Inductive PublicKey :=
| RSAKey (N E : Z)
| ECKey (X Y : Z).

(** [rsa.VerifyPKCS1v15] with SHA-256 and [ecdsa.Verify] on P-256. *)
Class Signatures := {
  rsa_VerifyPKCS1v15 : Z → Z → list Z → list Z → bool;
  ecdsa_Verify : Z → Z → list Z → Z → Z → bool;
}.

(** [strings.SplitN(s, ".", 3)], when there are three parts. *)
Definition split_token (s : string) : option (string * string * string) :=
  match Cut s "." with
  | None => None
  | Some (a, s) => match Cut s "." with None => None | Some (b, c) => Some (a, b, c) end
  end.

(** [strings.LastIndex(s, ".")], and what is before and after. *)
Fixpoint last_dot (s : string) : option (string * string) :=
  match s with
  | EmptyString => None
  | String c s' =>
      match last_dot s' with
      | Some (a, b) => Some (String c a, b)
      | None => if bool_decide (c = "."%char) then Some (EmptyString, s') else None
      end
  end.

Definition CorruptInputError : error := New "illegal base64 data".
Definition decode_segment (s : string) : result (list Z) :=
  match RawURLEncoding_DecodeString s with Some l => Ok l | None => Fail CorruptInputError end.

(** [new(big.Int).SetBytes] *)
Definition big_SetBytes (l : list Z) : Z := foldl (λ n b, n * 256 + b) 0 l.

(** A check. *)
Definition require (cond : bool) (e : error) : result unit := if cond then Ok tt else Fail e.

Section Auth.
Context {Ju : JsonUnmarshal} {Jm : JsonMarshal} {Sg : Signatures}.

(** A segment of a token, as a JSON object; the errors of the decoder are one. *)
Definition syntax_error : error := New "invalid JSON".
Definition unmarshal_struct (bytes : list Z) : result json :=
  match json_Unmarshal (string_of_bytes bytes) with
  | Some v => if is_struct v then Ok v else Fail syntax_error
  | None => Fail syntax_error
  end.
Definition field {A} (o : option A) : result A :=
  match o with Some a => Ok a | None => Fail syntax_error end.

(** [jwtAudienceContains]; [aud] is what the claim decodes to. *)
Definition jwtAudienceContains (aud : option json) (target : string) : bool :=
  match aud with
  | Some (JString v) => bool_decide (v = target)
  | Some (JArray v) => existsb (λ a, match a with JString s => bool_decide (s = target) | _ => false end) v
  | _ => false
  end.

(** [time.Now().Unix()] of an instant. *)
Definition unix (t : Z) : Z := t / 1000000000.

(** The digest of [parts[0] + "." + parts[1]] *)
Definition signing_digest (header payload : string) : list Z := sha256_Sum256 (header +:+ "." +:+ payload).

(** The first segment: the algorithm and the name of the key. *)
Definition parse_header (p0 : string) : result (string * string) :=
  let? headerJSON := rwrap "decode header" (decode_segment p0) in
  rwrap "parse header"
    (let? v := unmarshal_struct headerJSON in
     let? alg := field (string_field "alg" v) in let? kid := field (string_field "kid" v) in Ok (alg, kid)).

(** The claims of the token of a job. *)
Record job_payload := mkJobPayload {
  pl_Iss : string; pl_Sub : string; pl_Aud : option json; pl_Exp : Z; pl_JobID : string;
  pl_Repo : string; pl_Branch : string; pl_Permissions : list string;
}.
Definition parse_job_payload (p1 : string) : result job_payload :=
  let? payloadJSON := rwrap "decode payload" (decode_segment p1) in
  rwrap "parse payload"
    (let? v := unmarshal_struct payloadJSON in
     let? iss := field (string_field "iss" v) in
     let? sub := field (string_field "sub" v) in
     let? exp := field (float_field "exp" v) in
     let? jobID := field (string_field "job_id" v) in
     let? repo := field (string_field "repo" v) in
     let? branch := field (string_field "branch" v) in
     let? permissions := field (strings_field "permissions" v) in
     Ok (mkJobPayload iss sub (any_field "aud" v) exp jobID repo branch permissions)).

(** [validateJobOIDCToken], at the time [t]. *)
Definition validateJobToken (tokenString : string) (fetchKey : string → result PublicKey)
    (audience issuer : string) (t : Z) : result JobIdentity :=
  match split_token tokenString with
  | None => Fail (New "invalid JWT format")
  | Some (p0, p1, p2) =>
      let? header := parse_header p0 in
      let '(alg, kid) := header in
      let? _ok := require (bool_decide (alg = "RS256")) (New ("unsupported algorithm: " +:+ alg)) in
      let? _ok := require (bool_decide (kid ≠ "")) (New "missing kid") in
      let? key := rwrap "fetch key" (fetchKey kid) in
      match key with
      | ECKey _ _ => Fail (New "expected RSA key for RS256")
      | RSAKey n e =>
          let? sigBytes := rwrap "decode signature" (decode_segment p2) in
          let? _ok := require (rsa_VerifyPKCS1v15 n e (signing_digest p0 p1) sigBytes)
                      (Errorf "invalid signature" (New "crypto/rsa: verification error")) in
          let? claims := parse_job_payload p1 in
          let? _ok := require (unix t <=? pl_Exp claims) (New "token expired") in
          let? _ok := require (bool_decide (pl_Iss claims = issuer)) (New ("invalid issuer: " +:+ pl_Iss claims)) in
          let? _ok := require (jwtAudienceContains (pl_Aud claims) audience) (New "invalid audience") in
          let? _ok := require (bool_decide (pl_JobID claims ≠ "")) (New "missing job_id claim") in
          Ok (mkJobIdentity (pl_JobID claims) (pl_Repo claims) (pl_Branch claims) (pl_Sub claims)
                (pl_Permissions claims))
      end
  end.

(** The signature of a token of a user, by the algorithm of its header. *)
Definition verify_signature (alg : string) (key : PublicKey) (digest sigBytes : list Z) : result unit :=
  if bool_decide (alg = "RS256") then
    match key with
    | RSAKey n e =>
        require (rsa_VerifyPKCS1v15 n e digest sigBytes)
          (Errorf "invalid signature" (New "crypto/rsa: verification error"))
    | ECKey _ _ => Fail (New "expected RSA key for RS256")
    end
  else
    match key with
    | ECKey x y =>
        let? _ok := require (bool_decide (length sigBytes = 64%nat))
          (New ("invalid ES256 signature length: " +:+ FormatInt (Z.of_nat (length sigBytes)))) in
        require (ecdsa_Verify x y digest (big_SetBytes (take 32 sigBytes)) (big_SetBytes (drop 32 sigBytes)))
          (New "invalid signature")
    | RSAKey _ _ => Fail (New "expected EC key for ES256")
    end.

(** [validateGoogleIDToken], at the time [t]. *)
Definition validateGoogleToken (tokenString : string) (fetchKey : string → result PublicKey)
    (clientIDs : list string) (t : Z) : result string :=
  match split_token tokenString with
  | None => Fail (New "invalid JWT format")
  | Some (p0, p1, p2) =>
      let? header := parse_header p0 in
      let '(alg, kid) := header in
      let? _ok := require (bool_decide (alg ∈ ["RS256"; "ES256"])) (New ("unsupported algorithm: " +:+ alg)) in
      let? _ok := require (bool_decide (kid ≠ "")) (New "missing kid") in
      let? key := rwrap "fetch key" (fetchKey kid) in
      let? sigBytes := rwrap "decode signature" (decode_segment p2) in
      let? _ok := verify_signature alg key (signing_digest p0 p1) sigBytes in
      let? payloadJSON := rwrap "decode payload" (decode_segment p1) in
      let? read_payload := rwrap "parse payload"
        (let? v := unmarshal_struct payloadJSON in
         let? email := field (string_field "email" v) in
         let? verified := field (bool_field "email_verified" v) in
         let? exp := field (float_field "exp" v) in
         let? iss := field (string_field "iss" v) in
         Ok (email, verified, exp, iss, any_field "aud" v)) in
      let '(email, verified, exp, iss, aud) := read_payload in
      let? _ok := require (unix t <=? exp) (New "token expired") in
      let? _ok := require (bool_decide (iss ∈ ["accounts.google.com"; "https://accounts.google.com"]))
                  (New ("invalid issuer: " +:+ iss)) in
      let? _ok := require (bool_decide (clientIDs = []) ||
                         existsb (λ id, bool_decide (id ≠ "") && jwtAudienceContains aud id) clientIDs)
                  (New "invalid audience") in
      let? _ok := require (bool_decide (email ≠ "")) (New "missing email claim") in
      let? _ok := require verified (New "email not verified") in
      Ok email
  end.

(** The validators a server is configured with, as the interface of its
    requests, at the time [t] and with the keys the two caches have then. *)
Definition jwt_tokens (googleKeys jobKeys : string → result PublicKey) (clientIDs : list string)
    (audience issuer : string) (t : Z) : Tokens :=
  {| validateGoogleIDToken tok := validateGoogleToken tok googleKeys clientIDs t;
     validateJobOIDCToken tok := validateJobToken tok jobKeys audience issuer t |}.

(** ** Session cookies *)

Definition mac_of (secret payloadB64 : string) : string :=
  RawURLEncoding_EncodeToString (hmac_sha256 secret payloadB64).

(** [createSessionCookie]: the value of the cookie. *)
Definition createSessionCookie (email : string) (expiry : Z) (secret : string) : string :=
  let payload := json_Marshal (JObject [("email", JString email); ("exp", JNumber (unix expiry))]) in
  let payloadB64 := RawURLEncoding_EncodeToString (bytes_of_string payload) in
  payloadB64 +:+ "." +:+ mac_of secret payloadB64.

(** [sessionEmailFromRequest] on the value of the cookie, when there is one. *)
Definition sessionEmailFromRequest (cookie : option string) (secret : string) (t : Z) : string :=
  match cookie with
  | None => ""
  | Some value =>
      match last_dot value with
      | None => ""
      | Some (payloadB64, sigB64) =>
          if bool_decide (sigB64 ≠ mac_of secret payloadB64) then "" else
          match RawURLEncoding_DecodeString payloadB64 with
          | None => ""
          | Some payload =>
              match unmarshal_struct payload with
              | Fail _ => ""
              | Ok v =>
                  match string_field "email" v, float_field "exp" v with
                  | Some email, Some exp => if exp <? unix t then "" else email
                  | _, _ => ""
                  end
              end
          end
      end
  end.
End Auth.

(** ** Keys *)

(** [jwkToRSA]: the exponent is an [int], which wraps around. *)
Definition jwkToRSA (nB64 eB64 : string) : result PublicKey :=
  let? nBytes := rwrap "decode n" (decode_segment nB64) in
  let? eBytes := rwrap "decode e" (decode_segment eB64) in
  Ok (RSAKey (big_SetBytes nBytes) (foldl (λ e b, Z.lor (int64_wrap (e * 256)) b) 0 eBytes)).

(** [jwkToEC] *)
Definition jwkToEC (crv xB64 yB64 : string) : result PublicKey :=
  if bool_decide (crv ≠ "P-256") then Fail (New ("unsupported EC curve: " +:+ crv)) else
  let? xBytes := rwrap "decode x" (decode_segment xB64) in
  let? yBytes := rwrap "decode y" (decode_segment yB64) in
  Ok (ECKey (big_SetBytes xBytes) (big_SetBytes yBytes)).

(** A key of the answer of the JWKS URL. *)
Record JWK := mkJWK {
  jwk_Kid : string; jwk_Kty : string; jwk_N : string; jwk_E : string;
  jwk_Crv : string; jwk_X : string; jwk_Y : string;
}.

(** [type keyCache struct]: no map before the first refresh. *)
Record keyCache := mkKeyCache { kc_keys : option (gmap string PublicKey); kc_fetchedAt : Z }.
Definition newKeyCacheForURL : keyCache := mkKeyCache None 0.
Definition key_ttl : Z := 3600 * 1000000000.

(** The keys of an answer; those that cannot be read, or of another kind, are
    left out, and a later one takes the place of one of its name. *)
Definition jwk_key (k : JWK) : option PublicKey :=
  let r := if bool_decide (jwk_Kty k = "RSA") then jwkToRSA (jwk_N k) (jwk_E k)
           else if bool_decide (jwk_Kty k = "EC") then jwkToEC (jwk_Crv k) (jwk_X k) (jwk_Y k)
           else Fail (New "unknown") in
  match r with Ok key => Some key | Fail _ => None end.
Definition jwks_keys (l : list JWK) : gmap string PublicKey :=
  foldl (λ m k, match jwk_key k with Some key => <[jwk_Kid k := key]> m | None => m end) ∅ l.

(** [refresh], at the time [t]; [answer] is the body of the URL, decoded. *)
Definition refresh (answer : result (list JWK)) (t : Z) (c : keyCache) : keyCache * result unit :=
  match answer with
  | Fail e => (c, Fail e)
  | Ok l => (mkKeyCache (Some (jwks_keys l)) t, Ok tt)
  end.

Definition key_not_found (kid : string) : error := New ("key " +:+ kid +:+ " not found").
Definition lookup_key (keys : gmap string PublicKey) (kid : string) : result PublicKey :=
  match keys !! kid with Some key => Ok key | None => Fail (key_not_found kid) end.
(** The keys, while they are fresh. *)
Definition fresh_keys (t : Z) (c : keyCache) : option (gmap string PublicKey) :=
  match kc_keys c with
  | Some keys => if t - kc_fetchedAt c <? key_ttl then Some keys else None
  | None => None
  end.

(** [get]: what it does under the write lock is what it does under the read
    lock, and a refresh when the keys are not fresh. *)
Definition get_locked (answer : result (list JWK)) (t : Z) (kid : string) (c : keyCache)
    : keyCache * result PublicKey :=
  match fresh_keys t c with
  | Some keys => (c, lookup_key keys kid)
  | None =>
      match refresh answer t c with
      | (c', Fail e) => (c', Fail (Errorf "refresh keys" e))
      | (c', Ok _) => (c', lookup_key (default ∅ (kc_keys c')) kid)
      end
  end.
Definition get_key (answer : result (list JWK)) (t : Z) (kid : string) (c : keyCache)
    : keyCache * result PublicKey :=
  match fresh_keys t c with
  | Some keys => (c, lookup_key keys kid)
  | None => get_locked answer t kid c
  end.

(** * Credentials are what was signed

    A session cookie names its user until it expires and needs the secret of the
    server; a token of a job says what its claims say; a key is used only while
    an answer that held it is less than an hour old. *)

(** ** Dots *)

Lemma last_dot_None s : lacks "."%char s → last_dot s = None.
Proof.
  induction s as [|c s IH]; [done|]. unfold lacks. cbn. rewrite Forall_cons. intros [Hc Hs].
  by rewrite IH, bool_decide_false.
Qed.
Lemma last_dot_app a b : lacks "."%char b → last_dot (a +:+ "." +:+ b) = Some (a, b).
Proof.
  intros Hb. induction a as [|c a IH]; [change (last_dot (String "." b) = Some ("", b)); cbn; by rewrite last_dot_None|].
  rewrite string_app_cons. cbn [last_dot]. by rewrite IH.
Qed.
Lemma last_dot_Some s a b : last_dot s = Some (a, b) → s = a +:+ "." +:+ b.
Proof.
  revert a b. induction s as [|c s IH]; [done|]. intros a b. cbn. destruct (last_dot s) as [[a' b']|].
  - intros [= <- <-]. rewrite string_app_cons. f_equal. by apply IH.
  - case_bool_decide; [|done]. by intros [= <- <-]; subst.
Qed.
Lemma Cut_char c a b : lacks c a → Cut (a +:+ String c b) (String c "") = Some (a, b).
Proof.
  intros Hl. induction a as [|d a IH].
  - change (Cut (String c b) (String c "") = Some ("", b)). cbn [Cut]. unfold HasPrefix. cbn.
    destruct (ascii_dec c c); [by destruct b|done].
  - unfold lacks in Hl. cbn [String.list_ascii_of_string] in Hl. apply Forall_cons in Hl as [Hd Hl].
    rewrite string_app_cons. cbn [Cut]. unfold HasPrefix. cbn. destruct (ascii_dec c d) as [->|_]; [done|]. by rewrite IH.
Qed.
Lemma Cut_dot a b : lacks "."%char a → Cut (a +:+ "." +:+ b) "." = Some (a, b).
Proof. apply Cut_char. Qed.
Lemma split_token_app a b c : lacks "."%char a → lacks "."%char b →
  split_token (a +:+ "." +:+ b +:+ "." +:+ c) = Some (a, b, c).
Proof. intros. unfold split_token. by rewrite !Cut_dot. Qed.

Section Session.
Context {Ju : JsonUnmarshal} {Jm : JsonMarshal}.

Definition session_payload (email : string) (expiry : Z) : json :=
  JObject [("email", JString email); ("exp", JNumber (unix expiry))].

Lemma segment_roundtrip v : is_struct v = true → json_Unmarshal (json_Marshal v) = Some v →
  rbind (decode_segment (RawURLEncoding_EncodeToString (bytes_of_string (json_Marshal v)))) unmarshal_struct = Ok v.
Proof.
  intros Hs Hj. unfold decode_segment. rewrite RawURLEncoding_roundtrip. cbn.
  unfold unmarshal_struct. by rewrite string_of_bytes_of_string, Hj, Hs.
Qed.

(** The cookie made for a user names that user until it expires, and nobody
    after that, as long as its time of expiry is one a [float64] holds. *)
Theorem session_cookie email expiry secret t :
  json_Unmarshal (json_Marshal (session_payload email expiry)) = Some (session_payload email expiry) →
  0 ≤ unix expiry < 9007199254740992 →
  sessionEmailFromRequest (Some (createSessionCookie email expiry secret)) secret t
  = if unix expiry <? unix t then "" else email.
Proof.
  intros Hj Hx. unfold sessionEmailFromRequest, createSessionCookie. rewrite last_dot_app by apply base64_no_dot.
  rewrite bool_decide_false by tauto. fold (session_payload email expiry). rewrite RawURLEncoding_roundtrip.
  unfold unmarshal_struct. rewrite string_of_bytes_of_string, Hj.
  change (is_struct (session_payload email expiry)) with true. cbv iota.
  change (string_field "email" (session_payload email expiry)) with (Some email).
  change (float_field "exp" (session_payload email expiry))
    with (x ← dec_float (JNumber (unix expiry)); Some x).
  by rewrite dec_float_exact.
Qed.

(** A cookie that names somebody was signed with the secret. *)
Lemma session_signed cookie secret t email :
  sessionEmailFromRequest cookie secret t = email → email ≠ "" →
  ∃ p v exp, cookie = Some (p +:+ "." +:+ mac_of secret p) ∧
    rbind (decode_segment p) unmarshal_struct = Ok v ∧
    string_field "email" v = Some email ∧ float_field "exp" v = Some exp ∧ unix t ≤ exp.
Proof.
  unfold sessionEmailFromRequest. destruct cookie as [value|]; [|by intros <-].
  destruct (last_dot value) as [[p sig]|] eqn:Ed; [|by intros <-].
  case_bool_decide as Hs; [by intros <-|]. subst sig. apply last_dot_Some in Ed as ->.
  unfold decode_segment. destruct (RawURLEncoding_DecodeString p) as [l|] eqn:El; [|by intros <-].
  destruct (unmarshal_struct l) as [v|] eqn:Ev; [|by intros <-].
  destruct (string_field "email" v) as [e|] eqn:Ee; [|by intros <-].
  destruct (float_field "exp" v) as [x|] eqn:Ex; [|by intros <-].
  destruct (x <? unix t) eqn:Et; [by intros <-|]. intros <- _.
  exists p, v, x. rewrite El. cbn. split_and!; [done..|lia].
Qed.
End Session.

(** ** Keys *)

(** Requests for keys at times that do not go back, each with what the URL
    answers then, from an empty cache. *)
Inductive cached : list (Z * result (list JWK)) → keyCache → Prop :=
| cached_new : cached [] newKeyCacheForURL
| cached_get l c t answer kid : cached l c → Forall (λ q, q.1 ≤ t) l →
    cached ((t, answer) :: l) (get_key answer t kid c).1.

Definition keys_of (l : list (Z * result (list JWK))) (c : keyCache) : Prop :=
  match kc_keys c with
  | None => True
  | Some keys => ∃ jwks, (kc_fetchedAt c, Ok jwks) ∈ l ∧ keys = jwks_keys jwks
  end.

Lemma get_key_keys l c t answer kid : keys_of l c → keys_of ((t, answer) :: l) (get_key answer t kid c).1.
Proof.
  intros Hc. assert (keys_of ((t, answer) :: l) c) as Hc'.
  { unfold keys_of in *. destruct (kc_keys c); [|done]. destruct Hc as (j & ? & ?). exists j. split; [by right|done]. }
  unfold get_key, get_locked. destruct (fresh_keys t c); [done|].
  destruct answer as [jwks|e]; cbn; [|done]. exists jwks. split; [by left|done].
Qed.
Lemma cached_keys l c : cached l c → keys_of l c.
Proof. induction 1; [done|]. by apply get_key_keys. Qed.

(** Whatever was asked of the cache and whatever the URL answered, failures
    included, a key handed out is the key of that name in an answer less than an
    hour old. *)
Theorem keys_fresh l c t answer kid c' key :
  cached l c → Forall (λ q, q.1 ≤ t) l → get_key answer t kid c = (c', Ok key) →
  ∃ t' jwks, (t', Ok jwks) ∈ (t, answer) :: l ∧ t - key_ttl < t' ≤ t ∧ jwks_keys jwks !! kid = Some key.
Proof.
  intros Hc Ht. apply cached_keys in Hc. unfold get_key, get_locked.
  assert (∀ keys e, lookup_key keys kid = Ok e → keys !! kid = Some e) as Hl.
  { intros keys e. unfold lookup_key. destruct (keys !! kid); naive_solver. }
  destruct (fresh_keys t c) as [keys|] eqn:Ef.
  - intros [= <- Hk%Hl]. unfold fresh_keys, keys_of in *. destruct (kc_keys c) as [ks|]; [|done].
    destruct (t - kc_fetchedAt c <? key_ttl) eqn:El; [|done]. injection Ef as <-.
    destruct Hc as (jwks & Hin & ->). exists (kc_fetchedAt c), jwks. split; [by right|]. split; [|done].
    rewrite Forall_forall in Ht. specialize (Ht _ Hin). cbn in Ht. lia.
  - destruct answer as [jwks|e]; cbn; [|done]. intros [= <- Hk%Hl].
    exists t, jwks. split; [by left|]. split; [unfold key_ttl; lia|done].
Qed.

(** ** Samples *)

(** The text of the one payload there is. *)
#[local] Instance cookie_marshal : JsonMarshal := λ _, "P".
#[local] Instance cookie_unmarshal : JsonUnmarshal := λ text,
  if bool_decide (text = "P") then Some (session_payload "ann@x" 5000000000) else None.

Lemma session_cookie_witness :
  sessionEmailFromRequest (Some (createSessionCookie "ann@x" 5000000000 "key")) "key" 5900000000 = "ann@x" ∧
  sessionEmailFromRequest (Some (createSessionCookie "ann@x" 5000000000 "key")) "key" 6000000000 = "".
Proof.
  split; (rewrite (session_cookie "ann@x" 5000000000 "key");
    [reflexivity|reflexivity|split; [by apply Z.leb_le|by apply Z.ltb_lt]]).
Defined.

(** Another secret, or another payload, and it names nobody. *)
Example cookie_forged :
  sessionEmailFromRequest (Some (createSessionCookie "ann@x" 5000000000 "key")) "other" 0 = "" ∧
  sessionEmailFromRequest (Some "UA.x") "key" 0 = "" ∧ sessionEmailFromRequest (Some "UA") "key" 0 = "".
Proof. vm_compute. done. Qed.

(** A key fetched at midnight is handed out again just before one, while the URL
    is down. *)
Definition sample_jwks : list JWK := [mkJWK "k" "RSA" "AQ" "AQAB" "" "" ""; mkJWK "x" "oct" "" "" "" "" ""].
Definition first_get : keyCache := (get_key (Ok sample_jwks) 0 "k" newKeyCacheForURL).1.

Lemma keys_fresh_witness :
  get_key (Fail (New "down")) (key_ttl - 1) "k" first_get = (first_get, Ok (RSAKey 1 65537)) ∧
  ∃ t' jwks, (t', Ok jwks) ∈ [(key_ttl - 1, Fail (New "down")); (0, Ok sample_jwks)] ∧
    jwks_keys jwks !! "k" = Some (RSAKey 1 65537).
Proof.
  assert (get_key (Fail (New "down")) (key_ttl - 1) "k" first_get = (first_get, Ok (RSAKey 1 65537))) as E
    by (vm_compute; reflexivity).
  split; [exact E|].
  destruct (keys_fresh [(0, Ok sample_jwks)] first_get (key_ttl - 1) (Fail (New "down")) "k" _ _
    (cached_get [] newKeyCacheForURL 0 (Ok sample_jwks) "k" cached_new (Forall_nil_2 _))
    ltac:(repeat constructor; by vm_compute) E) as (t' & jwks & Hin & _ & Hk).
  exists t', jwks. split; [exact Hin|exact Hk].
Defined.

(** The exponent of a key wraps around as an [int] does. *)
Example exponent_wraps :
  jwkToRSA "AQ" (RawURLEncoding_EncodeToString [128; 0; 0; 0; 0; 0; 0; 0]) = Ok (RSAKey 1 (-9223372036854775808)).
Proof. vm_compute. reflexivity. Qed.
