(* ===== verification/Archive.v ===== *)
(** * Presigned archives (internal/archivesign, internal/server/handlers_archive.go)

    A CI job gets a URL that gives out the sources of its commit for an hour to
    whoever has it: the query is signed with a key of the server.

    The bytes of a tar archive are a parameter; a request comes with the values
    of its query. *)

From Stdlib Require Import Ascii.
From S2P Require Import Prelude GoStd Wire Schema Tx Orgs Blob ReadStore Merge CIJobs Server Policy Http Handlers Handlers3 Secrets Auth.

(** ** Signatures *)

(** [hex.DecodeString], without the text of its error. *)
Definition from_hex (c : ascii) : option Z :=
  let b := byte_of_ascii c in
  if (48 <=? b) && (b <=? 57) then Some (b - 48) else
  if (97 <=? b) && (b <=? 102) then Some (b - 87) else
  if (65 <=? b) && (b <=? 70) then Some (b - 55) else None.
Fixpoint hex_DecodeString (s : string) : option (list Z) :=
  match s with
  | EmptyString => Some []
  | String a (String b s) =>
      x ← from_hex a; y ← from_hex b; l ← hex_DecodeString s; Some (x * 16 + y :: l)
  | _ => None
  end.

Definition line (s : string) : string := s +:+ String (ascii_of_nat 10) "".
Definition canonicalMessage (repo branch : string) (sequence expiresUnix : Z) : string :=
  line repo +:+ line branch +:+ line (FormatInt sequence) +:+ FormatInt expiresUnix.

Definition Sign (secret repo branch : string) (sequence expiresUnix : Z) : string :=
  hex_EncodeToString (hmac_sha256 secret (canonicalMessage repo branch sequence expiresUnix)).

Definition Verify (secret repo branch : string) (sequence expiresUnix : Z) (sig : string) : bool :=
  match hex_DecodeString sig with
  | None => false
  | Some got =>
      bool_decide (default [] (hex_DecodeString (Sign secret repo branch sequence expiresUnix)) = got)
  end.

(** ** Handlers *)

(** [url.QueryEscape] *)
Definition query_char (c : ascii) : bool :=
  let b := byte_of_ascii c in
  ((48 <=? b) && (b <=? 57)) || ((65 <=? b) && (b <=? 90)) || ((97 <=? b) && (b <=? 122)) ||
  bool_decide (c ∈ ["-"; "_"; "."; "~"]%char).
Definition hex_upper (d : Z) : ascii := ascii_of_byte (if d <? 10 then 48 + d else 55 + d).
Fixpoint QueryEscape (s : string) : string :=
  match s with
  | EmptyString => EmptyString
  | String c s =>
      if query_char c then String c (QueryEscape s) else
      if bool_decide (c = " "%char) then String "+" (QueryEscape s) else
      String "%" (String (hex_upper (byte_of_ascii c / 16)) (String (hex_upper (byte_of_ascii c mod 16)) (QueryEscape s)))
  end.

(** The archive of some files. *)
Class Tar := tar_bytes : list (string * string) → string.

(** The part of [type server struct] these handlers use, with the rest. *)
Record archive_config := mkArchiveConfig {
  ac_server : Handlers.server; ac_hmacSecret : option string; ac_baseURL : string;
  ac_jobTokenStore : bool; ac_readStore : bool;
}.

Section Handlers.
Context {Co : Collation} {Mr : MapRange} {Op : OPA} {Us : UuidSource} {Ta : Tar}.
Variable s : archive_config.

Definition presigned_url (job : CIJob) (expiresUnix : Z) (sig : string) : string :=
  ac_baseURL s +:+ "/repos/" +:+ Job_Repo job +:+ "/-/archive?branch=" +:+ QueryEscape (Job_Branch job) +:+
  "&at=" +:+ FormatInt (Job_Sequence job) +:+ "&expires=" +:+ FormatInt expiresUnix +:+ "&sig=" +:+ sig.

(** [handleArchivePresign]: the URL and the checksum. *)
Definition handleArchivePresign (authorization name : string) : H (Z * (string * string)) :=
  let internal := http_Error "internal error" 500 in
  match ac_hmacSecret s with
  | None => fault (writeError 503 "presigned archives not configured")
  | Some secret =>
      guard (negb (ac_jobTokenStore s)) (writeError 503 "presigned archives not configured");;
      job ← ci_job_of_token authorization name;
      t ← call (λ _, internal) time_Now;
      let expiresUnix := unix (t + 3600 * 1000000000) in
      let sig := Sign secret (Job_Repo job) (Job_Branch job) (Job_Sequence job) expiresUnix in
      checksum ←
        (if ac_readStore s then
           files ← call (λ _, internal) (writeArchive (ac_server s) (Job_Repo job) (Job_Branch job) (Job_Sequence job));
           mret ("sha256:" +:+ sha256_hex (tar_bytes files))
         else mret "");
      mret (200, (presigned_url job expiresUnix sig, checksum))
  end.

(** [handlePresignedArchive], with the values of the query. *)
Definition handlePresignedArchive (name branch atStr expiresStr sig : string)
    : H (Z * result (list (string * string))) :=
  let forbidden := http_Error "forbidden" 403 in
  match ac_hmacSecret s with
  | None => fault forbidden
  | Some secret =>
      guard (bool_decide (branch = "") || bool_decide (atStr = "") || bool_decide (expiresStr = "") ||
             bool_decide (sig = "")) (bad_request "missing required query parameters");;
      match ParseInt atStr with
      | None => fault (bad_request "invalid at parameter")
      | Some sequence =>
          match ParseInt expiresStr with
          | None => fault (bad_request "invalid expires parameter")
          | Some expiresUnix =>
              t ← call (λ _, forbidden) time_Now;
              guard (expiresUnix <? unix t) (http_Error "expired" 403);;
              guard (negb (Verify secret name branch sequence expiresUnix sig)) forbidden;;
              handleArchive (ac_server s) name branch atStr
          end
      end
  end.
End Handlers.
