(* ===== verification/Admission.v ===== *)
(** * Who may claim jobs and use the registry (internal/k8sproof, internal/registry/auth.go)

    A worker proves to the scheduler that it is a pod of the right kind; BuildKit
    proves to the cache registry that it works for a job.  The API of Kubernetes
    is a parameter. *)

From Stdlib Require Import Ascii.
From S2P Require Import Prelude GoStd Wire Server.

(** ** Pods *)

Definition expectedServiceAccount : string := "system:serviceaccount:docstore-ci:ci-worker".
Definition DefaultMaxPodAge : Z := 4 * 3600 * 1000000000.
Definition expectedScaledJobName : string := "ci-worker".

(** The status of a token review, a pod and a Job, as far as they are looked at. *)
Record TokenReview := mkTokenReview {
  tv_Authenticated : bool; tv_Error : string; tv_Username : string; tv_Extra : gmap string (list string);
}.
Record OwnerReference := mkOwnerReference { or_APIVersion : string; or_Kind : string; or_Name : string }.
Record Container := mkContainer { ct_Name : string; ct_Image : string }.
Record Pod := mkPod {
  pd_UID : string; pd_CreationTimestamp : Z; pd_PodIP : string; pd_Phase : string;
  pd_Containers : list Container; pd_OwnerReferences : list OwnerReference;
}.

(** The API: reviews of tokens, pods and the owners of Jobs of a namespace. *)
Class Kubernetes := {
  k8s_TokenReview : string → result TokenReview;
  k8s_Pod : string → string → result Pod;
  k8s_JobOwners : string → string → result (list OwnerReference);
}.

(** [type PodClaimer struct] *)
Record PodClaimer := mkPodClaimer { pc_namespace : string; pc_maxAge : Z }.
Definition NewPodClaimer (namespace : string) : PodClaimer := mkPodClaimer namespace DefaultMaxPodAge.

(** The name of the first owner of a kind; none, or an empty one, is no owner. *)
Definition owner_name (apiVersion kind : string) (refs : list OwnerReference) : string :=
  match filter (λ r, or_APIVersion r = apiVersion ∧ or_Kind r = kind) refs with r :: _ => or_Name r | [] => "" end.

Section Claimer.
Context {K8s : Kubernetes}.

Definition claim (key : string) (review : TokenReview) : option string := head (default [] (tv_Extra review !! key)).

(** [ValidateToken], at the time [t]; the age of a pod in an error is not
    written out. *)
Definition ValidateToken (p : PodClaimer) (token : string) (t : Z) : result (string * string) :=
  match k8s_TokenReview token with
  | Fail e => Fail (Errorf "token review failed" e)
  | Ok review =>
      if negb (tv_Authenticated review) then Fail (New ("token not authenticated: " +:+ tv_Error review)) else
      if bool_decide (tv_Username review ≠ expectedServiceAccount)
      then Fail (New ("unexpected service account " +:+ tv_Username review)) else
      match claim "authentication.kubernetes.io/pod-name" review with
      | None => Fail (New "pod name not present in token extra claims")
      | Some podName =>
          match claim "authentication.kubernetes.io/pod-uid" review with
          | None => Fail (New "pod UID not present in token extra claims")
          | Some tokenPodUID =>
              match k8s_Pod (pc_namespace p) podName with
              | Fail e => Fail (Errorf ("fetch pod " +:+ podName) e)
              | Ok pod =>
                  if bool_decide (pd_UID pod ≠ tokenPodUID) then Fail (New "pod UID mismatch") else
                  if pc_maxAge p <? t - pd_CreationTimestamp pod then Fail (New ("pod " +:+ podName +:+ " is too old")) else
                  if bool_decide (pd_Phase pod ≠ "Running") then Fail (New ("pod " +:+ podName +:+ " is not running")) else
                  if existsb (λ c, negb (Contains (ct_Image c) "@sha256:")) (pd_Containers pod)
                  then Fail (New "container image is not digest-pinned") else
                  let jobName := owner_name "batch/v1" "Job" (pd_OwnerReferences pod) in
                  if bool_decide (jobName = "") then Fail (New ("pod " +:+ podName +:+ " has no batch/v1 Job owner")) else
                  match k8s_JobOwners (pc_namespace p) jobName with
                  | Fail e => Fail (Errorf ("fetch job " +:+ jobName) e)
                  | Ok refs =>
                      let scaledJobName := owner_name "keda.sh/v1alpha1" "ScaledJob" refs in
                      if bool_decide (scaledJobName = "")
                      then Fail (New ("job " +:+ jobName +:+ " has no keda.sh/v1alpha1 ScaledJob owner")) else
                      if bool_decide (scaledJobName ≠ expectedScaledJobName)
                      then Fail (New ("job " +:+ jobName +:+ " owned by ScaledJob " +:+ scaledJobName)) else
                      Ok (podName, pd_PodIP pod)
                  end
              end
          end
      end
  end.
End Claimer.

(** ** The registry *)

(** [imageNameFromPath]: what is before the first action, the actions tried in
    order. *)
Definition actions : list string :=
  ["/blobs/"; "/blobs/uploads/"; "/manifests/"; "/tags/"; "/referrers/"; "/_catalog"].
Definition imageNameFromPath (path : string) : string :=
  if negb (HasPrefix path "/v2/") then "" else
  let rest := TrimPrefix path "/v2/" in
  if bool_decide (rest = "") || bool_decide (rest = "/") then "" else
  if bool_decide (rest = "_catalog") || HasPrefix rest "_catalog?" then "" else
  match omap (λ action, fst <$> Cut rest action) actions with
  | name :: _ => name
  | [] => rest
  end.

(** The token of a request: a bearer token, or the password of basic
    authentication. *)
Definition registry_token (auth : string) : string :=
  if HasPrefix auth "Bearer " then TrimPrefix auth "Bearer " else
  if HasPrefix auth "Basic " then
    match StdEncoding_DecodeString (TrimPrefix auth "Basic ") with
    | Some decoded =>
        match Cut (string_of_bytes decoded) ":" with Some (_, pass) => pass | None => "" end
    | None => ""
    end
  else "".

(** [authMiddleware]: the status and the text a request is refused with, or the
    job it is passed on for. *)
Definition authMiddleware (validate : string → result JobIdentity) (auth path : string) : (Z * string) + JobIdentity :=
  let tokenStr := registry_token auth in
  if bool_decide (tokenStr = "") then inl (401, "authentication required") else
  match validate tokenStr with
  | Fail _ => inl (401, "invalid token")
  | Ok identity =>
      if negb (Contains (ji_Repo identity) "/") then inl (403, "invalid token: missing org in repo claim") else
      let imageName := imageNameFromPath path in
      if bool_decide (imageName = "") then inr identity else
      if bool_decide (imageName ≠ ji_Repo identity) then inl (403, "forbidden: image does not match token repo")
      else inr identity
  end.

Example image_names :
  imageNameFromPath <$> ["/v2/acme/myrepo/blobs/sha256:abc"; "/v2/acme/myrepo/manifests/latest"; "/v2/"; "/v2/_catalog";
                         "/v1/x"; "/v2/acme/tags/x/manifests/y"; "/v2/acme/r/blobs/uploads/1"]
  = ["acme/myrepo"; "acme/myrepo"; ""; ""; ""; "acme/tags/x"; "acme/r"].
Proof. by vm_compute. Qed.
