(* ===== verification/Registry.v ===== *)
(** * The cache registry (internal/registry)

    Blobs and manifests of images, in a bucket of objects or in memory, behind
    the authentication of Admission.v.  A store of manifests is a class with two
    instances; what is not intercepted is served by the registry library, a
    parameter, as are digests and the parser of hashes.  A bucket is its objects
    with, for this process, the sizes of blobs it remembers. *)

From Stdlib Require Import Ascii.
From S2P Require Import Prelude GoStd Wire Server Admission.
From S2P Require Events.

(** ** Requests and responses *)

Record request := mkRequest {
  rq_Method : string; rq_Path : string; rq_Authorization : string; rq_ContentType : string; rq_Body : result string;
}.
Record response := mkResponse { rs_Status : Z; rs_Header : list (string * string); rs_Body : string }.
(** [http.Error], without the header it sets. *)
Definition http_error (msg : string) (status : Z) : response := mkResponse status [] (msg +:+ String (ascii_of_nat 10) "").
Definition handler (St : Type) : Type := request → St → St * response.
Definition reply {St} (status : Z) (header : list (string * string)) (body : string) (st : St) : St * response :=
  (st, mkResponse status header body).
Definition refuse {St} (msg : string) (status : Z) (st : St) : St * response := (st, http_error msg status).

(** The two libraries: [digest.FromBytes] and [v1.NewHash], an algorithm and a
    text of hexadecimal digits. *)
Class Digest := digest_FromBytes : string → string.
Class HashParser := NewHash : string → option (string * string).

Definition errNotFound : error := New "not found".
Definition isDigestRef (ref : string) : bool := Contains ref ":".

(** ** Interfaces *)

(** [ManifestStore]: contents come with their media types. *)
Class ManifestStore (St : Type) := {
  ms_Get : string → string → St → result (string * string);
  ms_Put : string → string → string → string → St → St * result unit;
  ms_Delete : string → string → St → St * result unit;
  ms_Tags : string → St → result (list string);
  ms_Repos : St → result (list string);
}.
(** The part of [BlobHandler] the middleware calls. *)
Class BlobHandler (St : Type) := {
  bh_Get : string → string * string → St → result string;
  bh_Stat : string → string * string → St → St * result Z;
}.

Definition sorted (l : list string) : list string := @order_by C_collation _ id l.

(** ** In memory *)

Record manifestEntry := mkManifestEntry { me_content : string; me_mediaType : string }.
Abbreviation MemoryManifestStore := (gmap string manifestEntry).
Definition nul : string := String (ascii_of_nat 0) "".
Definition entryKey (repo ref : string) : string := repo +:+ nul +:+ ref.

Section Memory.
Context {Dg : Digest}.
Implicit Types m : MemoryManifestStore.

Definition memory_Get (repo ref : string) m : result (string * string) :=
  match m !! entryKey repo ref with
  | Some e => Ok (me_content e, me_mediaType e)
  | None => Fail errNotFound
  end.
Definition memory_Put (repo ref mediaType content : string) m : MemoryManifestStore * result unit :=
  let d := digest_FromBytes content in
  let entry := mkManifestEntry content mediaType in
  let m := <[entryKey repo ref := entry]> m in
  (if negb (isDigestRef ref) then <[entryKey repo d := entry]> m else m, Ok tt).
Definition memory_Delete (repo ref : string) m : MemoryManifestStore * result unit :=
  (delete (entryKey repo ref) m, Ok tt).
Definition keys_of {A} (m : gmap string A) : list string := (map_to_list m).*1.
Definition memory_Tags (repo : string) m : result (list string) :=
  let prefix := repo +:+ nul in
  Ok (sorted (filter (λ ref, isDigestRef ref = false)
                (omap (λ k, if HasPrefix k prefix then Some (string_drop (String.length prefix) k) else None) (keys_of m)))).
Definition distinct (l : list string) : list string := elements (list_to_set l : gset string).
Definition memory_Repos m : result (list string) :=
  Ok (sorted (distinct ((λ k, match Cut k nul with Some (repo, _) => repo | None => k end) <$> keys_of m))).
#[export] Instance memory_manifests : ManifestStore MemoryManifestStore :=
  {| ms_Get := memory_Get; ms_Put := memory_Put; ms_Delete := memory_Delete; ms_Tags := memory_Tags; ms_Repos := memory_Repos |}.
End Memory.

(** ** In a bucket *)

Record Object := mkObject { ob_Data : string; ob_ContentType : string }.
(** [cache] of [GCSHandler] with the objects. *)
Record Bucket := mkBucket { bk_objects : gmap string Object; bk_cache : gmap string Z }.
Definition with_objects (o : gmap string Object) (b : Bucket) : Bucket := mkBucket o (bk_cache b).
Definition with_cache (c : gmap string Z) (b : Bucket) : Bucket := mkBucket (bk_objects b) c.

(** The errors of the service, by the key of the object: a call that fails has no
    effect.  An object is there once its writer is closed. *)
Class Gcs := {
  gcs_attrs_err : string → option error;
  gcs_open_err : string → option error;
  gcs_read_err : string → option error;
  gcs_write_err : string → option error;
  gcs_close_err : string → option error;
  gcs_delete_err : string → option error;
  gcs_list_err : option error;
}.
Definition ErrObjectNotExist : error := New "storage: object doesn't exist".
Definition isGCSNotFound (err : error) : bool := errors_Is err ErrObjectNotExist.

Section GCS.
Context {Dg : Digest} {Gc : Gcs}.
Implicit Types b : Bucket.

Definition obj_Attrs (key : string) b : result Object :=
  match gcs_attrs_err key with
  | Some e => Fail e
  | None => match bk_objects b !! key with Some o => Ok o | None => Fail ErrObjectNotExist end
  end.
Definition obj_NewReader (key : string) b : result Object :=
  match gcs_open_err key with
  | Some e => Fail e
  | None => match bk_objects b !! key with Some o => Ok o | None => Fail ErrObjectNotExist end
  end.
(** A writer that is filled and closed, with the errors wrapped. *)
Definition obj_Write (what : string → string) (key contentType data : string) b : Bucket * result unit :=
  match gcs_write_err key, gcs_close_err key with
  | Some e, _ => (b, Fail (Errorf (what "write") e))
  | None, Some e => (b, Fail (Errorf (what "close") e))
  | None, None => (with_objects (<[key := mkObject data contentType]> (bk_objects b)) b, Ok tt)
  end.
Definition obj_Delete (key : string) b : Bucket * result unit :=
  match gcs_delete_err key with
  | Some e => (b, Fail e)
  | None =>
      match bk_objects b !! key with
      | Some _ => (with_objects (delete key (bk_objects b)) b, Ok tt)
      | None => (b, Fail ErrObjectNotExist)
      end
  end.

(** Blobs. *)
Definition normalizeRepo (repo : string) : string := default repo (CutSuffix repo "/blobs").
Definition gcsKey (repo : string) (h : string * string) : string :=
  normalizeRepo repo +:+ "/blobs/" +:+ h.1 +:+ ":" +:+ h.2.
Definition hash_text (h : string * string) : string := h.1 +:+ ":" +:+ h.2.

Definition gcs_Get (repo : string) (h : string * string) b : result string :=
  match obj_NewReader (gcsKey repo h) b with
  | Ok o => Ok (ob_Data o)
  | Fail e => Fail (if isGCSNotFound e then errNotFound else Errorf ("gcs get " +:+ hash_text h) e)
  end.
Definition gcs_Stat (repo : string) (h : string * string) b : Bucket * result Z :=
  let key := gcsKey repo h in
  match bk_cache b !! key with
  | Some sz => (b, Ok sz)
  | None =>
      match obj_Attrs key b with
      | Fail e => (b, Fail (if isGCSNotFound e then errNotFound else Errorf ("gcs stat " +:+ hash_text h) e))
      | Ok o =>
          let size := Z.of_nat (String.length (ob_Data o)) in
          (with_cache (<[key := size]> (bk_cache b)) b, Ok size)
      end
  end.
(** [rc] is what was read. *)
Definition gcs_Put (repo : string) (h : string * string) (rc : result string) b : Bucket * result unit :=
  match rc with
  | Fail e => (b, Fail (Errorf "read blob" e))
  | Ok data =>
      let key := gcsKey repo h in
      match obj_Write (λ w, "gcs put " +:+ hash_text h +:+ ": " +:+ w) key "" data b with
      | (b, Fail e) => (b, Fail e)
      | (b, Ok _) => (with_cache (<[key := Z.of_nat (String.length data)]> (bk_cache b)) b, Ok tt)
      end
  end.
Definition gcs_Delete (repo : string) (h : string * string) b : Bucket * result unit :=
  let key := gcsKey repo h in
  match obj_Delete key b with
  | (b, Fail e) => if isGCSNotFound e then (b, Ok tt) else (b, Fail (Errorf ("gcs delete " +:+ hash_text h) e))
  | (b, Ok _) => (with_cache (delete key (bk_cache b)) b, Ok tt)
  end.
#[export] Instance gcs_blobs : BlobHandler Bucket := {| bh_Get := gcs_Get; bh_Stat := gcs_Stat |}.

(** Manifests. *)
Definition gcsManifestKey (repo ref : string) : string := repo +:+ "/manifests/" +:+ ref.

Definition gcsm_Get (repo ref : string) b : result (string * string) :=
  let key := gcsManifestKey repo ref in
  let not_found what e :=
    if isGCSNotFound e then errNotFound else Errorf ("gcs manifest " +:+ what +:+ " " +:+ repo +:+ "@" +:+ ref) e in
  match obj_Attrs key b with
  | Fail e => Fail (not_found "attrs" e)
  | Ok attrs =>
      match obj_NewReader key b with
      | Fail e => Fail (not_found "open" e)
      | Ok o =>
          match gcs_read_err key with
          | Some e => Fail (Errorf ("gcs manifest read " +:+ repo +:+ "@" +:+ ref) e)
          | None => Ok (ob_Data o, ob_ContentType attrs)
          end
      end
  end.
Definition writeObject (key contentType data : string) b : Bucket * result unit :=
  obj_Write (λ w, "gcs manifest " +:+ w +:+ " " +:+ key) key contentType data b.
Definition gcsm_Put (repo ref mediaType content : string) b : Bucket * result unit :=
  match writeObject (gcsManifestKey repo ref) mediaType content b with
  | (b, Fail e) => (b, Fail e)
  | (b, Ok _) =>
      if negb (isDigestRef ref)
      then writeObject (gcsManifestKey repo (digest_FromBytes content)) mediaType content b
      else (b, Ok tt)
  end.
Definition gcsm_Delete (repo ref : string) b : Bucket * result unit :=
  match obj_Delete (gcsManifestKey repo ref) b with
  | (b, Fail e) =>
      if isGCSNotFound e then (b, Ok tt) else (b, Fail (Errorf ("gcs manifest delete " +:+ repo +:+ "@" +:+ ref) e))
  | (b, Ok _) => (b, Ok tt)
  end.
Definition gcsm_Tags (repo : string) b : result (list string) :=
  let prefix := repo +:+ "/manifests/" in
  match gcs_list_err with
  | Some e => Fail (Errorf ("gcs manifest tags " +:+ repo) e)
  | None =>
      Ok (sorted (filter (λ ref, isDigestRef ref = false)
                    ((λ k, TrimPrefix k prefix) <$> filter (λ k, HasPrefix k prefix = true) (keys_of (bk_objects b)))))
  end.
Definition gcsm_Repos b : result (list string) :=
  match gcs_list_err with
  | Some e => Fail (Errorf "gcs repos list" e)
  | None => Ok (sorted (distinct (omap (λ k, fst <$> Cut k "/manifests/") (keys_of (bk_objects b)))))
  end.
#[export] Instance gcs_manifests : ManifestStore Bucket :=
  {| ms_Get := gcsm_Get; ms_Put := gcsm_Put; ms_Delete := gcsm_Delete; ms_Tags := gcsm_Tags; ms_Repos := gcsm_Repos |}.
End GCS.

(** ** Handlers (registry.go) *)

Definition CutPrefix (s p : string) : option string := if HasPrefix s p then Some (TrimPrefix s p) else None.
(** A name, an infix and the rest, both not empty. *)
Definition parse_around (infix path : string) : option (string * string) :=
  match CutPrefix path "/v2/" with
  | None => None
  | Some rest =>
      match Cut rest infix with
      | None => None
      | Some (repo, ref) => if bool_decide (repo = "") || bool_decide (ref = "") then None else Some (repo, ref)
      end
  end.
Definition parseBlobPath : string → option (string * string) := parse_around "/blobs/".
Definition parseManifestPath : string → option (string * string) := parse_around "/manifests/".
Definition parseTagsListPath (path : string) : option string :=
  match CutPrefix path "/v2/" with
  | None => None
  | Some rest =>
      match CutSuffix rest "/tags/list" with
      | Some repo => if bool_decide (repo = "") then None else Some repo
      | None => None
      end
  end.

Definition dq : string := String (ascii_of_nat 34) "".
Definition unknown_body (code message : string) : string :=
  "{" +:+ dq +:+ "errors" +:+ dq +:+ ":[{" +:+ dq +:+ "code" +:+ dq +:+ ":" +:+ dq +:+ code +:+ dq +:+ "," +:+
  dq +:+ "message" +:+ dq +:+ ":" +:+ dq +:+ message +:+ dq +:+ "}]}" +:+ String (ascii_of_nat 10) "".
Definition blobUnknownBody : string := unknown_body "BLOB_UNKNOWN" "Unknown blob".
Definition manifestUnknownBody : string := unknown_body "MANIFEST_UNKNOWN" "Unknown manifest".

Section Handlers.
Context {Dg : Digest} {Hp : HashParser} {Jm : JsonMarshal}.
Context {St : Type} {Ms : ManifestStore St} {Bh : BlobHandler St}.

Definition json_type : string * string := ("Content-Type", "application/json").
Definition method_not_allowed (st : St) : St * response := refuse "method not allowed" 405 st.

(** [blobHeadMiddleware] *)
Definition blobHeadMiddleware (next : handler St) : handler St := λ r st,
  let is_head := bool_decide (rq_Method r = "HEAD") in
  if negb is_head && negb (bool_decide (rq_Method r = "GET")) then next r st else
  match parseBlobPath (rq_Path r) with
  | None => next r st
  | Some (repo, dgst) =>
      match NewHash dgst with
      | None => next r st
      | Some h =>
          let '(st, size) := bh_Stat repo h st in
          match size with
          | Fail e =>
              if errors_Is e errNotFound then reply 404 [json_type] blobUnknownBody st
              else refuse ("stat blob: " +:+ Events.error_text e) 500 st
          | Ok size =>
              let header := [("Content-Length", FormatInt size); ("Docker-Content-Digest", dgst)] in
              if is_head then reply 200 header "" st else
              match bh_Get repo h st with
              | Fail e => refuse ("get blob: " +:+ Events.error_text e) 500 st
              | Ok data => reply 200 (("Content-Type", "application/octet-stream") :: header) data st
              end
          end
      end
  end.

(** [serveManifest] *)
Definition serveManifest (repo ref : string) : handler St := λ r st,
  let store_error := refuse "manifest store error" 500 in
  let verb v := bool_decide (rq_Method r = v) in
  if verb "GET" || verb "HEAD" then
    match ms_Get repo ref st with
    | Fail e =>
        if errors_Is e errNotFound
        then reply 404 [json_type] (if verb "GET" then manifestUnknownBody else "") st
        else store_error st
    | Ok (content, mediaType) =>
        reply 200 [("Content-Type", mediaType); ("Docker-Content-Digest", digest_FromBytes content);
                   ("Content-Length", FormatInt (Z.of_nat (String.length content)))]
          (if verb "GET" then content else "") st
    end
  else if verb "PUT" then
    match rq_Body r with
    | Fail _ => refuse "read body" 400 st
    | Ok body =>
        match ms_Put repo ref (rq_ContentType r) body st with
        | (st, Fail _) => store_error st
        | (st, Ok _) =>
            let d := digest_FromBytes body in
            reply 201 [("Docker-Content-Digest", d); ("Location", "/v2/" +:+ repo +:+ "/manifests/" +:+ d)] "" st
        end
    end
  else if verb "DELETE" then
    match ms_Delete repo ref st with
    | (st, Fail _) => store_error st
    | (st, Ok _) => reply 202 [] "" st
    end
  else method_not_allowed st.

(** A line of JSON. *)
Definition json_line (v : json) : string := json_Marshal v +:+ String (ascii_of_nat 10) "".
(** A nil slice is null. *)
Definition json_strings (l : list string) : json := match l with [] => JNull | _ => JArray (JString <$> l) end.

Definition serveTagsList (repo : string) : handler St := λ r st,
  if negb (bool_decide (rq_Method r = "GET")) then method_not_allowed st else
  match ms_Tags repo st with
  | Fail _ => refuse "manifest store error" 500 st
  | Ok tags => reply 200 [json_type] (json_line (JObject [("name", JString repo); ("tags", json_strings tags)])) st
  end.
(** The slice of the repositories is made, so never nil. *)
Definition serveCatalog : handler St := λ r st,
  if negb (bool_decide (rq_Method r = "GET")) then method_not_allowed st else
  match ms_Repos st with
  | Fail _ => refuse "manifest store error" 500 st
  | Ok repos => reply 200 [json_type] (json_line (JObject [("repositories", JArray (JString <$> repos))])) st
  end.

(** [manifestStoreMiddleware] *)
Definition manifestStoreMiddleware (next : handler St) : handler St := λ r st,
  match parseManifestPath (rq_Path r) with
  | Some (repo, ref) => serveManifest repo ref r st
  | None =>
      match parseTagsListPath (rq_Path r) with
      | Some repo => serveTagsList repo r st
      | None => if bool_decide (rq_Path r = "/v2/_catalog") then serveCatalog r st else next r st
      end
  end.

(** [ociManifest404Middleware]; the header of the response that is replaced
    stays, but for the fields that are set again. *)
Definition set_header (name value : string) (l : list (string * string)) : list (string * string) :=
  (name, value) :: filter (λ kv, kv.1 ≠ name) l.
Definition ociManifest404Middleware (next : handler St) : handler St := λ r st,
  if negb (Contains (rq_Path r) "/manifests/") then next r st else
  let '(st, resp) := next r st in
  if rs_Status resp =? 404 then
    let header := set_header "Content-Type" "application/json" (rs_Header resp) in
    if negb (bool_decide (rq_Method r = "HEAD")) then
      reply 404 (set_header "Content-Length" (FormatInt (Z.of_nat (String.length manifestUnknownBody))) header)
        manifestUnknownBody st
    else reply 404 header "" st
  else (st, resp).

(** [New], of the registry of the library; [store] is whether there is a store
    of manifests. *)
Definition New_ (store : bool) (inner : handler St) (validate : string → result JobIdentity) : handler St := λ r st,
  let manifests := if store then manifestStoreMiddleware inner else ociManifest404Middleware inner in
  match authMiddleware validate (rq_Authorization r) (rq_Path r) with
  | inr _ => blobHeadMiddleware manifests r st
  | inl (status, msg) =>
      let challenge := [("WWW-Authenticate", "Basic realm=" +:+ dq +:+ "ci-registry" +:+ dq)] in
      reply status (if status =? 401 then challenge else []) (msg +:+ String (ascii_of_nat 10) "") st
  end.
End Handlers.
