(* ===== verification/RegistrySpec.v ===== *)
(** * What the cache registry promises

    [ManifestLaws] is the contract of a store of manifests, which both stores
    keep; against it, a manifest that is pushed is pulled as it was, under its
    tag and its digest, and a job reaches only the images of its repository. *)

From Stdlib Require Import Ascii.
From S2P Require Import Prelude GoStd Wire Server Admission Registry.
From S2P Require Events.

(** ** Names in paths *)

Lemma HasPrefix_app_l s t p : (String.length p ≤ String.length s)%nat → HasPrefix (s +:+ t) p = HasPrefix s p.
Proof.
  unfold HasPrefix. revert s. induction p as [|c p IH]; intros [|d s] Hl; cbn in Hl; try lia; [by destruct t|done|].
  rewrite string_app_cons. cbn. destruct (ascii_dec c d); [|done]. apply IH. lia.
Qed.

(** What comes after the first occurrence of an infix does not matter. *)
Definition splits (infix a : string) : Prop := ∀ x, Cut (a +:+ infix +:+ x) infix = Some (a, x).
Lemma Cut_empty_rest infix x : Cut (infix +:+ x) infix = Some ("", x).
Proof.
  assert (∀ s, HasPrefix s infix = true → Cut s infix = Some ("", string_drop (String.length infix) s)) as ->.
  - intros [|c s] E; cbn [Cut]; by rewrite E.
  - by rewrite string_drop_app.
  - apply HasPrefix_app.
Qed.
Lemma Cut_splits s infix a b : Cut s infix = Some (a, b) → splits infix a.
Proof.
  intros Hc x. pose proof (Cut_Some _ _ _ _ Hc) as ->. revert Hc. induction a as [|c a IH]; [intros _; exact (Cut_empty_rest infix x)|].
  rewrite !string_app_cons. cbn [Cut]. rewrite <- !(string_app_cons c).
  assert (∀ y, HasPrefix (String c a +:+ infix +:+ y) infix = HasPrefix (String c a +:+ infix) infix) as Hp.
  { intros y. rewrite <- string_app_assoc. apply HasPrefix_app_l. rewrite string_length_app. lia. }
  rewrite !Hp. destruct (HasPrefix _ infix); [done|]. intros Hc.
  destruct (Cut (a +:+ infix +:+ b) infix) as [[a' b']|] eqn:E; [|done]. injection Hc as -> ->.
  by rewrite (IH eq_refl).
Qed.

Lemma Contains_app a sub b : Contains (a +:+ sub +:+ b) sub = true.
Proof.
  unfold Contains. apply bool_decide_eq_true. destruct (Cut _ sub) as [p|] eqn:E; [by exists p|].
  by destruct (Cut_None _ _ E a b).
Qed.

Lemma app_split (a b s t : string) : a +:+ s = b +:+ t →
  (∃ u, a = b +:+ u ∧ t = u +:+ s) ∨ (∃ u, b = a +:+ u ∧ s = u +:+ t).
Proof.
  revert b. induction a as [|c a IH]; intros b E; [right; by exists b|].
  destruct b as [|d b]; [left; by exists (String c a)|]. rewrite !string_app_cons in E. injection E as -> E.
  destruct (IH b E) as [(u & -> & ->)|(u & -> & ->)]; [left|right]; by exists u.
Qed.
(** A text before a slash covers what has no slash. *)
Lemma seg_prefix u s w t : lacks "/"%char w → u +:+ String "/" s = w +:+ t → ∃ v, u = w +:+ v.
Proof.
  revert u. induction w as [|c w IH]; intros u Hw E; [by exists u|].
  unfold lacks in Hw. cbn in Hw. apply Forall_cons in Hw as [Hc Hw]. rewrite string_app_cons in E.
  destruct u as [|d u]; [by injection E|]. rewrite string_app_cons in E. injection E as -> E.
  destruct (IH u Hw E) as [v ->]. by exists v.
Qed.

Lemma parse_around_ok infix path repo ref : parse_around infix path = Some (repo, ref) →
  path = "/v2/" +:+ repo +:+ infix +:+ ref ∧ splits infix repo ∧ repo ≠ "" ∧ ref ≠ "".
Proof.
  unfold parse_around, CutPrefix. destruct (HasPrefix path "/v2/") eqn:Hp; [|done].
  unfold TrimPrefix. rewrite Hp. destruct (Cut _ infix) as [[a b]|] eqn:E; [|done].
  case_bool_decide; [done|]. case_bool_decide; [done|]. intros [= -> ->].
  split_and!; [|by eapply Cut_splits|done..]. rewrite <- (Cut_Some _ _ _ _ E). by apply HasPrefix_drop.
Qed.

(** The image of a path that has an action. *)
Lemma image_rest rest :
  rest ≠ "" → rest ≠ "/" → rest ≠ "_catalog" → HasPrefix rest "_catalog?" = false →
  imageNameFromPath ("/v2/" +:+ rest) =
    match omap (λ action, fst <$> Cut rest action) actions with name :: _ => name | [] => rest end.
Proof.
  intros H1 H2 H3 H4. unfold imageNameFromPath. rewrite HasPrefix_app, TrimPrefix_app. cbn [negb].
  by rewrite (bool_decide_false (rest = "")), (bool_decide_false (rest = "/")), (bool_decide_false (rest = "_catalog")), H4.
Qed.
Lemma image_around repo infix ref :
  infix ∈ ["/blobs/"; "/manifests/"] → repo ≠ "" → HasPrefix repo "_catalog?" = false →
  imageNameFromPath ("/v2/" +:+ repo +:+ infix +:+ ref) =
    match omap (λ action, fst <$> Cut (repo +:+ infix +:+ ref) action) actions with
    | name :: _ => name | [] => repo +:+ infix +:+ ref end.
Proof.
  intros Hi Hr Hc. assert (∃ w, infix = String "/" w ∧ w ≠ "") as (w & -> & Hw).
  { rewrite !elem_of_cons in Hi. destruct Hi as [->|[->|Hi]]; [by exists "blobs/"|by exists "manifests/"|].
    by apply not_elem_of_nil in Hi. }
  apply image_rest.
  - by destruct repo.
  - intros E%(f_equal String.length). rewrite string_length_app, string_app_cons in E. cbn in E.
    destruct repo; [done|]. cbn in E. lia.
  - intros E. assert ("/"%char ∈ String.list_ascii_of_string "_catalog") as Hs.
    { rewrite <- E. clear. induction repo as [|c repo IH]; [left|right; exact IH]. }
    by apply (bool_decide_pack _) in Hs.
  - apply not_true_is_false. intros [t E]%HasPrefix_spec. rewrite string_app_cons in E.
    apply seg_prefix in E as [v ->]; [by rewrite HasPrefix_app in Hc|]. by apply (bool_decide_unpack _).
Qed.

(** Where the authentication and the handlers may disagree about a name. *)
Definition ambiguous (image repo : string) : Prop :=
  Contains image "/manifests" = true ∨ Contains repo "/blobs" = true ∨ HasPrefix repo "_catalog?" = true.

Lemma image_of_blob path repo dgst :
  parseBlobPath path = Some (repo, dgst) → imageNameFromPath path = repo ∨ HasPrefix repo "_catalog?" = true.
Proof.
  intros (-> & Hs & Hr & _)%parse_around_ok. destruct (HasPrefix repo "_catalog?") eqn:Hc; [by right|left].
  rewrite image_around; [|left|done|done]. cbn [omap list_omap actions]. by rewrite Hs.
Qed.
Lemma image_of_manifest path repo ref :
  parseManifestPath path = Some (repo, ref) → imageNameFromPath path = repo ∨ ambiguous (imageNameFromPath path) repo.
Proof.
  intros (-> & Hs & Hr & _)%parse_around_ok. unfold ambiguous.
  destruct (HasPrefix repo "_catalog?") eqn:Hc; [by auto|].
  rewrite image_around; [|right; left|done|done]. cbn [omap list_omap actions].
  destruct (Cut (repo +:+ "/manifests/" +:+ ref) "/blobs/") as [[a d]|] eqn:Eb; cbn.
  - right. apply Cut_Some in Eb. apply app_split in Eb as [(u & -> & E)|(u & -> & E)].
    + right. left. destruct u as [|c u]; [discriminate E|]. injection E as <- E. symmetry in E.
      apply (seg_prefix u _ "blobs" (String "/" d)) in E as [v ->]; [|by apply (bool_decide_unpack _)].
      change (Contains (a +:+ "/blobs" +:+ v) "/blobs" = true). apply Contains_app.
    + left. destruct u as [|c u]; [discriminate E|]. injection E as <- E. symmetry in E.
      apply (seg_prefix u _ "manifests" (String "/" ref)) in E as [v ->]; [|by apply (bool_decide_unpack _)].
      change (Contains (repo +:+ "/manifests" +:+ v) "/manifests" = true). apply Contains_app.
  - left. destruct (Cut _ "/blobs/uploads/") as [[a d]|] eqn:Eu.
    + apply Cut_Some in Eu. by destruct (Cut_None _ _ Eb a ("uploads/" +:+ d)).
    + cbn. by rewrite Hs.
Qed.

(** ** The contract of a store of manifests *)

Section Laws.
Context {Dg : Digest}.

(** [ms_name]: the repositories the store keeps apart; [ms_entry]: the content
    and the type of a manifest; [ms_up]: when calls do not fail. *)
Class ManifestLaws (St : Type) {Ms : ManifestStore St} := {
  ms_name : string → Prop;
  ms_entry : St → string → string → option (string * string);
  ms_up : Prop;
  ms_Get_entry repo ref st e : ms_Get repo ref st = Ok e → ms_entry st repo ref = Some e;
  ms_Get_up repo ref st : ms_up → ms_Get repo ref st = match ms_entry st repo ref with Some e => Ok e | None => Fail errNotFound end;
  ms_Put_others repo ref mt content st st' r repo' ref' :
    ms_name repo → ms_name repo' → ms_Put repo ref mt content st = (st', r) →
    ms_entry st' repo' ref' = ms_entry st repo' ref' ∨
    repo' = repo ∧ (ref' = ref ∨ isDigestRef ref = false ∧ ref' = digest_FromBytes content) ∧
    ms_entry st' repo' ref' = Some (content, mt);
  ms_Put_entry repo ref mt content st st' :
    ms_Put repo ref mt content st = (st', Ok tt) →
    ms_entry st' repo ref = Some (content, mt) ∧
    (isDigestRef ref = false → ms_entry st' repo (digest_FromBytes content) = Some (content, mt));
  ms_Delete_others repo ref st st' r repo' ref' :
    ms_name repo → ms_name repo' → ms_Delete repo ref st = (st', r) →
    ms_entry st' repo' ref' = ms_entry st repo' ref' ∨ repo' = repo ∧ ref' = ref ∧ ms_entry st' repo' ref' = None;
}.

(** Keys that are a name, an infix and a reference. *)
Lemma split_key infix repo repo' ref ref' :
  splits infix repo → splits infix repo' → repo' +:+ infix +:+ ref' = repo +:+ infix +:+ ref → repo' = repo ∧ ref' = ref.
Proof. intros H H' E. specialize (H ref). rewrite <- E, H' in H. by injection H. Qed.
Lemma key_app_inj repo infix ref ref' : repo +:+ infix +:+ ref = repo +:+ infix +:+ ref' → ref = ref'.
Proof.
  intros E. rewrite <- !string_app_assoc in E. revert E. generalize (repo +:+ infix) as p. intros p.
  induction p as [|c p IH]; [done|]. rewrite !string_app_cons. intros [= E]. auto.
Qed.

Section Memory.
Definition memory_entry (m : MemoryManifestStore) (repo ref : string) : option (string * string) :=
  (λ e, (me_content e, me_mediaType e)) <$> m !! entryKey repo ref.
Lemma memory_other (m : MemoryManifestStore) e repo ref repo' ref' :
  splits nul repo → splits nul repo' →
  memory_entry (<[entryKey repo ref := e]> m) repo' ref' = memory_entry m repo' ref' ∨
  repo' = repo ∧ ref' = ref ∧ memory_entry (<[entryKey repo ref := e]> m) repo' ref' = Some (me_content e, me_mediaType e).
Proof.
  intros H H'. unfold memory_entry. destruct (decide (entryKey repo' ref' = entryKey repo ref)) as [E|E].
  - right. rewrite E, lookup_insert_eq. by destruct (split_key nul repo repo' ref ref' H H' E) as [-> ->].
  - left. by rewrite lookup_insert_ne.
Qed.
#[export] Program Instance memory_laws : ManifestLaws MemoryManifestStore :=
  {| ms_name := splits nul; ms_entry := memory_entry; ms_up := True |}.
Next Obligation. intros repo ref st e. cbn. unfold memory_Get, memory_entry. destruct (st !! _); [|done]. by intros [= <-]. Qed.
Next Obligation. intros repo ref st _. cbn. unfold memory_Get, memory_entry. by destruct (st !! _). Qed.
Next Obligation.
  intros repo ref mt content st st' r repo' ref' H H' [= <- _]. destruct (isDigestRef ref); cbn [negb].
  - destruct (memory_other st (mkManifestEntry content mt) repo ref repo' ref' H H') as [?|(? & ? & ?)]; auto.
  - destruct (memory_other (<[entryKey repo ref := mkManifestEntry content mt]> st) (mkManifestEntry content mt) repo
      (digest_FromBytes content) repo' ref' H H') as [->|(? & ? & ?)]; [|by auto 6].
    destruct (memory_other st (mkManifestEntry content mt) repo ref repo' ref' H H') as [?|(? & ? & ?)]; auto.
Qed.
Next Obligation.
  intros repo ref mt content st st' [= <-]. unfold memory_entry. destruct (isDigestRef ref); cbn [negb].
  - by rewrite lookup_insert_eq.
  - rewrite lookup_insert_eq. split; [|done].
    destruct (decide (entryKey repo ref = entryKey repo (digest_FromBytes content))) as [->|E];
      [by rewrite lookup_insert_eq|by rewrite lookup_insert_ne, lookup_insert_eq].
Qed.
Next Obligation.
  intros repo ref st st' r repo' ref' H H' [= <- _]. unfold memory_entry.
  destruct (decide (entryKey repo' ref' = entryKey repo ref)) as [E|E].
  - right. rewrite E, lookup_delete_eq. by destruct (split_key nul repo repo' ref ref' H H' E) as [-> ->].
  - left. by rewrite lookup_delete_ne.
Qed.
End Memory.

Section GCS.
Context {Gc : Gcs}.
Definition bucket_entry (b : Bucket) (repo ref : string) : option (string * string) :=
  (λ o, (ob_Data o, ob_ContentType o)) <$> bk_objects b !! gcsManifestKey repo ref.
Lemma write_other key data mt b b' r repo' ref' :
  writeObject key mt data b = (b', r) →
  bucket_entry b' repo' ref' = bucket_entry b repo' ref' ∨
  gcsManifestKey repo' ref' = key ∧ bucket_entry b' repo' ref' = Some (data, mt).
Proof.
  unfold writeObject, obj_Write, bucket_entry. destruct (gcs_write_err key); [by intros [= <- _]; left|].
  destruct (gcs_close_err key); [by intros [= <- _]; left|]. intros [= <- _]. cbn.
  destruct (decide (gcsManifestKey repo' ref' = key)) as [->|E]; [right; by rewrite lookup_insert_eq|left; by rewrite lookup_insert_ne].
Qed.
Lemma write_ok key data mt b b' :
  writeObject key mt data b = (b', Ok tt) → bk_objects b' = <[key := mkObject data mt]> (bk_objects b).
Proof.
  unfold writeObject, obj_Write. destruct (gcs_write_err key); [done|]. destruct (gcs_close_err key); [done|]. by intros [= <-].
Qed.
(** No call of the service fails. *)
Definition bucket_up : Prop :=
  ∀ key, gcs_attrs_err key = None ∧ gcs_open_err key = None ∧ gcs_read_err key = None.
#[export] Program Instance gcs_laws : ManifestLaws Bucket :=
  {| ms_name := splits "/manifests/"; ms_entry := bucket_entry; ms_up := bucket_up |}.
Next Obligation.
  intros repo ref b e. cbn. unfold gcsm_Get, obj_Attrs, obj_NewReader, bucket_entry.
  destruct (gcs_attrs_err _); [done|]. destruct (bk_objects b !! _) as [o|]; [|done].
  destruct (gcs_open_err _); [done|]. destruct (gcs_read_err _); [done|]. by intros [= <-].
Qed.
Next Obligation.
  intros repo ref b Hup. destruct (Hup (gcsManifestKey repo ref)) as (H1 & H2 & H3).
  cbn. unfold gcsm_Get, obj_Attrs, obj_NewReader, bucket_entry. rewrite H1, H2, H3. by destruct (bk_objects b !! _).
Qed.
Next Obligation.
  intros repo ref mt content b b' r repo' ref' H H' E. cbn in E. unfold gcsm_Put in E.
  destruct (writeObject (gcsManifestKey repo ref) mt content b) as [b1 r1] eqn:E1.
  assert (∀ x, gcsManifestKey repo' ref' = gcsManifestKey repo x → repo' = repo ∧ ref' = x) as Hk
    by (intros x; apply (split_key "/manifests/" repo repo' x ref' H H')).
  destruct (write_other _ _ _ _ _ _ repo' ref' E1) as [Ho|[[-> ->]%Hk Ho]].
  - destruct r1 as [u|e]; [|injection E as <- _; by left]. destruct (isDigestRef ref); [injection E as <- _; by left|].
    cbn [negb] in E. destruct (write_other _ _ _ _ _ _ repo' ref' E) as [Hd|[[-> ->]%Hk Hd]]; [left; congruence|by auto 6].
  - right. split; [done|]. split; [by left|]. destruct r1 as [u|e]; [|by injection E as <- _].
    destruct (isDigestRef ref); [by injection E as <- _|]. cbn [negb] in E.
    by destruct (write_other _ _ _ _ _ _ repo ref E) as [-> |[_ ->]].
Qed.
Next Obligation.
  intros repo ref mt content b b' E. cbn in E. unfold gcsm_Put in E.
  destruct (writeObject (gcsManifestKey repo ref) mt content b) as [b1 [[]|e]] eqn:E1; [|done]. apply write_ok in E1.
  unfold bucket_entry. destruct (isDigestRef ref).
  - injection E as <-. by rewrite E1, lookup_insert_eq.
  - cbn [negb] in E. apply write_ok in E. rewrite E, lookup_insert_eq. split; [|done].
    destruct (decide (gcsManifestKey repo ref = gcsManifestKey repo (digest_FromBytes content))) as [Ek|Ek].
    + by rewrite <- Ek, lookup_insert_eq.
    + by rewrite lookup_insert_ne, E1, lookup_insert_eq.
Qed.
Next Obligation.
  intros repo ref b b' r repo' ref' H H' E. cbn in E. unfold gcsm_Delete, obj_Delete in E. unfold bucket_entry.
  destruct (gcs_delete_err _) as [e|]; [left; by destruct (isGCSNotFound e); injection E as <- _|].
  destruct (bk_objects b !! gcsManifestKey repo ref) as [o|] eqn:Eo; [|left; by destruct (isGCSNotFound _); injection E as <- _].
  injection E as <- _. cbn. destruct (decide (gcsManifestKey repo' ref' = gcsManifestKey repo ref)) as [Ek|Ek].
  - right. rewrite Ek, lookup_delete_eq. by destruct (split_key "/manifests/" repo repo' ref ref' H H' Ek) as [-> ->].
  - left. by rewrite lookup_delete_ne.
Qed.
End GCS.
End Laws.

(** ** The registry *)

Section Registry.
Context {Dg : Digest} {Hp : HashParser} {Jm : JsonMarshal}.
Context {St : Type} {Ms : ManifestStore St} {Ml : ManifestLaws St} {Bh : BlobHandler St}.
(** The size of a blob is no matter of manifests, nor is what the library is left
    to serve. *)
Hypothesis stat_law : ∀ repo h st repo' ref, ms_entry (bh_Stat repo h st).1 repo' ref = ms_entry st repo' ref.
Variable inner : handler St.
Hypothesis library_law : ∀ r st repo ref, ms_entry (inner r st).1 repo ref = ms_entry st repo ref.

Lemma auth_ok validate auth path identity :
  authMiddleware validate auth path = inr identity →
  validate (registry_token auth) = Ok identity ∧ (imageNameFromPath path = "" ∨ imageNameFromPath path = ji_Repo identity).
Proof.
  unfold authMiddleware. case_bool_decide; [done|]. destruct (validate _) as [i|]; [|done]. destruct (negb _); [done|].
  case_bool_decide as Hi; [intros [= ->]; auto|]. case_bool_decide as Hr; [done|]. intros [= ->].
  split; [done|]. by right.
Qed.

Lemma blobHead_entry next r st :
  blobHeadMiddleware next r st = next r st ∨
  ∀ repo ref, ms_entry (blobHeadMiddleware next r st).1 repo ref = ms_entry st repo ref.
Proof.
  unfold blobHeadMiddleware. destruct (_ && _); [by left|].
  destruct (parseBlobPath _) as [[b d]|]; [|by left]. destruct (NewHash d) as [h|]; [|by left]. right. intros repo ref.
  pose proof (stat_law b h st repo ref) as Hs. destruct (bh_Stat b h st) as [st1 [size|e]]; cbn in Hs.
  - destruct (bool_decide _); [done|]. by destruct (bh_Get _ _ _).
  - by destruct (errors_Is _ _).
Qed.
Lemma serve_entry repo ref r st repo' ref' :
  ms_name repo → ms_name repo' → ms_entry (serveManifest repo ref r st).1 repo' ref' ≠ ms_entry st repo' ref' →
  (rq_Method r = "PUT" ∨ rq_Method r = "DELETE") ∧ repo' = repo.
Proof.
  intros H H'. unfold serveManifest.
  destruct (bool_decide (rq_Method r = "GET") || bool_decide (rq_Method r = "HEAD")).
  { destruct (ms_Get _ _ _) as [[? ?]|e]; [done|]. by destruct (errors_Is _ _). }
  case_bool_decide as Hput.
  - destruct (rq_Body r) as [body|e]; [|done]. destruct (ms_Put _ _ _ _ _) as [st1 [u|e]] eqn:E; cbn; intros Hne;
      destruct (ms_Put_others _ _ _ _ _ _ _ repo' ref' H H' E) as [?|(-> & _)]; try done; auto.
  - case_bool_decide as Hdel; [|done]. destruct (ms_Delete _ _ _) as [st1 [u|e]] eqn:E; cbn; intros Hne;
      destruct (ms_Delete_others _ _ _ _ _ repo' ref' H H' E) as [?|(-> & _)]; try done; auto.
Qed.
Lemma middleware_entry r st repo' ref' :
  (∀ repo ref, parseManifestPath (rq_Path r) = Some (repo, ref) → ms_name repo) → ms_name repo' →
  ms_entry (manifestStoreMiddleware inner r st).1 repo' ref' ≠ ms_entry st repo' ref' →
  (rq_Method r = "PUT" ∨ rq_Method r = "DELETE") ∧ ∃ ref, parseManifestPath (rq_Path r) = Some (repo', ref).
Proof.
  intros Hn Hn'. unfold manifestStoreMiddleware. destruct (parseManifestPath _) as [[repo ref]|].
  { intros [Hm ->]%serve_entry; [|by eapply Hn|done]. eauto. }
  destruct (parseTagsListPath _).
  { unfold serveTagsList. destruct (negb _); [done|]. by destruct (ms_Tags _ _). }
  destruct (bool_decide _); [|by rewrite library_law].
  unfold serveCatalog. destruct (negb _); [done|]. by destruct (ms_Repos _).
Qed.

(** The token of a job is good for the images of its repository.  A request
    to the registry is refused and changes nothing, or it brought a token the
    validator takes for a job.  Then the blob it is about is of the repository
    of the job, the manifest too, and the manifests of every other repository
    stay as they are; only PUT and DELETE change any.  The exceptions are the
    names in which the authentication sees another image than the handlers do:
    a repository of the job with "/manifests" in its name, or an image with
    "/blobs" in its name or beginning with "_catalog?". *)
Lemma registry_isolation validate r st st' resp :
  (∀ repo ref, parseManifestPath (rq_Path r) = Some (repo, ref) → ms_name repo) →
  New_ true inner validate r st = (st', resp) →
  st' = st ∧ (rs_Status resp = 401 ∨ rs_Status resp = 403) ∨
  ∃ identity, validate (registry_token (rq_Authorization r)) = Ok identity ∧
    let of_job repo := repo = ji_Repo identity ∨ ambiguous (ji_Repo identity) repo in
    (∀ repo dgst, parseBlobPath (rq_Path r) = Some (repo, dgst) → of_job repo) ∧
    (∀ repo ref, parseManifestPath (rq_Path r) = Some (repo, ref) → of_job repo) ∧
    (∀ repo ref, ms_name repo → ms_entry st' repo ref ≠ ms_entry st repo ref →
       (rq_Method r = "PUT" ∨ rq_Method r = "DELETE") ∧ of_job repo).
Proof.
  intros Hn. unfold New_. destruct (authMiddleware _ _ _) as [[status msg]|identity] eqn:Ea.
  { intros [= <- <-]. left. split; [done|]. unfold authMiddleware in Ea. cbn.
    repeat case_match; simplify_eq; auto. }
  intros E. right. exists identity. apply auth_ok in Ea as [Hv Hi]. split; [done|]. cbv zeta.
  assert (∀ repo ref, parseManifestPath (rq_Path r) = Some (repo, ref) →
    repo = ji_Repo identity ∨ ambiguous (ji_Repo identity) repo) as Hm.
  { intros repo ref Hp'. pose proof (parse_around_ok _ _ _ _ Hp') as (_ & _ & Hne & _).
    apply image_of_manifest in Hp'. destruct Hi as [Hi|Hi]; rewrite Hi in Hp'.
    - destruct Hp' as [<-|[Hc|?]]; [done|by vm_compute in Hc|right; by right].
    - destruct Hp' as [<-|?]; auto. }
  split_and!; [|done|].
  - intros repo dgst Hp'. pose proof (parse_around_ok _ _ _ _ Hp') as (_ & _ & Hne & _).
    apply image_of_blob in Hp' as [Ei|?]; [|right; by right; right].
    destruct Hi as [Hi|Hi]; rewrite Hi in Ei; [by subst|by left].
  - intros repo ref Hr Hne. destruct (blobHead_entry (manifestStoreMiddleware inner) r st) as [Eb|Eb].
    + rewrite Eb in E. replace st' with (manifestStoreMiddleware inner r st).1 in Hne by (by rewrite E).
      apply middleware_entry in Hne as [Hw [ref' Hp']]; [|done..]. split; [done|]. by eapply Hm.
    + rewrite E in Eb. by destruct (Hne (Eb repo ref)).
Qed.

(** C40: what is pushed is pulled.  When a request to store a manifest is
    answered with 201, then a GET of the same image, under the same reference, or
    under the digest of the content when the reference is a tag, is answered with
    the same bytes and the media type they were pushed with, and names their
    digest: for every sender the registry takes for a job of the image, as long
    as the store answers. *)
Theorem push_pull validate r st st' resp repo ref body g ref' identity :
  ms_up → parseManifestPath (rq_Path r) = Some (repo, ref) → rq_Method r = "PUT" → rq_Body r = Ok body →
  New_ true inner validate r st = (st', resp) → rs_Status resp = 201 →
  rq_Method g = "GET" → parseManifestPath (rq_Path g) = Some (repo, ref') → parseBlobPath (rq_Path g) = None →
  ref' = ref ∨ isDigestRef ref = false ∧ ref' = digest_FromBytes body →
  authMiddleware validate (rq_Authorization g) (rq_Path g) = inr identity →
  New_ true inner validate g st' =
    (st', mkResponse 200 [("Content-Type", rq_ContentType r); ("Docker-Content-Digest", digest_FromBytes body);
                          ("Content-Length", FormatInt (Z.of_nat (String.length body)))] body).
Proof.
  intros Hup Hpr Hput Hbody E Hs Hget Hpg Hbg Href Hauth.
  assert (ms_entry st' repo ref' = Some (body, rq_ContentType r)) as He.
  { unfold New_ in E. destruct (authMiddleware validate (rq_Authorization r) _) as [[status msg]|i] eqn:Ea.
    { injection E as <- <-. unfold authMiddleware in Ea. cbn in Hs. subst status. repeat case_match; simplify_eq. }
    unfold blobHeadMiddleware in E. rewrite Hput in E. cbn in E.
    unfold manifestStoreMiddleware in E. rewrite Hpr in E. unfold serveManifest in E. rewrite Hput, Hbody in E. cbn in E.
    destruct (ms_Put _ _ _ _ _) as [st1 [[]|e]] eqn:Eput; [|injection E as <- <-; discriminate Hs].
    injection E as <- _. apply ms_Put_entry in Eput as [H1 H2]. destruct Href as [->|[Ht ->]]; auto. }
  unfold New_. rewrite Hauth. unfold blobHeadMiddleware. rewrite Hget, Hbg. cbn.
  unfold manifestStoreMiddleware. rewrite Hpg. unfold serveManifest. rewrite Hget. cbn.
  by rewrite (ms_Get_up _ _ _ Hup), He.
Qed.
End Registry.

(** ** Samples *)

#[export] Instance sample_gcs : Gcs :=
  {| gcs_attrs_err _ := None; gcs_open_err _ := None; gcs_read_err _ := None; gcs_write_err _ := None;
     gcs_close_err _ := None; gcs_delete_err _ := None; gcs_list_err := None |}.
#[export] Instance sample_digest : Digest := λ s, "sha256:" +:+ sha256_hex s.
#[export] Instance sample_hashes : HashParser := λ s, Cut s ":".
#[export] Instance sample_marshal : JsonMarshal := λ _, "{}".
Definition no_library : handler Bucket := λ r st, reply 404 [] "" st.
(** A token is the name of the repository of its job. *)
Definition named_job (tok : string) : result JobIdentity := Ok (mkJobIdentity "1" tok "main" "" []).
Definition push (tok path : string) : request :=
  mkRequest "PUT" path ("Bearer " +:+ tok) "application/vnd.oci" (Ok "manifest").
Definition pull (tok path : string) : request := mkRequest "GET" path ("Bearer " +:+ tok) "" (Ok "").
Definition registry : handler Bucket := New_ true no_library named_job.
Definition empty_bucket : Bucket := mkBucket ∅ ∅.

Lemma bucket_stat repo h (b : Bucket) repo' ref : ms_entry (bh_Stat repo h b).1 repo' ref = ms_entry b repo' ref.
Proof. cbn. unfold gcs_Stat. destruct (bk_cache b !! _); [done|]. by destruct (obj_Attrs _ b). Qed.
Lemma bucket_names path repo ref : parseManifestPath path = Some (repo, ref) → ms_name (St := Bucket) repo.
Proof. intros H. apply parse_around_ok in H as (_ & Hs & _). exact Hs. Qed.

Example isolated :
  (registry (push "acme/a" "/v2/acme/b/manifests/latest") empty_bucket).1 = empty_bucket ∧
  bucket_entry (registry (push "acme/a" "/v2/acme/a/manifests/latest") empty_bucket).1 "acme/b" "latest" = None.
Proof.
  split.
  - destruct (registry (push "acme/a" "/v2/acme/b/manifests/latest") empty_bucket) as [st resp] eqn:E.
    destruct (registry_isolation bucket_stat no_library (λ _ _ _ _, eq_refl) named_job _ _ _ _ (bucket_names _) E)
      as [[H _]|(identity & [= <-] & _ & H & _)]; [exact H|].
    destruct (H "acme/b" "latest" eq_refl) as [H'|[H'|[H'|H']]]; discriminate H'.
  - destruct (registry (push "acme/a" "/v2/acme/a/manifests/latest") empty_bucket) as [st resp] eqn:E.
    destruct (registry_isolation bucket_stat no_library (λ _ _ _ _, eq_refl) named_job _ _ _ _ (bucket_names _) E)
      as [[H _]|(identity & [= <-] & _ & _ & H)]; [cbn [fst]; rewrite H; reflexivity|].
    destruct (decide (bucket_entry st "acme/b" "latest" = bucket_entry empty_bucket "acme/b" "latest")) as [Hd|Hd]; [exact Hd|].
    destruct (H "acme/b" "latest" (bucket_names "/v2/acme/b/manifests/latest" _ "latest" eq_refl) Hd)
      as [_ [H'|[H'|[H'|H']]]]; discriminate H'.
Qed.

Lemma sample_up : bucket_up.
Proof. by intros key. Qed.
Lemma push_pull_witness :
  rs_Body (registry (pull "acme/a" "/v2/acme/a/manifests/latest")
             (registry (push "acme/a" "/v2/acme/a/manifests/latest") empty_bucket).1).2 = "manifest".
Proof.
  destruct (registry (push "acme/a" "/v2/acme/a/manifests/latest") empty_bucket) as [st resp] eqn:E. cbn [fst].
  assert (rs_Status resp = 201) as Hs by (apply (f_equal (λ x, rs_Status x.2)) in E; cbn [snd] in E; rewrite <- E; vm_compute; reflexivity).
  unfold registry. rewrite (push_pull (Ml := gcs_laws) no_library named_job (push "acme/a" "/v2/acme/a/manifests/latest")
    empty_bucket st resp "acme/a" "latest" "manifest"
    (pull "acme/a" "/v2/acme/a/manifests/latest") "latest" (mkJobIdentity "1" "acme/a" "main" "" [])
    sample_up eq_refl eq_refl eq_refl E Hs eq_refl eq_refl eq_refl (or_introl eq_refl) eq_refl).
  reflexivity.
Defined.

(** The exceptions are real: a job of "acme/a/manifests/x" stores a manifest of
    "acme/a", and any job one of an organisation "_catalog?". *)
Example other_images :
  bucket_entry (registry (push "acme/a/manifests/x" "/v2/acme/a/manifests/x/blobs/y") empty_bucket).1 "acme/a" "x/blobs/y"
    = Some ("manifest", "application/vnd.oci") ∧
  bucket_entry (registry (push "acme/a" "/v2/_catalog?/b/manifests/latest") empty_bucket).1 "_catalog?/b" "latest"
    = Some ("manifest", "application/vnd.oci").
Proof. by vm_compute. Qed.

(** The size of a blob another process deleted is still there. *)
Example stale_size :
  let b := mkBucket ∅ {[gcsKey "acme/a" ("sha256", "00") := 5]} in
  rs_Status (registry (mkRequest "HEAD" "/v2/acme/a/blobs/sha256:00" "Bearer acme/a" "" (Ok "")) b).2 = 200 ∧
  rs_Status (registry (pull "acme/a" "/v2/acme/a/blobs/sha256:00") b).2 = 500.
Proof. by vm_compute. Qed.
