(* ===== verification/Oidc.v ===== *)
(** * Tokens of CI jobs (cmd/ci-oidc/main.go, internal/citoken/citoken.go)

    A worker trades the request token of its claimed job for a JWT that says
    which job it works for and what that job may do.  [KMSSigner] is the signer
    of production: it builds the token itself, and a key management service
    signs the digest.  Its key, the service and the parser of the token just
    issued are parameters. *)

From Stdlib Require Import Ascii.
From S2P Require Import Prelude GoStd Wire Schema Tx Orgs CIJobs Server Policy Http Handlers Handlers3 Secrets.
From S2P Require Import Auth.

(** [type JobClaims struct] *)
Record JobClaims := mkJobClaims {
  jc_Issuer : string; jc_Subject : string; jc_Audience : string; jc_Repo : string; jc_Org : string;
  jc_Branch : string; jc_CheckName : string; jc_RefType : string; jc_TriggeredBy : string;
  jc_JobID : string; jc_Sequence : Z; jc_Permissions : list string;
}.

(** [type Signer interface] *)
Record Signer := mkSigner {
  sg_Sign : json → result string;
  sg_PublicKeys : result string;
}.

Section Citoken.
Context {Us : UuidSource}.

Definition hour : Z := 3600 * 1000000000.

(** The claims of a token, with the keys in the order [json.Marshal] writes them. *)
Definition jwt_claims (claims : JobClaims) (jti : string) (t : Z) : json :=
  let perms := match jc_Permissions claims with [] => ["checks"] | l => l end in
  JObject
    [("aud", JString (jc_Audience claims)); ("branch", JString (jc_Branch claims));
     ("check_name", JString (jc_CheckName claims)); ("exp", JNumber (unix (t + hour)));
     ("iat", JNumber (unix t)); ("iss", JString (jc_Issuer claims)); ("job_id", JString (jc_JobID claims));
     ("jti", JString jti); ("org", JString (jc_Org claims));
     ("permissions", JArray (JString <$> perms)); ("ref_type", JString (jc_RefType claims));
     ("repo", JString (jc_Repo claims)); ("sequence", JNumber (jc_Sequence claims));
     ("sub", JString (jc_Subject claims)); ("triggered_by", JString (jc_TriggeredBy claims))].

(** [IssueJWT] *)
Definition IssueJWT (signer : Signer) (claims : JobClaims) : M string :=
  t ← time_Now;
  jti ← uuid_New;
  match sg_Sign signer (jwt_claims claims jti t) with
  | Ok tok => mret tok
  | Fail e => fail e
  end.
End Citoken.

(** ** KMSSigner *)

Section KMS.
Context {Jm : JsonMarshal}.

(** [type KMSSigner struct]: what [once] has fetched, the key and its name. *)
Record KMSSigner := mkKMSSigner { ks_fetched : option (result (string * PublicKey)) }.
Definition NewKMSSigner : KMSSigner := mkKMSSigner None.

(** [s.once.Do(fetchPublicKey)]: the first answer, an error too, is kept. *)
Definition once (fetch : result (string * PublicKey)) (s : KMSSigner) : KMSSigner * result (string * PublicKey) :=
  match ks_fetched s with
  | Some r => (s, r)
  | None => (mkKMSSigner (Some fetch), fetch)
  end.

Definition marshal_segment (v : json) : string := RawURLEncoding_EncodeToString (bytes_of_string (json_Marshal v)).

(** [KMSSigner.Sign] with the key [kid]; [asymmetric_sign] is the service. *)
Definition kms_token (kid : string) (asymmetric_sign : list Z → result (list Z)) (claims : json) : result string :=
  let headerB64 := marshal_segment (JObject [("alg", JString "RS256"); ("kid", JString kid); ("typ", JString "JWT")]) in
  let payloadB64 := marshal_segment claims in
  match asymmetric_sign (signing_digest headerB64 payloadB64) with
  | Fail e => Fail (Errorf "kms sign: asymmetric sign" e)
  | Ok signature => Ok (headerB64 +:+ "." +:+ payloadB64 +:+ "." +:+ RawURLEncoding_EncodeToString signature)
  end.
Definition KMS_Sign (fetch : result (string * PublicKey)) (asymmetric_sign : list Z → result (list Z))
    (claims : json) (s : KMSSigner) : KMSSigner * result string :=
  let '(s, r) := once fetch s in
  (s, match r with Fail e => Fail e | Ok (kid, _) => kms_token kid asymmetric_sign claims end).
End KMS.

(** ** The service *)

(** [jwt.ParseInsecure] and [JwtID], of the JWT library. *)
Class JwtParser := jwt_ParseInsecure : string → result (option string).

(** [type server struct], without the store *)
Record server := mkServer { so_signer : Signer; so_issuerURL : string }.

(** [type tokenRequest struct] *)
Record tokenRequest := mkTokenRequest { tr_Audience : string; tr_CheckName : string }.

(** [triggerToRefType] *)
Definition triggerToRefType (triggerType : string) : string :=
  if bool_decide (triggerType = "push") then "post-submit" else
  if bool_decide (triggerType = "proposal") || bool_decide (triggerType = "proposal_synchronized") then "pre-submit" else
  if bool_decide (triggerType = "schedule") then "schedule" else
  if bool_decide (triggerType = "manual") then "manual" else "unknown".

Section Service.
Context {Us : UuidSource} {Op : OPA} {Ju : JsonUnmarshal} {Jp : JwtParser}.
Variable s : server.

(** [handleDiscovery]: the fields of the document; [handleJWKS]. *)
Definition handleDiscovery : Z * json :=
  (200, JObject [("id_token_signing_alg_values_supported", JArray [JString "RS256"]);
                 ("issuer", JString (so_issuerURL s));
                 ("jwks_uri", JString (so_issuerURL s +:+ "/.well-known/jwks.json"));
                 ("response_types_supported", JArray [JString "id_token"]);
                 ("subject_types_supported", JArray [JString "public"])]).
Definition handleJWKS : APIError + Z * string :=
  match sg_PublicKeys (so_signer s) with
  | Fail _ => inl (http_Error "internal error" 500)
  | Ok data => inr (200, data)
  end.

Definition job_claims (job : CIJob) (req : tokenRequest) : JobClaims :=
  let org := match Cut (Job_Repo job) "/" with Some (org, _) => org | None => Job_Repo job end in
  mkJobClaims (so_issuerURL s)
    ("repo:" +:+ Job_Repo job +:+ ":branch:" +:+ Job_Branch job +:+ ":check:" +:+ tr_CheckName req)
    (tr_Audience req) (Job_Repo job) org (Job_Branch job) (tr_CheckName req)
    (triggerToRefType (Job_TriggerType job)) "" (Job_ID job) (Job_Sequence job) (Job_Permissions job).

Definition token_request (body : string) : option tokenRequest :=
  v ← json_Unmarshal body;
  if negb (is_struct v) then None else
  audience ← string_field "audience" v; checkName ← string_field "check_name" v;
  Some (mkTokenRequest audience checkName).

(** [handleToken]; [body] is what was read, 64 KiB at most, or the error. *)
Definition handleToken (authorization : string) (body : result string) : H (Z * string) :=
  let unauthorized := http_Error "unauthorized" 401 in
  let internal := http_Error "internal error" 500 in
  match bearer authorization with
  | None => fault unauthorized
  | Some plaintext =>
      job ← call (λ err, if bool_decide (err = ErrTokenInvalid) then unauthorized else internal)
              (LookupRequestToken (HashRequestToken plaintext));
      match body with
      | Fail _ => fault (http_Error "failed to read body" 400)
      | Ok body =>
          match token_request (string_take (Z.to_nat 65536) body) with
          | None => fault (http_Error "invalid request body" 400)
          | Some req =>
              guard (bool_decide (tr_Audience req = "")) (http_Error "audience is required" 400);;
              tokenStr ← call (λ _, internal) (IssueJWT (so_signer s) (job_claims job req));
              match jwt_ParseInsecure tokenStr with
              | Fail _ | Ok None | Ok (Some EmptyString) => fault internal
              | Ok (Some jti) =>
                  t ← call (λ _, internal) time_Now;
                  attempt (lift (RecordOIDCToken jti (Job_ID job) (tr_Audience req) (t + hour)));;
                  mret (200, tokenStr)
              end
          end
      end
  end.
End Service.
