(* ===== verification/Worker.v ===== *)
(** * The CI worker (cmd/ci-worker)

    A worker claims one job, asks docstore for its configuration, its secrets
    and the archive of its sources, has the checks executed, and reports.

    What it does outside is an [act]: a request with what is done with the
    answer, a temporary directory, or a file written.  [runs] relates an [act] to
    the sequences of such events it can make and to its result, whatever is
    answered.  The answers come with the first JSON value of their body.  The
    requests that are sent side by side go out in some order ([schedule]); the
    heartbeats are sent by a ticker of their own ([heartbeatHTTP]). *)

From Stdlib Require Import Ascii.
From S2P Require Import Prelude GoStd Wire Schema CIJobs Merge Policy Handlers2 CIConfig Secrets Executor.

(** ** Actions *)

Inductive payload := NoBody | JsonBody (v : json) | TextBody (s : string) | CheckRunBody (r : CreateCheckRunRequest).
Record HttpRequest := mkHttpRequest {
  hq_Method : string; hq_URL : string; hq_Authorization : string; hq_Body : payload;
}.
(** [hp_Text]: the first KiB of the body. *)
Record HttpResponse := mkHttpResponse { hp_Status : Z; hp_Json : option json; hp_Text : string }.

Inductive act (A : Type) :=
| Ret (a : A)
| Http (r : HttpRequest) (k : result HttpResponse → act A)
| MkdirTemp (pattern : string) (k : result string → act A)
| WriteFile (path data : string) (k : result unit → act A).
Arguments Ret {A} a. Arguments Http {A} r k. Arguments MkdirTemp {A} pattern k. Arguments WriteFile {A} path data k.

Fixpoint act_bind {A B} (f : A → act B) (m : act A) : act B :=
  match m with
  | Ret a => f a
  | Http r k => Http r (λ x, act_bind f (k x))
  | MkdirTemp p k => MkdirTemp p (λ x, act_bind f (k x))
  | WriteFile p d k => WriteFile p d (λ x, act_bind f (k x))
  end.
#[export] Instance act_ret : MRet act := @Ret.
#[export] Instance act_mbind : MBind act := @act_bind.

Inductive event :=
| Sent (r : HttpRequest) (answer : result HttpResponse)
| MadeDir (pattern : string) (dir : result string)
| Wrote (path data : string) (done : result unit).

Inductive runs {A} : act A → list event → A → Prop :=
| runs_ret a : runs (Ret a) [] a
| runs_http r k x t a : runs (k x) t a → runs (Http r k) (Sent r x :: t) a
| runs_mkdir p k x t a : runs (k x) t a → runs (MkdirTemp p k) (MadeDir p x :: t) a
| runs_write p d k x t a : runs (k x) t a → runs (WriteFile p d k) (Wrote p d x :: t) a.

(** Results inside actions: an error ends the rest. *)
Definition abind {A B} (m : act (result A)) (f : A → act (result B)) : act (result B) :=
  r ← m; match r with Ok a => f a | Fail e => mret (Fail e) end.

(** ** Addresses *)

(** [http.NewRequestWithContext] on a URL, when it fails; the host [url.Parse]
    finds; [yaml.Unmarshal] into the configuration of the executor; the fields of
    a claimed job; and the order in which what runs side by side goes out. *)
Class NewRequest := new_request : string → option error.
Class UrlHost := url_host : string → option string.
Class YamlChecks := yaml_checks : string → result Config.
Class JobDecoder := decode_job : json → option CIJob.
Class Schedule := {
  schedule {A : Type} : list A → list A;
  schedule_perm {A : Type} (l : list A) : schedule l ≡ₚ l;
}.

Section Worker.
Context {Mr : MapRange} {Nr : NewRequest} {Uh : UrlHost} {Yc : YamlChecks} {Jd : JobDecoder} {Sc : Schedule}.

(** A request that is built, sent, and answered with one of the statuses. *)
Definition send (build_error do_error : string) (r : HttpRequest) : act (result HttpResponse) :=
  match new_request (hq_URL r) with
  | Some e => mret (Fail (Errorf build_error e))
  | None => Http r (λ x, Ret (match x with Ok resp => Ok resp | Fail e => Fail (Errorf do_error e) end))
  end.
Definition bearer_of (token : string) : string := "Bearer " +:+ token.
Definition unexpected_status {A} (what : string) (resp : HttpResponse) : act (result A) :=
  mret (Fail (New (what +:+ ": unexpected status " +:+ FormatInt (hp_Status resp)))).
(** [json.NewDecoder(resp.Body).Decode] into a struct. *)
Definition decode_json {A} (what : string) (dec : json → option A) (resp : HttpResponse) : act (result A) :=
  match hp_Json resp with
  | Some v =>
      match (if is_struct v then dec v else None) with
      | Some a => mret (Ok a)
      | None => mret (Fail (Errorf what (New "invalid JSON")))
      end
  | None => mret (Fail (Errorf what (New "invalid JSON")))
  end.

(** ** The scheduler *)

(** [type claimResponse struct] *)
Record claimResponse := mkClaimResponse {
  cl_Job : CIJob; cl_RequestToken : string; cl_OIDCTokenURL : string; cl_CacheRegistry : string;
}.
Definition dec_claim (v : json) : option claimResponse :=
  job ← decode_job (default JNull (any_field "job" v));
  token ← string_field "request_token" v; oidc ← string_field "oidc_token_url" v;
  cache ← string_field "cache_registry" v; Some (mkClaimResponse job token oidc cache).

(** [claimJob]; [saToken] is the token of the service account of the pod. *)
Definition claimJob (schedulerURL saToken : string) : act (result (option claimResponse)) :=
  abind (send "build claim request" "claim request"
           (mkHttpRequest "POST" (TrimRight "/" schedulerURL +:+ "/claim")
              (if bool_decide (saToken ≠ "") then bearer_of saToken else "") NoBody)) (λ resp,
  if hp_Status resp =? 204 then mret (Ok None) else
  if negb (hp_Status resp =? 200) then unexpected_status "claim" resp else
  abind (decode_json "decode claim response" dec_claim resp) (λ cr, mret (Ok (Some cr)))).

Definition heartbeatHTTP (schedulerURL jobID requestToken : string) : act (result unit) :=
  abind (send "build heartbeat request" "heartbeat request"
           (mkHttpRequest "POST" (TrimRight "/" schedulerURL +:+ "/jobs/" +:+ jobID +:+ "/heartbeat")
              (bearer_of requestToken) NoBody)) (λ resp,
  if negb (hp_Status resp =? 204) then unexpected_status "heartbeat" resp else mret (Ok tt)).

Definition optional_field (name : string) (v : option string) : list (string * json) :=
  match v with Some s => [(name, JString s)] | None => [] end.
Definition completeJob (schedulerURL jobID requestToken status : string) (logURL errMsg : option string)
    : act (result unit) :=
  abind (send "build complete request" "complete request"
           (mkHttpRequest "POST" (TrimRight "/" schedulerURL +:+ "/jobs/" +:+ jobID +:+ "/complete")
              (bearer_of requestToken)
              (JsonBody (JObject (("status", JString status) :: optional_field "log_url" logURL ++
                                  optional_field "error_message" errMsg))))) (λ resp,
  if negb (hp_Status resp =? 204) then unexpected_status "complete" resp else mret (Ok tt)).

(** ** Docstore *)

Definition getPresignedArchiveURL (docstoreURL repo requestToken : string) : act (result (string * string)) :=
  abind (send "build presign request" "presign request"
           (mkHttpRequest "POST" (docstoreURL +:+ "/repos/" +:+ repo +:+ "/-/archive/presign")
              (bearer_of requestToken) NoBody)) (λ resp,
  if negb (hp_Status resp =? 200) then unexpected_status "presign" resp else
  abind (decode_json "decode presign response"
           (λ v, url ← string_field "url" v; sum ← string_field "checksum" v; Some (url, sum)) resp) (λ body,
  if bool_decide (body.1 = "") then mret (Fail (New "presign: empty URL in response")) else mret (Ok body))).

Definition postCheckLogs (docstoreURL repo checkName requestToken logs : string) : act (result string) :=
  abind (send "build log upload request" "log upload request"
           (mkHttpRequest "POST" (docstoreURL +:+ "/repos/" +:+ repo +:+ "/-/check/" +:+ PathEscape checkName +:+ "/logs")
              (bearer_of requestToken) (TextBody logs))) (λ resp,
  if negb (hp_Status resp =? 200) then unexpected_status "log upload" resp else
  abind (decode_json "decode log upload response" (string_field "url") resp) (λ url,
  if bool_decide (url = "") then mret (Fail (New "log upload: empty URL in response")) else mret (Ok url))).

(** [getDocstoreOIDCToken] and [getCIRegistryToken]: one request with two
    audiences. *)
Definition get_oidc_token (audience oidcTokenURL requestToken : string) : act (result string) :=
  if bool_decide (oidcTokenURL = "") then mret (Ok "") else
  abind (send "build token request" "token request"
           (mkHttpRequest "POST" oidcTokenURL (bearer_of requestToken)
              (JsonBody (JObject [("audience", JString audience)])))) (λ resp,
  if negb (hp_Status resp =? 200) then unexpected_status "token request" resp else
  abind (decode_json "decode token response" (string_field "token") resp) (λ token,
  if bool_decide (token = "") then mret (Fail (New "token response missing token field")) else mret (Ok token))).
Definition getDocstoreOIDCToken : string → string → act (result string) := get_oidc_token "docstore".
Definition getCIRegistryToken : string → string → act (result string) := get_oidc_token "ci-registry".

(** [fetchConfig]: none when there is no file.  The content of a file is written
    in Base64. *)
Definition authorization_of (requestToken : string) : string :=
  if bool_decide (requestToken ≠ "") then bearer_of requestToken else "".
Definition dec_content (v : json) : option string :=
  content ← decode_field (Some "") (λ x, s ← dec_string x; Some (string_of_bytes <$> StdEncoding_DecodeString s)) "content" v;
  content.
Definition fetchConfig (docstoreURL repo requestToken : string) : act (result (option Config)) :=
  abind (send "create config request" "fetch config"
           (mkHttpRequest "GET" (docstoreURL +:+ "/repos/" +:+ repo +:+ "/-/ci/config")
              (authorization_of requestToken) NoBody)) (λ resp,
  if hp_Status resp =? 404 then mret (Ok None) else
  if negb (hp_Status resp =? 200) then unexpected_status "fetch config" resp else
  abind (decode_json "decode file response" dec_content resp) (λ content,
  match yaml_checks content with
  | Fail e => mret (Fail (Errorf "parse ci.yaml" e))
  | Ok cfg => mret (Ok (Some cfg))
  end)).

Definition postCheckRun (docstoreURL repo requestToken : string) (req : CreateCheckRunRequest) : act (result unit) :=
  abind (send "create check run request" "post check run"
           (mkHttpRequest "POST" (docstoreURL +:+ "/repos/" +:+ repo +:+ "/-/check")
              (authorization_of requestToken) (CheckRunBody req))) (λ resp,
  if negb (hp_Status resp =? 201) then unexpected_status "post check run" resp else mret (Ok tt)).

(** ** Secrets (secrets.go) *)

(** [readBodySnippet]; [classifyRevealError] *)
Definition readBodySnippet (resp : HttpResponse) : string := TrimSpace (hp_Text resp).
Definition with_snippet (what body : string) : error :=
  New (if bool_decide (body ≠ "") then what +:+ ": " +:+ body else what).
Definition classifyRevealError (resp : HttpResponse) : error :=
  let status := hp_Status resp in
  let body := readBodySnippet resp in
  if status =? 401 then New "reveal: unauthorized" else
  if status =? 403 then
    (if bool_decide (body ≠ "") then New ("reveal: forbidden: " +:+ body)
     else New "reveal: forbidden (secrets_blocked)") else
  if status =? 404 then New "reveal: repo or job mismatch" else
  if 500 <=? status then with_snippet ("reveal: server error " +:+ FormatInt status) body
  else with_snippet ("reveal: bad request " +:+ FormatInt status) body.

(** Every secret a check of the configuration asks for, in order. *)
Definition requests (cfg : Config) : list SecretRequest := check ← cf_Checks cfg; ck_Secrets check.

(** The names to reveal: each once, in order. *)
Definition reveal_names (cfg : Config) : list string :=
  @order_by C_collation _ id
    (elements (list_to_set (filter (λ n, n ≠ "") (sr_RepoName <$> requests cfg)) : gset string)).

(** Two local names for different secrets. *)
Fixpoint local_conflict (l : list SecretRequest) (owner : gmap string string) : option error :=
  match l with
  | [] => None
  | sec :: l =>
      if bool_decide (sr_LocalName sec = "") then local_conflict l owner else
      match owner !! sr_LocalName sec with
      | Some existing =>
          if bool_decide (existing ≠ sr_RepoName sec)
          then Some (New ("local secret name " +:+ sr_LocalName sec +:+ " maps to both repo names " +:+ existing
                          +:+ " and " +:+ sr_RepoName sec +:+ " across checks"))
          else local_conflict l (<[sr_LocalName sec := sr_RepoName sec]> owner)
      | None => local_conflict l (<[sr_LocalName sec := sr_RepoName sec]> owner)
      end
  end.

(** [type revealResponse struct] *)
Record revealResponse := mkRevealResponse { rr_Values : gmap string string; rr_Missing : list string }.
(** A value of type [map[string]string]: null is the empty string, and the last
    of several of one name stays. *)
Definition dec_string_map (v : json) : option (gmap string string) :=
  match v with
  | JObject fields =>
      foldl (λ m kv, m ← m; s ← match kv.2 with JNull => Some "" | x => dec_string x end; Some (<[kv.1 := s]> m))
        (Some ∅) fields
  | _ => None
  end.
Definition dec_reveal (v : json) : option revealResponse :=
  values ← decode_field ∅ dec_string_map "values" v; missing ← strings_field "missing" v;
  Some (mkRevealResponse values missing).

Fixpoint decode_values64 (l : list (string * string)) (out : gmap string string) : result (gmap string string) :=
  match l with
  | [] => Ok out
  | (name, encoded) :: l =>
      match StdEncoding_DecodeString encoded with
      | None => Fail (New ("decode reveal value for " +:+ name +:+ ": invalid base64"))
      | Some b => decode_values64 l (<[name := string_of_bytes b]> out)
      end
  end.

(** The values under their local names. *)
Definition resolve (cfg : Config) (repoPlaintext : gmap string string) : gmap string string :=
  foldl (λ m sec, match repoPlaintext !! sr_RepoName sec with
                  | Some pt => <[sr_LocalName sec := pt]> m
                  | None => m
                  end) ∅ (requests cfg).

(** [fetchSecrets]; no map when nothing is asked for. *)
Definition fetchSecrets (docstoreURL repo requestToken : string) (cfg : option Config)
    : act (result (option (gmap string string) * list string)) :=
  match cfg with
  | None => mret (Ok (None, []))
  | Some cfg =>
      let names := reveal_names cfg in
      if bool_decide (names = []) then mret (Ok (None, [])) else
      match local_conflict (requests cfg) ∅ with
      | Some e => mret (Fail e)
      | None =>
          abind (send "build reveal request" "reveal request"
                   (mkHttpRequest "POST" (TrimRight "/" docstoreURL +:+ "/repos/" +:+ repo +:+ "/-/secrets/reveal")
                      (bearer_of requestToken)
                      (JsonBody (JObject [("names", JArray (JString <$> names))])))) (λ resp,
          if negb (hp_Status resp =? 200) then mret (Fail (classifyRevealError resp)) else
          abind (decode_json "decode reveal response" dec_reveal resp) (λ rr,
          match decode_values64 (map_range 24 (rr_Values rr)) ∅ with
          | Fail e => mret (Fail e)
          | Ok repoPlaintext => mret (Ok (Some (resolve cfg repoPlaintext), rr_Missing rr))
          end))
      end
  end.

(** ** A job *)

Section Job.
(** [type runner interface]: the executor. *)
Variable runner : string → Config → TriggerContext → result (list CheckResult).
Variables (docstoreURL : string) (job : CIJob) (requestToken oidcTokenURL logDir : string)
  (triggerCtx : TriggerContext) (cacheRef dockerConfigDir : string).

Definition verdict : Type := check_outcome * option string * option string.
Definition failed (msg : string) : act verdict := mret (check_failed, None, Some msg).

Definition check_run (name : string) (status : check_status) (logURL : option string) : CreateCheckRunRequest :=
  mkCreateCheckRunRequest (Job_Branch job) name (Some status) logURL (Some (Job_Sequence job)) None None.
Definition post (name : string) (status : check_status) (logURL : option string) : act unit :=
  _ ← postCheckRun docstoreURL (Job_Repo job) requestToken (check_run name status logURL); mret tt.

(** What is wrong with the configuration is reported as a check of its own. *)
Definition reject (msg : string) : act verdict := post "ci/config" CheckFailed None;; failed msg.

(** The text [errors.Join] gives, a line each. *)
Definition joined (errs : list error) : string :=
  match errs with
  | [] => ""
  | e :: l => foldl (λ s e, s +:+ String (ascii_of_byte 10) (Events.error_text e)) (Events.error_text e) l
  end.

Definition auto_env : gmap string string :=
  BuildAutoEnv (mkAutoEnvMetadata (Job_ID job) (Job_Repo job) (Job_Branch job) (Job_Sequence job)
    (tx_Type triggerCtx) (tx_BaseBranch triggerCtx) (tx_ProposalID triggerCtx)).

(** The configuration the checks run with. *)
Definition job_config (cfg : Config) (secrets : gmap string string) (checksum : string) : Config :=
  mkConfig (cf_Checks cfg) (cf_Env cfg) auto_env cacheRef dockerConfigDir checksum requestToken oidcTokenURL secrets.

Definition final_status (o : check_outcome) : check_status :=
  match o with check_passed => CheckPassed | check_failed => CheckFailed end.

(** The end of one check: its log is kept and uploaded, its result posted. *)
Definition report (result : CheckResult) : act (option string) :=
  WriteFile (logDir +:+ "/" +:+ ReplaceAll (cr_Name result) "/" "_" +:+ ".log") (cr_Logs result) (λ _,
  u ← postCheckLogs docstoreURL (Job_Repo job) (cr_Name result) requestToken (cr_Logs result);
  let checkLogURL := match u with Ok u => Some u | Fail _ => None end in
  post (cr_Name result) (final_status (cr_Status result)) checkLogURL;;
  mret checkLogURL).
Fixpoint report_all (results : list CheckResult) (overall : check_outcome) (firstLogURL : option string) : act verdict :=
  match results with
  | [] => mret (overall, firstLogURL, None)
  | result :: results =>
      u ← report result;
      report_all results
        (match cr_Status result with check_failed => check_failed | check_passed => overall end)
        (match firstLogURL with Some _ => firstLogURL | None => u end)
  end.

Definition mark_pending (checks : list Check_) : act unit :=
  mapM (λ check, post (ck_Name check) CheckPending None) (schedule checks);; mret tt.

Definition execute (cfg : Config) (secrets : gmap string string) : act verdict :=
  presigned ← getPresignedArchiveURL docstoreURL (Job_Repo job) requestToken;
  match presigned with
  | Fail e => failed ("get presigned archive URL: " +:+ Events.error_text e)
  | Ok (archiveURL, archiveChecksum) =>
      mark_pending (cf_Checks cfg);;
      match runner archiveURL (job_config cfg secrets archiveChecksum) triggerCtx with
      | Fail e => failed ("executor: " +:+ Events.error_text e)
      | Ok results => report_all results check_passed None
      end
  end.

(** [runJob] *)
Definition runJob : act verdict :=
  cfg ← fetchConfig docstoreURL (Job_Repo job) requestToken;
  match cfg with
  | Fail e => reject (Events.error_text e)
  | Ok None => mret (check_passed, None, None)
  | Ok (Some cfg) =>
      match ValidateSecretsAllowlist (Some cfg) with
      | _ :: _ as errs => reject ("validate secrets allowlist: " +:+ joined errs)
      | [] =>
          match ValidateEnv (Some cfg) with
          | _ :: _ as errs => reject ("validate env: " +:+ joined errs)
          | [] =>
              secrets ← fetchSecrets docstoreURL (Job_Repo job) requestToken (Some cfg);
              match secrets with
              | Fail e => failed ("fetch secrets: " +:+ Events.error_text e)
              | Ok (resolved, _) => execute cfg (default ∅ resolved)
              end
          end
      end
  end.
End Job.

(** ** The claimed job of a pod *)

Definition outcome_text (o : check_outcome) : string :=
  match o with check_passed => "passed" | check_failed => "failed" end.

(** [registryHost] *)
Definition registryHost (registry : string) : string :=
  let first := match Cut registry "/" with Some (host, _) => host | None => registry end in
  match Cut registry "://" with
  | Some _ => default first (url_host registry)
  | None => first
  end.

(** [writeCacheDockerConfig]; the file holds the JSON of its credentials. *)
Context {Jm : JsonMarshal}.
Definition writeCacheDockerConfig (regHost token : string) : act (result string) :=
  abind (MkdirTemp "ci-docker-*" (λ dir, Ret (match dir with Ok d => Ok d | Fail e => Fail (Errorf "create docker config dir" e) end)))
    (λ dir,
  let creds := StdEncoding_EncodeToString (bytes_of_string ("ci-worker:" +:+ token)) in
  WriteFile (dir +:+ "/config.json")
    (json_Marshal (JObject [("auths", JObject [(regHost, JObject [("auth", JString creds)])])])) (λ r,
  Ret (match r with Ok _ => Ok dir | Fail e => Fail (Errorf "write docker config" e) end))).

(** The cache of a job: a reference and the directory of its credentials. *)
Definition cache_setup (cr : claimResponse) : act (string * string) :=
  if bool_decide (cl_CacheRegistry cr = "") then mret ("", "") else
  match Cut (Job_Repo (cl_Job cr)) "/" with
  | Some (org, repoName) =>
      if bool_decide (org = "") || bool_decide (repoName = "") then mret ("", "") else
      regToken ← getCIRegistryToken (cl_OIDCTokenURL cr) (cl_RequestToken cr);
      match regToken with
      | Fail _ | Ok EmptyString => mret ("", "")
      | Ok token =>
          dir ← writeCacheDockerConfig (registryHost (cl_CacheRegistry cr)) token;
          match dir with
          | Fail _ => mret ("", "")
          | Ok dir => mret (cl_CacheRegistry cr +:+ "/" +:+ org +:+ "/" +:+ repoName +:+ ":buildkit", dir)
          end
      end
  | None => mret ("", "")
  end.

Definition trigger_of (job : CIJob) : TriggerContext :=
  mkTriggerContext (Job_TriggerType job) (Job_TriggerBranch job) (Job_TriggerBaseBranch job)
    (default "" (Job_TriggerProposalID job)).

(** What [main] does with a claimed job; the pod ends after it. *)
Definition run_claimed (runner : string → Config → TriggerContext → result (list CheckResult))
    (schedulerURL docstoreURL : string) (cr : claimResponse) : act unit :=
  let job := cl_Job cr in
  let token := cl_RequestToken cr in
  MkdirTemp "ci-worker-logs-*" (λ dir,
  match dir with
  | Fail e =>
      _ ← completeJob schedulerURL (Job_ID job) token "failed" None (Some (Events.error_text e)); mret tt
  | Ok logDir =>
      cache ← cache_setup cr;
      v ← runJob runner docstoreURL job token (cl_OIDCTokenURL cr) logDir (trigger_of job) cache.1 cache.2;
      let '(status, logURL, errMsg) := v in
      _ ← completeJob schedulerURL (Job_ID job) token (outcome_text status) logURL errMsg; mret tt
  end).

(** An iteration of the loop of [main]: a job is claimed, or the worker waits. *)
Definition main_iteration (runner : string → Config → TriggerContext → result (list CheckResult))
    (schedulerURL docstoreURL saToken : string) : act bool :=
  cr ← claimJob schedulerURL saToken;
  match cr with
  | Ok (Some cr) => run_claimed runner schedulerURL docstoreURL cr;; mret true
  | _ => mret false
  end.
End Worker.
