(* ===== verification/Scheduler.v ===== *)
(** * The CI scheduler (cmd/ci-scheduler/main.go)

    A webhook turns the events of commits and proposals into jobs of the queue,
    a clock turns schedules into jobs, and workers claim jobs, keep them alive
    and complete them with a token.  Every job is queued with the permissions
    its worker gets: those of [.docstore/ci.yaml] on the branch that decides.

    YAML, cron expressions, the review of pod tokens by Kubernetes and the text
    of JSON are parameters; the read store of the scheduler has no blob store. *)

From S2P Require Import Prelude GoStd Wire Schema Tx Orgs Blob Commits Merge ReadStore Issues CIJobs EventTypes.
From S2P Require Import Events Server Policy Http Handlers Handlers3 Secrets CIConfig.

(** [yaml.Unmarshal] into a [CIConfig]; [cron.ParseStandard]: the next time a
    schedule fires after a time. *)
Class YamlConfig := yaml_Unmarshal : string → result CIConfig.
Class Cron := cron_ParseStandard : string → option (Z → Z).

(** [type scheduler struct] *)
Record scheduler := mkScheduler {
  sd_readStore : bool; sd_webhookSecret : string;
  sd_claimer : option (string → result (string * string));
  sd_oidcTokenURL : string; sd_cacheRegistryURL : string;
}.

Section Scheduler.
Context {Co : Collation} {Mr : MapRange} {Op : OPA} {Us : UuidSource} {Gl : Glob} {Ym : YamlConfig} {Ju : JsonUnmarshal} {Cr : Cron}.
Variable s : scheduler.

Definition computeHMACHex (body secret : string) : string := hex_EncodeToString (hmac_sha256 secret body).

(** ** Configurations *)

Definition fetchCIConfig (repo branch : string) (sequence : Z) : M (option CIConfig) :=
  if negb (sd_readStore s) then mret None else
  fc ← wrap "fetch ci config" (GetFile None repo branch ".docstore/ci.yaml" (Some sequence));
  match fc with
  | None => mret None
  | Some fc =>
      match yaml_Unmarshal (content_string fc) with
      | Fail err => fail (Errorf "parse ci.yaml" err)
      | Ok cfg => mret (Some cfg)
      end
  end.

Definition fetchOpenProposalForBranch (repo branch : string) : M (option Proposal) :=
  proposals ← wrap "list proposals" (ListProposals repo (Some ProposalOpen) (Some branch));
  mret (head proposals).

Definition fetchPermissions (repo branch : string) (sequence : Z) : M (list string) :=
  cfg ← catch (fetchCIConfig repo branch sequence);
  mret match cfg with Ok (Some cfg) => EffectivePermissions cfg | _ => ["checks"] end.

Definition fetchBranchHead (repo branch : string) : M Z :=
  if negb (sd_readStore s) then fail (New "read store not configured") else
  b ← wrap "fetch branch head" (GetBranch repo branch);
  match b with
  | None => fail (New ("branch " +:+ branch +:+ " not found in repo " +:+ repo))
  | Some b => mret (bi_HeadSequence b)
  end.

Definition fetchPermissionsForBaseBranch (repo baseBranch : string) : M (list string) :=
  headSeq ← catch (fetchBranchHead repo baseBranch);
  match headSeq with
  | Fail _ => mret ["checks"]
  | Ok headSeq => fetchPermissions repo baseBranch headSeq
  end.

(** ** The webhook *)

Definition internal_error : error → APIError := λ _, http_Error "internal error" 500.

(** A configuration, none when it cannot be fetched. *)
Definition config_or_none (repo branch : string) (sequence : Z) : H (option CIConfig) :=
  cfg ← attempt (lift (fetchCIConfig repo branch sequence));
  mret match cfg with Ok cfg => cfg | Fail _ => None end.

(** A job with the permissions fetched for it. *)
Definition enqueue (repo branch : string) (sequence : Z) (triggerType baseBranch proposalID : string)
    (fetch : M (list string)) : H unit :=
  perms ← call internal_error fetch;
  _ ← call internal_error (InsertCIJob repo branch sequence triggerType branch baseBranch proposalID perms);
  mret tt.

(** The job for the open proposal of a branch a commit was made on. *)
Definition enqueue_synchronized (cfg : option CIConfig) (repo branch : string) (sequence : Z) : H unit :=
  proposal ← attempt (lift (fetchOpenProposalForBranch repo branch));
  match proposal with
  | Ok (Some proposal) =>
      let matches := match cfg with Some cfg => MatchesProposal cfg (Prop_BaseBranch proposal) | None => true end in
      if matches then
        enqueue repo branch sequence "proposal_synchronized" (Prop_BaseBranch proposal) (Prop_ID proposal)
          (fetchPermissionsForBaseBranch repo (Prop_BaseBranch proposal))
      else mret tt
  | _ => mret tt
  end.

Definition handleCommitCreated (raw : option json) : H (Z * unit) :=
  let invalid := http_Error "invalid event data" 400 in
  match raw with
  | None => fault invalid
  | Some v =>
      guard (negb (is_struct v)) invalid;;
      match string_field "repo" v, string_field "branch" v, int64_field "sequence" v with
      | Some repo, Some branch, Some sequence =>
          guard (bool_decide (repo = "") || bool_decide (branch = ""))
            (http_Error "missing repo or branch in event data" 400);;
          cfg ← config_or_none repo branch sequence;
          (if match cfg with None => true | Some cfg => MatchesPush cfg branch end
           then enqueue repo branch sequence "push" "" "" (fetchPermissions repo branch sequence)
           else mret tt);;
          enqueue_synchronized cfg repo branch sequence;;
          mret (200, tt)
      | _, _, _ => fault invalid
      end
  end.

Definition handleProposalOpened (raw : option json) : H (Z * unit) :=
  let invalid := http_Error "invalid event data" 400 in
  match raw with
  | None => fault invalid
  | Some v =>
      guard (negb (is_struct v)) invalid;;
      match string_field "repo" v, string_field "branch" v, string_field "base_branch" v,
            string_field "proposal_id" v, string_field "author" v, int64_field "sequence" v with
      | Some repo, Some branch, Some baseBranch, Some proposalID, Some _, Some sequence =>
          guard (bool_decide (repo = "") || bool_decide (branch = ""))
            (http_Error "missing repo or branch in event data" 400);;
          cfg ← config_or_none repo branch sequence;
          if match cfg with Some cfg => negb (MatchesProposal cfg baseBranch) | None => false end
          then mret (200, tt) else
          enqueue repo branch sequence "proposal" baseBranch proposalID
            (fetchPermissionsForBaseBranch repo baseBranch);;
          mret (200, tt)
      | _, _, _, _, _, _ => fault invalid
      end
  end.

(** [handleWebhook]; [body] is what was read, or the error. *)
Definition handleWebhook (signature : string) (body : result string) : H (Z * unit) :=
  match body with
  | Fail _ => fault (http_Error "failed to read body" 400)
  | Ok body =>
      guard (bool_decide (sd_webhookSecret s ≠ "") &&
             bool_decide (signature ≠ "sha256=" +:+ computeHMACHex body (sd_webhookSecret s)))
        (http_Error "invalid signature" 400);;
      let invalid := http_Error "invalid cloudevent body" 400 in
      match json_Unmarshal body with
      | None => fault invalid
      | Some env =>
          guard (negb (is_struct env)) invalid;;
          match string_field "type" env with
          | None => fault invalid
          | Some type =>
              if bool_decide (type = "com.docstore.commit.created") then handleCommitCreated (any_field "data" env) else
              if bool_decide (type = "com.docstore.proposal.opened") then handleProposalOpened (any_field "data" env) else
              mret (200, tt)
          end
      end
  end.

(** ** Jobs *)

(** [type runStatusResponse struct] *)
Record runStatusResponse := mkRunStatus { rs_RunID : string; rs_Status : ci_job_status; rs_Error : string }.

Definition handleGetRun (id : string) : H (Z * runStatusResponse) :=
  job ← call (λ err, if errors_Is err ErrCIJobNotFound then http_Error "run not found" 404 else internal_error err)
          (GetCIJob id);
  mret (200, mkRunStatus (Job_ID job) (Job_Status job) (str_or_empty (Job_ErrorMessage job))).

Definition handleQueueDepth : H (Z * Z) :=
  n ← call (λ _, http_Error "failed to count queued jobs" 500) CountQueuedCIJobs;
  mret (200, n).

(** [type claimResponse struct] *)
Record claimResponse := mkClaimResponse {
  cl_Job : CIJob; cl_RequestToken : string; cl_OIDCTokenURL : string; cl_CacheRegistry : string;
}.

(** [GenerateRequestToken] (citoken.go): [raw] is what [rand.Read] fills 32 bytes
    with. *)
Definition GenerateRequestToken (raw : result (list Z)) : result (string * string) :=
  match raw with
  | Fail err => Fail (Errorf "generate request token" err)
  | Ok raw => let plaintext := RawURLEncoding_EncodeToString raw in Ok (plaintext, HashRequestToken plaintext)
  end.

Definition handleClaim (authorization : string) (raw : result (list Z)) : H (Z * option claimResponse) :=
  let saToken := TrimPrefix authorization "Bearer " in
  '(podName, podIP) ←
    match sd_claimer s with
    | None => mret ("", "")
    | Some validateToken =>
        match validateToken saToken with
        | Fail _ => fault (http_Error "unauthorized" 401)
        | Ok pod => mret pod
        end
    end;
  job ← call internal_error (ClaimCIJob podName podIP);
  match job with
  | None => mret (204, None)
  | Some job =>
      match GenerateRequestToken raw with
      | Fail err => fault (internal_error err)
      | Ok (plaintext, hashed) =>
          t ← call internal_error time_Now;
          let exp := t + 24 * 3600 * 1000000000 in
          call internal_error (StoreRequestToken (Job_ID job) hashed exp);;
          mret (200, Some (mkClaimResponse job plaintext (sd_oidcTokenURL s) (sd_cacheRegistryURL s)))
      end
  end.

Definition lookupByToken (authorization : string) : M CIJob :=
  match bearer authorization with
  | None => fail ErrTokenInvalid
  | Some plaintext => LookupRequestToken (HashRequestToken plaintext)
  end.

(** The job of the token, which must be the one in the path. *)
Definition job_of_request (jobID authorization : string) : H CIJob :=
  job ← call (λ err, if errors_Is err ErrTokenInvalid then http_Error "unauthorized" 401 else internal_error err)
          (lookupByToken authorization);
  guard (bool_decide (Job_ID job ≠ jobID)) (http_Error "token/job mismatch" 401);;
  mret job.

Definition handleHeartbeat (jobID authorization : string) : H (Z * unit) :=
  job ← job_of_request jobID authorization;
  call internal_error (HeartbeatCIJob (Job_ID job));;
  mret (204, tt).

(** The body of a completion. *)
Record completion := mkCompletion {
  cp_Status : string; cp_LogURL : option string; cp_ErrorMessage : option string;
}.

Definition handleComplete (jobID authorization : string) (body : option completion) : H (Z * unit) :=
  job ← job_of_request jobID authorization;
  match body with
  | None => fault (http_Error "invalid request body" 400)
  | Some req =>
      guard (bool_decide (cp_Status req = "")) (http_Error "status is required" 400);;
      guard (bool_decide (cp_Status req ≠ "passed") && bool_decide (cp_Status req ≠ "failed"))
        (http_Error "status must be 'passed' or 'failed'" 400);;
      call internal_error (CompleteCIJob (Job_ID job) (cp_Status req) (cp_LogURL req) (cp_ErrorMessage req));;
      mret (204, tt)
  end.

(** ** Schedules *)

Definition fetchAllRepos : M (list string) :=
  repos ← wrap "list repos" ListRepos; mret (repo_name <$> repos).

Definition minute_ns : Z := 60 * 1000000000.
(** [t.Truncate(time.Minute)]: down to a multiple since the zero time, which is a
    whole number of minutes before the epoch. *)
Definition truncate_minute (t : Z) : Z := t - t mod minute_ns.

(** [sched.Next(now.Add(-time.Minute)).Equal(now)] *)
Definition fires (cron : string) (now_ : Z) : bool :=
  match cron_ParseStandard cron with
  | None => false
  | Some next => bool_decide (next (now_ - minute_ns) = now_)
  end.

(** The body of the loop over the repositories. *)
Definition run_schedules (now_ : Z) (repo : string) : M unit :=
  headSeq ← catch (fetchBranchHead repo "main");
  match headSeq with
  | Fail _ => mret tt
  | Ok headSeq =>
      cfg ← catch (fetchCIConfig repo "main" headSeq);
      match cfg with
      | Ok (Some (mkCIConfig (Some on) _)) =>
          if bool_decide (length (tc_Schedule on) = 0%nat) then mret tt else
          perms ← fetchPermissions repo "main" headSeq;
          mapM (λ entry,
            if fires (sc_Cron entry) now_
            then _ ← catch (InsertCIJob repo "main" headSeq "schedule" "main" "" "" perms); mret tt
            else mret tt) (tc_Schedule on);;
          mret tt
      | _ => mret tt
      end
  end.

Definition runScheduledJobs (t : Z) : M unit :=
  repos ← catch fetchAllRepos;
  match repos with
  | Fail _ => mret tt
  | Ok repos => mapM (run_schedules (truncate_minute t)) repos;; mret tt
  end.

(** A tick of [startReaper]. *)
Definition reaper_tick : M unit := _ ← catch ReapStaleCIJobs; mret tt.
End Scheduler.
