(* ===== verification/Effects.v ===== *)
(** * How a computation moves the world

    [moves R m]: a run of [m], whatever its outcome, moves the world along the
    preorder [R]; [cmoves R m] is the same for what acts on the cache of policies
    as well.  The tactic [solve_moves] takes a computation apart down to the
    calls the hints of [trace] know. *)

From S2P Require Import Prelude Schema Tx Run Orgs Blob Merge ReadStore Reviews Issues Guarantee EventTypes Events.
From S2P Require Import Policy Http.

Section Moves.
Context {Op : OPA} (R : relation World) `{!PreOrder R}.

Definition moves {A} (m : M A) : Prop := ∀ w, R w (m w).1.
Definition cmoves {X} (m : Cache → World → Cache * World * X) : Prop := ∀ c w, R w (m c w).1.2.

Lemma s_reads {A} (m : M A) : reads m → moves m.
Proof. intros Hm w. by rewrite Hm. Qed.
Lemma s_bind {A B} (m : M A) (f : A → M B) : moves m → (∀ a, moves (f a)) → moves (m ≫= f).
Proof.
  intros Hm Hf w. specialize (Hm w). unfold mbind, M_bind.
  destruct (m w) as [w1 [a|e]]; cbn in *; [by etrans; [|apply Hf]|done].
Qed.
Lemma s_wrap {A} t (m : M A) : moves m → moves (wrap t m).
Proof. intros Hm w. specialize (Hm w). unfold wrap. by destruct (m w) as [w1 [a|e]]. Qed.
Lemma s_on_error {A} (m : M A) h : moves m → moves (on_error m h).
Proof. intros Hm w. specialize (Hm w). unfold on_error. by destruct (m w) as [w1 [a|e]]. Qed.
Lemma s_catch {A} (m : M A) : moves m → moves (catch m).
Proof. intros Hm w. specialize (Hm w). unfold catch. by destruct (m w) as [w1 [a|e]]. Qed.
Lemma s_mapM {A B} (f : A → M B) l : (∀ a, moves (f a)) → moves (mapM f l).
Proof.
  intros Hf. induction l as [|a l IH]; [by apply s_reads|].
  apply s_bind; [done|]. intros b. apply s_bind; [done|]. intros k. by apply s_reads.
Qed.

Lemma c_same {X} (m : Cache → World → Cache * World * X) : (∀ c w, (m c w).1.2 = w) → cmoves m.
Proof. intros Hm c w. by rewrite Hm. Qed.
Lemma c_lift {A} (m : M A) : moves m → cmoves (lift m).
Proof. intros Hm c w. specialize (Hm w). unfold lift. by destruct (m w). Qed.
Lemma c_bindP {A B} (m : PM A) (f : A → PM B) : cmoves m → (∀ a, cmoves (f a)) → cmoves (m ≫= f).
Proof.
  intros Hm Hf c w. specialize (Hm c w). unfold mbind, PM_bind.
  destruct (m c w) as [[c1 w1] [a|e]]; cbn in *; [by etrans; [|apply Hf]|done].
Qed.
Lemma c_bindH {E A B} (m : HM E A) (f : A → HM E B) : cmoves m → (∀ a, cmoves (f a)) → cmoves (m ≫= f).
Proof.
  intros Hm Hf c w. specialize (Hm c w). unfold mbind, H_bind.
  destruct (m c w) as [[c1 w1] [e|a]]; cbn in *; [done|by etrans; [|apply Hf]].
Qed.
Lemma c_pwrap {A} t (m : PM A) : cmoves m → cmoves (pwrap t m).
Proof. intros Hm c w. specialize (Hm c w). unfold pwrap. by destruct (m c w) as [[c1 w1] [a|e]]. Qed.
Lemma c_pcatch {A} (m : PM A) : cmoves m → cmoves (pcatch m).
Proof. intros Hm c w. specialize (Hm c w). unfold pcatch. by destruct (m c w) as [[c1 w1] r]. Qed.
Lemma c_callP {E A} (h : error → E) (m : PM A) : cmoves m → cmoves (callP h m).
Proof. intros Hm c w. specialize (Hm c w). unfold callP. by destruct (m c w) as [[c1 w1] [a|e]]. Qed.
Lemma c_call {E A} (h : error → E) (m : M A) : moves m → cmoves (call h m).
Proof. intros Hm. by apply c_callP, c_lift. Qed.
Lemma c_attempt {E A} (m : PM A) : cmoves m → cmoves (attempt (E:=E) m).
Proof. intros Hm c w. specialize (Hm c w). unfold attempt. by destruct (m c w) as [[c1 w1] r]. Qed.
Lemma c_guard {E} b (f : E) : cmoves (guard b f).
Proof. intros c w. by destruct b. Qed.
Lemma c_decode {A} (body : option A) : cmoves (decode body).
Proof. intros c w. by destruct body. Qed.
End Moves.

(** Takes a computation apart down to the calls that are hints. *)
Ltac moves_step :=
  lazymatch goal with
  | |- moves ?R ?m =>
      first
        [ solve [eauto with trace nocore]
        | lazymatch m with
          | wrap _ _ => apply (s_wrap R)
          | on_error _ _ => apply (s_on_error R)
          | catch _ => apply (s_catch R)
          | mapM _ _ => apply (s_mapM R); intros
          | mbind _ _ => apply (s_bind R); [|intros]
          | match ?x with _ => _ end => destruct x
          | mret _ => by apply (s_reads R)
          | fail _ => by apply (s_reads R)
          | gets _ => by apply (s_reads R)
          | select _ _ => by apply (s_reads R)
          | _ => unfold_head m
          end ]
  | |- cmoves ?R ?m =>
      first
        [ solve [eauto with trace nocore]
        | lazymatch m with
          | lift _ => apply (c_lift R)
          | of_result _ => by apply (c_same R)
          | invalidate _ => by apply (c_same R)
          | fault _ => by apply (c_same R)
          | mret _ => by apply (c_same R)
          | guard _ _ => apply (c_guard R)
          | decode _ => apply (c_decode R)
          | pwrap _ _ => apply (c_pwrap R)
          | pcatch _ => apply (c_pcatch R)
          | callP _ _ => apply (c_callP R)
          | call _ _ => apply (c_call R)
          | attempt _ => apply (c_attempt R)
          | mbind _ _ => first [apply (c_bindH R) | apply (c_bindP R)]; [|intros]
          | match ?x with _ => _ end => destruct x
          | _ => unfold_head m
          end ]
  end.
Create HintDb trace.
Ltac solve_moves := intros; repeat moves_step.

(** ** Queries of the policies *)

Section Queries.
Context {Co : Collation} {Mr : MapRange} {Op : OPA}.
Lemma GetFile_reads bs repo branch path at_ : reads (GetFile bs repo branch path at_).
Proof. unfold GetFile. solve_reads. Qed.

Lemma load_modules_reads bs repo entries modules : reads (load_modules bs repo entries modules).
Proof.
  revert modules. induction entries as [|e entries IH]; intros modules; cbn; [done|].
  destruct (negb _); [done|]. destruct (negb _); [apply IH|].
  apply rd_bind; [apply rd_wrap, GetFile_reads|auto].
Qed.
Lemma load_owners_page_reads bs repo entries files : reads (load_owners_page bs repo entries files).
Proof.
  revert files. induction entries as [|e entries IH]; intros files; cbn; [done|].
  destruct (is_owners _); [|apply IH]. apply rd_bind; [apply rd_wrap, GetFile_reads|auto].
Qed.
Lemma load_owners_reads bs fuel repo after files : reads (load_owners bs fuel repo after files).
Proof.
  revert after files. induction fuel as [|fuel IH]; intros after files; cbn; [done|].
  apply rd_bind; [done|]. intros entries. destruct (last entries); [|done].
  apply rd_bind; [apply load_owners_page_reads|]. intros f. destruct (length entries <=? 199)%nat; [apply rd_ret|apply IH].
Qed.
Lemma loadEntry_reads bs repo : reads (loadEntry bs repo).
Proof.
  unfold loadEntry, loadPolicyModules, loadOwnerFiles.
  apply rd_bind; [apply rd_wrap, rd_bind; [done|]; intros; apply load_modules_reads|].
  intros m. apply rd_bind; [apply rd_wrap, rd_bind; [done|]; intros; apply load_owners_reads|].
  intros f. destruct (_ && _); [done|]. by destruct (NewEngine m).
Qed.
Lemma Load_moves (R : relation World) `{!PreOrder R} bs repo : cmoves R (Load bs repo).
Proof.
  apply (c_same R). intros c w. unfold Load. destruct (load_lookup repo c); [done|].
  pose proof (loadEntry_reads bs repo w) as Hr. by destruct (loadEntry bs repo w) as [w' [e|]].
Qed.

Lemma AssembleInput_reads repo branch actor owners : reads (AssembleInput repo branch actor owners).
Proof. unfold AssembleInput. solve_reads. Qed.
Lemma AssembleInput_moves (R : relation World) `{!PreOrder R} repo branch actor owners : moves R (AssembleInput repo branch actor owners).
Proof. apply (s_reads R), AssembleInput_reads. Qed.
Lemma GetFile_moves (R : relation World) `{!PreOrder R} bs repo branch path at_ :
  moves R (GetFile bs repo branch path at_).
Proof. apply (s_reads R), GetFile_reads. Qed.
End Queries.
#[export] Hint Extern 1 (cmoves ?R (Load _ _)) => (apply (Load_moves R)) : trace.
#[export] Hint Extern 1 (moves ?R (AssembleInput _ _ _ _)) => (apply (AssembleInput_moves R)) : trace.
#[export] Hint Extern 1 (moves ?R (GetFile _ _ _ _ _)) => (apply (GetFile_moves R)) : trace.

Section Evaluate.
Context {Co : Collation} {Mr : MapRange} {Op : OPA}.
Lemma EvaluatePolicy_world bs configured repo branch actor c w :
  (EvaluatePolicy bs configured repo branch actor c w).1.2 = w.
Proof.
  assert (cmoves eq (EvaluatePolicy bs configured repo branch actor)) as Hm by (unfold EvaluatePolicy; solve_moves).
  symmetry. apply Hm.
Qed.
End Evaluate.

(** ** Relations between the tables before and after *)

Definition on_db (R : relation DB) : relation World := λ w w', R (w_db w) (w_db w').
#[export] Instance on_db_preorder R `{!PreOrder R} : PreOrder (on_db R).
Proof. split; [intros w; unfold on_db; reflexivity|intros ? ? ?; unfold on_db; apply transitivity]. Qed.

Lemma moves_guarantees {A} R (m : M A) : guarantees R m → moves (on_db R) m.
Proof. intros Hm w. apply Hm. Qed.
