(* ===== verification/SchedulerSpec.v ===== *)
(** * What the scheduler queues

    A webhook changes nothing but the queue, and only adds to it; what it adds
    is signed for, and has the permissions of the branch that decides: the one
    committed to for a push, the base branch for a proposal. *)

From S2P Require Import Prelude GoStd Wire Schema Tx Run Integrity Orgs Blob Commits Merge ReadStore Issues.
From S2P Require Import Guarantee CIJobs EventTypes Events Server Policy Http Effects Handlers Handlers3 Secrets.
From S2P Require Import CIConfig Scheduler Samples CommitSpec PolicySpec.

(** ** Queries that do not look at the queue *)

Definition same_but_jobs (w w' : World) : Prop :=
  ∃ l, w_db w' = set_ci_jobs l (w_db w) ∧ w_blobs w' = w_blobs w.

Section Blind.
(** A query whose answer the queue has no part in. *)
Definition blind {A} (m : M A) : Prop := reads m ∧ ∀ w w', same_but_jobs w w' → (m w').2 = (m w).2.

Lemma bl_ret {A} (a : A) : blind (mret a).
Proof. by split. Qed.
Lemma bl_fail {A} e : blind (fail e : M A).
Proof. by split. Qed.
Lemma bl_gets {A} (f : World → A) : (∀ w w', same_but_jobs w w' → f w' = f w) → blind (gets f).
Proof. intros Hf. split; [done|]. intros w w' Hw. cbn. by rewrite (Hf w w'). Qed.
Lemma bl_bind {A B} (m : M A) (f : A → M B) : blind m → (∀ a, blind (f a)) → blind (m ≫= f).
Proof.
  intros [Hm Hm2] Hf. split; [apply rd_bind; [done|intros; apply Hf]|]. intros w w' Hw.
  specialize (Hm2 w w' Hw). pose proof (Hm w) as E. pose proof (Hm w') as E'. unfold mbind, M_bind.
  destruct (m w) as [w1 [a|e]], (m w') as [w1' [a'|e']]; cbn in *; subst w1 w1'; try congruence.
  injection Hm2 as ->. by apply Hf.
Qed.
Lemma bl_wrap {A} t (m : M A) : blind m → blind (wrap t m).
Proof.
  intros [Hm Hm2]. split; [by apply rd_wrap|]. intros w w' Hw. specialize (Hm2 w w' Hw). unfold wrap.
  destruct (m w) as [w1 [a|e]], (m w') as [w1' [a'|e']]; cbn in *; congruence.
Qed.
Lemma bl_catch {A} (m : M A) : blind m → blind (catch m).
Proof.
  intros [Hm Hm2]. split; [by apply rd_catch|]. intros w w' Hw. specialize (Hm2 w w' Hw). unfold catch.
  destruct (m w) as [w1 r], (m w') as [w1' r']; cbn in *. by rewrite Hm2.
Qed.
End Blind.

Section Scheduler.
Context {Co : Collation} {Us : UuidSource} {Mr : MapRange} {Op : OPA} {Gl : Glob} {Ym : YamlConfig} {Ju : JsonUnmarshal} {Cr : Cron}.
Variable s : scheduler.

Lemma fetchCIConfig_blind repo branch seq : blind (fetchCIConfig s repo branch seq).
Proof.
  unfold fetchCIConfig. destruct (negb _); [apply bl_ret|]. apply bl_bind.
  - apply bl_wrap. unfold GetFile. apply bl_bind.
    + apply bl_gets. by intros w w' (l & -> & _).
    + intros rows. repeat case_match; first [apply bl_ret | apply bl_fail].
  - intros fc. repeat case_match; first [apply bl_ret | apply bl_fail].
Qed.
Lemma fetchPermissions_blind repo branch seq : blind (fetchPermissions s repo branch seq).
Proof. apply bl_bind; [apply bl_catch, fetchCIConfig_blind|intros; apply bl_ret]. Qed.
Lemma fetchPermissionsForBaseBranch_blind repo base : blind (fetchPermissionsForBaseBranch s repo base).
Proof.
  apply bl_bind.
  - apply bl_catch. unfold fetchBranchHead. destruct (negb _); [apply bl_fail|]. apply bl_bind.
    + apply bl_wrap, bl_bind; [apply bl_gets; by intros w w' (l & -> & _)|intros; apply bl_ret].
    + intros [b|]; first [apply bl_ret | apply bl_fail].
  - intros [h|e]; [apply fetchPermissions_blind|apply bl_ret].
Qed.

(** ** The queue *)

(** The permissions a job is to have, from the branches as they are in [w]. *)
Definition permissions_in (w : World) (m : M (list string)) (perms : list string) : Prop :=
  ∃ l, (m w).2 = Ok l ∧ perms = match l with [] => ["checks"] | l => l end.
Definition job_permitted (w : World) (j : ci_job) : Prop :=
  permissions_in w
    (if bool_decide (j_trigger_type j = Some "push")
     then fetchPermissions s (j_repo j) (j_branch j) (j_sequence j)
     else fetchPermissionsForBaseBranch s (j_repo j) (str_or_empty (j_trigger_base_branch j)))
    (j_permissions j).

(** A job as it is queued. *)
Definition queued (w : World) (j : ci_job) : Prop :=
  j_status j = Queued ∧ j_request_token j = None ∧ j_trigger_branch j = Some (j_branch j) ∧
  j_trigger_type j ∈ [Some "push"; Some "proposal"; Some "proposal_synchronized"] ∧ job_permitted w j.

(** The world is [w0] with such jobs added to the queue. *)
Definition extended (w0 w : World) : Prop :=
  w_blobs w = w_blobs w0 ∧
  ∃ l, w_db w = set_ci_jobs (db_ci_jobs (w_db w0) ++ l) (w_db w0) ∧ Forall (queued w0) l.
Definition extends_queue (w0 : World) : relation World := λ w w', extended w0 w → extended w0 w'.
#[local] Instance extends_queue_preorder w0 : PreOrder (extends_queue w0).
Proof. split; [by intros w; unfold extends_queue|]. intros a b c. unfold extends_queue. auto. Qed.

Lemma same_queue d : d = set_ci_jobs (db_ci_jobs d ++ []) d.
Proof. rewrite app_nil_r. by destruct d. Qed.
Lemma extended_refl w : extended w w.
Proof. split; [done|]. exists []. split; [apply same_queue|done]. Qed.
Lemma extended_same w0 w : extended w0 w → same_but_jobs w0 w.
Proof. intros [Hb (l & E & _)]. eexists. by split. Qed.
Lemma blind_extended {A} (m : M A) w0 w : blind m → extended w0 w → m w = (w, (m w0).2).
Proof.
  intros [Hr Hb] He%extended_same. specialize (Hr w). specialize (Hb w0 w He).
  destruct (m w) as [w1 r]. cbn in *. by subst.
Qed.

Lemma InsertCIJob_run repo branch seq type base pid perms w :
  w_db (InsertCIJob repo branch seq type branch base pid perms w).1 = w_db w ∧
  w_blobs (InsertCIJob repo branch seq type branch base pid perms w).1 = w_blobs w ∨
  ∃ j, w_db (InsertCIJob repo branch seq type branch base pid perms w).1
       = set_ci_jobs (db_ci_jobs (w_db w) ++ [j]) (w_db w) ∧
    w_blobs (InsertCIJob repo branch seq type branch base pid perms w).1 = w_blobs w ∧
    j_repo j = repo ∧ j_branch j = branch ∧ j_sequence j = seq ∧ j_status j = Queued ∧ j_request_token j = None ∧
    j_trigger_branch j = Some branch ∧ j_trigger_type j = Some type ∧ j_trigger_base_branch j = nullif_empty base ∧
    j_permissions j = match perms with [] => ["checks"] | l => l end.
Proof.
  unfold InsertCIJob. set (perms' := match perms with [] => _ | _ => _ end).
  unfold uuid_New, now, gets, wrap, insert_row, mbind, M_bind. cbn -[t_check t_clash t_fk existsb].
  destruct (negb (t_check _ _)); [by left|]. destruct (existsb _ _); [by left|]. destruct (negb (t_fk _ _ _)); [by left|].
  right. eexists. by split_and!.
Qed.
Lemma nullif_empty_str v : str_or_empty (nullif_empty v) = v.
Proof. unfold nullif_empty. by destruct v. Qed.

(** What [enqueue] adds is permitted, when it is asked for the permissions of the
    deciding branch. *)
Lemma enqueue_moves w0 repo branch seq type base pid fetch :
  blind fetch → type ∈ ["push"; "proposal"; "proposal_synchronized"] →
  fetch = (if bool_decide (type = "push") then fetchPermissions s repo branch seq
           else fetchPermissionsForBaseBranch s repo base) →
  cmoves (extends_queue w0) (enqueue repo branch seq type base pid fetch).
Proof.
  intros Hb Ht Hf c w He. unfold enqueue, call, callP, lift, mbind, H_bind.
  rewrite (blind_extended fetch w0 w Hb He). destruct (fetch w0).2 as [perms|e] eqn:Ep; [|done]. cbn.
  pose proof (InsertCIJob_run repo branch seq type base pid perms w) as Hi.
  destruct (InsertCIJob repo branch seq type branch base pid perms w) as [w1 r]. cbn in Hi.
  assert (extended w0 w1) as Hw1; [|by destruct r].
  unfold extended. destruct He as [Hbl (l & E & Hl)].
  destruct Hi as [[-> ->]|(j & Hdb & Hbl1 & Er & Ebr & Es & Est & Etok & Etb & Ett & Ebase & Eperms)].
  - split; [done|]. by exists l.
  - split; [congruence|]. exists (l ++ [j]). split; [by rewrite Hdb, E, app_assoc|].
    apply Forall_app. split; [done|]. apply Forall_singleton. split_and!; [done|done|by rewrite Etb, Ebr| |].
    + rewrite Ett. by apply (list_elem_of_fmap_2 Some) in Ht.
    + exists perms. split; [|done]. rewrite <- Ep, Hf, Er, Ebr, Es, Ebase, nullif_empty_str, Ett.
      by repeat case_bool_decide; simplify_eq.
Qed.

Lemma config_blind repo branch seq : cmoves eq (config_or_none s repo branch seq).
Proof.
  intros c w. destruct (fetchCIConfig_blind repo branch seq) as [Hr _]. specialize (Hr w).
  unfold config_or_none, attempt, lift, mbind, H_bind. destruct (fetchCIConfig s repo branch seq w). cbn in *. by subst.
Qed.
Lemma extends_eq {X} w0 (m : Cache → World → Cache * World * X) : cmoves eq m → cmoves (extends_queue w0) m.
Proof. intros Hm c w. by rewrite <- (Hm c w). Qed.

#[local] Hint Resolve fetchPermissions_blind fetchPermissionsForBaseBranch_blind : trace.
Lemma push_moves w0 repo branch seq :
  cmoves (extends_queue w0) (enqueue repo branch seq "push" "" "" (fetchPermissions s repo branch seq)).
Proof. apply enqueue_moves; [auto with trace|left|by case_bool_decide]. Qed.
Lemma proposal_moves w0 repo branch seq type base pid :
  type ∈ ["proposal"; "proposal_synchronized"] →
  cmoves (extends_queue w0) (enqueue repo branch seq type base pid (fetchPermissionsForBaseBranch s repo base)).
Proof.
  intros Ht. apply enqueue_moves; [auto with trace|by right|]. case_bool_decide; [|done]. subst.
  by apply (bool_decide_pack _) in Ht.
Qed.
Lemma config_moves w0 repo branch seq : cmoves (extends_queue w0) (config_or_none s repo branch seq).
Proof. apply extends_eq, config_blind. Qed.
#[local] Hint Resolve push_moves config_moves : trace.
#[local] Hint Extern 1 (cmoves (extends_queue _) (enqueue _ _ _ _ _ _ _)) =>
  (apply proposal_moves; rewrite !elem_of_cons; tauto) : trace.
Lemma webhook_moves w0 signature body : cmoves (extends_queue w0) (handleWebhook s signature body).
Proof. unfold handleWebhook, handleCommitCreated, handleProposalOpened, enqueue_synchronized, fetchOpenProposalForBranch, ListProposals. solve_moves. Qed.

(** C28: a webhook, whatever its body, whatever error it meets and whatever the
    queue holds, leaves the database as it was but for jobs added to the queue.
    Each of those waits, without a token, for the branch it was triggered on, as
    a push or a proposal (opened or synchronized); and its permissions are the
    ones [.docstore/ci.yaml] grants, of the branch itself for a push, but of the
    head of the base branch for a proposal, with only [checks] when there is no
    such file or it cannot be read.  When the scheduler has a secret, nothing at
    all is added unless the body is signed with it. *)
Theorem webhook_jobs signature body c w :
  let w' := (handleWebhook s signature body c w).1.2 in
  w_blobs w' = w_blobs w ∧
  ∃ l, w_db w' = set_ci_jobs (db_ci_jobs (w_db w) ++ l) (w_db w) ∧ Forall (queued w) l ∧
    (l = [] ∨ sd_webhookSecret s = "" ∨
     ∃ b, body = Ok b ∧ signature = "sha256=" +:+ computeHMACHex b (sd_webhookSecret s)).
Proof.
  cbv zeta. destruct (webhook_moves w signature body c w (extended_refl w)) as [Hb (l & E & Hl)].
  split; [done|].
  destruct (decide (sd_webhookSecret s = "")) as [Hs|Hs]; [exists l; by auto|].
  destruct body as [b|e]; [|exists []; cbn in *; split_and!; [apply same_queue|done|by left]].
  destruct (decide (signature = "sha256=" +:+ computeHMACHex b (sd_webhookSecret s))) as [Hsig|Hsig]; [exists l; by eauto 8|].
  exists []. split_and!; [|done|by left]. unfold handleWebhook. rewrite !bool_decide_true by done. apply same_queue.
Qed.
End Scheduler.

(** ** Samples *)

(** A file that is the value of [contents], and a proposal of "dev" whose author
    chose "dev" as its base branch. *)
#[export] Instance sample_yaml : YamlConfig := λ text, Ok (mkCIConfig None (Some (mkPermissions "write" text "" "" "" ""))).
#[export] Instance sample_unmarshal : JsonUnmarshal := λ body,
  if bool_decide (body = "opened")
  then Some (JObject [("type", JString "com.docstore.proposal.opened");
                      ("data", JObject [("repo", JString "o/r"); ("branch", JString "dev");
                                        ("base_branch", JString "dev"); ("sequence", JNumber 2)])])
  else None.
#[export] Instance sample_glob : Glob := λ p, Some (λ s, bool_decide (s = p)).
#[export] Instance sample_cron : Cron := λ _, None.
Definition sample_scheduler : scheduler := mkScheduler true "" None "" "".
Definition config_world : World :=
  exec (Commit NewStore (mkCommitRequest "o/r" "dev" [file ".docstore/ci.yaml" "write"] "ci" "bob")) dev_world.

(** With the branch as its own base, a proposal has the permissions its author
    wrote; with "main", which has no file, it may only report checks. *)
Example own_base :
  (j_permissions <$> db_ci_jobs (w_db (handleWebhook sample_scheduler "" (Ok "opened") ∅ config_world).1.2))
  = [["checks"; "contents"]].
Proof. vm_compute. reflexivity. Qed.
