(* ===== verification/SecretsSpec.v ===== *)
(** * Repository secrets: what they promise

    A stored secret is revealed as it was set; and a secret is revealed only to
    a running job of its repository, which nobody from outside the organisation
    has triggered. *)

From Stdlib Require Import Ascii.
From S2P Require Import Prelude GoStd Schema Tx Run Integrity Orgs Merge Guarantee Issues CIJobs Blob Commits.
From S2P Require Import EventTypes Events Samples Server Policy PolicySpec Http Handlers Secrets.
From S2P Require Service.

(** The secret of a name. *)
Definition secret_at (d : DB) (repo name : string) : option repo_secret :=
  head (filter (secret_named repo name) (db_repo_secrets d)).

Section SecretsSpec.
Context {Co : Collation} {Mr : MapRange} {Op : OPA} {Us : UuidSource} {En : Encryptor}.

Lemma of_enc_ok {A} t (r : result A) w w' a : of_enc t r w = (w', Ok a) ↔ w' = w ∧ r = Ok a.
Proof.
  destruct r as [b|e]; cbn; split; try done; [by intros [= -> ->]|by intros (-> & [= ->])|by intros (_ & ?)].
Qed.

Lemma GetRepoSecret_run repo name w s :
  secret_at (w_db w) repo name = Some s → GetRepoSecret repo name w = (w, Ok s).
Proof.
  unfold secret_at, GetRepoSecret, or_not_found, on_error, query_row, select, mbind, M_bind. cbn.
  by destruct (filter _ _) as [|x l]; [|intros [= ->]].
Qed.
Lemma GetRepoSecret_at repo name w w' s :
  GetRepoSecret repo name w = (w', Ok s) → w' = w ∧ secret_at (w_db w) repo name = Some s.
Proof.
  unfold secret_at, GetRepoSecret, or_not_found, on_error, query_row, select, mbind, M_bind. cbn.
  destruct (filter _ _) as [|x l]; [done|]. by intros [= -> ->].
Qed.

(** Writing a row of a name. *)
Lemma secret_named_ne repo name repo' name' s :
  (repo', name') ≠ (repo, name) → secret_named repo name s → ¬ secret_named repo' name' s.
Proof. unfold secret_named. intros Hne [-> ->] [-> ->]. by apply Hne. Qed.

Lemma filter_update_named repo name repo' name' f (l : list repo_secret) :
  (∀ s, secret_named repo name s → secret_named repo name (f s)) →
  (repo', name') ≠ (repo, name) →
  filter (secret_named repo' name') (update_where (secret_named repo name) f l)
  = filter (secret_named repo' name') l.
Proof.
  intros Hf Hne. unfold update_where. induction l as [|s l IH]; [done|]. rewrite fmap_cons.
  destruct (decide (secret_named repo name s)) as [Hs|Hs].
  - rewrite !filter_cons_False; eauto using secret_named_ne.
  - rewrite !filter_cons. by rewrite IH.
Qed.

Lemma filter_update_same repo name f (l : list repo_secret) :
  (∀ s, secret_named repo name s → secret_named repo name (f s)) →
  filter (secret_named repo name) (update_where (secret_named repo name) f l)
  = f <$> filter (secret_named repo name) l.
Proof.
  intros Hf. unfold update_where. induction l as [|s l IH]; [done|]. rewrite fmap_cons.
  destruct (decide (secret_named repo name s)) as [Hs|Hs].
  - rewrite !filter_cons_True by auto. by rewrite fmap_cons, IH.
  - by rewrite !filter_cons_False.
Qed.

(** What [f] writes into the rows of a name is what is found under it. *)
Lemma update_secret_at repo name f n w w' :
  (∀ s, secret_named repo name s → secret_named repo name (f s)) →
  update_rows repo_secrets (secret_named repo name) f w = (w', Ok n) →
  secret_at (w_db w') repo name = f <$> secret_at (w_db w) repo name ∧
  ∀ repo' name', (repo', name') ≠ (repo, name) →
    secret_at (w_db w') repo' name' = secret_at (w_db w) repo' name'.
Proof.
  intros Hf [-> _]%update_ok. unfold secret_at. cbn. split.
  - rewrite filter_update_same by done. by destruct (filter _ _).
  - intros repo' name' Hne. by rewrite filter_update_named.
Qed.

(** The row [SetRepoSecret] leaves. *)
Lemma SetRepoSecret_at i w w' row :
  SetRepoSecret i w = (w', Ok row) →
  (sealed_of <$> secret_at (w_db w') (si_Repo i) (si_Name i)
   = Some (mkSealed (si_Ciphertext i) (si_Nonce i) (si_EncryptedDEK i) (si_KMSKeyName i))) ∧
  (∀ repo name, (repo, name) ≠ (si_Repo i, si_Name i) →
     secret_at (w_db w') repo name = secret_at (w_db w) repo name).
Proof.
  unfold SetRepoSecret. intros E. inv_ok.
  assert (w_db w0 = w_db w) as Hw0.
  { revert E0. case_bool_decide; [by intros [-> _]%uuid_ok|by intros [-> _]%ret_ok]. }
  unfold time_Now in E1. clear E0. inv_ok. unfold upsert_row in E.
  destruct (filter _ _) as [|x l] eqn:Ef; apply bind_ok in E as (w2 & u & E & [-> _]%ret_ok).
  - apply insert_ok in E as (_ & _ & _ & ->). unfold secret_at. cbn in *. rewrite <- Hw0. split.
    + rewrite filter_app, Ef. by rewrite filter_cons_True.
    + intros repo name Hne. rewrite filter_app, filter_cons_False; [by rewrite app_nil_r|].
      by apply (secret_named_ne (si_Repo i) (si_Name i)).
  - apply update_secret_at in E as [Hs Ho]; [|by intros ? []]. rewrite <- Hw0. split; [|done].
    rewrite Hs. unfold secret_at. cbn in Ef. by rewrite Ef.
Qed.

(** ** Setting and revealing *)

Lemma Touch_run repo name w :
  ∃ w', TouchRepoSecretLastUsed repo name w = (w', Ok tt).
Proof. by eexists. Qed.

(** A secret that is set can be revealed. *)
Lemma Reveal_run repo name v w s :
  secret_at (w_db w) repo name = Some s → Decrypt (sealed_of s) = Ok v →
  ∃ w', Reveal repo [name] w = (w', Ok ({[name := v]}, [])).
Proof.
  intros Hs Hd. destruct (Touch_run repo name w) as [w1 Ht]. exists w1.
  unfold Reveal, open_all. unfold catch, of_enc, mbind, M_bind.
  rewrite (GetRepoSecret_run _ _ _ _ Hs), Hd. cbn.
  unfold mbind, M_bind, catch. rewrite Ht. cbn. done.
Qed.

(** What [Set] accepts. *)
Definition acceptable (name value : string) : Prop :=
  nameRegexp name = true ∧ HasPrefix name reservedNamePrefix = false ∧ value ≠ "" ∧
  Z.of_nat (String.length value) ≤ MaxValueBytes.

Lemma Set_ok repo name description value actor w w' meta :
  Set_ repo name description value actor w = (w', Ok meta) →
  acceptable name value ∧
  ∃ sealed, Encrypt value = Ok sealed ∧ sealed_of <$> secret_at (w_db w') repo name = Some sealed ∧
  ∀ repo' name', (repo', name') ≠ (repo, name) →
    secret_at (w_db w') repo' name' = secret_at (w_db w) repo' name'.
Proof.
  unfold Set_, validateName. destruct (nameRegexp name) eqn:En1; [|done].
  destruct (HasPrefix name reservedNamePrefix) eqn:Ep; [done|]. cbn [negb].
  case_bool_decide as Hv; [done|]. destruct (_ <? _) eqn:El; [done|]. apply Z.ltb_ge in El.
  intros E. inv_ok. split; [done|].
  apply of_enc_ok in E0 as [-> Henc]. apply uuid_ok in E1 as [-> ->]. unfold time_Now in E2. inv_ok.
  exists a. apply SetRepoSecret_at in E3 as [Hs Ho]. cbn in *. split; [done|]. split; [|done].
  rewrite Hs. by destruct a.
Qed.

End SecretsSpec.

(** What one encryptor seals, the other opens. *)
Definition opens (E1 E2 : Encryptor) : Prop := ∀ v s, @Encrypt E1 v = Ok s → @Decrypt E2 s = Ok v.

(** A secret set with one encryptor is revealed with the other, byte for byte;
    names and values were within the limits and no other secret has changed. *)
Lemma set_reveal `{Collation} `{UuidSource} (E1 E2 : Encryptor) repo name description value actor w w' meta :
  opens E1 E2 → Set_ (Enc := E1) repo name description value actor w = (w', Ok meta) →
  acceptable name value ∧
  (∃ w2, Reveal (Enc := E2) repo [name] w' = (w2, Ok ({[name := value]}, []))) ∧
  ∀ repo' name', (repo', name') ≠ (repo, name) →
    secret_at (w_db w') repo' name' = secret_at (w_db w) repo' name'.
Proof.
  intros Hs (Ha & sealed & Henc & Hat & Ho)%Set_ok. split; [done|]. split; [|done].
  apply fmap_Some in Hat as (row & Hat & ->). by apply (Reveal_run _ _ _ _ row), Hs.
Qed.

Section Trusted.
Context {Co : Collation} {Mr : MapRange} {Op : OPA} {Us : UuidSource} {En : Encryptor}.

(** ** Who may see a secret *)

(** A job may see the secrets: it was not triggered by a proposal, or by one of a
    member of the organisation in the name of the repository. *)
Definition trusted (d : DB) (job : CIJob) : Prop :=
  Job_TriggerType job ∈ ["push"; "manual"; "schedule"] ∨
  ∃ org name id author, Job_TriggerType job ∈ ["proposal"; "proposal_synchronized"] ∧
    splitRepoOrg (Job_Repo job) = Some (org, name) ∧ Job_TriggerProposalID job = Some id ∧
    (∃ p, p ∈ db_proposals d ∧ p_id p = id ∧ p_repo p = Job_Repo job ∧ p_author p = author) ∧
    (∃ m, m ∈ db_org_members d ∧ om_org m = org ∧ om_identity m = author).

Lemma GetProposal_ok repo id w w' p :
  GetProposal repo id w = (w', Ok p) →
  w' = w ∧ ∃ q, q ∈ db_proposals (w_db w) ∧ p_id q = id ∧ p_repo q = repo ∧ p_author q = Prop_Author p.
Proof.
  unfold GetProposal. intros E. inv_ok.
  apply query_row_ok in E0 as (l & E). apply select_ok in E as [-> E]. split; [done|].
  assert (a ∈ filter (λ p, p_repo p = repo ∧ p_id p = id) (db_proposals (w_db w)))
    as [[Hr Hi] Hin]%list_elem_of_filter by (cbn in E; rewrite <- E; by left).
  by exists a.
Qed.

Lemma members_ok org w w' l :
  ListOrgMembers org w = (w', Ok l) →
  w' = w ∧ ∀ m, m ∈ l → m ∈ db_org_members (w_db w) ∧ om_org m = org.
Proof.
  unfold ListOrgMembers. intros E. inv_ok. apply select_ok in E0 as [-> ->]. split; [done|].
  intros m. unfold order_by. rewrite order_by_elem. by intros [? ?]%list_elem_of_filter.
Qed.

Lemma GetProposal_reads repo id : reads (GetProposal repo id).
Proof. unfold GetProposal. solve_reads. Qed.
Lemma ListOrgMembers_reads org : reads (ListOrgMembers org).
Proof. unfold ListOrgMembers. solve_reads. Qed.

Lemma allow_trusted job w w' :
  allowSecretsForJob job w = (w', Ok None) → w' = w ∧ trusted (w_db w) job.
Proof.
  unfold allowSecretsForJob. case_bool_decide as H1; [intros [-> _]%ret_ok; split; [done|by left]|].
  case_bool_decide as H2; [|by intros [_ ?]%ret_ok].
  destruct (splitRepoOrg (Job_Repo job)) as [[org name]|] eqn:Es; [|by intros [_ ?]%ret_ok].
  destruct (Job_TriggerProposalID job) as [[|c id]|] eqn:Ei; [by intros [_ ?]%ret_ok| |by intros [_ ?]%ret_ok].
  intros E. apply bind_ok in E as (w1 & [prop|err] & E1 & E);
    pose proof (reads_run _ _ _ _ (rd_catch _ (GetProposal_reads _ _)) E1) as ->;
    [|by apply ret_ok in E as [_ ?]].
  apply bind_ok in E as (w1 & [members|err] & E2 & E);
    pose proof (reads_run _ _ _ _ (rd_catch _ (ListOrgMembers_reads _)) E2) as ->;
    [|by apply ret_ok in E as [_ ?]].
  apply ret_ok in E as [-> E]. split; [done|]. right.
  destruct (existsb _ members) eqn:Em; [|done].
  apply existsb_exists in Em as (m & Hm%list_elem_of_In & Hi%bool_decide_eq_true).
  apply catch_run, GetProposal_ok in E1 as (_ & q & Hq & Hqi & Hqr & Hqa).
  apply catch_run, members_ok in E2 as [_ Hl]. destruct (Hl m Hm) as [Hin Ho].
  exists org, name, (String c id), (Prop_Author prop). split_and!; eauto.
Qed.

(** The values of [open_all] are those of secrets of the repository. *)
Lemma open_all_ok repo names values missing revealed w w' values' missing' revealed' :
  open_all repo names values missing revealed w = (w', Ok (values', missing', revealed')) →
  w' = w ∧ ∀ n v, values' !! n = Some v → values !! n = Some v ∨
    n ∈ names ∧ ∃ row, secret_at (w_db w) repo n = Some row ∧ Decrypt (sealed_of row) = Ok v.
Proof.
  revert values missing revealed. induction names as [|name names IH]; intros values missing revealed; cbn.
  - intros [-> [= -> _ _]]%ret_ok. split; [done|auto].
  - intros E. apply bind_ok in E as (w1 & [row|err] & E1 & E); apply (proj1 (catch_run _ _ _ _)) in E1.
    + apply GetRepoSecret_at in E1 as [-> Hrow]. apply bind_ok in E as (w1 & pt & [-> Hpt]%of_enc_ok & E).
      apply IH in E as [-> Hv]. split; [done|]. intros n v Hn.
      destruct (Hv n v Hn) as [Hins|(Hin & row' & ?)]; [|right; split; [by right|by exists row']].
      destruct (decide (n = name)) as [->|Hne].
      * rewrite lookup_insert_eq in Hins. injection Hins as <-. right. split; [by left|by exists row].
      * rewrite lookup_insert_ne in Hins by done. by left.
    + assert (w1 = w) as ->.
      { assert (reads (GetRepoSecret repo name)) as Hr by (unfold GetRepoSecret; solve_reads).
        exact (reads_run _ _ _ _ Hr E1). }
      destruct (errors_Is err ErrSecretNotFound); [|done]. apply IH in E as [-> Hv]. split; [done|].
      intros n v Hn. destruct (Hv n v Hn) as [?|(Hin & ?)]; [by left|right; split; [by right|done]].
Qed.

Lemma Lookup_ok hashed w w' job :
  LookupRequestToken hashed w = (w', Ok job) →
  w' = w ∧ ∃ j, j ∈ db_ci_jobs (w_db w) ∧ job = scanCIJob j ∧ token_valid hashed (w_now w / 1000 * 1000) j.
Proof.
  unfold LookupRequestToken, now. intros E. inv_ok.
  apply query_row_ok in E1 as (l & E). apply select_ok in E as [-> E]. cbn in E. split; [done|].
  exists a0. assert (a0 ∈ filter (token_valid hashed (w_now w / 1000 * 1000)) (db_ci_jobs (w_db w)))
    as [Hv Hin]%list_elem_of_filter by (rewrite <- E; by left). done.
Qed.

Lemma job_of_token_ok authorization name e1 e2 e3 c w c' w' job :
  job_of_token authorization name e1 e2 e3 c w = (c', w', inr job) →
  c' = c ∧ w' = w ∧ ∃ plaintext j, bearer authorization = Some plaintext ∧ j ∈ db_ci_jobs (w_db w) ∧
    job = scanCIJob j ∧ j_repo j = name ∧ token_valid (HashRequestToken plaintext) (w_now w / 1000 * 1000) j.
Proof.
  unfold job_of_token. destruct (bearer authorization) as [plaintext|]; [|done].
  intros (c1 & w1 & job1 & [-> (-> & j & Hj & -> & Hv)%Lookup_ok]%call_ok & E)%hbind_ok.
  apply hbind_ok in E as (c2 & w2 & u & (-> & -> & Hr)%guard_ok & (-> & -> & ->)%hret_ok).
  split_and!; [done..|]. exists plaintext, j. split_and!; try done; try apply Hv.
  apply bool_decide_eq_false in Hr. by destruct (decide (j_repo j = name)).
Qed.

Lemma reveal_ok s authorization name body c w c' w' status values missing :
  handleRevealSecrets s authorization name body c w = (c', w', inr (status, (values, missing))) →
  ∃ plaintext j names,
    bearer authorization = Some plaintext ∧ body = Some names ∧
    j ∈ db_ci_jobs (w_db w) ∧ j_repo j = name ∧ j_status j = Claimed ∧
    j_request_token j = Some (HashRequestToken plaintext) ∧
    (∃ e, j_request_token_exp j = Some e ∧ w_now w / 1000 * 1000 < e) ∧
    trusted (w_db w) (scanCIJob j) ∧
    ∀ n v, values !! n = Some v → n ∈ names ∧ ∃ row t, secret_at (w_db w) name n = Some row ∧
      Decrypt (sealed_of row) = Ok t ∧ v = StdEncoding_EncodeToString (bytes_of_string t).
Proof.
  unfold handleRevealSecrets.
  intros (c1 & w1 & job & (-> & -> & plaintext & j & Hb & Hj & -> & Hr & Ht & He & Hc)%job_of_token_ok & E)%hbind_ok.
  apply hbind_ok in E as (c2 & w2 & names & (-> & -> & ->)%decode_ok & E).
  apply hbind_ok in E as (c2 & w2 & u1 & (-> & -> & _)%guard_ok & E).
  apply hbind_ok in E as (c2 & w2 & u2 & (-> & -> & _)%guard_ok & E).
  apply hbind_ok in E as (c2 & w2 & [reason|] & [-> Ha]%call_ok & E); [done|].
  apply allow_trusted in Ha as [-> Ha].
  apply hbind_ok in E as (c2 & w2 & [values0 missing0] & [-> Hrev]%call_ok & E).
  apply hbind_ok in E as (c3 & w3 & u3 & _ & (-> & -> & [= -> -> ->])%hret_ok).
  exists plaintext, j, names. split_and!; [done..| |done|].
  { destruct (j_request_token_exp j) as [e|]; [by exists e|done]. }
  intros n v Hn. rewrite lookup_fmap in Hn. apply fmap_Some in Hn as (t & Hn & ->).
  unfold Reveal in Hrev. apply bind_ok in Hrev as (w4 & [[values1 missing1] revealed1] & Ho & Hrev).
  apply bind_ok in Hrev as (w5 & l & _ & [_ [= -> ->]]%ret_ok).
  apply open_all_ok in Ho as [-> Hv]. destruct (Hv n t Hn) as [Hv'|(Hin & row & Hrow & Hd)]; [done|].
  split; [done|]. by exists row, t.
Qed.

(** Secrets are revealed only to trusted jobs.  Values in a reply mean that
    the token of the request is the unexpired token of a claimed job of that
    very repository, that the job was not triggered by a proposal, or by one of
    a member of its organisation; and each value was asked for and is that of a
    secret of that repository. *)
Theorem reveal_gated s authorization name body c w c' w' status values missing :
  handleRevealSecrets s authorization name body c w = (c', w', inr (status, (values, missing))) →
  ∃ plaintext j names,
    bearer authorization = Some plaintext ∧ body = Some names ∧
    j ∈ db_ci_jobs (w_db w) ∧ j_repo j = name ∧ j_status j = Claimed ∧
    j_request_token j = Some (HashRequestToken plaintext) ∧
    (∃ e, j_request_token_exp j = Some e ∧ w_now w / 1000 * 1000 < e) ∧
    trusted (w_db w) (scanCIJob j) ∧
    ∀ n v, values !! n = Some v → n ∈ names ∧ ∃ row t, secret_at (w_db w) name n = Some row ∧
      Decrypt (sealed_of row) = Ok t ∧ v = StdEncoding_EncodeToString (bytes_of_string t).
Proof. apply reveal_ok. Qed.
End Trusted.

(** ** Witnesses *)

(** Sealing that does not seal. *)
#[export] Instance sample_encryptor : Encryptor :=
  {| Encrypt v := Ok (mkSealed v "nonce" "dek" "key"); Decrypt s := Ok (sl_Ciphertext s) |}.

(** A secret of "o/r", and a claimed job there with the token "tok". *)
Definition secret_world : World := exec (Set_ "o/r" "API_KEY" "" "s3cret" "root") repo_world.
Definition job_world : World :=
  let w := exec (ClaimCIJob "pod" "ip") (exec (InsertCIJob "o/r" "main" 0 "push" "main" "" "" []) secret_world) in
  exec (StoreRequestToken "uuid-1" (HashRequestToken "tok") (w_now w + day)) w.

Definition sample_server : server := mkServer (Service.mkService NewStore None) None "root".

Abbreviation reveal_request :=
  (handleRevealSecrets sample_server "Bearer tok" "o/r" (Some ["API_KEY"; "OTHER"]) ∅ job_world).
Abbreviation reveal_reply := (200, ({["API_KEY" := "czNjcmV0"]} : gmap string string, ["OTHER"])).

Lemma reveal_replies : reveal_request.2 = inr reveal_reply.
Proof. vm_compute. reflexivity. Qed.
Lemma reveal_runs : ∃ c' w', reveal_request = (c', w', inr reveal_reply).
Proof.
  pose proof reveal_replies as Hr. destruct reveal_request as [[c' w'] r]. exists c', w'.
  cbn [snd] in Hr. by rewrite Hr.
Qed.

Lemma reveal_gated_witness :
  ∃ c' w' j, reveal_request = (c', w', inr reveal_reply) ∧
    j ∈ db_ci_jobs (w_db job_world) ∧ j_status j = Claimed ∧ trusted (w_db job_world) (scanCIJob j).
Proof.
  destruct reveal_runs as (c' & w' & E).
  destruct (reveal_gated sample_server "Bearer tok" "o/r" (Some ["API_KEY"; "OTHER"]) ∅ job_world c' w' _ _ _ E)
    as (p & j & names & _ & _ & Hj & _ & Hs & _ & _ & Ht & _).
  exists c', w', j. split; [exact E|]. split; [exact Hj|]. split; [exact Hs|exact Ht].
Defined.
