(* ===== verification/EnvelopeSpec.v ===== *)
(** * The encryptors of secrets: what they promise

    Both discharge the contract of [Encryptor]: what one call seals, any later
    call opens, under the same key.  For the key in a file that holds across
    restarts of the server; and the file encryptor opens nothing else than what
    it could have sealed. *)

From S2P Require Import Prelude GoStd Schema Tx Run Merge CIJobs Samples Policy Http Secrets Wire Envelope.
From S2P Require Import SecretsSpec.

Lemma ascii_of_byte_of b : is_byte b → byte_of_ascii (ascii_of_byte b) = b.
Proof.
  unfold is_byte, byte_of_ascii, ascii_of_byte. intros Hb. rewrite Ascii.N_ascii_embedding by lia. lia.
Qed.
Lemma bytes_of_string_of_bytes l : bytes l → bytes_of_string (string_of_bytes l) = l.
Proof. induction 1 as [|b l Hb _ IH]; cbn; [done|]. by rewrite ascii_of_byte_of, IH. Qed.
Lemma length_bytes_of_string s : length (bytes_of_string s) = String.length s.
Proof. induction s as [|c s IH]; cbn; [done|by rewrite IH]. Qed.

Lemma rbind_inv {A B} (r : result A) (f : A → result B) b : rbind r f = Ok b ↔ ∃ a, r = Ok a ∧ f a = Ok b.
Proof. destruct r as [a|e]; cbn; split; [by exists a|by intros (? & [= ->] & ?)|done|by intros (? & ? & _)]. Qed.
Lemma rwrap_inv {A} text (r : result A) a : rwrap text r = Ok a ↔ r = Ok a.
Proof. by destruct r. Qed.
Ltac rinv H :=
  repeat match type of H with
  | rbind _ _ = Ok _ => let a := fresh "a" in let E := fresh "E" in
      apply rbind_inv in H as (a & E & H); try (apply rwrap_inv in E)
  end.

(** A key of 32 bytes has a cipher. *)
Lemma NewGCM_32 who key : length key = 32%nat → NewGCM who key = Ok (round_keys key).
Proof. intros Hl. unfold NewGCM, NewCipher. rewrite bool_decide_true; [done|]. rewrite Hl. set_solver. Qed.

(** ** One envelope *)

Section Seal.
Context {R : Rand} {Rl : RandLaws R}.

Lemma seal_ok who p dek nonce ct :
  bytes p → seal who p = Ok (dek, nonce, ct) →
  (length dek = 32%nat ∧ bytes dek) ∧ bytes nonce ∧ bytes ct ∧ open who dek nonce ct = Ok p.
Proof.
  unfold seal. intros Hp E. rinv E. apply rand_bytes in E0 as [Ld Bd]. apply rand_bytes in E2 as [Ln Bn].
  pose proof (NewCipher_schedule _ _ Bd E1) as Hs. injection E as <- <- <-.
  split_and!; [done..|by apply gcm_Seal_bytes|].
  unfold open. rewrite NewGCM_32 by done. apply (rwrap_inv who) in E1. change (NewGCM who a = Ok a0) in E1.
  rewrite NewGCM_32 in E1 by done. injection E1 as <-.
  rewrite Ln, Nat.eqb_refl. cbn [negb rbind]. by rewrite gcm_Open_Seal.
Qed.

Lemma wrapDEK_ok e dek wrapped :
  schedule (le_kekGCM e) → bytes dek → wrapDEK e dek = Ok wrapped →
  bytes wrapped ∧ unwrapDEK e wrapped = Ok dek.
Proof.
  unfold wrapDEK, unwrapDEK. intros Hs Bd E. rinv E. apply rand_bytes in E0 as [Ln Bn]. injection E as <-.
  split; [apply Forall_app; split; [done|by apply gcm_Seal_bytes]|].
  rewrite length_app, gcm_Seal_length, Ln by done. rewrite (proj2 (Nat.ltb_ge _ _)) by lia.
  rewrite <- Ln, take_app_length, drop_app_length. by rewrite gcm_Open_Seal.
Qed.

(** What the encryptor of a file seals, any encryptor with that key and name opens. *)
Lemma local_Decrypt_Encrypt e e' v s :
  schedule (le_kekGCM e) → le_kekGCM e' = le_kekGCM e → le_keyName e' = le_keyName e →
  local_Encrypt e v = Ok s → local_Decrypt e' s = Ok v.
Proof.
  unfold local_Encrypt, local_Decrypt. intros Hs Hk Hn E. apply rbind_inv in E as ([[dek nonce] ct] & E1 & E).
  rinv E. injection E as <-. cbn. rewrite Hn, bool_decide_false by auto.
  destruct (seal_ok _ _ _ _ _ (bytes_are_bytes v) E1) as ([Ld Bd] & Bn & Bc & Ho).
  destruct (wrapDEK_ok _ _ _ Hs Bd E0) as [Bw Hu].
  rewrite !bytes_of_string_of_bytes by done. unfold unwrapDEK in *. rewrite Hk, Hu. cbn [rbind].
  rewrite Ho. cbn. by rewrite string_of_bytes_of_string.
Qed.

(** The service gives back what it wrapped, as bytes. *)
Definition KMSLaws `{KMS} (name : string) : Prop :=
  ∀ dek ct, kms_Encrypt name dek = Ok ct → bytes ct ∧ kms_Decrypt name ct = Ok dek.

Lemma kms_Decrypt_Encrypt `{KMS} e v s :
  KMSLaws (ke_keyResource e) → kmse_Encrypt e v = Ok s → kmse_Decrypt e s = Ok v.
Proof.
  unfold kmse_Encrypt, kmse_Decrypt. intros Hk E. apply rbind_inv in E as ([[dek nonce] ct] & E1 & E).
  rinv E. injection E as <-. cbn. rewrite bool_decide_false by auto.
  destruct (seal_ok _ _ _ _ _ (bytes_are_bytes v) E1) as ([Ld Bd] & Bn & Bc & Ho).
  destruct (Hk _ _ E0) as [Bw Hd]. rewrite !bytes_of_string_of_bytes by done. rewrite Hd. cbn [rwrap rbind].
  rewrite Ho. cbn. by rewrite string_of_bytes_of_string.
Qed.
End Seal.

(** ** The key in its file *)

(** A file that is there is not reported missing. *)
Class DiskLaws (D : Disk) := disk_present : ∀ path err, disk_error ReadFile path = Some err → errors_Is err os_ErrNotExist = false.

(** An encryptor of the key in a file. *)
Definition keyed (files : Files) (path : string) (e : LocalEncryptor) : Prop :=
  ∃ key, files !! path = Some key ∧ String.length key = 32%nat ∧
    le_kekGCM e = round_keys (bytes_of_string key) ∧ le_keyName e = localKeyPrefix +:+ path_Base path.

Lemma keyed_schedule files path e : keyed files path e → schedule (le_kekGCM e).
Proof.
  intros (key & _ & Hl & -> & _). apply (round_keys_schedule _ 8); [|lia|apply bytes_are_bytes].
  by rewrite length_bytes_of_string, Hl.
Qed.
Lemma keyed_same files path e e' :
  keyed files path e → keyed files path e' → le_kekGCM e' = le_kekGCM e ∧ le_keyName e' = le_keyName e.
Proof. intros (k & Hk & _ & -> & ->) (k' & Hk' & _ & -> & ->). rewrite Hk in Hk'. by injection Hk' as ->. Qed.

Lemma loadOrCreateKEK_ok {D : Disk} {R : Rand} {Rl : RandLaws R} path files files' key :
  loadOrCreateKEK path files = (files', Ok key) →
  length key = 32%nat ∧ (∃ text, files' !! path = Some text ∧ key = bytes_of_string text) ∧
  (files' = files ∨ files' = <[path := string_of_bytes key]> files).
Proof.
  unfold loadOrCreateKEK. destruct (os_ReadFile path files) as [data|err] eqn:Er.
  - destruct (length data =? 32)%nat eqn:E32; [|done]. intros [= <- <-]. apply Nat.eqb_eq in E32.
    split_and!; [done| |by left]. unfold os_ReadFile in Er. destruct (disk_error _ _); [done|].
    destruct (files !! path) as [t|]; [|done]. injection Er as <-. by exists t.
  - destruct (negb _); [done|]. set (mk := if _ && _ then _ else _). destruct mk as [|]; [done|].
    destruct (rand_Read 0 32) as [k|] eqn:Ek; [|done]. apply rand_bytes in Ek as [Lk Bk].
    destruct (disk_error WriteFile path); [done|]. intros [= <- <-]. split_and!; [done| |by right].
    exists (string_of_bytes k). by rewrite lookup_insert_eq, bytes_of_string_of_bytes.
Qed.
Lemma NewLocalEncryptor_keyed {D : Disk} {R : Rand} {Rl : RandLaws R} path files files' e :
  NewLocalEncryptor path files = (files', Ok e) → keyed files' path e.
Proof.
  unfold NewLocalEncryptor. case_bool_decide; [done|].
  destruct (loadOrCreateKEK path files) as [files1 [key|]] eqn:El; [|done].
  apply loadOrCreateKEK_ok in El as (Hl & (t & Ht & ->) & _). rewrite NewGCM_32 by done. intros [= <- <-].
  exists t. by rewrite <- length_bytes_of_string.
Qed.
(** Where the key is, a new process finds it and writes nothing. *)
Lemma NewLocalEncryptor_again {D : Disk} {Dl : DiskLaws D} {R : Rand} path files files' e e' :
  keyed files path e → NewLocalEncryptor path files = (files', Ok e') → files' = files ∧ keyed files path e'.
Proof.
  intros (key & Hk & Hl & _). unfold NewLocalEncryptor, loadOrCreateKEK, os_ReadFile. case_bool_decide; [done|]. rewrite Hk.
  destruct (disk_error ReadFile path) as [err|] eqn:Ed; [by rewrite (disk_present path err Ed)|].
  rewrite length_bytes_of_string, Hl. cbn [Nat.eqb]. rewrite NewGCM_32 by (by rewrite length_bytes_of_string). intros [= <- <-].
  split; [done|by exists key].
Qed.

(** ** What is set is revealed *)

Section Restart.
Context {Co : Collation} {Us : UuidSource}.

(** C22: secrets survive a restart.  A process opens the encryptor of a key file,
    making the key when there is none, and sets a secret; a later process that
    opens the encryptor of the same file reveals the secret byte for byte, and
    finds the key rather than making another.  Names and values were within
    the limits and no other secret has changed.  The sealing is AES-256-GCM, computed,
    with whatever keys and nonces the random source hands out. *)
Theorem secrets_survive_restart {D1 D2 : Disk} {R1 R2 : Rand} (S1 S2 : Draws) path files files1 files2 e1 e2
    repo name description value actor w w' meta :
  DiskLaws D2 → RandLaws R1 → (∀ v, RandLaws (S1 v)) →
  NewLocalEncryptor (Dk := D1) (Rn := R1) path files = (files1, Ok e1) →
  Set_ (Enc := @local_encryptor S1 e1) repo name description value actor w = (w', Ok meta) →
  NewLocalEncryptor (Dk := D2) (Rn := R2) path files1 = (files2, Ok e2) →
  files2 = files1 ∧ acceptable name value ∧
  (∃ w2, Reveal (Enc := @local_encryptor S2 e2) repo [name] w' = (w2, Ok ({[name := value]}, []))) ∧
  (∀ repo' name', (repo', name') ≠ (repo, name) →
     secret_at (w_db w') repo' name' = secret_at (w_db w) repo' name').
Proof.
  intros HD HR HS H1 Hset H2. pose proof (NewLocalEncryptor_keyed _ _ _ _ H1) as K1.
  destruct (NewLocalEncryptor_again _ _ _ _ _ K1 H2) as [-> K2]. split; [done|].
  refine (set_reveal _ _ _ _ _ _ _ _ _ _ _ Hset). intros v s.
  destruct (keyed_same _ _ _ _ K1 K2) as [Hk Hn]. by apply local_Decrypt_Encrypt; [eapply keyed_schedule|..].
Qed.

(** With the key management service: any process with the same key resource. *)
Lemma kms_set_reveal {Km : KMS} (S1 S2 : Draws) e repo name description value actor w w' meta :
  KMSLaws (ke_keyResource e) → (∀ v, RandLaws (S1 v)) →
  Set_ (Enc := @kms_encryptor _ S1 e) repo name description value actor w = (w', Ok meta) →
  ∃ w2, Reveal (Enc := @kms_encryptor _ S2 e) repo [name] w' = (w2, Ok ({[name := value]}, [])).
Proof.
  intros Hk HS Hset. refine (proj1 (proj2 (set_reveal _ _ _ _ _ _ _ _ _ _ _ Hset))). intros v s.
  by apply kms_Decrypt_Encrypt.
Qed.
End Restart.
(** ** What can be opened *)

(** The draws of an envelope. *)
Definition drew (dek nonce kek_nonce : list Z) : Rand := λ i n,
  let b := match i with O => dek | 1%nat => nonce | _ => kek_nonce end in
  if bool_decide (length b = n ∧ bytes b) then Ok b else Fail (New "no such draw").
Lemma drew_laws dek nonce kek_nonce : RandLaws (drew dek nonce kek_nonce).
Proof. intros i n b. unfold rand_Read, drew. case_bool_decide as Hb; [by intros [= <-]|done]. Qed.
Lemma drew_read i dek nonce kek_nonce n :
  let b := match i with O => dek | 1%nat => nonce | _ => kek_nonce end in
  length b = n → bytes b → @rand_Read (drew dek nonce kek_nonce) i n = Ok b.
Proof. cbn zeta. intros Hl Hb. unfold rand_Read, drew. by rewrite bool_decide_true. Qed.

Lemma unwrapDEK_inv e wrapped dek :
  schedule (le_kekGCM e) → bytes wrapped → length wrapped = 60%nat → unwrapDEK e wrapped = Ok dek →
  length dek = 32%nat ∧ bytes dek ∧ ∃ nonce, length nonce = NonceSize ∧ bytes nonce ∧ wrapped = nonce ++ gcm_Seal (le_kekGCM e) nonce dek.
Proof.
  unfold unwrapDEK. intros Hs Hb Hl. rewrite Hl. cbn [Nat.ltb Nat.leb Nat.add NonceSize Overhead]. intros E%rwrap_inv.
  assert (length (take NonceSize wrapped) = NonceSize) as Ln by (rewrite length_take, Hl; done).
  assert (bytes (take NonceSize wrapped)) as Bn by by apply Forall_take.
  assert (bytes dek) as Bd by (eapply gcm_Open_bytes; [..|exact E]; try done; by apply Forall_drop).
  apply gcm_Open_tag in E; [|done..].
  assert (wrapped = take NonceSize wrapped ++ gcm_Seal (le_kekGCM e) (take NonceSize wrapped) dek) as Hw
    by (rewrite <- E; symmetry; apply take_drop).
  split_and!; [|done|by exists (take NonceSize wrapped)].
  apply (f_equal length) in Hw. rewrite length_app, gcm_Seal_length, Ln, Hl in Hw by done.
  unfold NonceSize, Overhead in Hw. lia.
Qed.
Lemma open_inv who dek nonce ct p :
  length dek = 32%nat → bytes dek → bytes nonce → bytes ct → open who dek nonce ct = Ok p →
  length nonce = NonceSize ∧ bytes p ∧ ct = gcm_Seal (round_keys dek) nonce p.
Proof.
  unfold open. intros Hl Hb Bn Bc. rewrite NewGCM_32 by done. cbn [rbind].
  destruct (length nonce =? NonceSize)%nat eqn:En; [|done]. apply Nat.eqb_eq in En. cbn [negb].
  assert (schedule (round_keys dek)) as Hs by (by apply (round_keys_schedule _ 8); [rewrite Hl|lia|]).
  intros E%rwrap_inv. split_and!; [done|by eapply gcm_Open_bytes|by apply gcm_Open_tag].
Qed.

(** A value under the key of a file is opened exactly when some draw of keys
    and nonces could have sealed it.  A row whose wrapped key has the length of
    those [Encrypt] makes opens to a value if and only if it is the sealing of that value,
    under the key of that file and its name, for some draw: change a byte of the
    cipher text, a nonce, the wrapped key or the name, and what is left opens
    only if it is again a sealing. *)
Theorem local_opens_sealings files path e s v :
  keyed files path e → String.length (sl_EncryptedDEK s) = 60%nat →
  local_Decrypt e s = Ok v ↔ ∃ R, RandLaws R ∧ @local_Encrypt R e v = Ok s.
Proof.
  intros Hk Hlen. pose proof (keyed_schedule _ _ _ Hk) as Hs. split.
  2: { intros (R & HR & E). by apply (local_Decrypt_Encrypt e e). }
  unfold local_Decrypt. case_bool_decide as Hn; [done|]. intros E. rinv E. rename a into dek, a0 into pt.
  injection E as <-.
  destruct (unwrapDEK_inv _ _ _ Hs (bytes_are_bytes _) (eq_trans (length_bytes_of_string _) Hlen) E0)
    as (Ld & Bd & kn & Lk & Bk & Hw).
  apply open_inv in E1 as (Ln & Bp & Hct); [|done|done|apply bytes_are_bytes..].
  exists (drew dek (bytes_of_string (sl_Nonce s)) kn). split; [apply drew_laws|].
  unfold local_Encrypt, seal, wrapDEK.
  rewrite (drew_read 0), (drew_read 1), (drew_read 2) by (done || apply bytes_are_bytes).
  cbn [rwrap rbind]. rewrite NewGCM_32 by done. cbn [rbind].
  rewrite bytes_of_string_of_bytes by done.
  rewrite <- Hct, <- Hw. unfold to_sealed. rewrite !string_of_bytes_of_string.
  rewrite <- Hn. by destruct s.
Qed.

(** ** Witnesses *)

(** A disk that does not fail, and a random source of one byte. *)
Definition good_disk : Disk := λ _ _, None.
Lemma good_disk_laws : DiskLaws good_disk.
Proof. by intros path err [=]. Qed.
Definition constant_rand (b : Z) : Rand := λ _ n, Ok (replicate n b).
Lemma constant_rand_laws b : is_byte b → RandLaws (constant_rand b).
Proof. intros Hb i n l [= <-]. split; [apply length_replicate|by apply Forall_replicate]. Qed.

Definition key_path : string := "/home/dev/.docstore/dev-encryption-key".
Definition local_run : Files * result LocalEncryptor :=
  @NewLocalEncryptor good_disk (constant_rand 7) key_path ∅.
Definition local_files : Files := local_run.1.
Definition local_key : LocalEncryptor :=
  mkLocalEncryptor key_path (round_keys (replicate 32 7)) "local:dev-encryption-key".
Definition local_draws (b : Z) : Draws := λ _, constant_rand b.

Lemma local_starts : local_run = (local_files, Ok local_key).
Proof. vm_compute. reflexivity. Qed.
Lemma local_restarts :
  @NewLocalEncryptor good_disk (constant_rand 8) key_path local_files = (local_files, Ok local_key).
Proof. vm_compute. reflexivity. Qed.

Abbreviation local_set :=
  (Set_ (Enc := @local_encryptor (local_draws 9) local_key) "o/r" "API_KEY" "" "s3cret" "root").
Lemma local_set_runs : is_Some (returned local_set repo_world).
Proof. vm_compute. by eexists. Qed.

Lemma secrets_survive_restart_witness :
  ∃ w2, Reveal (Enc := @local_encryptor (local_draws 10) local_key) "o/r" ["API_KEY"]
    (exec local_set repo_world) = (w2, Ok ({["API_KEY" := "s3cret"]}, [])).
Proof.
  destruct local_set_runs as [meta Hm].
  destruct (secrets_survive_restart (D1 := good_disk) (D2 := good_disk) (R1 := constant_rand 7) (R2 := constant_rand 8)
    (local_draws 9) (local_draws 10) key_path ∅ local_files local_files local_key local_key
    "o/r" "API_KEY" "" "s3cret" "root" repo_world (exec local_set repo_world) meta good_disk_laws) as (_ & _ & Hr & _).
  - apply constant_rand_laws. unfold is_byte. lia.
  - intros v. apply constant_rand_laws. unfold is_byte. lia.
  - exact local_starts.
  - exact (run_exec _ _ _ Hm).
  - exact local_restarts.
  - exact Hr.
Defined.

Definition sealed_sample : result Sealed := @local_Encrypt (constant_rand 9) local_key "s3cret".
Definition sample_row : Sealed := match sealed_sample with Ok s => s | Fail _ => mkSealed "" "" "" "" end.
Lemma sealed_sample_ok : sealed_sample = Ok sample_row.
Proof. vm_compute. reflexivity. Qed.
Lemma local_keyed : keyed local_files key_path local_key.
Proof.
  assert (is_byte 7) as Hb by (unfold is_byte; lia).
  exact (NewLocalEncryptor_keyed (Rl := constant_rand_laws 7 Hb) _ _ _ _ local_starts).
Qed.

Lemma local_opens_sealings_witness : local_Decrypt local_key sample_row = Ok "s3cret".
Proof.
  apply (local_opens_sealings local_files key_path local_key sample_row "s3cret" local_keyed).
  - vm_compute. reflexivity.
  - exists (constant_rand 9). split; [apply constant_rand_laws; unfold is_byte; lia|exact sealed_sample_ok].
Defined.
