(* ===== verification/QueueSpec.v ===== *)
(** * The queue of jobs as a state machine

    Whatever the scheduler and docstore do, in any order, a job moves from
    queued to claimed, and from there back to the queue or to its end; a pod
    works for one job at a time; a token exists while its job is claimed; and no
    job is lost. *)

From S2P Require Import Prelude GoStd Wire Schema Tx Run Integrity Orgs Blob Commits Merge ReadStore Issues CIJobs.
From S2P Require Import Server Policy Http Effects Handlers Handlers3 Secrets SecretsSpec CIConfig Scheduler.
From S2P Require Import Samples PolicySpec SchedulerSpec.

(** ** States of a job *)

(** What a job is about, which nothing changes. *)
Definition job_spec (j : ci_job) :=
  (j_id j, (j_repo j, j_branch j, j_sequence j), j_created_at j,
   (j_trigger_type j, j_trigger_branch j, j_trigger_base_branch j, j_trigger_proposal_id j), j_permissions j).

Inductive job_move : ci_job → ci_job → Prop :=
| move_claimed t podName podIP j : j_status j = Queued → job_move j (job_claimed t podName podIP j)
| move_token token exp j : j_status j = Claimed → job_move j (job_with_token (Some token) exp j)
| move_heartbeat t j : j_status j = Claimed → job_move j (job_heartbeat t j)
| move_passed logURL err j : j_status j = Claimed → job_move j (job_completed Passed logURL err j)
| move_failed logURL err j : j_status j = Claimed → job_move j (job_completed Failed logURL err j)
| move_requeued j : j_status j = Claimed → job_move j (job_requeued j).

Definition finished (j : ci_job) : Prop := j_status j = Passed ∨ j_status j = Failed.

Lemma moves_spec j j' : rtc job_move j j' → job_spec j' = job_spec j.
Proof. induction 1 as [|j k l Hm _ ->]; [done|]. by destruct Hm. Qed.
Lemma moves_id j j' : rtc job_move j j' → j_id j' = j_id j.
Proof. intros E%moves_spec. by injection E. Qed.
Lemma moves_finished j j' : rtc job_move j j' → finished j → j' = j.
Proof. intros Hm Hf. destruct Hm as [|j k l Hm _]; [done|]. destruct Hf, Hm; congruence. Qed.

(** ** The invariant *)

Record queue_ok (l : list ci_job) : Prop := {
  queue_ids : NoDup (j_id <$> l);
  queue_pods pod j k : j ∈ l → k ∈ l → claimed_by pod j → claimed_by pod k → j = k;
  queue_claims j : j ∈ l → j_status j = Claimed → is_Some (j_worker_pod j) ∧ is_Some (j_claimed_at j);
  queue_tokens j : j ∈ l → is_Some (j_request_token j) → j_status j = Claimed;
}.

(** Two queues with jobs moved, and new ones at the end. *)
Definition fresh_job (j : ci_job) : Prop := j_status j = Queued ∧ j_request_token j = None.
Definition queue_move (l l' : list ci_job) : Prop :=
  ∃ moved fresh, l' = moved ++ fresh ∧ Forall2 (rtc job_move) l moved ∧
    Forall (λ j', ∃ j, fresh_job j ∧ rtc job_move j j') fresh.

#[export] Instance queue_move_preorder : PreOrder queue_move.
Proof.
  split.
  - intros l. exists l, []. rewrite app_nil_r. split_and!; [done|reflexivity|done].
  - intros l _ _ (m1 & f1 & -> & H1 & F1) (m2 & f2 & -> & H2 & F2).
    apply Forall2_app_inv_l in H2 as (m3 & f3 & H3 & H4 & ->).
    exists m3, (f3 ++ f2). split_and!; [by rewrite app_assoc| |].
    + etrans; eassumption.
    + apply Forall_app. split; [|done]. apply Forall_forall. intros z Hz.
      apply list_elem_of_lookup in Hz as [i Hz]. destruct (Forall2_lookup_r _ _ _ _ _ H4 Hz) as (y & Hy & Hm).
      rewrite Forall_forall in F1. destruct (F1 y) as (j & Hj & Hjm); [by eapply list_elem_of_lookup_2|].
      exists j. split; [done|by etrans].
Qed.

(** ** Writes of rows *)

Lemma update_moves P `{!∀ j, Decision (P j)} f l :
  (∀ j, j ∈ l → P j → job_move j (f j)) → queue_move l (update_where P f l).
Proof.
  intros Hm. exists (update_where P f l), []. rewrite app_nil_r. split_and!; [done| |done].
  unfold update_where. apply Forall2_fmap_r, Forall_Forall2_diag, Forall_forall. intros j Hj.
  cbn. case_decide; [by apply rtc_once, Hm|done].
Qed.

(** A move of a claimed job. *)
Lemma claimed_move j j' : job_move j j' → j_status j = Claimed →
  j_id j' = j_id j ∧ (∀ pod, claimed_by pod j' → claimed_by pod j) ∧
  (j_status j' = Claimed → j_worker_pod j' = j_worker_pod j ∧ j_claimed_at j' = j_claimed_at j) ∧
  (is_Some (j_request_token j') → j_status j' = Claimed).
Proof.
  unfold claimed_by. intros Hm Hc. destruct Hm; cbn; try congruence; split_and!; auto;
    try (by intros ? [? ?]); try done; try (by intros [? ?]).
Qed.

Lemma moves_ok P `{!∀ j, Decision (P j)} f l :
  queue_ok l → (∀ j, j ∈ l → P j → j_status j = Claimed ∧ job_move j (f j)) → queue_ok (update_where P f l).
Proof.
  intros [Hi Hp Hc Ht] Hf.
  assert (∀ x, x ∈ update_where P f l → ∃ j, j ∈ l ∧ j_id x = j_id j ∧ (∀ pod, claimed_by pod x → claimed_by pod j) ∧
    (j_status x = Claimed → j_status j = Claimed ∧ j_worker_pod x = j_worker_pod j ∧ j_claimed_at x = j_claimed_at j) ∧
    (is_Some (j_request_token x) → j_status x = Claimed)) as Hx.
  { intros x (j & Hj & ->)%elem_of_update_where. exists j. split; [done|].
    destruct (decide (P j)) as [HP|HP]; [|split_and!; auto].
    destruct (Hf j Hj HP) as [Hst Hm]. destruct (claimed_move _ _ Hm Hst) as (? & ? & ? & ?). split_and!; auto. }
  assert (NoDup (j_id <$> update_where P f l)) as Hi'.
  { assert (j_id <$> update_where P f l = j_id <$> l) as ->; [|done]. unfold update_where.
    rewrite <- list_fmap_compose. apply list_fmap_ext. intros i j Hj%list_elem_of_lookup_2. cbn.
    destruct (decide (P j)) as [HP|HP]; [|done]. destruct (Hf j Hj HP) as [Hst Hm]. by apply claimed_move. }
  split; [done| | |].
  - intros pod x y Hxl Hyl Hxc Hyc. apply (NoDup_fmap_inj j_id _ _ _ Hi' Hxl Hyl).
    destruct (Hx x Hxl) as (j & Hj & -> & Hjc & _), (Hx y Hyl) as (k & Hk & -> & Hkc & _).
    f_equal. apply (Hp pod); auto.
  - intros x Hxl Hxc. destruct (Hx x Hxl) as (j & Hj & _ & _ & Hjc & _). destruct (Hjc Hxc) as (? & -> & ->). by apply Hc.
  - intros x Hxl. destruct (Hx x Hxl) as (j & _ & _ & _ & _ & H'). done.
Qed.

Lemma next_queued_ok pod l j :
  next_queued pod l = Some j → j ∈ l ∧ j_status j = Queued ∧ ∀ k, k ∈ l → ¬ claimed_by pod k.
Proof.
  unfold next_queued. case_bool_decide as Hn; [|done]. intros Hh.
  assert (j ∈ order_by_asc j_created_at (filter (λ j, j_status j = Queued) l)) as Hj.
  { destruct (order_by_asc _ _); [done|]. injection Hh as ->. left. }
  unfold order_by_asc in Hj. rewrite merge_sort_Permutation in Hj. apply list_elem_of_filter in Hj as [Hs Hj].
  split_and!; [done|done|]. intros k Hk Hc.
  assert (k ∈ filter (claimed_by pod) l) as Hin by (by apply list_elem_of_filter). rewrite Hn in Hin. inversion Hin.
Qed.

(** The update of [ClaimCIJob]. *)
Lemma claim_update t pod ip j l l' :
  queue_ok l → next_queued pod l = Some j →
  l' = update_where (λ k, Some (j_id k) = Some (j_id j)) (job_claimed t pod ip) l →
  queue_ok l' ∧ queue_move l l'.
Proof.
  intros [Hi Hp Hc Ht] (Hj & Hq & Hfree)%next_queued_ok ->.
  assert (∀ k, k ∈ l → Some (j_id k) = Some (j_id j) → k = j) as Hkj.
  { intros k Hk [= E]. by apply (NoDup_fmap_inj j_id l). }
  split; [|apply update_moves; intros k Hk Ek; rewrite (Hkj k Hk Ek); by apply move_claimed].
  assert (NoDup (j_id <$> update_where (λ k, Some (j_id k) = Some (j_id j)) (job_claimed t pod ip) l)) as Hi'.
  { by rewrite fmap_update_where. }
  split; [done| | |].
  - intros q x y Hx Hy Hxc Hyc. apply (NoDup_fmap_inj j_id _ _ _ Hi' Hx Hy).
    apply elem_of_update_where in Hx as (k & Hk & ->), Hy as (m & Hm & ->).
    destruct (decide _) as [E1|E1], (decide _) as [E2|E2].
    + cbn. by rewrite (Hkj k Hk E1), (Hkj m Hm E2).
    + destruct Hxc as [[= <-] _]. by destruct (Hfree m Hm).
    + destruct Hyc as [[= <-] _]. by destruct (Hfree k Hk).
    + by rewrite (Hp q k m).
  - intros x (k & Hk & ->)%elem_of_update_where. destruct (decide _); [by cbn; eauto|by apply Hc].
  - intros x (k & Hk & ->)%elem_of_update_where. destruct (decide _); [done|by apply Ht].
Qed.

Lemma enqueue_ok l j :
  queue_ok l → fresh_job j → j_id j ∉ (j_id <$> l) → queue_ok (l ++ [j]) ∧ queue_move l (l ++ [j]).
Proof.
  intros [Hi Hp Hc Ht] [Hq Hn] Hid. split.
  - assert (∀ x, x ∈ l ++ [j] → x ∈ l ∨ x = j) as Hx.
    { intros x [?| ->%list_elem_of_singleton]%elem_of_app; auto. }
    split.
    + rewrite fmap_app. apply NoDup_app. split_and!; [done| |apply NoDup_singleton].
      by intros x Hx1 ->%list_elem_of_singleton.
    + intros pod x y Hxl Hyl [? Hxc] [? Hyc]. apply Hx in Hxl as [Hxl|Hxl], Hyl as [Hyl|Hyl]; [by apply (Hp pod)|congruence..].
    + intros x Hxl Hxc. apply Hx in Hxl as [Hxl|Hxl]; [by apply Hc|congruence].
    + intros x Hxl Hs. apply Hx in Hxl as [Hxl|Hxl]; [by apply Ht|]. subst. rewrite Hn in Hs. by destruct Hs.
  - exists l, [j]. split_and!; [done|reflexivity|]. apply Forall_singleton. by exists j.
Qed.

(** A write to the one claimed job. *)
Lemma guarded_update f j l :
  queue_ok l → j ∈ l → j_status j = Claimed → job_move j (f j) →
  queue_ok (update_where (λ k, j_id k = j_id j) f l) ∧ queue_move l (update_where (λ k, j_id k = j_id j) f l).
Proof.
  intros Hl Hj Hc Hm. assert (∀ k, k ∈ l → j_id k = j_id j → k = j) as Hk.
  { intros k Hk. apply (NoDup_fmap_inj j_id l); [apply Hl|done..]. }
  split; [apply moves_ok; [done|]|apply update_moves]; intros k Hkl E; by rewrite (Hk k Hkl E).
Qed.

(** ** Runs *)

Definition jobs (w : World) : list ci_job := db_ci_jobs (w_db w).
Definition sound_run : relation World :=
  λ w w', queue_ok (jobs w) → queue_ok (jobs w') ∧ queue_move (jobs w) (jobs w').
#[export] Instance sound_run_preorder : PreOrder sound_run.
Proof.
  split; [by intros w Hw|]. intros a b c Hab Hbc Ha. destruct (Hab Ha) as [Hb Mb], (Hbc Hb) as [Hc Mc].
  split; [done|by etrans].
Qed.
Lemma sound_same w w' : jobs w' = jobs w → sound_run w w'.
Proof. intros E Hw. by rewrite E. Qed.

Section Scheduler.
Context {Co : Collation} {Us : UuidSource} {Mr : MapRange} {Op : OPA} {Gl : Glob} {Ym : YamlConfig} {Ju : JsonUnmarshal} {Cr : Cron}.
Variable s : scheduler.

Lemma InsertCIJob_moves repo branch seq type tb base pid perms :
  moves sound_run (InsertCIJob repo branch seq type tb base pid perms).
Proof.
  intros w Hw. unfold InsertCIJob, uuid_New, now, gets, wrap, insert_row, mbind, M_bind.
  cbn -[t_clash existsb]. destruct (existsb _ _) eqn:Ec; [by apply sound_same|].
  apply enqueue_ok; [done|done|]. cbn [j_id]. intros (j & E & Hj)%list_elem_of_fmap.
  apply not_true_iff_false in Ec. apply Ec, existsb_exists. exists j. split; [by apply list_elem_of_In|].
  cbn. apply bool_decide_eq_true. by left.
Qed.
Lemma ReapStaleCIJobs_moves : moves sound_run ReapStaleCIJobs.
Proof.
  intros w Hw. unfold ReapStaleCIJobs, now, gets, wrap, update_returning, update_rows, mbind, M_bind. cbn.
  assert (∀ j, j ∈ jobs w → stale (w_now w / 1000 * 1000) j → j_status j = Claimed ∧ job_move j (job_requeued j)) as Hm.
  { intros j _ [Hc _]. split; [done|by apply move_requeued]. }
  split; [by apply moves_ok|]. apply update_moves. intros j Hj Hs. by apply Hm.
Qed.

(** What [ClaimCIJob] answers is claimed. *)
Lemma ClaimCIJob_run pod ip w : queue_ok (jobs w) →
  queue_ok (jobs (ClaimCIJob pod ip w).1) ∧ queue_move (jobs w) (jobs (ClaimCIJob pod ip w).1) ∧
  match (ClaimCIJob pod ip w).2 with
  | Ok (Some job) => ∃ j, j ∈ jobs (ClaimCIJob pod ip w).1 ∧ job = scanCIJob j ∧ j_status j = Claimed
  | _ => True
  end.
Proof.
  intros Hw. unfold ClaimCIJob, now, gets, wrap, update_returning, update_rows, mbind, M_bind. cbn.
  destruct (next_queued pod (db_ci_jobs (w_db w))) as [j|] eqn:En; cbn.
  - destruct (claim_update (w_now w / 1000 * 1000) pod ip j _ _ Hw En eq_refl) as [Hok Hm].
    split_and!; [done|done|]. destruct (head _) as [j'|] eqn:Eh; [|done]. exists j'.
    apply head_Some_elem_of, list_elem_of_fmap in Eh as (k & -> & [Hk Hin]%list_elem_of_filter).
    split_and!; [|done|done]. apply elem_of_update_where. exists k. split; [done|]. by rewrite decide_True.
  - rewrite update_where_id by done. split_and!; [done|reflexivity|].
    destruct (head _) as [j'|] eqn:Eh; [|done].
    by apply head_Some_elem_of, list_elem_of_fmap in Eh as (k & -> & [Hk Hin]%list_elem_of_filter).
Qed.

(** The guards of heartbeats and completions. *)
Lemma job_of_request_world jobID auth c w : (job_of_request jobID auth c w).1.2 = w.
Proof.
  assert (cmoves eq (job_of_request jobID auth)) as Hm; [|symmetry; apply Hm].
  unfold job_of_request, lookupByToken, LookupRequestToken, query_row. solve_moves.
Qed.
Lemma job_of_request_ok jobID auth c w c' w' job :
  job_of_request jobID auth c w = (c', w', inr job) →
  ∃ j, j ∈ jobs w ∧ job = scanCIJob j ∧ j_id j = jobID ∧ j_status j = Claimed.
Proof.
  unfold job_of_request. intros (c1 & w1 & job1 & [-> E1]%call_ok & E)%hbind_ok.
  unfold lookupByToken in E1. destruct (bearer auth) as [plaintext|]; [|done].
  apply Lookup_ok in E1 as (-> & j & Hj & -> & Hv).
  apply hbind_ok in E as (c2 & w2 & u & (-> & -> & Hg)%guard_ok & (_ & _ & ->)%hret_ok).
  exists j. split_and!; [done|done| |apply Hv]. apply bool_decide_eq_false in Hg. cbn in Hg.
  by destruct (decide (j_id j = jobID)).
Qed.

#[local] Hint Resolve InsertCIJob_moves ReapStaleCIJobs_moves : trace.

Lemma webhook_sound signature body : cmoves sound_run (handleWebhook s signature body).
Proof.
  unfold handleWebhook, handleCommitCreated, handleProposalOpened, enqueue_synchronized, fetchOpenProposalForBranch, ListProposals.
  solve_moves.
Qed.
Lemma schedules_sound t : moves sound_run (runScheduledJobs s t).
Proof. unfold runScheduledJobs, run_schedules, fetchAllRepos, ListRepos. solve_moves. Qed.
Lemma reaper_sound : moves sound_run reaper_tick.
Proof. unfold reaper_tick. solve_moves. Qed.
Lemma trigger_sound name body : cmoves sound_run (handleTriggerCIRun name body).
Proof. unfold handleTriggerCIRun, validateRepo, GetBranch. solve_moves. Qed.

Lemma StoreRequestToken_sound j hashed exp w :
  queue_ok (jobs w) → j ∈ jobs w → j_status j = Claimed → sound_run w (StoreRequestToken (j_id j) hashed exp w).1.
Proof.
  intros Hw Hj Hc _. unfold StoreRequestToken, wrap, update_unique, update_rows, mbind, M_bind.
  destruct (pairwise_distinct _ _); cbn; [|by split].
  apply (guarded_update (job_with_token (Some hashed) (Some (timestamptz exp)))); [done..|by apply move_token].
Qed.
(** The world after two steps. *)
Lemma hbind_world {A B} (m : H A) (f : A → H B) c w :
  ((m ≫= f) c w).1.2 = match m c w with (_, w1, inl _) => w1 | (c1, w1, inr a) => (f a c1 w1).1.2 end.
Proof. unfold mbind, H_bind. by destruct (m c w) as [[c1 w1] [e|a]]. Qed.
Lemma call_world {A B} h (m : M A) (f : A → H B) c w :
  ((call h m ≫= f) c w).1.2 = match m w with (w1, Fail _) => w1 | (w1, Ok a) => (f a c w1).1.2 end.
Proof. rewrite hbind_world. unfold call, callP, lift. by destruct (m w) as [w1 [a|e]]. Qed.

Lemma claim_sound auth raw : cmoves sound_run (handleClaim s auth raw).
Proof.
  intros c w Hw. unfold handleClaim. set (pod := match sd_claimer s with None => _ | Some _ => _ end).
  assert (cmoves eq pod) as Hp by (unfold pod; solve_moves). specialize (Hp c w).
  rewrite hbind_world. destruct (pod c w) as [[c1 w1] [e|[podName podIP]]]; cbn in Hp; subst w1.
  { by apply (sound_same w w). }
  rewrite call_world. destruct (ClaimCIJob_run podName podIP w Hw) as (Hok & Hm & Hj).
  destruct (ClaimCIJob podName podIP w) as [w1 [[job|]|e]]; [|done..].
  destruct (GenerateRequestToken raw) as [[plaintext hashed]|e]; [|done].
  destruct Hj as (j & Hj & -> & Hc). cbn [fst] in *. rewrite call_world. cbn [time_Now gets]. rewrite call_world.
  destruct (StoreRequestToken_sound j hashed (w_now w1 + 24 * 3600 * 1000000000) w1 Hok Hj Hc Hok) as [H1 H2].
  cbn [Job_ID scanCIJob]. destruct (StoreRequestToken _ _ _ w1) as [w2 [u|e]]; cbn in *; (split; [done|by etrans]).
Qed.

(** What follows the guards is run when they let the job through. *)
Lemma guarded_moves {A} jobID auth (k : CIJob → H A) :
  (∀ j c w, queue_ok (jobs w) → j ∈ jobs w → j_status j = Claimed → sound_run w (k (scanCIJob j) c w).1.2) →
  cmoves sound_run (job_of_request jobID auth ≫= k).
Proof.
  intros Hk c w Hw. pose proof (job_of_request_world jobID auth c w) as Hr.
  rewrite hbind_world. destruct (job_of_request jobID auth c w) as [[c1 w1] [e|job]] eqn:E; cbn in Hr; subst w1.
  { by apply (sound_same w w). }
  apply job_of_request_ok in E as (j & Hj & -> & _ & Hc). by apply Hk.
Qed.
Lemma heartbeat_sound jobID auth : cmoves sound_run (handleHeartbeat jobID auth).
Proof.
  apply guarded_moves. intros j c w Hw Hj Hc _. cbn.
  apply (guarded_update (job_heartbeat (w_now w / 1000 * 1000))); [done..|by apply move_heartbeat].
Qed.
Lemma complete_sound jobID auth body : cmoves sound_run (handleComplete jobID auth body).
Proof.
  apply guarded_moves. intros j c w Hw Hj Hc _. destruct body as [req|]; [|done].
  unfold guard. destruct (bool_decide (cp_Status req = "")); [done|].
  destruct (bool_decide (cp_Status req ≠ "passed") && bool_decide (cp_Status req ≠ "failed")) eqn:Eg; [done|].
  assert (∃ st, (st = Passed ∨ st = Failed) ∧ parse_ci_job_status (cp_Status req) = Some st) as (st & Hst & Ep).
  { apply andb_false_iff in Eg as [Eg|Eg]; apply bool_decide_eq_false in Eg;
      apply dec_stable in Eg; rewrite Eg; eauto. }
  cbn. unfold call, callP, lift, mbind, H_bind, CompleteCIJob, wrap, M_bind, cast_status. cbn. rewrite Ep. cbn.
  apply (guarded_update (job_completed st (cp_LogURL req) (cp_ErrorMessage req))); [done..|].
  destruct Hst as [-> | ->]; [by apply move_passed|by apply move_failed].
Qed.

(** ** The program around the queue *)

(** A request the scheduler answers, a tick of one of its clocks, a run that
    docstore queues on request, or anything that leaves the queue alone. *)
Inductive queue_step : World → World → Prop :=
| q_webhook signature body c w : queue_step w (handleWebhook s signature body c w).1.2
| q_claim auth raw c w : queue_step w (handleClaim s auth raw c w).1.2
| q_heartbeat jobID auth c w : queue_step w (handleHeartbeat jobID auth c w).1.2
| q_complete jobID auth body c w : queue_step w (handleComplete jobID auth body c w).1.2
| q_schedules t w : queue_step w (runScheduledJobs s t w).1
| q_reaper w : queue_step w (reaper_tick w).1
| q_trigger name body c w : queue_step w (handleTriggerCIRun name body c w).1.2
| q_other w w' : jobs w' = jobs w → queue_step w w'.

Lemma step_sound w w' : queue_step w w' → sound_run w w'.
Proof.
  intros [signature body c v|auth raw c v|jobID auth c v|jobID auth body c v|t v|v|name body c v|v v' E].
  - apply webhook_sound.
  - apply claim_sound.
  - apply heartbeat_sound.
  - apply complete_sound.
  - apply schedules_sound.
  - apply reaper_sound.
  - apply trigger_sound.
  - by apply sound_same.
Qed.
Lemma steps_sound w w' : rtc queue_step w w' → sound_run w w'.
Proof. induction 1 as [|w w1 w2 H1 _ IH]; [reflexivity|]. etrans; [by apply step_sound|done]. Qed.


(** ** Claims *)

Definition waiting (l : list ci_job) : list ci_job := filter (λ j, j_status j = Queued) l.

Lemma waiting_status l l' : j_status <$> l' = j_status <$> l → length (waiting l') = length (waiting l).
Proof.
  revert l'. induction l as [|j l IH]; intros [|j' l'] E; [done..|]. injection E as E1 E2.
  specialize (IH l' E2). unfold waiting in *. rewrite !filter_cons, E1. destruct (decide _); cbn; congruence.
Qed.
Lemma waiting_claim f j l :
  NoDup (j_id <$> l) → j ∈ l → j_status j = Queued → (∀ k, j_status (f k) ≠ Queued) →
  S (length (waiting (update_where (λ k, Some (j_id k) = Some (j_id j)) f l))) = length (waiting l).
Proof.
  intros Hn Hj Hq Hf. induction l as [|k l IH]; [by apply not_elem_of_nil in Hj|].
  rewrite fmap_cons in Hn. apply NoDup_cons in Hn as [Hk Hn].
  change (update_where ?P f (k :: l)) with ((if decide (Some (j_id k) = Some (j_id j)) then f k else k) :: update_where P f l).
  unfold waiting in *. destruct (decide (Some (j_id k) = Some (j_id j))) as [[= E]|E].
  - rewrite (filter_cons_False _ (f k)) by apply Hf. apply elem_of_cons in Hj as [Ej|Hj]; [subst k|].
    2:{ destruct Hk. rewrite E. by apply list_elem_of_fmap_2. }
    rewrite filter_cons_True by done. cbn. rewrite update_where_id; [done|].
    intros x Hx [= Ex]. destruct Hk. rewrite <- Ex. by apply list_elem_of_fmap_2.
  - apply elem_of_cons in Hj as [->|Hj]; [done|]. specialize (IH Hn Hj). rewrite !filter_cons.
    destruct (decide (j_status k = Queued)); cbn; lia.
Qed.

(** A job before and after a claim of a pod. *)
Definition served (pod : string) (j j' : ci_job) : Prop :=
  j_id j' = j_id j ∧
  (j_status j' = j_status j ∧ j_worker_pod j' = j_worker_pod j ∨ j_status j = Queued ∧ claimed_by pod j').

Lemma Forall2_update {P} `{!∀ j : ci_job, Decision (P j)} (R : ci_job → ci_job → Prop) f l :
  (∀ j, R j j) → (∀ j, j ∈ l → P j → R j (f j)) → Forall2 R l (update_where P f l).
Proof.
  intros Hr Hf. unfold update_where. apply Forall2_fmap_r, Forall_Forall2_diag, Forall_forall. intros j Hj. cbn.
  case_decide; auto.
Qed.
Lemma served_refl pod j : served pod j j.
Proof. split; [done|by left]. Qed.

Lemma ClaimCIJob_serves pod ip w :
  queue_ok (jobs w) → (∀ j, j ∈ jobs w → ¬ claimed_by pod j) →
  length (waiting (jobs (ClaimCIJob pod ip w).1)) = pred (length (waiting (jobs w))) ∧
  Forall2 (served pod) (jobs w) (jobs (ClaimCIJob pod ip w).1).
Proof.
  intros Hw Hp. unfold ClaimCIJob, now, gets, wrap, update_returning, update_rows, mbind, M_bind. cbn.
  assert (filter (claimed_by pod) (jobs w) = []) as Hf.
  { apply elem_of_nil_inv. by intros j [Hc Hj%Hp]%list_elem_of_filter. }
  destruct (next_queued pod (db_ci_jobs (w_db w))) as [j|] eqn:En; cbn.
  - destruct (next_queued_ok _ _ _ En) as (Hj & Hq & _). split.
    + apply eq_add_S. etrans; [by apply (waiting_claim (job_claimed _ pod ip) j (jobs w)); [apply Hw|..]|].
      unfold jobs in *. destruct (waiting _) eqn:Ew; [|done]. exfalso.
      assert (j ∈ waiting (db_ci_jobs (w_db w))) as Hin by (by apply list_elem_of_filter).
      rewrite Ew in Hin. by apply not_elem_of_nil in Hin.
    + apply Forall2_update; [apply served_refl|]. intros k Hk [= E].
      assert (k = j) as -> by (apply (NoDup_fmap_inj j_id (jobs w)); [apply Hw|done..]). split; [done|by right].
  - rewrite update_where_id by done. split; [|apply Forall_Forall2_diag, Forall_true, served_refl].
    unfold next_queued in En. rewrite bool_decide_true in En by exact Hf.
    unfold waiting, jobs. destruct (filter (λ j, j_status j = Queued) (db_ci_jobs (w_db w))) as [|x l]; [done|]. exfalso.
    unfold order_by_asc in En. pose proof (merge_sort_Permutation (num_asc j_created_at) (x :: l)) as Hperm.
    destruct (merge_sort _ (x :: l)); [|done].
    by apply Permutation_nil_cons in Hperm.
Qed.

(** Storing a token is not seen here. *)
Definition unseen (j j' : ci_job) : Prop :=
  j_id j' = j_id j ∧ j_status j' = j_status j ∧ j_worker_pod j' = j_worker_pod j.
Lemma StoreRequestToken_unseen id hashed exp w :
  Forall2 unseen (jobs w) (jobs (StoreRequestToken id hashed exp w).1).
Proof.
  assert (Forall2 unseen (jobs w) (jobs w)) as Hr by (by apply Forall_Forall2_diag, Forall_true).
  unfold StoreRequestToken, wrap, update_unique, update_rows, mbind, M_bind.
  destruct (pairwise_distinct _ _); [|done]. cbn. by apply Forall2_update.
Qed.
Lemma unseen_waiting l l' : Forall2 unseen l l' → length (waiting l') = length (waiting l).
Proof.
  intros Hl. apply waiting_status. induction Hl as [|j j' l l' (_ & E & _) _ IH]; [done|].
  by rewrite !fmap_cons, E, IH.
Qed.

(** Who the scheduler takes the sender of a claim for. *)
Definition admitted (authorization pod : string) : Prop :=
  match sd_claimer s with
  | Some validateToken => ∃ ip, validateToken (TrimPrefix authorization "Bearer ") = Ok (pod, ip)
  | None => pod = ""
  end.

Lemma handleClaim_serves auth raw pod c w :
  queue_ok (jobs w) → admitted auth pod → (∀ j, j ∈ jobs w → ¬ claimed_by pod j) →
  length (waiting (jobs (handleClaim s auth raw c w).1.2)) = pred (length (waiting (jobs w))) ∧
  Forall2 (served pod) (jobs w) (jobs (handleClaim s auth raw c w).1.2).
Proof.
  intros Hw Ha Hp. unfold handleClaim. rewrite hbind_world.
  assert (∃ ip, match sd_claimer s with
    | None => mret ("", "")
    | Some validateToken => match validateToken (TrimPrefix auth "Bearer ") with
        | Fail _ => fault (http_Error "unauthorized" 401) | Ok pod => mret pod end
    end c w = (c, w, inr (pod, ip))) as [ip ->].
  { unfold admitted in Ha. destruct (sd_claimer s) as [v|]; [|subst pod; by exists ""].
    destruct Ha as [ip ->]. by exists ip. }
  rewrite call_world. destruct (ClaimCIJob_serves pod ip w Hw Hp) as [Hn Hf].
  destruct (ClaimCIJob pod ip w) as [w1 [[job|]|e]]; [|done..].
  destruct (GenerateRequestToken raw) as [[plaintext hashed]|e]; [|done].
  cbn [fst] in *. rewrite call_world. cbn [time_Now gets]. rewrite call_world.
  pose proof (StoreRequestToken_unseen (Job_ID job) hashed (w_now w1 + 24 * 3600 * 1000000000) w1) as Hu.
  destruct (StoreRequestToken _ _ _ w1) as [w2 r]. cbn [fst] in Hu.
  assert (length (waiting (jobs w2)) = pred (length (waiting (jobs w))) ∧ Forall2 (served pod) (jobs w) (jobs w2)) as Hr.
  { split; [by rewrite (unseen_waiting _ _ Hu)|]. eapply Forall2_trans; [|exact Hf|exact Hu].
    intros x y z [Hxy Hs] (Hyz & E1 & E2). split; [by rewrite Hyz|].
    unfold claimed_by in *. by rewrite E1, E2. }
  by destruct r.
Qed.

(** The requests in turn, each finding the world the one before left. *)
Definition claim_all (reqs : list (string * result (list Z))) (c : Cache) (w : World) : Cache * World :=
  foldl (λ cw req, (handleClaim s req.1 req.2 cw.1 cw.2).1) (c, w) reqs.

Definition served_by (pods : list string) (j j' : ci_job) : Prop :=
  j_id j' = j_id j ∧
  (j_status j' = j_status j ∧ j_worker_pod j' = j_worker_pod j ∨
   j_status j = Queued ∧ ∃ pod, pod ∈ pods ∧ claimed_by pod j').

Lemma claim_all_serves reqs pods c w :
  queue_ok (jobs w) → Forall2 (λ req pod, admitted req.1 pod) reqs pods → NoDup pods →
  (∀ pod j, pod ∈ pods → j ∈ jobs w → ¬ claimed_by pod j) →
  length (waiting (jobs (claim_all reqs c w).2)) = (length (waiting (jobs w)) - length reqs)%nat ∧
  Forall2 (served_by pods) (jobs w) (jobs (claim_all reqs c w).2).
Proof.
  intros Hw Ha. revert c w Hw. induction Ha as [|[auth raw] pod reqs pods Ha _ IH]; intros c w Hw Hn Hp.
  { cbn. split; [lia|]. apply Forall_Forall2_diag, Forall_true. split; [done|by left]. }
  apply NoDup_cons in Hn as [Hni Hn]. cbn [claim_all foldl fst snd] in *.
  destruct (handleClaim_serves auth raw pod c w Hw Ha) as [Hl Hf].
  { intros j. apply Hp. by left. }
  destruct (claim_sound auth raw c w Hw) as [Hok _].
  destruct (handleClaim s auth raw c w) as [[c1 w1] r]. cbn [fst snd] in *.
  destruct (IH c1 w1 Hok Hn) as [Hl2 Hf2].
  { intros q j' Hq Hj' Hc. apply list_elem_of_lookup in Hj' as [i Hj'].
    destruct (Forall2_lookup_r _ _ _ _ _ Hf Hj') as (j & Hj%list_elem_of_lookup_2 & _ & [[E1 E2]|[_ [E _]]]).
    - apply (Hp q j); [by right|done|]. unfold claimed_by in *. by rewrite <- E1, <- E2.
    - destruct Hc as [Hc _]. rewrite E in Hc. injection Hc as ->. done. }
  unfold claim_all in Hl2, Hf2. split; [cbn [length]; rewrite Hl2, Hl; lia|].
  eapply Forall2_trans; [|exact Hf|exact Hf2].
  intros x y z [Hxy Hs] [Hyz Hs2]. split; [congruence|].
  destruct Hs as [[E1 E2]|[Hq Hc]], Hs2 as [[E3 E4]|(Hq2 & q & Hq3 & Hc2)].
  - left. by rewrite E3, E4.
  - right. split; [congruence|]. exists q. split; [by right|done].
  - right. split; [done|]. exists pod. split; [by left|]. unfold claimed_by in *. by rewrite E3, E4.
  - destruct Hc as [_ Hc]. congruence.
Qed.

(** A job that waits, or that a worker has left for two minutes. *)
Definition abandoned (t : Z) (j : ci_job) : Prop := j_status j = Queued ∨ stale t j.
#[export] Instance abandoned_dec t j : Decision (abandoned t j).
Proof. unfold abandoned. apply _. Defined.

Definition reaped (t : Z) (j j' : ci_job) : Prop :=
  j_id j' = j_id j ∧ (abandoned t j → j_status j' = Queued) ∧ (∀ pod, claimed_by pod j' → claimed_by pod j).
Lemma reaper_reaps w :
  Forall2 (reaped (w_now w / 1000 * 1000)) (jobs w) (jobs (reaper_tick w).1) ∧
  length (waiting (jobs (reaper_tick w).1)) = length (filter (abandoned (w_now w / 1000 * 1000)) (jobs w)).
Proof.
  assert (jobs (reaper_tick w).1 = update_where (stale (w_now w / 1000 * 1000)) job_requeued (jobs w)) as -> by done.
  set (t := w_now w / 1000 * 1000). unfold update_where. split.
  - apply Forall2_fmap_r, Forall_Forall2_diag, Forall_true. intros j. cbn. unfold reaped, abandoned, claimed_by.
    case_decide; split_and!; [done|done|by intros ? [? ?]|done|by intros [?|?]|done].
  - unfold waiting. induction (jobs w) as [|j l IH]; [done|]. rewrite fmap_cons, !filter_cons.
    unfold abandoned at 1. destruct (decide (stale t j)) as [Hs|Hs].
    + rewrite decide_True by done. rewrite decide_True by (by right). cbn. by rewrite IH.
    + destruct (decide (j_status j = Queued)) as [Hq|Hq].
      * rewrite decide_True by (by left). cbn. by rewrite IH.
      * rewrite decide_False by (by intros [?|?]). exact IH.
Qed.

(** C26: no job is left waiting.  In any state the queue can come to, take the
    jobs that wait and those whose worker has not been heard of for two minutes.
    After a tick of the reaper, as many claims as there are such jobs, from pods
    that work for none, give every one of them to one of the pods, whatever
    happens to the tokens that are made out for them. *)
Theorem queue_drains reqs pods c w0 w :
  jobs w0 = [] → rtc queue_step w0 w →
  Forall2 (λ req pod, admitted req.1 pod) reqs pods → NoDup pods →
  (∀ pod j, pod ∈ pods → j ∈ jobs w → ¬ claimed_by pod j) →
  (length (filter (abandoned (w_now w / 1000 * 1000)) (jobs w)) ≤ length reqs)%nat →
  ∀ j, j ∈ jobs w → abandoned (w_now w / 1000 * 1000) j →
  ∃ j' pod, j' ∈ jobs (claim_all reqs c (reaper_tick w).1).2 ∧ job_spec j' = job_spec j ∧ pod ∈ pods ∧ claimed_by pod j'.
Proof.
  intros H0 Hs%steps_sound Ha Hn Hp Hl j Hj Hab.
  assert (queue_ok (jobs w)) as Hw.
  { apply Hs. rewrite H0. split; [constructor|..]; intros; by apply not_elem_of_nil in H. }
  destruct (reaper_sound w Hw) as [Hw1 _]. destruct (reaper_reaps w) as [Hr Hrl].
  destruct (claim_all_serves reqs pods c _ Hw1 Ha Hn) as [Hcl Hc].
  { intros pod x Hpod (i & Hx)%list_elem_of_lookup Hcb.
    destruct (Forall2_lookup_r _ _ _ _ _ Hr Hx) as (y & Hy%list_elem_of_lookup_2 & _ & _ & Hk).
    by apply (Hp pod y), Hk. }
  apply list_elem_of_lookup in Hj as [i Hj].
  destruct (Forall2_lookup_l _ _ _ _ _ Hr Hj) as (j1 & Hj1 & _ & Hq & _). specialize (Hq Hab).
  destruct (Forall2_lookup_l _ _ _ _ _ Hc Hj1) as (j2 & Hj2 & _ & Hst).
  assert (waiting (jobs (claim_all reqs c (reaper_tick w).1).2) = []) as Hnone.
  { apply length_zero_iff_nil. rewrite Hcl, Hrl. lia. }
  destruct Hst as [[E _]|(_ & pod & Hpod & Hcb)].
  - exfalso. apply (not_elem_of_nil j2). rewrite <- Hnone. apply list_elem_of_filter.
    split; [congruence|by eapply list_elem_of_lookup_2].
  - exists j2, pod. split_and!; [by eapply list_elem_of_lookup_2| |done|done].
    assert (sound_run w (claim_all reqs c (reaper_tick w).1).2) as Hm.
    { etrans; [apply reaper_sound|]. clear. revert c. generalize (reaper_tick w).1 as v.
      induction reqs as [|[auth raw] reqs IH]; intros v c; [reflexivity|]. cbn [claim_all foldl fst snd].
      pose proof (claim_sound auth raw c v) as Hc. destruct (handleClaim s auth raw c v) as [[c1 v1] r].
      etrans; [exact Hc|]. apply IH. }
    destruct (Hm Hw) as [_ (moved & fresh & E & Hf & _)].
    destruct (Forall2_lookup_l _ _ _ _ _ Hf Hj) as (j3 & Hj3 & Hm3). apply moves_spec in Hm3.
    assert ((moved ++ fresh) !! i = Some j3) as E3 by (apply lookup_app_l_Some; exact Hj3).
    rewrite <- E, Hj2 in E3. by injection E3 as ->.
Qed.
End Scheduler.

(** ** Samples *)

(** Pods prove themselves with their names.  A proposal queues a job, which a
    pod claims and leaves; three minutes pass. *)
Definition pod_scheduler : scheduler := mkScheduler true "" (Some (λ tok, Ok (tok, "ip"))) "" "".
Definition queued_world : World := (handleWebhook pod_scheduler "" (Ok "opened") ∅ config_world).1.2.
Definition claimed_world : World := (handleClaim pod_scheduler "Bearer pod-1" (Ok [1; 2; 3]) ∅ queued_world).1.2.
Definition left_world : World :=
  mkWorld (w_db claimed_world) (w_commit_seq claimed_world) (w_event_seq claimed_world) (w_uuids claimed_world)
    (w_blobs claimed_world) (w_now claimed_world + 180 * 1000000000).

Lemma left_same : jobs left_world = jobs claimed_world.
Proof. unfold jobs, left_world. cbn [w_db]. reflexivity. Qed.
Lemma left_steps : rtc (queue_step pod_scheduler) config_world left_world.
Proof.
  apply (rtc_l _ _ queued_world); [exact (q_webhook pod_scheduler "" (Ok "opened") ∅ config_world)|].
  apply (rtc_l _ _ claimed_world); [exact (q_claim pod_scheduler "Bearer pod-1" (Ok [1; 2; 3]) ∅ queued_world)|].
  apply rtc_once, q_other, left_same.
Qed.
Lemma config_no_jobs : jobs config_world = [].
Proof. vm_compute. reflexivity. Qed.
Lemma left_job : ∃ j, jobs left_world = [j] ∧ stale (w_now left_world / 1000 * 1000) j ∧ j_worker_pod j = Some "pod-1" ∧
  j_branch j = "dev".
Proof. eexists. split; [vm_compute; reflexivity|]. split; [split; [reflexivity|vm_compute; reflexivity]|]. split; reflexivity. Qed.


Lemma queue_drains_witness :
  ∃ j', j' ∈ jobs (claim_all pod_scheduler [("Bearer pod-2", Ok [4])] ∅ (reaper_tick left_world).1).2 ∧
    claimed_by "pod-2" j' ∧ j_branch j' = "dev".
Proof.
  destruct left_job as (j & E & Hs & Hp & Hb). assert (j ∈ jobs left_world) as Hj by (rewrite E; left).
  destruct (queue_drains pod_scheduler [("Bearer pod-2", Ok [4])] ["pod-2"] ∅ config_world left_world
    config_no_jobs left_steps) with (j := j) as (j' & pod & Hj' & Hspec & Hpod & Hc).
  - constructor; [exists "ip"; reflexivity|constructor].
  - apply NoDup_singleton.
  - intros pod k ->%list_elem_of_singleton Hk. rewrite E in Hk. apply list_elem_of_singleton in Hk as ->.
    intros [Hc _]. rewrite Hp in Hc. discriminate Hc.
  - rewrite E. etransitivity; [apply length_filter|]. reflexivity.
  - exact Hj.
  - right. exact Hs.
  - apply list_elem_of_singleton in Hpod as ->. exists j'. split; [exact Hj'|]. split; [exact Hc|].
    injection Hspec. intros. congruence.
Defined.
