(* ===== verification/LineDiff.v ===== *)
(** * The inline diff of the web interface (internal/ui/diff.go)

    The edit script of two lists of lines, by the table of their longest common
    subsequences, and its hunks.  Lengths are [nat]: a side has at most 512 KB. *)

From Stdlib Require Import Ascii.
From S2P Require Import Prelude GoStd.

(** The kinds of lines: "add", "del", "ctx", "hunk". *)
Inductive line_kind := K_add | K_del | K_ctx | K_hunk.
#[export] Instance line_kind_eq_dec : EqDecision line_kind.
Proof. solve_decision. Defined.

(** [type commitDiffLine], [type commitFileDiffData], [type editOp] *)
Record commitDiffLine := mkDiffLine { cd_Kind : line_kind; cd_Content : string }.
Record commitFileDiffData := mkFileDiff { fd_Lines : list commitDiffLine; fd_Binary : bool }.
Record editOp := mkEditOp { op_kind : line_kind; op_content : string }.

(** No null among the first 512 bytes (render.go). *)
Definition isProbablyText (b : string) : bool :=
  negb (bool_decide (ascii_of_byte 0 ∈ take 512 (String.list_ascii_of_string b))).

Definition newline : ascii := ascii_of_byte 10.
Definition splitIntoLines (b : string) : list string :=
  if bool_decide (b = "") then [] else Split newline (TrimRight newline b).

(** ** The table *)

(** A row of [dp] from its second column on: [up] and [left] are the entries
    above and before, [diag] the one before [up]. *)
Fixpoint fill_row (x : string) (b : list string) (diag left : nat) (prev : list nat) : list nat :=
  match b, prev with
  | y :: b, up :: prev =>
      let v := if bool_decide (x = y) then S diag else if (left <=? up)%nat then up else left in
      v :: fill_row x b up v prev
  | _, _ => []
  end.
Definition next_row (x : string) (b : list string) (row : list nat) : list nat :=
  match row with r0 :: prev => 0%nat :: fill_row x b r0 0 prev | [] => [] end.
Fixpoint dp_rows (a b : list string) (row : list nat) : list (list nat) :=
  row :: match a with [] => [] | x :: a => dp_rows a b (next_row x b row) end.
Definition dp_table (a b : list string) : list (list nat) := dp_rows a b (replicate (S (length b)) 0%nat).

(** ** Walking back *)

Section Backtrack.
Context (a b : list string) (dp : list (list nat)).
Definition entry (i j : nat) : nat := default 0%nat (dp !! i ≫= lookup j).
Definition line_of (l : list string) (i : nat) : string := default "" (l !! i).

(** The loop from [(i, j)]: every turn takes at least one away. *)
Fixpoint backtrack (fuel i j : nat) : list editOp :=
  match fuel with
  | O => []
  | S fuel =>
      match i, j with
      | O, O => []
      | S i', O => mkEditOp K_del (line_of a i') :: backtrack fuel i' O
      | O, S j' => mkEditOp K_add (line_of b j') :: backtrack fuel O j'
      | S i', S j' =>
          if bool_decide (line_of a i' = line_of b j')
          then mkEditOp K_ctx (line_of a i') :: backtrack fuel i' j'
          else if (entry i' j <=? entry i j')%nat
          then mkEditOp K_add (line_of b j') :: backtrack fuel i j'
          else mkEditOp K_del (line_of a i') :: backtrack fuel i' j
      end
  end.
End Backtrack.

Definition lcsEditScript (a b : list string) : list editOp :=
  reverse (backtrack a b (dp_table a b) (length a + length b) (length a) (length b)).

(** ** Hunks *)

Definition is_change (op : editOp) : bool := negb (bool_decide (op_kind op = K_ctx)).
(** The indices of [include] that an operation sets. *)
Definition around (n ctx i : nat) : list nat := seq (i - ctx) (S (min (n - 1) (i + ctx)) - (i - ctx)).
Definition mark (n ctx : nat) (include : list bool) (iop : nat * editOp) : list bool :=
  if is_change iop.2 then foldl (λ inc j, <[j := true]> inc) include (around n ctx iop.1) else include.
Definition included (ops : list editOp) (ctx : nat) : list bool :=
  foldl (mark (length ops) ctx) (replicate (length ops) false) (zip (seq 0 (length ops)) ops).

(** Lines of the old and of the new side. *)
Definition count_old (ops : list editOp) : nat := length (filter (λ op, op_kind op ≠ K_add) ops).
Definition count_new (ops : list editOp) : nat := length (filter (λ op, op_kind op ≠ K_del) ops).

Definition prefix_of_kind (k : line_kind) : string :=
  match k with K_add => "+" | K_del => "-" | _ => " " end.
Definition header (oldStart oldCount newStart newCount : nat) : string :=
  let d n := FormatInt (Z.of_nat n) in
  "@@ -" +:+ d oldStart +:+ "," +:+ d oldCount +:+ " +" +:+ d newStart +:+ "," +:+ d newCount +:+ " @@".
Definition hunk_line (op : editOp) : commitDiffLine :=
  mkDiffLine (op_kind op) (prefix_of_kind (op_kind op) +:+ op_content op).

(** The length of the run of included lines at the front. *)
Fixpoint run_length (l : list bool) : nat :=
  match l with true :: l => S (run_length l) | _ => 0%nat end.

(** The outer loop from [i]. *)
Fixpoint hunks_from (ops : list editOp) (include : list bool) (fuel i : nat) : list commitDiffLine :=
  match fuel with
  | O => []
  | S fuel =>
      match drop i include with
      | [] => []
      | false :: _ => hunks_from ops include fuel (S i)
      | true :: _ =>
          let n := run_length (drop i include) in
          let before := take i ops in
          let hunk := take n (drop i ops) in
          mkDiffLine K_hunk (header (S (count_old before)) (count_old hunk) (S (count_new before)) (count_new hunk))
          :: (hunk_line <$> hunk) ++ hunks_from ops include fuel (i + n)
      end
  end.
Definition opsToHunks (ops : list editOp) (ctx : nat) : list commitDiffLine :=
  hunks_from ops (included ops ctx) (S (length ops)) 0.

Definition sizeLimit : Z := 512 * 1024.
Definition computeFileDiff (oldContent newContent path : string) : commitFileDiffData :=
  if negb (isProbablyText oldContent) || negb (isProbablyText newContent) then mkFileDiff [] true else
  if (sizeLimit <? Z.of_nat (String.length oldContent)) || (sizeLimit <? Z.of_nat (String.length newContent))
  then mkFileDiff [] true else
  mkFileDiff (opsToHunks (lcsEditScript (splitIntoLines oldContent) (splitIntoLines newContent)) 3) false.

Example diff_example :
  cd_Content <$> fd_Lines (computeFileDiff
    ("a" +:+ String newline "b" +:+ String newline "c" +:+ String newline "")
    ("a" +:+ String newline "x" +:+ String newline "c" +:+ String newline "d") "f")
  = ["@@ -1,3 +1,4 @@"; " a"; "-b"; "+x"; " c"; "+d"].
Proof. vm_compute. reflexivity. Qed.
