(* ===== verification/Highlight.v ===== *)
(** * Syntax highlighting of the file view (internal/ui/highlight.go)

    A file is cut into tokens by the language of its extension, and each of its
    lines becomes HTML.  Indices into the text are texts that are left to read;
    [tokenize] has the length of the text as fuel, which [tokenize_text] shows to
    be enough.  [html_text] reads the HTML of a line as a browser does that knows
    the spans of the highlighter and the entities of the escaping, and nothing
    else: nothing of the file is lost and nothing becomes markup. *)

From Stdlib Require Import Ascii.
From S2P Require Import Prelude GoStd LineDiff.

(** ** Languages *)

Inductive tokenKind := tkText | tkKeyword | tkString | tkComment | tkNumber.
#[export] Instance tokenKind_eq_dec : EqDecision tokenKind.
Proof. solve_decision. Defined.
Definition class (k : tokenKind) : string :=
  match k with
  | tkKeyword => "hl-k" | tkString => "hl-s" | tkComment => "hl-c" | tkNumber => "hl-n" | tkText => ""
  end.

Record token := mkToken { tk_kind : tokenKind; tk_text : string }.

Record language := mkLanguage {
  lg_keywords : list string; lg_lineComments : list string;
  lg_blockOpen : string; lg_blockClose : string; lg_stringDelims : list ascii;
}.

Definition dquot : ascii := ascii_of_byte 34.
Definition squot : ascii := ascii_of_byte 39.
Definition bquot : ascii := ascii_of_byte 96.
Definition backslash : ascii := ascii_of_byte 92.

Definition langGo : language := mkLanguage [
    "break"; "case"; "chan"; "const"; "continue"; "default"; "defer"; "else"; "fallthrough"; "for"; "func";
    "go"; "goto"; "if"; "import"; "interface"; "map"; "package"; "range"; "return"; "select"; "struct";
    "switch"; "type"; "var"; "true"; "false"; "nil"; "iota"]
  ["//"] "/*" "*/" [dquot; squot; bquot].
Definition langC : language := mkLanguage [
    "auto"; "break"; "case"; "char"; "const"; "continue"; "default"; "do"; "double"; "else"; "enum";
    "extern"; "float"; "for"; "goto"; "if"; "inline"; "int"; "long"; "register"; "restrict"; "return";
    "short"; "signed"; "sizeof"; "static"; "struct"; "switch"; "typedef"; "union"; "unsigned"; "void";
    "volatile"; "while"; "true"; "false"; "NULL"; "class"; "namespace"; "template"; "typename"; "public";
    "private"; "protected"; "virtual"; "new"; "delete"; "this"; "nullptr"]
  ["//"] "/*" "*/" [dquot; squot].
Definition langJS : language := mkLanguage [
    "async"; "await"; "break"; "case"; "catch"; "class"; "const"; "continue"; "debugger"; "default";
    "delete"; "do"; "else"; "export"; "extends"; "finally"; "for"; "from"; "function"; "if"; "import";
    "in"; "instanceof"; "let"; "new"; "null"; "of"; "return"; "super"; "switch"; "this"; "throw"; "try";
    "typeof"; "var"; "void"; "while"; "with"; "yield"; "true"; "false"; "undefined"; "interface"; "type";
    "enum"; "implements"; "readonly"; "public"; "private"; "protected"; "namespace"; "as"]
  ["//"] "/*" "*/" [dquot; squot; bquot].
Definition langPython : language := mkLanguage [
    "and"; "as"; "assert"; "async"; "await"; "break"; "class"; "continue"; "def"; "del"; "elif"; "else";
    "except"; "finally"; "for"; "from"; "global"; "if"; "import"; "in"; "is"; "lambda"; "nonlocal"; "not";
    "or"; "pass"; "raise"; "return"; "try"; "while"; "with"; "yield"; "True"; "False"; "None"; "self"]
  ["#"] "" "" [dquot; squot].
Definition langRust : language := mkLanguage [
    "as"; "async"; "await"; "break"; "const"; "continue"; "crate"; "dyn"; "else"; "enum"; "extern";
    "false"; "fn"; "for"; "if"; "impl"; "in"; "let"; "loop"; "match"; "mod"; "move"; "mut"; "pub"; "ref";
    "return"; "self"; "Self"; "static"; "struct"; "super"; "trait"; "true"; "type"; "unsafe"; "use";
    "where"; "while"]
  ["//"] "/*" "*/" [dquot; squot].
Definition langJava : language := mkLanguage [
    "abstract"; "assert"; "boolean"; "break"; "byte"; "case"; "catch"; "char"; "class"; "const";
    "continue"; "default"; "do"; "double"; "else"; "enum"; "extends"; "final"; "finally"; "float"; "for";
    "goto"; "if"; "implements"; "import"; "instanceof"; "int"; "interface"; "long"; "native"; "new";
    "package"; "private"; "protected"; "public"; "return"; "short"; "static"; "strictfp"; "super";
    "switch"; "synchronized"; "this"; "throw"; "throws"; "transient"; "try"; "void"; "volatile"; "while";
    "true"; "false"; "null"; "var"]
  ["//"] "/*" "*/" [dquot; squot].
Definition langShell : language := mkLanguage [
    "if"; "then"; "else"; "elif"; "fi"; "case"; "esac"; "for"; "while"; "until"; "do"; "done"; "in";
    "function"; "return"; "break"; "continue"; "local"; "export"; "readonly"; "declare"; "unset"; "shift";
    "set"; "true"; "false"]
  ["#"] "" "" [dquot; squot].
Definition langRuby : language := mkLanguage [
    "BEGIN"; "END"; "alias"; "and"; "begin"; "break"; "case"; "class"; "def"; "defined?"; "do"; "else";
    "elsif"; "end"; "ensure"; "false"; "for"; "if"; "in"; "module"; "next"; "nil"; "not"; "or"; "redo";
    "rescue"; "retry"; "return"; "self"; "super"; "then"; "true"; "undef"; "unless"; "until"; "when";
    "while"; "yield"]
  ["#"] "" "" [dquot; squot].
Definition langYAML : language := mkLanguage []
  ["#"] "" "" [dquot; squot].
Definition langJSON : language := mkLanguage []
  [] "" "" [dquot].
Definition langSQL : language := mkLanguage [
    "SELECT"; "FROM"; "WHERE"; "INSERT"; "INTO"; "VALUES"; "UPDATE"; "SET"; "DELETE"; "CREATE"; "TABLE";
    "INDEX"; "VIEW"; "DROP"; "ALTER"; "ADD"; "COLUMN"; "PRIMARY"; "KEY"; "FOREIGN"; "REFERENCES"; "JOIN";
    "INNER"; "LEFT"; "RIGHT"; "OUTER"; "ON"; "AS"; "AND"; "OR"; "NOT"; "NULL"; "IS"; "IN"; "LIKE";
    "BETWEEN"; "ORDER"; "BY"; "GROUP"; "HAVING"; "LIMIT"; "OFFSET"; "DISTINCT"; "UNION"; "ALL"; "CASE";
    "WHEN"; "THEN"; "ELSE"; "END"; "BEGIN"; "COMMIT"; "ROLLBACK"; "select"; "from"; "where"; "insert";
    "into"; "values"; "update"; "set"; "delete"; "create"; "table"; "index"; "view"; "drop"; "alter";
    "add"; "column"; "primary"; "key"; "foreign"; "references"; "join"; "inner"; "left"; "right"; "outer";
    "on"; "as"; "and"; "or"; "not"; "null"; "is"; "in"; "like"; "between"; "order"; "by"; "group";
    "having"; "limit"; "offset"; "distinct"; "union"; "all"; "case"; "when"; "then"; "else"; "end";
    "begin"; "commit"; "rollback"]
  ["--"] "/*" "*/" [squot; dquot].

(** [strings.ToLower], on ASCII: no other letter becomes one of an extension
    below. *)
Fixpoint ToLower (s : string) : string :=
  match s with
  | EmptyString => EmptyString
  | String c s =>
      let b := byte_of_ascii c in
      String (if (65 <=? b) && (b <=? 90) then ascii_of_byte (b + 32) else c) (ToLower s)
  end.

Definition extensions : list (list string * language) :=
  [([".go"], langGo);
   ([".c"; ".h"; ".cc"; ".cpp"; ".cxx"; ".hh"; ".hpp"], langC);
   ([".js"; ".mjs"; ".cjs"; ".jsx"; ".ts"; ".tsx"], langJS);
   ([".py"], langPython); ([".rs"], langRust); ([".java"], langJava);
   ([".sh"; ".bash"; ".zsh"], langShell); ([".rb"], langRuby);
   ([".yaml"; ".yml"], langYAML); ([".json"], langJSON); ([".sql"], langSQL)].
Definition detectLanguage (p : string) : option language :=
  let ext := ToLower (path_Ext p) in
  match filter (λ x, ext ∈ x.1) extensions with
  | x :: _ => Some x.2
  | [] => if bool_decide (path_Base p ∈ ["Dockerfile"; "Makefile"]) then Some langShell else None
  end.

(** ** Characters *)

Definition between (a b : Z) (c : ascii) : bool := (a <=? byte_of_ascii c) && (byte_of_ascii c <=? b).
Definition isIdentStart (c : ascii) : bool :=
  bool_decide (c = "_"%char) || between 97 122 c || between 65 90 c.
Definition isNumStart (c : ascii) : bool := between 48 57 c.
Definition isIdentCont (c : ascii) : bool := isIdentStart c || isNumStart c.

Definition endsIdent (t : token) : bool :=
  match last (String.list_ascii_of_string (tk_text t)) with Some c => isIdentCont c | None => false end.

(** The length of the longest prefix of such characters. *)
Fixpoint span_of (f : ascii → bool) (s : string) : nat :=
  match s with String c s => if f c then S (span_of f s) else 0%nat | EmptyString => 0%nat end.

(** ** Literals: their lengths *)

(** After the opening quote. *)
Fixpoint string_rest (quote : ascii) (s : string) : nat :=
  let raw := bool_decide (quote = bquot) in
  match s with
  | EmptyString => 0%nat
  | String c s' =>
      match negb raw && bool_decide (c = backslash), s' with
      | true, String _ s2 => S (S (string_rest quote s2))
      | _, _ =>
          if bool_decide (c = quote) then 1%nat else
          if negb raw && bool_decide (c = newline) then 0%nat else S (string_rest quote s')
      end
  end.
Definition scanString (s : string) : nat :=
  match s with String quote s => S (string_rest quote s) | EmptyString => 0%nat end.

Definition number_char (c : ascii) : bool :=
  isNumStart c || between 97 102 c || between 65 70 c
  || bool_decide (c ∈ ["x"; "X"; "o"; "O"; "b"; "B"; "."; "_"]%char).
Definition scanNumber (s : string) : nat := span_of number_char s.

(** ** Tokens *)

(** The kind and the length of the token at the front of [s]; [in_ident]: the
    token before it ends in an identifier. *)
Definition next_token (l : language) (in_ident : bool) (s : string) : tokenKind * nat :=
  if negb (bool_decide (lg_blockOpen l = "")) && HasPrefix s (lg_blockOpen l) then
    let n := String.length (lg_blockOpen l) in
    (tkComment, match Cut (string_drop n s) (lg_blockClose l) with
                | Some (a, _) => (n + String.length a + String.length (lg_blockClose l))%nat
                | None => String.length s
                end)
  else if existsb (HasPrefix s) (lg_lineComments l) then (tkComment, span_of (λ c, negb (bool_decide (c = newline))) s)
  else match s with
  | EmptyString => (tkText, 0%nat)
  | String c s' =>
      if bool_decide (c ∈ lg_stringDelims l) then (tkString, scanString s) else
      if isNumStart c && negb in_ident then (tkNumber, scanNumber s) else
      if isIdentStart c then
        let n := S (span_of isIdentCont s') in
        (if bool_decide (string_take n s ∈ lg_keywords l) then tkKeyword else tkText, n)
      else (tkText, 1%nat)
  end.

(** [emit]; [out] has the last token first. *)
Definition emit (out : list token) (k : tokenKind) (t : string) : list token :=
  if bool_decide (t = "") then out else
  match k, out with
  | tkText, mkToken tkText u :: out => mkToken tkText (u +:+ t) :: out
  | _, _ => mkToken k t :: out
  end.
Definition in_ident (out : list token) : bool := match out with t :: _ => endsIdent t | [] => false end.

Fixpoint tokens_from (l : language) (fuel : nat) (out : list token) (s : string) : list token :=
  match fuel, s with
  | O, _ | _, EmptyString => out
  | S fuel, _ =>
      let '(k, n) := next_token l (in_ident out) s in
      tokens_from l fuel (emit out k (string_take n s)) (string_drop n s)
  end.
Definition tokenize (s : string) (l : language) : list token := reverse (tokens_from l (String.length s) [] s).

(** ** HTML *)

(** [template.HTMLEscapeString] *)
Definition escape_char (c : ascii) : string :=
  if bool_decide (c = "&"%char) then "&amp;" else
  if bool_decide (c = "<"%char) then "&lt;" else
  if bool_decide (c = ">"%char) then "&gt;" else
  if bool_decide (c = dquot) then "&#34;" else
  if bool_decide (c = squot) then "&#39;" else
  if bool_decide (c = ascii_of_byte 0)
  then string_of_bytes [239; 191; 189] else String c EmptyString.
Fixpoint HTMLEscapeString (s : string) : string :=
  match s with EmptyString => EmptyString | String c s => escape_char c +:+ HTMLEscapeString s end.

Definition span_open (class : string) : string :=
  "<span class=" +:+ String dquot (class +:+ String dquot ">").
(** A part of a token within a line. *)
Definition part_html (k : tokenKind) (part : string) : string :=
  if bool_decide (part = "") then "" else
  if bool_decide (class k = "") then HTMLEscapeString part
  else span_open (class k) +:+ HTMLEscapeString part +:+ "</span>".

Record highlightedLine := mkLine { hl_Num : Z; hl_HTML : string }.

(** The lines that are flushed, and the buffer. *)
Definition render_token (st : list string * string) (t : token) : list string * string :=
  match Split newline (tk_text t) with
  | [] => st
  | p :: ps =>
      foldl (λ st p, (st.1 ++ [st.2], part_html (tk_kind t) p)) (st.1, st.2 +:+ part_html (tk_kind t) p) ps
  end.
Definition numbered (l : list string) : list highlightedLine := imap (λ i h, mkLine (Z.of_nat i + 1) h) l.

Definition highlight (content p : string) : list highlightedLine :=
  if bool_decide (content = "") then [] else
  let src := TrimRight newline content in
  match detectLanguage p with
  | None => numbered (HTMLEscapeString <$> Split newline src)
  | Some l =>
      let '(lines, buf) := foldl render_token ([], "") (tokenize src l) in
      numbered (lines ++ [buf])
  end.

Example highlighted :
  hl_HTML <$> highlight ("if x < 0x1f { // a" +:+ String newline "}") "main.go"
  = [span_open "hl-k" +:+ "if</span> x &lt; " +:+ span_open "hl-n" +:+ "0x1f</span> { "
       +:+ span_open "hl-c" +:+ "// a</span>"; "}"].
Proof. vm_compute. reflexivity. Qed.


(** ** Reading HTML *)

Definition entity (e : string) : option ascii :=
  if bool_decide (e = "amp") then Some "&"%char else
  if bool_decide (e = "lt") then Some "<"%char else
  if bool_decide (e = "gt") then Some ">"%char else
  if bool_decide (e = "#34") then Some dquot else
  if bool_decide (e = "#39") then Some squot else None.

Inductive reading := InText | InTag (tag : string) | InEntity (name : string).

(** The text of a line, [None] when it is anything else than text, entities and
    spans that are closed; [opened]: within a span. *)
Fixpoint html_text (st : reading) (opened : bool) (s : string) : option string :=
  match s with
  | EmptyString => match st with InText => if opened then None else Some EmptyString | _ => None end
  | String c s =>
      match st with
      | InText =>
          if bool_decide (c = "<"%char) then html_text (InTag "") opened s else
          if bool_decide (c = "&"%char) then html_text (InEntity "") opened s else
          if bool_decide (c ∈ [">"%char; dquot; squot]) then None
          else String c <$> html_text InText opened s
      | InTag tag =>
          if bool_decide (c = ">"%char) then
            if opened then if bool_decide (tag = "/span") then html_text InText false s else None
            else if bool_decide ("<" +:+ tag +:+ ">" ∈ span_open <$> ["hl-k"; "hl-s"; "hl-c"; "hl-n"])
                 then html_text InText true s else None
          else html_text (InTag (tag +:+ String c EmptyString)) opened s
      | InEntity name =>
          if bool_decide (c = ";"%char) then x ← entity name; String x <$> html_text InText opened s
          else html_text (InEntity (name +:+ String c EmptyString)) opened s
      end
  end.

(** A null is shown as the replacement character. *)
Fixpoint shown (s : string) : string :=
  match s with
  | EmptyString => EmptyString
  | String c s => (if bool_decide (c = ascii_of_byte 0) then string_of_bytes [239; 191; 189] else String c EmptyString) +:+ shown s
  end.

(** [h] is HTML that ends outside of everything and reads as [t]. *)
Definition complete (opened : bool) (h t : string) : Prop :=
  ∀ k, html_text InText opened (h +:+ k) = String.append t <$> html_text InText opened k.

Lemma complete_empty o : complete o "" "".
Proof. intros k. change ("" +:+ k) with k. by destruct (html_text InText o k). Qed.
Lemma complete_app o h t h' t' : complete o h t → complete o h' t' → complete o (h +:+ h') (t +:+ t').
Proof.
  intros H H' k. rewrite string_app_assoc, H, H'. destruct (html_text InText o k); cbn; [|done].
  by rewrite string_app_assoc.
Qed.
Lemma complete_text h t : complete false h t → html_text InText false h = Some t.
Proof. intros H. specialize (H ""). rewrite !string_app_empty_r in H. rewrite H. cbn. by rewrite string_app_empty_r. Qed.

Lemma fmap_cons_char c (o : option string) : String c <$> o = String.append (String c "") <$> o.
Proof. by destruct o. Qed.
Lemma fmap_three_chars a b c (o : option string) :
  String a <$> (String b <$> (String c <$> o)) = String.append (String a (String b (String c ""))) <$> o.
Proof. by destruct o. Qed.
Lemma complete_char o c : complete o (escape_char c) (shown (String c "")).
Proof.
  intros k. unfold escape_char, shown. rewrite string_app_empty_r.
  destruct (decide (c = "&"%char)) as [->|H1]; [exact (fmap_cons_char "&" (html_text InText o k))|].
  destruct (decide (c = "<"%char)) as [->|H2]; [exact (fmap_cons_char "<" (html_text InText o k))|].
  destruct (decide (c = ">"%char)) as [->|H3]; [exact (fmap_cons_char ">" (html_text InText o k))|].
  destruct (decide (c = dquot)) as [->|H4]; [exact (fmap_cons_char dquot (html_text InText o k))|].
  destruct (decide (c = squot)) as [->|H5]; [exact (fmap_cons_char squot (html_text InText o k))|].
  destruct (decide (c = ascii_of_byte 0)) as [->|H6]; [exact (fmap_three_chars _ _ _ (html_text InText o k))|].
  rewrite !bool_decide_false by done. rewrite string_app_cons. cbn [html_text].
  assert (c ∉ [">"%char; dquot; squot]) as Hc by (by rewrite !not_elem_of_cons; repeat split; auto using not_elem_of_nil).
  rewrite !bool_decide_false by done. exact (fmap_cons_char c (html_text InText o k)).
Qed.
Lemma complete_escape o s : complete o (HTMLEscapeString s) (shown s).
Proof.
  induction s as [|c s IH]; [apply complete_empty|]. cbn [HTMLEscapeString].
  assert (shown (String c s) = shown (String c "") +:+ shown s) as ->.
  { cbn [shown]. by rewrite string_app_empty_r. }
  apply complete_app; [apply complete_char|done].
Qed.

(** Opening and closing a span. *)
Lemma span_opened k h : class k ≠ "" →
  html_text InText false (span_open (class k) +:+ h) = html_text InText true h.
Proof. destruct k; [done|by vm_compute..]. Qed.
Lemma span_closed h : html_text InText true ("</span>" +:+ h) = html_text InText false h.
Proof. done. Qed.
Lemma complete_part k p : complete false (part_html k p) (shown p).
Proof.
  unfold part_html. case_bool_decide as Hp; [subst; apply complete_empty|].
  case_bool_decide as Hk; [apply complete_escape|]. intros h.
  rewrite !string_app_assoc, span_opened, complete_escape, span_closed by done. done.
Qed.

(** ** Lines *)

Lemma Split_app c s t :
  Split c (s +:+ t) = match Split c t with
                      | p :: ps => removelast (Split c s) ++ (List.last (Split c s) "" +:+ p) :: ps
                      | [] => Split c s
                      end.
Proof.
  destruct (Split c t) as [|p ps] eqn:Et; [by destruct (Split_ne c t)|].
  induction s as [|d s IH]; [done|]. rewrite string_app_cons. cbn [Split]. rewrite IH.
  pose proof (Split_ne c s) as Hne. destruct (Split c s) as [|q qs]; [done|].
  case_bool_decide; [done|]. by destruct qs.
Qed.

(** The state of the rendering is the HTML of the lines of [txt]. *)
Definition renders (st : list string * string) (txt : string) : Prop :=
  Forall2 (complete false) (st.1 ++ [st.2]) (shown <$> Split newline txt).

Lemma shown_app s t : shown (s +:+ t) = shown s +:+ shown t.
Proof. induction s as [|c s IH]; [done|]. rewrite string_app_cons. cbn [shown]. by rewrite IH, string_app_assoc. Qed.

Lemma flush_lines k ps st qs :
  Forall2 (complete false) (st.1 ++ [st.2]) qs →
  let st' := foldl (λ st p, (st.1 ++ [st.2], part_html k p)) st ps in
  Forall2 (complete false) (st'.1 ++ [st'.2]) (qs ++ (shown <$> ps)).
Proof.
  revert st qs. induction ps as [|p ps IH]; intros st qs H; [cbn; by rewrite app_nil_r|].
  rewrite fmap_cons, cons_middle, app_assoc. apply (IH (st.1 ++ [st.2], part_html k p)). apply Forall2_app; [done|].
  constructor; [apply complete_part|constructor].
Qed.
Lemma render_token_renders st t txt : renders st txt → renders (render_token st t) (txt +:+ tk_text t).
Proof.
  unfold renders, render_token. rewrite Split_app. destruct (Split newline (tk_text t)) as [|p ps]; [done|].
  pose proof (Split_ne newline txt) as Hne. destruct (exists_last Hne) as (qs & q & E). rewrite E.
  rewrite removelast_last, List.last_last. intros H. rewrite fmap_app in H.
  apply Forall2_app_inv_l in H as (l1 & l2 & H1 & H2 & E').
  assert (length (st.1) = length qs) as Hl.
  { apply (f_equal length) in E'. rewrite !length_app, length_fmap in E'. apply Forall2_length in H1 as ->.
    apply Forall2_length in H2. cbn in *. lia. }
  apply app_inj_1 in E' as [<- <-]; [|apply Forall2_length in H1; by rewrite length_fmap, <- Hl].
  assert (shown <$> qs ++ (q +:+ p) :: ps = ((shown <$> qs) ++ [shown (q +:+ p)]) ++ (shown <$> ps)) as ->
    by by rewrite fmap_app, <- app_assoc.
  apply (flush_lines (tk_kind t) ps (st.1, st.2 +:+ part_html (tk_kind t) p)). apply Forall2_app; [done|].
  apply Forall2_cons_1 in H2 as [H2 _]. constructor; [|constructor]. rewrite shown_app. by apply complete_app, complete_part.
Qed.

Fixpoint text_of (l : list token) : string :=
  match l with t :: l => tk_text t +:+ text_of l | [] => "" end.
Lemma render_tokens l st txt : renders st txt → renders (foldl render_token st l) (txt +:+ text_of l).
Proof.
  revert st txt. induction l as [|t l IH]; intros st txt H; cbn; [by rewrite string_app_empty_r|].
  rewrite <- string_app_assoc. by apply IH, render_token_renders.
Qed.

(** ** Tokens *)

Lemma text_of_app l k : text_of (l ++ k) = text_of l +:+ text_of k.
Proof. induction l as [|t l IH]; [done|]. cbn. by rewrite IH, string_app_assoc. Qed.
Lemma emit_text out k t : text_of (reverse (emit out k t)) = text_of (reverse out) +:+ t.
Proof.
  assert (text_of (reverse (mkToken k t :: out)) = text_of (reverse out) +:+ t) as Hp.
  { rewrite reverse_cons, text_of_app. cbn. by rewrite string_app_empty_r. }
  unfold emit. case_bool_decide as Ht; [subst; by rewrite string_app_empty_r|].
  destruct k; try done. destruct out as [|[[] u] out]; try done.
  rewrite !reverse_cons, !text_of_app. cbn. by rewrite !string_app_empty_r, string_app_assoc.
Qed.

(** Comments begin with a character that does not end them. *)
Definition language_ok (l : language) : bool :=
  forallb (λ lc, match lc with String c _ => negb (bool_decide (c = newline)) | EmptyString => false end) (lg_lineComments l).
Lemma detectLanguage_ok p l : detectLanguage p = Some l → language_ok l = true.
Proof.
  unfold detectLanguage. destruct (filter _ extensions) as [|x xs] eqn:E.
  - case_bool_decide; [by intros [= <-]|done].
  - intros [= <-]. assert (x ∈ extensions) as Hx by (eapply list_elem_of_filter; rewrite E; left).
    assert (forallb (λ x, language_ok x.2) extensions = true) as Hok by (vm_compute; reflexivity).
    apply (proj1 (forallb_forall _ _) Hok). by apply list_elem_of_In.
Qed.

Lemma next_token_progress l b s : language_ok l = true → s ≠ "" → (0 < (next_token l b s).2)%nat.
Proof.
  intros Hl Hs. destruct s as [|c s]; [done|]. unfold next_token.
  destruct (negb _ && _) eqn:Eb.
  - apply andb_prop in Eb as [Eo%negb_true_iff%bool_decide_eq_false _].
    destruct (lg_blockOpen l); [done|]. cbn [snd]. destruct (Cut _ _) as [[? ?]|]; cbn; lia.
  - destruct (existsb _ _) eqn:Ec.
    + apply existsb_exists in Ec as (lc & Hin & Hp). apply (proj1 (forallb_forall _ _) Hl) in Hin.
      destruct lc as [|d lc]; [done|]. apply HasPrefix_spec in Hp as [t [= -> _]]. cbn [snd span_of]. rewrite Hin. lia.
    + destruct (bool_decide (c ∈ _)); [cbn [snd scanString]; lia|]. destruct (isNumStart c && negb b) eqn:En.
      * apply andb_prop in En as [En _]. cbn [snd]. unfold scanNumber. cbn [span_of]. unfold number_char. rewrite En. cbn. lia.
      * destruct (isIdentStart c); [cbn [snd]; lia|cbn; lia].
Qed.

Lemma string_drop_length n s : String.length (string_drop n s) = (String.length s - n)%nat.
Proof. revert s. induction n as [|n IH]; intros [|c s]; cbn; auto. Qed.
Lemma tokens_from_text l fuel out s :
  language_ok l = true → (String.length s ≤ fuel)%nat →
  text_of (reverse (tokens_from l fuel out s)) = text_of (reverse out) +:+ s.
Proof.
  intros Hl. revert out s. induction fuel as [|fuel IH]; intros out s Hf.
  - destruct s; [|cbn in Hf; lia]. cbn. by rewrite string_app_empty_r.
  - destruct s as [|c s]; [cbn; by rewrite string_app_empty_r|]. cbn [tokens_from].
    pose proof (next_token_progress l (in_ident out) (String c s) Hl ltac:(done)) as Hn.
    destruct (next_token _ _ _) as [k n]. cbn in Hn. rewrite IH by (rewrite string_drop_length; cbn in *; lia).
    by rewrite emit_text, string_app_assoc, string_take_drop.
Qed.
(** The fuel is enough: the tokens are the text. *)
Lemma tokenize_text l s : language_ok l = true → text_of (tokenize s l) = s.
Proof. intros Hl. unfold tokenize. by rewrite tokens_from_text. Qed.

(** ** The file view *)

Lemma numbered_html l : hl_HTML <$> numbered l = l.
Proof. unfold numbered. rewrite fmap_imap. etrans; [exact (imap_const id l)|apply list_fmap_id]. Qed.

(** C37: what the file view shows of a file are its lines.  Whatever the content
    and the language of its path, the HTML of the n-th line is numbered n and is
    text, entities and spans of the highlighter that are closed within the line;
    what it shows is the n-th line of the content, with a replacement character
    for each null: nothing is lost, and nothing of the content becomes markup. *)
Theorem highlight_shows content p :
  html_text InText false ∘ hl_HTML <$> highlight content p = Some ∘ shown <$> splitIntoLines content ∧
  hl_Num <$> highlight content p = (λ i, Z.of_nat i + 1) <$> seq 0 (length (splitIntoLines content)).
Proof.
  assert (∃ ls, highlight content p = numbered ls ∧ Forall2 (complete false) ls (shown <$> splitIntoLines content))
    as (ls & -> & H).
  { unfold highlight, splitIntoLines. case_bool_decide; [by exists []|].
    destruct (detectLanguage p) as [l|] eqn:El.
    - pose proof (render_tokens (tokenize (TrimRight newline content) l) ([], "") "") as H1.
      change ("" +:+ ?x) with x in H1. rewrite tokenize_text in H1 by by eapply detectLanguage_ok.
      destruct (foldl _ _ _) as [lines buf]. exists (lines ++ [buf]). split; [done|]. apply H1.
      constructor; [apply complete_empty|constructor].
    - eexists. split; [done|]. apply Forall2_fmap_2, Forall_Forall2_diag, Forall_true. intros t. apply complete_escape. }
  split.
  - rewrite list_fmap_compose, numbered_html, list_fmap_compose. revert H. generalize (shown <$> splitIntoLines content).
    induction 1 as [|h t ls ts Hh _ IH]; [done|]. by rewrite !fmap_cons, IH, (complete_text _ _ Hh).
  - apply Forall2_length in H. rewrite length_fmap in H. rewrite <- H. unfold numbered. rewrite fmap_imap.
    apply (imap_seq_0 ls (λ i, Z.of_nat i + 1)).
Qed.
