(* ===== verification/AgentContext.v ===== *)
(** * The context of a branch (internal/server/handlers_branches.go)

    [AssembleAgentContext] collects what the branch page of the web interface
    and the agents see: the diff, the reviews and checks of the head, the open
    proposals, the recent commits, and what the policies say of a merge.  Its
    verdict is that of the branch status and of the merge ([context_verdict]). *)

From S2P Require Import Prelude GoStd Schema Tx Run Orgs Blob Commits Merge ReadStore Reviews Guarantee Chain.
From S2P Require Import Issues Samples EventTypes Events Policy PolicySpec Server Http Effects Handlers.

Definition ErrAgentContextBranchNotFound := New "branch not found".

(** [model.AgentContextResponse] (api/types.go); [model.Branch] has the fields of
    [BranchInfo], [model.DiffResponse] those of [DiffResult]. *)
Record AgentContextResponse := mkAgentContext {
  ac_Branch : BranchInfo; ac_Diff : DiffResult; ac_Reviews : list Review;
  ac_CheckRuns : list CheckRun; ac_Proposals : list Proposal; ac_LinkedIssues : list Issue;
  ac_FileOwnership : gmap string (option (list string)); ac_RecentCommits : list ChainEntry;
  ac_Policies : list PolicyResult; ac_Mergeable : bool;
}.

Definition maxCommitRange : Z := 50.

Section AgentContext.
Context {Co : Collation} {Mr : MapRange} {Op : OPA}.
Variable blobs : option BlobStore.

(** The last of the branch's own commits. *)
Definition recent_commits (repo branch : string) (bi : BranchInfo) : M (list ChainEntry) :=
  if bi_BaseSequence bi <? bi_HeadSequence bi then
    let from := bi_BaseSequence bi + 1 in
    let from := if maxCommitRange <? bi_HeadSequence bi - from + 1
                then bi_HeadSequence bi - maxCommitRange + 1 else from in
    entries ← GetChain repo from (bi_HeadSequence bi);
    mret (filter (λ e, che_Branch e = branch) entries)
  else mret [].

Definition AssembleAgentContext (repo branch actor : string) : PM AgentContextResponse :=
  branchInfo ← lift (wrap "get branch" (GetBranch repo branch));
  match branchInfo with
  | None => lift (fail ErrAgentContextBranchNotFound)
  | Some bi =>
      diff ← lift (wrap "get diff" (GetDiff repo branch));
      let diff := default (mkDiffResult [] [] []) diff in
      reviews ← lift (wrap "list reviews" (ListReviews repo branch (Some (bi_HeadSequence bi))));
      checkRuns ← lift (wrap "list check runs" (ListCheckRuns repo branch (Some (bi_HeadSequence bi)) false));
      proposals ← lift (wrap "list proposals" (ListProposals repo (Some ProposalOpen) (Some branch)));
      linkedIssues ← lift (wrap "list issues by ref"
        (match proposals with p :: _ => ListIssuesByRef repo RefProposal (Prop_ID p) | [] => mret [] end));
      recent ← lift (wrap "get chain" (recent_commits repo branch bi));
      let changedPaths := de_Path <$> df_BranchChanges diff in
      '(engine, owners) ← pwrap "policy cache load" (Load blobs repo);
      '(ownership, policies) ←
        (match engine with
         | None => mret (∅, [])
         | Some engine =>
             let ownership := foldl (λ m p, <[p := ResolveOwners owners p]> m) ∅ changedPaths in
             role ← lift (catch (GetRole repo actor));
             let actorRoles := match role with Ok r => [role_text (role_Role r)] | Fail _ => [] end in
             let proposalInput :=
               (λ p, mkProposalInput (Prop_ID p) (Prop_BaseBranch p) (Prop_Title p)
                       (proposal_state_text (Prop_State p))) <$> head proposals in
             let input := mkInput actor actorRoles "merge" repo branch (bi_Draft bi) changedPaths
               ((λ r, mkReviewInput (Review_Reviewer r) (review_status_text (Review_Status r))
                        (Review_Sequence r)) <$> reviews)
               ((λ r, mkCheckRunInput (Check_CheckName r) (check_status_text (Check_Status r))
                        (Check_Sequence r)) <$> checkRuns)
               ownership (bi_HeadSequence bi) (bi_BaseSequence bi) proposalInput in
             results ← pwrap "policy evaluate" (of_result (Evaluate engine input));
             mret (ownership, results)
         end : PM (gmap string (option (list string)) * list PolicyResult));
      mret (mkAgentContext
        (mkBranchInfo repo (bi_Name bi) (bi_HeadSequence bi) (bi_BaseSequence bi) (bi_Status bi)
           (bi_Draft bi) (bi_AutoMerge bi))
        diff reviews checkRuns proposals linkedIssues ownership recent policies
        (forallb pr_Pass policies))
  end.

(** [handleAgentContext] *)
Definition handleAgentContext (cx : Ctx) (name bname : string) : H (Z * AgentContextResponse) :=
  validateRepo name;;
  resp ← callP (λ err, if errors_Is err ErrAgentContextBranchNotFound
                       then mkAPIError "BRANCH_NOT_FOUND" "branch not found" 404 else query_failed err)
           (AssembleAgentContext name bname (cx_identity cx));
  mret (200, resp).

(** ** One verdict *)

Lemma pread_ok {A B} t (m : M A) (f : A → PM B) c w c' w' b :
  reads m → (lift (wrap t m) ≫= f) c w = (c', w', Ok b) →
  ∃ a, m w = (w, Ok a) ∧ f a c w = (c', w', Ok b).
Proof.
  intros Hm. specialize (Hm w). unfold mbind, PM_bind, lift, wrap.
  destruct (m w) as [w1 [a|e]]; [|done]. cbn in Hm. subst w1. eauto.
Qed.

(** C35: one verdict.  What the branch page and the agents are shown of the
    policies is what the branch status answers in the same state, and what a
    merge is decided on: its denials are the failing policies shown, and it is
    shown as mergeable when there is none. *)
Theorem context_verdict repo branch actor c w c' w' resp :
  AssembleAgentContext repo branch actor c w = (c', w', Ok resp) →
  computeBranchStatus blobs repo branch actor c w
    = (c', w', Ok (Some (mkBranchStatusResponse (ac_Mergeable resp) (ac_Policies resp) (bi_AutoMerge (ac_Branch resp))))) ∧
  EvaluatePolicy blobs true repo branch actor c w
    = (c', w', Ok (filter (λ r, pr_Pass r = false) (ac_Policies resp))).
Proof.
  intros (bi & Hb & E)%pread_ok; [|solve_reads]. destruct bi as [bi|]; [|done].
  apply pread_ok in E as (diff & Hd & E); [|solve_reads].
  apply pread_ok in E as (reviews & Hr & E); [|solve_reads].
  apply pread_ok in E as (checkRuns & Hc & E); [|solve_reads].
  apply pread_ok in E as (proposals & Hp & E); [|solve_reads].
  apply pread_ok in E as (issues & _ & E); [|destruct proposals; solve_reads].
  apply pread_ok in E as (recent & _ & E); [|unfold recent_commits; solve_reads].
  revert E. unfold computeBranchStatus, EvaluatePolicy. cbn [negb]. unfold mbind, PM_bind, pwrap, lift, mret, PM_ret, of_result.
  pose proof (Load_moves eq blobs repo c w) as Hw.
  destruct (Load blobs repo c w) as [[c1 w1] [[engine owners]|e]]; [|done]. cbn in Hw. subst w1.
  rewrite Hb. destruct engine as [engine|]; [|by intros [= <- <- <-]].
  unfold AssembleInput, mbind, M_bind, mret, M_ret, wrap. rewrite Hb, Hd, Hr, Hc, Hp.
  assert ((catch (GetRole repo actor) w).1 = w) as Hrole by (apply (rd_catch (GetRole repo actor)); solve_reads).
  destruct (catch (GetRole repo actor) w) as [w1 [role|e]]; [|done]. cbn in Hrole. subst w1.
  destruct diff as [diff|]; cbn [default df_BranchChanges fmap list_fmap];
    (destruct (Evaluate engine _) as [results|e]; [|done]; by intros [= <- <- <-]).
Qed.
End AgentContext.

Abbreviation shown := (AssembleAgentContext None "o/r" "dev" "bob" NewCache deny_world).

Lemma context_verdict_witness :
  match shown with
  | (c', w', Ok resp) =>
      ac_Mergeable resp = false ∧
      computeBranchStatus None "o/r" "dev" "bob" NewCache deny_world
        = (c', w', Ok (Some (mkBranchStatusResponse (ac_Mergeable resp) (ac_Policies resp) (bi_AutoMerge (ac_Branch resp))))) ∧
      EvaluatePolicy None true "o/r" "dev" "bob" NewCache deny_world
        = (c', w', Ok (filter (λ r, pr_Pass r = false) (ac_Policies resp)))
  | _ => False
  end.
Proof.
  assert (match shown with (_, _, Ok resp) => ac_Mergeable resp = false | _ => False end) as Hm
    by (vm_compute; reflexivity).
  destruct shown as [[c' w'] [resp|e]] eqn:E; [|done]. split; [exact Hm|].
  exact (context_verdict _ _ _ _ _ _ _ _ _ E).
Defined.
