(* ===== verification/Ui.v ===== *)
(** * The web interface: requests, views and pages (internal/ui)

    A page is the data its template is given; the templates and their escaping
    are left out.  A handler is a computation of [HM view]: it stops with a view
    or goes on.  This file has the CSRF protection, the data of the pages and the
    handlers of the GET requests; UiForms.v has the forms.

    Most handlers have the name of the API's handler or of the store's method:
    this file and UiForms.v are required without being imported where both are
    needed.  Log lines are left out. *)

From Stdlib Require Import Ascii.
From S2P Require Import Prelude GoStd Schema Tx Orgs Blob Commits Merge ReadStore Reviews Releases Issues CIJobs.
From S2P Require Import EventTypes Events Policy Server Http Handlers Secrets AgentContext LineDiff.
From S2P Require Service.

(** ** URLs *)

(** [url.QueryEscape] *)
Definition query_char (c : ascii) : bool :=
  path_char c && negb (bool_decide (c ∈ ["$"; "&"; "+"; ":"; "="; "@"]%char)).
Fixpoint QueryEscape (s : string) : string :=
  match s with
  | EmptyString => EmptyString
  | String c s =>
      if bool_decide (c = " "%char) then String "+" (QueryEscape s) else
      if query_char c then String c (QueryEscape s)
      else String "%" (String (upper_hex (byte_of_ascii c / 16))
             (String (upper_hex (byte_of_ascii c mod 16)) (QueryEscape s)))
  end.

Definition branchURLPath (branch : string) : string := Join "/" (PathEscape <$> Split "/" branch).

(** [strings.TrimSuffix], and the text cut at the last occurrence of [sep]
    ([strings.LastIndex]). *)
Definition TrimSuffix (s p : string) : string := default s (CutSuffix s p).
Fixpoint CutLast (s sep : string) : option (string * string) :=
  match s with
  | EmptyString => if HasPrefix s sep then Some (EmptyString, EmptyString) else None
  | String c s' =>
      match CutLast s' sep with
      | Some (a, b) => Some (String c a, b)
      | None => if HasPrefix s sep then Some (EmptyString, string_drop (String.length sep) s) else None
      end
  end.

(** ** Requests *)

(** [url.Values]: pairs in their order. *)
Definition Form : Type := list (string * string).
(** [FormValue], and [Get] of the query. *)
Definition FormValue (f : Form) (key : string) : string :=
  default "" (snd <$> head (filter (λ kv, kv.1 = key) f)).

(** What the interface reads of a request: the cookie (empty when absent), the
    parameters of the query, and those of the body, [None] when they do not parse;
    a query that does not parse is left out. *)
Record UiRequest := mkUiRequest { ur_Method : string; ur_cookie : string; ur_query : Form; ur_body : option Form }.
(** [r.Form]: the body is read by [POST], [PUT] and [PATCH] only, and comes first. *)
Definition ParseForm (r : UiRequest) : option Form :=
  if bool_decide (ur_Method r ∈ ["POST"; "PUT"; "PATCH"])
  then (λ body, body ++ ur_query r) <$> ur_body r else Some (ur_query r).

(** ** Pages (handlers.go) *)

Record myOrgEntry := mkMyOrg { mo_Name : string; mo_Role : org_role; mo_RepoCount : nat }.
Record orgGroup := mkOrgGroup { og_Name : string; og_Repos : list repo }.
Record branchRow := mkBranchRow {
  br_Name : string; br_HeadSequence : Z; br_BaseSequence : Z; br_Draft : bool; br_AutoMerge : bool;
  br_Status : Schema.branch_status; br_Proposal : option Proposal;
}.
Record reviewCommentGroup := mkCommentGroup { rg_Path : string; rg_Comments : list ReviewComment }.
Record treeRow := mkTreeRow { tr_Name : string; tr_Path : string; tr_IsDir : bool }.
Record commitLogRow := mkLogRow {
  lr_Seq : Z; lr_Branch : string; lr_Author : string; lr_Message : string; lr_Time : Z;
}.

(** The bodies, a constructor each. *)
Inductive page :=
| reposPage (MyOrgs : list myOrgEntry) (Orgs : list orgGroup) (ShowGetStarted : bool)
| orgPage (Org : string) (Repos : list repo) (Members : list org_member) (Invites : list org_invite) (Err : string)
| branchesPage (Repo : repo) (Active Merged Abandoned : list branchRow) (Roles : list Role) (Err : string)
| repoSettingsPage (Repo : repo) (Roles : list Role) (Err : string)
| repoSecretsPage (Repo : repo) (Secrets : list Metadata)
| reviewCommentsData (RepoName Branch : string) (Groups : list reviewCommentGroup)
| branchDetailPage (Repo : repo) (Ctx : AgentContextResponse) (Blockers : list string)
    (PassedCheckCnt PendingCheckCnt FailedCheckCnt : nat) (Err : string)
| branchChecks (Ctx : AgentContextResponse)
| checkHistory (Runs : list CheckRun)
| filePage (Repo : repo) (Branch : string) (AtSeq : option Z) (Path : string) (File : option FileContent)
    (Tree : list treeRow) (ParentDir : string) (FileHistory : list FileHistoryEntry) (Branches : list string)
| logPage (Repo : repo) (Branch : string) (Rows : list commitLogRow) (HasMore : bool) (NextAfter : Z)
| logRowsData (RepoName Owner Branch : string) (Rows : list commitLogRow) (HasMore : bool) (NextAfter : Z)
| commitDetailPage (Repo : repo) (Branch : string) (Commit : CommitDetail) (Issues : list Issue)
| commitFileDiff (Data : commitFileDiffData)
| issuesPage (Repo : repo) (Issues : list Issue) (State Label : string)
| issueDetailPage (Repo : repo) (Issue : Issue) (Comments : list issue_comment) (Refs : list issue_ref) (Err : string)
| newIssuePage (Repo : repo) (Err FormTitle FormBody FormLabels : string)
| acceptInvitePage (Org Token : string) (Role : org_role) (Err : string)
| proposalsPage (Repo : repo) (Proposals : list Proposal) (State Err : string)
| proposalsRows (Proposals : list Proposal)
| proposalDetailPage (Repo : repo) (Proposal : Proposal) (Issues : list Issue) (Err : string)
| releasesPage (Repo : repo) (Releases : list Release) (Err : string)
| releaseDetailPage (Repo : repo) (Release : Release)
| ciJobsPage (Repo : repo) (Jobs : list CIJob) (Status : string)
| ciJobDetailPage (Repo : repo) (Job : CIJob) (CheckName : string)
| createOrgPage (Name Err : string)
| createRepoPage (Owner Name : string) (Orgs : list org) (Err : string)
| commitFormPage (Repo : repo) (Branch FormMessage FormFilePath FormFileContent Err : string)
| userProfilePage (Identity : string) (Memberships : list org_member) (RepoRoles : list RepoRole).

(** What is answered: [render] with a title and breadcrumbs, or without the
    layout; [renderError], [http.Error], [http.Redirect]. *)
Inductive view :=
| Rendered (title : string) (breadcrumbs : list (string * string)) (body : page)
| Fragment (body : page)
| ErrorPage (status : Z) (message : string)
| HttpError (status : Z) (message : string)
| Redirect (url : string) (status : Z).

(** The identity is that of the context. *)
Definition see_other (url : string) : view := Redirect url 303.
Definition repos_crumb : string * string := ("repos", "/").
Definition repo_crumb (repoName : string) : string * string := (repoName, "/r/" +:+ repoName).

(** ** CSRF (csrf.go) *)

Definition csrfFieldName : string := "csrf_token".
Definition safe_method (m : string) : bool := bool_decide (m ∈ ["GET"; "HEAD"; "OPTIONS"]).

(** [CSRFMiddleware]: [fresh] is [newCSRFToken], [None] when the source of
    randomness fails; the answer comes with the cookie that is set.  [next] gets
    the parsed form, which its own calls of [ParseForm] do not parse again. *)
Definition CSRFMiddleware {Op : OPA} (fresh : option string) (r : UiRequest) (next : Form → HM view view)
    : HM view (option string * view) :=
  match (if empty (ur_cookie r) then fresh else Some (ur_cookie r)) with
  | None => mret (None, HttpError 500 "internal server error")
  | Some token =>
      let set := if empty (ur_cookie r) then Some token else None in
      if safe_method (ur_Method r) then v ← next (ur_query r); mret (set, v) else
      match ParseForm r with
      | None => mret (set, HttpError 400 "bad request")
      | Some form =>
          let formToken := FormValue form csrfFieldName in
          if empty formToken || negb (bool_decide (formToken = token))
          then mret (set, HttpError 403 "invalid CSRF token")
          else v ← next form; mret (set, v)
      end
  end.

(** ** Rows *)

(** The runs of a loop that keeps a set of the names it has seen. *)
Definition sibling_step (prefix : string) (acc : list string * list treeRow) (e : TreeEntry)
    : list string * list treeRow :=
  let '(seen, rows) := acc in
  if negb (HasPrefix (te_Path e) prefix) then acc else
  let rest := string_drop (String.length prefix) (te_Path e) in
  if empty rest then acc else
  let '(name, row) :=
    match Cut rest "/" with
    | None => (rest, mkTreeRow rest (te_Path e) false)
    | Some (dirName, _) => (dirName, mkTreeRow dirName (prefix +:+ dirName) true)
    end in
  if bool_decide (name ∈ seen) then acc else (name :: seen, rows ++ [row]).

(** Directories first, then by name. *)
Definition tree_order : relation treeRow :=
  order_then (λ r, if tr_IsDir r then 0 else 1) Z.le (λ a b, String.le (tr_Name a) (tr_Name b)).
#[export] Instance tree_order_dec : RelDecision tree_order.
Proof. unfold tree_order, order_then. intros a b. apply _. Defined.

Definition siblingTreeRows (entries : list TreeEntry) (dir : string) : list treeRow :=
  let prefix := if empty dir then "" else dir +:+ "/" in
  merge_sort tree_order (foldl (sibling_step prefix) ([], []) entries).2.

Definition chainToLogRows (entries : list ChainEntry) (branch : string) : list commitLogRow :=
  (λ e, mkLogRow (che_Sequence e) (che_Branch e) (che_Author e) (che_Message e) (che_CreatedAt e))
    <$> filter (λ e, che_Branch e = branch) entries.

Definition logPageSize : Z := 25.
(** The window that ends at [to], and where the next one ends. *)
Definition log_from (to : Z) : Z := let from := to - logPageSize + 1 in if from <? 1 then 1 else from.
Definition next_after (from : Z) : Z := if 1 <? from then from else 0.

Definition proposalStateFromQuery (s : string) : proposal_state :=
  if bool_decide (s = "closed") then Schema.ProposalClosed else
  if bool_decide (s = "merged") then Schema.ProposalMerged else Schema.ProposalOpen.

(** The groups of the comments by path, in the order the paths come up. *)
Definition comment_groups (comments : list ReviewComment) : list reviewCommentGroup :=
  (λ p, mkCommentGroup p (filter (λ c, Comment_Path c = p) comments))
    <$> (Comment_Path <$> distinct_on Comment_Path comments).

(** The basename of the log without ".log". *)
Definition check_name_of (logURL : option string) : string :=
  match logURL with
  | Some u => match CutLast u "/" with Some (_, b) => TrimSuffix b ".log" | None => "" end
  | None => ""
  end.

(** ** Handlers *)

(** [type Handler struct]; [h_secrets]: there is a lister of secrets. *)
Record Handler := mkHandler { h_server : server; h_secrets : bool }.

Section Pages.
Context {Co : Collation} {Mr : MapRange} {Op : OPA} {Us : UuidSource} {Enc : Encryptor}.
Variable h : Handler.
Variable cx : Ctx.
Abbreviation V := (HM view view).
Abbreviation blobs := (sr_blobs (h_server h)).

Definition fails (status : Z) (msg : string) : error → view := λ _, ErrorPage status msg.
Definition query_fails : error → view := λ _, HttpError 500 "query failed".

(** The lookup of the repository most pages begin with. *)
Definition get_repo (repoName : string) : HM view repo :=
  call (λ err, if errors_Is err ErrRepoNotFound then ErrorPage 404 ("repo not found: " +:+ repoName)
               else ErrorPage 500 "could not load repo") (GetRepo repoName).
Definition full (owner name : string) : string := owner +:+ "/" +:+ name.

(** Go's [slices.SortFunc] with [strings.Compare] on keys that do not repeat. *)
Definition sort_by {A} (key : A → string) (l : list A) : list A := @order_by C_collation _ key l.

Definition org_groups (repos : list repo) : list orgGroup :=
  (λ o, mkOrgGroup o (sort_by repo_name (filter (λ r, repo_owner r = o) repos)))
    <$> sort_by id (repo_owner <$> distinct_on repo_owner repos).

Definition handleRepos : V :=
  repos ← call (fails 500 "could not load repos") ListRepos;
  '(myOrgs, showGetStarted) ←
    (if empty (cx_identity cx) then mret ([], false) else
     memberships ← attempt (lift (ListOrgMemberships (cx_identity cx)));
     match memberships with
     | Fail _ => mret ([], false)
     | Ok [] =>
         roles ← attempt (lift (ListRolesByIdentity (cx_identity cx)));
         mret ([], match roles with Ok l => bool_decide (l = []) | Fail _ => false end)
     | Ok ms =>
         mret ((λ m, mkMyOrg (om_org m) (om_role m)
                       (length (filter (λ r, repo_owner r = om_org m) repos))) <$> ms, false)
     end);
  mret (Rendered "Repos" [repos_crumb] (reposPage myOrgs (org_groups repos) showGetStarted)).

Definition handleUserProfile (identity : string) : V :=
  memberships ← call (fails 500 "could not load org memberships") (ListOrgMemberships identity);
  repoRoles ← call (fails 500 "could not load repo roles") (ListRolesByIdentity identity);
  mret (Rendered identity [repos_crumb; (identity, "/u/" +:+ PathEscape identity)]
          (userProfilePage identity memberships repoRoles)).

Definition renderOrgPage (org errMsg : string) : V :=
  repos ← call (fails 500 "could not load repos") (ListOrgRepos org);
  members ← call (fails 500 "could not load members") (ListOrgMembers org);
  invites ← call (fails 500 "could not load invites") (ListInvites org);
  mret (Rendered org [repos_crumb; (org, "")]
          (orgPage org repos members (filter (λ i, inv_accepted_at i = None) invites) errMsg)).
Definition handleOrg (org : string) : V := renderOrgPage org "".

Definition branch_row (proposals : list Proposal) (b : BranchInfo) : branchRow :=
  mkBranchRow (bi_Name b) (bi_HeadSequence b) (bi_BaseSequence b) (bi_Draft b) (bi_AutoMerge b) (bi_Status b)
    (head (filter (λ p, Prop_Branch p = bi_Name b) proposals)).

Definition ok_or_nil {A} (r : result (list A)) : list A := match r with Ok l => l | Fail _ => [] end.

Definition renderBranchesPage (owner name errMsg : string) : V :=
  let repoName := full owner name in
  repo ← get_repo repoName;
  branches ← call (fails 500 "could not load branches") (ListBranches repoName "" true false);
  roles ← attempt (lift (ListRoles repoName));
  proposals ← attempt (lift (ListProposals repoName (Some Schema.ProposalOpen) None));
  let rows st := branch_row (ok_or_nil proposals) <$> filter (λ b, bi_Status b = st) branches in
  mret (Rendered (repoName +:+ " / branches") [repos_crumb; repo_crumb repoName]
          (branchesPage repo (rows Active) (rows Schema.Merged) (rows Abandoned) (ok_or_nil roles) errMsg)).
Definition handleBranches (owner name : string) : V := renderBranchesPage owner name "".

Definition renderRepoSettingsPage (owner name errMsg : string) : V :=
  let repoName := full owner name in
  repo ← get_repo repoName;
  roles ← attempt (lift (ListRoles repoName));
  mret (Rendered (repoName +:+ " / settings") [repos_crumb; repo_crumb repoName; ("settings", "")]
          (repoSettingsPage repo (ok_or_nil roles) errMsg)).
Definition handleRepoSettings (owner name : string) : V := renderRepoSettingsPage owner name "".

Definition handleRepoSecrets (owner name : string) : V :=
  let repoName := full owner name in
  repo ← get_repo repoName;
  guard (negb (h_secrets h)) (ErrorPage 503 "secrets service is not configured");;
  list ← call (fails 500 "could not load secrets") (List_ repoName);
  mret (Rendered (repoName +:+ " / secrets") [repos_crumb; repo_crumb repoName; ("secrets", "")]
          (repoSecretsPage repo list)).

Definition renderReleasesPage (owner name errMsg : string) : V :=
  let repoName := full owner name in
  repo ← get_repo repoName;
  releases ← call (fails 500 "could not load releases") (ListReleases repoName 100 "");
  mret (Rendered (repoName +:+ " / releases") [repos_crumb; repo_crumb repoName; ("releases", "")]
          (releasesPage repo releases errMsg)).
Definition handleReleases (owner name : string) : V := renderReleasesPage owner name "".

(** [strings.Contains(err.Error(), "branch not found")] *)
Definition assemble_failed (branch : string) (err : error) : view :=
  if Contains (error_text err) "branch not found" then ErrorPage 404 ("branch not found: " +:+ branch)
  else ErrorPage 500 "could not load branch".

Definition policy_blocker (p : PolicyResult) : option string :=
  if pr_Pass p then None else Some (if empty (pr_Reason p) then pr_Name p else pr_Reason p).
Definition check_blocker (c : CheckRun) : option string :=
  match Check_Status c with
  | CheckPassed => None
  | CheckPending => Some (Check_CheckName c +:+ " pending")
  | CheckFailed => Some (Check_CheckName c +:+ " failed")
  end.
Definition blockers (a : AgentContextResponse) : list string :=
  omap policy_blocker (ac_Policies a) ++ omap check_blocker (ac_CheckRuns a).
Definition count_checks (st : check_status) (a : AgentContextResponse) : nat :=
  length (filter (λ c, Check_Status c = st) (ac_CheckRuns a)).

Definition renderBranchDetail (repoName branch errMsg : string) : V :=
  repo ← get_repo repoName;
  a ← callP (assemble_failed branch) (AssembleAgentContext blobs repoName branch (cx_identity cx));
  mret (Rendered (repoName +:+ " / " +:+ branch) [repos_crumb; repo_crumb repoName; (branch, "")]
          (branchDetailPage repo a (blockers a) (count_checks CheckPassed a) (count_checks CheckPending a)
             (count_checks CheckFailed a) errMsg)).
Definition handleBranchDetail (owner name branch : string) : V := renderBranchDetail (full owner name) branch "".

Definition handleChecksPartial (owner name branch : string) : V :=
  a ← callP query_fails (AssembleAgentContext blobs (full owner name) branch (cx_identity cx));
  mret (Fragment (branchChecks a)).

Definition handleCheckHistoryPartial (owner name branch : string) (q : Form) : V :=
  let checkName := FormValue q "check" in
  guard (empty checkName) (HttpError 400 "check query parameter required");;
  runs ← call query_fails (ListCheckRuns (full owner name) branch None true);
  mret (Fragment (checkHistory (filter (λ r, Check_CheckName r = checkName) runs))).

Definition handleFile (owner name path : string) (q : Form) : V :=
  let repoName := full owner name in
  let branch := if empty (FormValue q "branch") then "main" else FormValue q "branch" in
  let at_ := FormValue q "at" in
  atSeq ← (if empty at_ then mret None else
           match ParseInt at_ with
           | Some n => mret (Some n)
           | None => fault (ErrorPage 400 "invalid 'at' parameter")
           end);
  repo ← get_repo repoName;
  let parentDir := match CutLast path "/" with Some (d, _) => d | None => "" end in
  entries ← call (fails 500 "could not load tree") (MaterializeTree repoName branch atSeq 500 "");
  branchList ← call (fails 500 "could not load branches") (ListBranches repoName "" true false);
  '(file, hist) ←
    (if empty path then mret (None, []) else
     fc ← call (fails 500 "could not load file") (GetFile blobs repoName branch path atSeq);
     hist ← attempt (lift (GetFileHistory repoName branch path 20 None));
     mret (fc, ok_or_nil hist));
  mret (Rendered (repoName +:+ " / " +:+ path)
          [repos_crumb; repo_crumb repoName; (branch +:+ ":" +:+ path, "")]
          (filePage repo branch atSeq path file (siblingTreeRows entries parentDir) parentDir hist
             (bi_Name <$> branchList))).

Definition issue_tab (q : Form) : string :=
  if bool_decide (FormValue q "state" ∈ ["open"; "closed"]) then FormValue q "state" else "open".
Definition handleIssues (owner name : string) (q : Form) : V :=
  let repoName := full owner name in
  repo ← get_repo repoName;
  issues ← call (fails 500 "could not load issues") (ListIssues repoName (issue_tab q) "" (FormValue q "label"));
  mret (Rendered (repoName +:+ " / issues") [repos_crumb; repo_crumb repoName; ("issues", "")]
          (issuesPage repo issues (issue_tab q) (FormValue q "label"))).
Definition handleIssuesPartial (owner name : string) (q : Form) : V :=
  let repoName := full owner name in
  repo ← call query_fails (GetRepo repoName);
  issues ← call query_fails (ListIssues repoName (issue_tab q) "" (FormValue q "label"));
  mret (Fragment (issuesPage repo issues (issue_tab q) (FormValue q "label"))).

Definition handleReviewCommentsPartial (owner name branch : string) : V :=
  comments ← call query_fails (ListReviewComments (full owner name) branch None);
  mret (Fragment (reviewCommentsData (full owner name) branch (comment_groups comments))).

Definition issue_number (numberStr : string) : HM view Z :=
  match ParseInt numberStr with Some n => mret n | None => fault (ErrorPage 400 "invalid issue number") end.

Definition handleIssueDetail (owner name numberStr : string) (q : Form) : V :=
  let repoName := full owner name in
  number ← issue_number numberStr;
  repo ← get_repo repoName;
  issue ← call (λ err, if errors_Is err ErrIssueNotFound then ErrorPage 404 "issue not found"
                       else ErrorPage 500 "could not load issue") (GetIssue repoName number);
  comments ← call (fails 500 "could not load comments") (ListIssueComments repoName number);
  refs ← attempt (lift (ListIssueRefs repoName number));
  mret (Rendered (repoName +:+ " / issue #" +:+ numberStr)
          [repos_crumb; repo_crumb repoName; ("issues", "/r/" +:+ repoName +:+ "/issues"); ("#" +:+ numberStr, "")]
          (issueDetailPage repo issue comments (ok_or_nil refs) (FormValue q "error"))).

Definition proposal_tab (q : Form) : string :=
  if empty (FormValue q "state") then "open" else FormValue q "state".
Definition proposals_view (repo : repo) (repoName : string) (l : list Proposal) (state errMsg : string) : view :=
  Rendered (repoName +:+ " / proposals") [repos_crumb; repo_crumb repoName; ("proposals", "")]
    (proposalsPage repo l state errMsg).
Definition handleProposals (owner name : string) (q : Form) : V :=
  let repoName := full owner name in
  repo ← get_repo repoName;
  l ← call (fails 500 "could not load proposals")
        (ListProposals repoName (Some (proposalStateFromQuery (proposal_tab q))) None);
  mret (proposals_view repo repoName l (proposal_tab q) "").
Definition handleProposalsPartial (owner name : string) (q : Form) : V :=
  l ← call query_fails (ListProposals (full owner name) (Some (proposalStateFromQuery (proposal_tab q))) None);
  mret (Fragment (proposalsRows l)).

Definition proposal_view (repo : repo) (repoName id : string) (p : Proposal) (issues : list Issue) (errMsg : string)
    : view :=
  Rendered (repoName +:+ " / proposals / " +:+ id)
    [repos_crumb; repo_crumb repoName; ("proposals", "/r/" +:+ repoName +:+ "/proposals"); (Prop_Title p, "")]
    (proposalDetailPage repo p issues errMsg).
(** A proposal that does not exist is an error of [GetProposal]. *)
Definition handleProposalDetail (owner name id : string) : V :=
  let repoName := full owner name in
  repo ← get_repo repoName;
  p ← call (fails 500 "could not load proposal") (GetProposal repoName id);
  issues ← call (fails 500 "could not load linked issues") (ListIssuesByRef repoName RefProposal id);
  mret (proposal_view repo repoName id p issues "").

Definition handleReleaseDetail (owner name rname : string) : V :=
  let repoName := full owner name in
  repo ← get_repo repoName;
  release ← call (fails 500 "could not load release") (GetRelease repoName rname);
  mret (Rendered (repoName +:+ " / releases / " +:+ rname)
          [repos_crumb; repo_crumb repoName; ("releases", "/r/" +:+ repoName +:+ "/releases"); (rname, "")]
          (releaseDetailPage repo release)).

Definition handleCIJobs (owner name : string) (q : Form) : V :=
  let repoName := full owner name in
  let statusFilter := FormValue q "status" in
  repo ← get_repo repoName;
  jobs ← call (fails 500 "could not load ci jobs") (ListCIJobs repoName None (nullif_empty statusFilter) 100);
  mret (Rendered (repoName +:+ " / ci-jobs") [repos_crumb; repo_crumb repoName; ("ci-jobs", "")]
          (ciJobsPage repo jobs statusFilter)).
(** The label of the last crumb is [id[:8]]: a job that is found has a UUID. *)
Definition handleCIJobDetail (owner name id : string) : V :=
  let repoName := full owner name in
  repo ← get_repo repoName;
  job ← call (fails 500 "could not load ci job") (GetCIJob id);
  mret (Rendered (repoName +:+ " / ci-jobs / " +:+ id)
          [repos_crumb; repo_crumb repoName; ("ci-jobs", "/r/" +:+ repoName +:+ "/ci-jobs"); (string_take 8 id, "")]
          (ciJobDetailPage repo job (check_name_of (Job_LogURL job)))).

(** ** Logs and commits *)

Definition handleRepoLog (owner name : string) : V :=
  mret (Redirect ("/r/" +:+ owner +:+ "/" +:+ name +:+ "/b/main/log") 302).

Definition handleCommitLog (owner name branch : string) : V :=
  let repoName := full owner name in
  repo ← get_repo repoName;
  bi ← call (fails 500 "could not load branch") (GetBranch repoName branch);
  match bi with
  | None => mret (ErrorPage 404 ("branch not found: " +:+ branch))
  | Some bi =>
      let from := log_from (bi_HeadSequence bi) in
      entries ← call (fails 500 "could not load commits") (GetChain repoName from (bi_HeadSequence bi));
      mret (Rendered (repoName +:+ " / " +:+ branch +:+ " / log")
              [repos_crumb; repo_crumb repoName; (branch, "/r/" +:+ repoName +:+ "/b/" +:+ branch); ("log", "")]
              (logPage repo branch (reverse (chainToLogRows entries branch)) (1 <? from) (next_after from)))
  end.

Definition handleLogRowsPartial (owner name branch : string) (q : Form) : V :=
  let repoName := full owner name in
  let afterStr := FormValue q "after" in
  guard (empty afterStr) (HttpError 400 "after parameter required");;
  match ParseInt afterStr with
  | None => mret (HttpError 400 "invalid after parameter")
  | Some after =>
      if after <? 1 then mret (HttpError 400 "invalid after parameter") else
      let to := after - 1 in
      if to <? 1 then mret (Fragment (logRowsData "" "" "" [] false 0)) else
      let from := log_from to in
      entries ← call query_fails (GetChain repoName from to);
      mret (Fragment (logRowsData repoName owner branch (reverse (chainToLogRows entries branch))
              (1 <? from) (next_after from)))
  end.

Definition commit_seq (seqStr : string) : HM view Z :=
  match ParseInt seqStr with
  | Some seq => if seq <? 1 then fault (ErrorPage 400 "invalid seq") else mret seq
  | None => fault (ErrorPage 400 "invalid seq")
  end.

Definition handleCommitDetail (owner name branch seqStr : string) : V :=
  let repoName := full owner name in
  seq ← commit_seq seqStr;
  repo ← get_repo repoName;
  commit ← call (fails 500 "could not load commit") (GetCommit repoName seq);
  match commit with
  | None => mret (ErrorPage 404 ("commit " +:+ FormatInt seq +:+ " not found"))
  | Some commit =>
      issues ← call (fails 500 "could not load linked issues") (ListIssuesByRef repoName RefCommit seqStr);
      mret (Rendered (repoName +:+ " / " +:+ branch +:+ " / commit " +:+ FormatInt seq)
              [repos_crumb; repo_crumb repoName; (branch, "/r/" +:+ repoName +:+ "/b/" +:+ branch);
               ("log", "/r/" +:+ repoName +:+ "/b/" +:+ branch +:+ "/log"); ("seq " +:+ FormatInt seq, "")]
              (commitDetailPage repo branch commit issues))
  end.

Definition content_of (fc : option FileContent) : string := default "" (fc ≫= fl_Content).

Definition handleCommitFileDiffPartial (owner name branch seqStr path : string) : V :=
  let repoName := full owner name in
  seq ← commit_seq seqStr;
  call (λ err, if errors_Is err ErrRepoNotFound then ErrorPage 404 "repo not found"
               else ErrorPage 500 "could not load repo") (GetRepo repoName);;
  current ← call (fails 500 "could not load file") (GetFile blobs repoName branch path (Some seq));
  previous ← (if 1 <=? seq - 1
              then call (fails 500 "could not load file") (GetFile blobs repoName branch path (Some (seq - 1)))
              else mret None);
  mret (Fragment (commitFileDiff (computeFileDiff (content_of previous) (content_of current) path))).
End Pages.
