(* ===== verification/UiForms.v ===== *)
(** * The web interface: forms and routes (internal/ui/handlers.go)

    The handlers of the forms change the store through its methods or through the
    service, and then redirect; an error is shown on the page of the form.
    [routes] is the table of [registerRoutes], and [ui_serve] a request to the
    interface: the CSRF protection and the handler of its route. *)

From Stdlib Require Import Ascii.
From S2P Require Import Prelude GoStd Schema Tx Orgs Blob Commits Merge ReadStore Reviews Releases Issues CIJobs.
From S2P Require Import EventTypes Events Policy Server Http Handlers Secrets AgentContext LineDiff Ui.
From S2P Require Service.

Definition parse_review_status (s : string) : option review_status :=
  if bool_decide (s = "approved") then Some Approved else
  if bool_decide (s = "rejected") then Some Rejected else
  if bool_decide (s = "dismissed") then Some Dismissed else None.

(** The comma-separated labels that are not blank. *)
Definition parse_labels (s : string) : list string :=
  filter (λ l, l ≠ "") (TrimSpace <$> Split ","%char s).

Section Forms.
Context {Co : Collation} {Mr : MapRange} {Op : OPA} {Us : UuidSource} {Enc : Encryptor}.
Variable h : Handler.
Variable cx : Ctx.
Abbreviation V := (HM view view).
Abbreviation svc := (sr_svc (h_server h)).
Abbreviation me := (cx_identity cx).

Definition emit (e : Event) : HM view unit := callP (λ _, HttpError 500 "") (Service.emit svc e).

(** ** Organisations *)

Definition org_role_of (role : string) : option org_role := parse_org_role role.
Definition invalid_org_role : string := "invalid role; must be 'owner' or 'member'".

Definition handleAddOrgMember (org : string) (form : Form) : V :=
  let identity := TrimSpace (FormValue form "identity") in
  if empty identity then renderOrgPage org "identity is required" else
  match org_role_of (FormValue form "role") with
  | None => renderOrgPage org invalid_org_role
  | Some role =>
      r ← attempt (lift (AddOrgMember org identity role me));
      match r with
      | Fail err => renderOrgPage org ("could not add member: " +:+ error_text err)
      | Ok _ =>
          emit (OrgMemberAdded org identity (FormValue form "role") me);;
          mret (see_other ("/o/" +:+ org))
      end
  end.

Definition handleRemoveOrgMember (org identity : string) : V :=
  r ← attempt (lift (RemoveOrgMember org identity));
  match r with
  | Fail err =>
      renderOrgPage org (if errors_Is err ErrOrgMemberNotFound then "member not found" else "could not remove member")
  | Ok _ => emit (OrgMemberRemoved org identity me);; mret (see_other ("/o/" +:+ org))
  end.

(** [token] is [generateInviteToken]. *)
Definition handleCreateInvite (org : string) (token : option string) (form : Form) : V :=
  let email := TrimSpace (FormValue form "email") in
  if empty email then renderOrgPage org "email is required" else
  match org_role_of (FormValue form "role") with
  | None => renderOrgPage org invalid_org_role
  | Some role =>
      match token with
      | None => renderOrgPage org "could not generate invite token"
      | Some token =>
          t ← call (λ _, HttpError 500 "") time_Now;
          r ← attempt (lift (CreateInvite org email role me token (t + 7 * day)));
          match r with
          | Fail err => renderOrgPage org ("could not create invite: " +:+ error_text err)
          | Ok _ => mret (see_other ("/o/" +:+ org))
          end
      end
  end.

Definition handleRevokeInvite (org inviteID : string) : V :=
  r ← attempt (lift (RevokeInvite org inviteID));
  match r with
  | Fail err =>
      renderOrgPage org (if errors_Is err ErrInviteNotFound then "invite not found" else "could not revoke invite")
  | Ok _ => mret (see_other ("/o/" +:+ org))
  end.

(** GET and POST. *)
Definition accept_view (org token : string) (role : org_role) (errMsg : string) : view :=
  Rendered ("Accept invitation · " +:+ org) [repos_crumb] (acceptInvitePage org token role errMsg).
Definition handleAcceptInvite (method org token : string) : V :=
  invite ← call (λ err, if errors_Is err ErrInviteNotFound then ErrorPage 404 "invite not found"
                        else ErrorPage 500 "could not load invite") (GetInviteByToken org token);
  if bool_decide (method = "GET") then mret (accept_view org token (inv_role invite) "") else
  r ← attempt (lift (AcceptInvite org token me));
  match r with
  | Ok _ => mret (see_other ("/o/" +:+ org))
  | Fail err =>
      mret (if errors_Is err ErrInviteNotFound then ErrorPage 404 "invite not found" else
            if errors_Is err ErrInviteExpired
            then accept_view org token (inv_role invite) "This invitation has expired." else
            if errors_Is err ErrInviteAlreadyAccepted
            then accept_view org token (inv_role invite) "This invitation has already been accepted." else
            if errors_Is err ErrEmailMismatch
            then accept_view org token (inv_role invite) "This invitation was sent to a different email address."
            else ErrorPage 500 "could not accept invite")
  end.

Definition create_org_view (name errMsg : string) : view :=
  Rendered "New organisation" [repos_crumb; ("new org", "")] (createOrgPage name errMsg).
Definition handleCreateOrg (method : string) (form : Form) : V :=
  if bool_decide (method = "GET") then mret (create_org_view "" "") else
  let name := TrimSpace (FormValue form "name") in
  if empty name then mret (create_org_view "" "Organisation name is required.") else
  r ← attempt (Service.CreateOrg svc me name);
  mret match r with
       | Ok _ => see_other ("/o/" +:+ name)
       | Fail err =>
           create_org_view name
             (if errors_Is err ErrOrgExists then "An organisation with that name already exists."
              else "Could not create organisation: " +:+ error_text err)
       end.

Definition create_repo_view (orgs : list org) (owner name errMsg : string) : view :=
  Rendered "New repository" [repos_crumb; ("new repo", "")] (createRepoPage owner name orgs errMsg).
Definition handleCreateRepo (method : string) (form : Form) : V :=
  orgs ← call (fails 500 "could not load organisations") ListOrgs;
  if bool_decide (method = "GET") then mret (create_repo_view orgs "" "" "") else
  let owner := TrimSpace (FormValue form "owner") in
  let name := TrimSpace (FormValue form "name") in
  if empty owner || empty name
  then mret (create_repo_view orgs owner name "Organisation and repository name are both required.") else
  r ← attempt (Service.CreateRepo svc me (mkCreateRepoRequest owner name me));
  mret match r with
       | Ok _ => see_other ("/r/" +:+ full owner name)
       | Fail err =>
           create_repo_view orgs owner name
             (if errors_Is err ErrRepoExists then "A repository with that name already exists in this organisation." else
              if errors_Is err ErrOrgNotFound then "Organisation not found."
              else "Could not create repository: " +:+ error_text err)
       end.

Definition handleUIDeleteOrg (org : string) (form : Form) : V :=
  if negb (bool_decide (FormValue form "confirm" = org))
  then renderOrgPage org "confirmation does not match org name" else
  r ← attempt (lift (DeleteOrg org));
  match r with
  | Ok _ => emit (OrgDeleted org me);; mret (see_other "/")
  | Fail err =>
      if errors_Is err ErrOrgNotFound then mret (ErrorPage 404 ("org not found: " +:+ org)) else
      if errors_Is err ErrOrgHasRepos
      then renderOrgPage org "cannot delete org: org still has repos; delete them first"
      else renderOrgPage org ("could not delete org: " +:+ error_text err)
  end.

Definition handleUIDeleteRepo (owner name : string) (form : Form) : V :=
  let repoName := full owner name in
  if negb (bool_decide (FormValue form "confirm" = name))
  then renderRepoSettingsPage owner name "confirmation does not match repo name" else
  r ← attempt (lift (DeleteRepo repoName));
  match r with
  | Ok _ => emit (RepoDeleted repoName me);; mret (see_other "/")
  | Fail err =>
      if errors_Is err ErrRepoNotFound then mret (ErrorPage 404 ("repo not found: " +:+ repoName))
      else renderRepoSettingsPage owner name ("could not delete repo: " +:+ error_text err)
  end.

(** ** Roles and releases *)

Definition handleSetRole (owner name : string) (form : Form) : V :=
  let repoName := full owner name in
  let identity := TrimSpace (FormValue form "identity") in
  if empty identity then renderRepoSettingsPage owner name "identity is required" else
  match parse_role (FormValue form "role") with
  | None => renderRepoSettingsPage owner name "invalid role; must be reader, writer, maintainer, or admin"
  | Some role =>
      r ← attempt (lift (SetRole repoName identity role));
      match r with
      | Fail err => renderRepoSettingsPage owner name ("could not set role: " +:+ error_text err)
      | Ok _ =>
          emit (RoleChanged repoName identity (FormValue form "role") me);;
          mret (see_other ("/r/" +:+ repoName +:+ "/settings"))
      end
  end.

Definition handleDeleteRole (owner name identity : string) : V :=
  let repoName := full owner name in
  r ← attempt (lift (DeleteRole repoName identity));
  match r with
  | Fail err =>
      renderRepoSettingsPage owner name
        (if errors_Is err ErrRoleNotFound then "role not found" else "could not delete role")
  | Ok _ =>
      emit (RoleChanged repoName identity "" me);;
      mret (see_other ("/r/" +:+ repoName +:+ "/settings"))
  end.

Definition handleCreateRelease (owner name : string) (form : Form) : V :=
  let repoName := full owner name in
  let relName := TrimSpace (FormValue form "name") in
  let seqStr := TrimSpace (FormValue form "sequence") in
  if empty relName then renderReleasesPage owner name "release name is required" else
  seq ←
    (if empty seqStr then
       bi ← attempt (lift (GetBranch repoName "main"));
       mret match bi with
            | Ok (Some bi) => Ok (bi_HeadSequence bi)
            | _ => Fail (New "could not resolve main branch head")
            end
     else mret match ParseInt seqStr with
               | Some n => if n <? 1 then Fail (New "invalid sequence number") else Ok n
               | None => Fail (New "invalid sequence number")
               end : HM view (result Z));
  match seq with
  | Fail msg => renderReleasesPage owner name (error_text msg)
  | Ok sequence =>
      r ← attempt (lift (CreateRelease repoName relName sequence (FormValue form "body") me));
      match r with
      | Fail err => renderReleasesPage owner name ("could not create release: " +:+ error_text err)
      | Ok _ =>
          emit (ReleaseCreated repoName relName sequence me);;
          mret (see_other ("/r/" +:+ repoName +:+ "/releases"))
      end
  end.

Definition handleDeleteRelease (owner name rname : string) : V :=
  let repoName := full owner name in
  r ← attempt (lift (DeleteRelease repoName rname));
  match r with
  | Fail err =>
      mret (if errors_Is err ErrReleaseNotFound then ErrorPage 404 "release not found"
            else ErrorPage 500 "could not delete release")
  | Ok _ =>
      emit (ReleaseDeleted repoName rname me);;
      mret (see_other ("/r/" +:+ repoName +:+ "/releases"))
  end.

(** ** Issues *)

Definition issueURL (repoName numberStr : string) : string := "/r/" +:+ repoName +:+ "/issues/" +:+ numberStr.
(** Back to the issue, with an error. *)
Definition issue_view (repoName numberStr err : string) : view :=
  see_other (issueURL repoName numberStr +:+ (if empty err then "" else "?error=" +:+ err)).
(** The end of the handlers of an issue. *)
Definition issue_done {A} (repoName numberStr failed : string) (r : result A) : V :=
  mret (issue_view repoName numberStr
    match r with
    | Ok _ => ""
    | Fail err => if errors_Is err Service.ErrForbidden then "forbidden" else QueryEscape failed
    end).

Definition new_issue_view (repo : repo) (repoName formTitle formBody formLabels errMsg : string) : view :=
  Rendered (repoName +:+ " / new issue")
    [repos_crumb; repo_crumb repoName; ("issues", "/r/" +:+ repoName +:+ "/issues"); ("new", "")]
    (newIssuePage repo errMsg formTitle formBody formLabels).
Definition handleNewIssue (method owner name : string) (form : Form) : V :=
  let repoName := full owner name in
  repo ← get_repo repoName;
  if bool_decide (method = "GET") then mret (new_issue_view repo repoName "" "" "" "") else
  let title := TrimSpace (FormValue form "title") in
  let body := TrimSpace (FormValue form "body") in
  let labelsStr := TrimSpace (FormValue form "labels") in
  if empty title then mret (new_issue_view repo repoName title body labelsStr "title is required") else
  r ← attempt (Service.CreateIssue svc me repoName title body (parse_labels labelsStr));
  mret match r with
       | Ok iss => see_other (issueURL repoName (FormatInt (Issue_Number iss)))
       | Fail _ => new_issue_view repo repoName title body labelsStr "could not create issue"
       end.

Definition my_role (repoName : string) : HM view (option role_type) :=
  callP (λ _, HttpError 500 "") (Service.GetRole repoName me).

Definition handleEditIssue (owner name numberStr : string) (form : Form) : V :=
  let repoName := full owner name in
  number ← issue_number numberStr;
  let title := TrimSpace (FormValue form "title") in
  if empty title then mret (issue_view repoName numberStr "title+is+required") else
  role ← my_role repoName;
  r ← attempt (Service.UpdateIssue svc me role repoName number (Some title) (Some (FormValue form "body"))
                 (Some (parse_labels (FormValue form "labels"))));
  issue_done repoName numberStr "could not update issue" r.

Definition handleIssueClose (owner name numberStr : string) (form : Form) : V :=
  let repoName := full owner name in
  number ← issue_number numberStr;
  let reason := default Completed (parse_close_reason (FormValue form "reason")) in
  role ← my_role repoName;
  r ← attempt (Service.CloseIssue svc me role repoName number reason);
  issue_done repoName numberStr "could not close issue" r.

Definition handleIssueReopen (owner name numberStr : string) : V :=
  let repoName := full owner name in
  number ← issue_number numberStr;
  role ← my_role repoName;
  r ← attempt (Service.ReopenIssue svc me role repoName number);
  issue_done repoName numberStr "could not reopen issue" r.

Definition comment_required : string := "comment+body+is+required".
Definition handleCreateIssueComment (owner name numberStr : string) (form : Form) : V :=
  let repoName := full owner name in
  number ← issue_number numberStr;
  let body := TrimSpace (FormValue form "body") in
  if empty body then mret (issue_view repoName numberStr comment_required) else
  r ← attempt (Service.CreateIssueComment svc me repoName number body);
  mret (issue_view repoName numberStr
    match r with Ok _ => "" | Fail _ => QueryEscape "could not post comment" end).

Definition handleEditIssueComment (owner name numberStr commentID : string) (form : Form) : V :=
  let repoName := full owner name in
  number ← issue_number numberStr;
  let body := TrimSpace (FormValue form "body") in
  if empty body then mret (issue_view repoName numberStr comment_required) else
  role ← my_role repoName;
  r ← attempt (Service.UpdateIssueComment svc me role repoName number commentID body);
  issue_done repoName numberStr "could not update comment" r.

Definition handleDeleteIssueComment (owner name numberStr commentID : string) : V :=
  let repoName := full owner name in
  role ← my_role repoName;
  r ← attempt (Service.DeleteIssueComment me role repoName commentID);
  issue_done repoName numberStr "could not delete comment" r.

Definition handleAddIssueRef (owner name numberStr : string) (form : Form) : V :=
  let repoName := full owner name in
  number ← issue_number numberStr;
  let refID := TrimSpace (FormValue form "ref_id") in
  if empty refID then mret (issue_view repoName numberStr "ref+ID+is+required") else
  match parse_ref_type (FormValue form "ref_type") with
  | None => mret (issue_view repoName numberStr "invalid+ref+type")
  | Some refType =>
      r ← attempt (lift (CreateIssueRef repoName number refType refID));
      mret (issue_view repoName numberStr
        match r with Ok _ => "" | Fail _ => QueryEscape "could not add reference" end)
  end.

(** ** Branches *)

(** Back to the list of branches with an error, or from the page of a branch to
    that page. *)
Definition branch_list_error (repoName err : string) : view := see_other ("/r/" +:+ repoName +:+ "?err=" +:+ err).
Definition branch_back (repoName branch : string) (form : Form) (err : option string) : view :=
  let suffix := match err with Some e => "?err=" +:+ QueryEscape e | None => "" end in
  if bool_decide (FormValue form "ref" = "detail")
  then see_other ("/r/" +:+ repoName +:+ "/b/" +:+ PathEscape branch +:+ suffix)
  else see_other ("/r/" +:+ repoName +:+ suffix).
Definition branch_name_required : string := "branch+name+is+required".

Definition handleUICreateBranch (owner name : string) (form : Form) : V :=
  let repoName := full owner name in
  let branchName := TrimSpace (FormValue form "branch_name") in
  if empty branchName then mret (branch_list_error repoName branch_name_required) else
  let draft := bool_decide (FormValue form "draft" = "1") in
  r ← attempt (lift (CreateBranch (mkCreateBranchRequest repoName branchName draft)));
  match r with
  | Fail err => mret (branch_list_error repoName (QueryEscape ("create failed: " +:+ error_text err)))
  | Ok resp =>
      emit (BranchCreated repoName branchName (cbr_BaseSequence resp) me);;
      mret (see_other ("/r/" +:+ repoName))
  end.

Definition handleUIDeleteBranch (owner name : string) (form : Form) : V :=
  let repoName := full owner name in
  let branchName := TrimSpace (FormValue form "branch") in
  if empty branchName then mret (branch_list_error repoName branch_name_required) else
  r ← attempt (lift (DeleteBranch repoName branchName));
  match r with
  | Fail err => mret (branch_back repoName branchName form (Some ("delete failed: " +:+ error_text err)))
  | Ok _ => emit (BranchAbandoned repoName branchName me);; mret (see_other ("/r/" +:+ repoName))
  end.

Definition handleUIPromoteBranch (owner name : string) (form : Form) : V :=
  let repoName := full owner name in
  let branchName := TrimSpace (FormValue form "branch") in
  if empty branchName then mret (branch_list_error repoName branch_name_required) else
  r ← attempt (lift (UpdateBranchDraft repoName branchName false));
  match r with
  | Fail err => mret (branch_back repoName branchName form (Some ("promote failed: " +:+ error_text err)))
  | Ok _ =>
      emit (BranchDraftUpdated repoName branchName false me);;
      mret (branch_back repoName branchName form None)
  end.

Definition handleUISetAutoMerge (owner name : string) (form : Form) : V :=
  let repoName := full owner name in
  let branchName := TrimSpace (FormValue form "branch") in
  if empty branchName then mret (branch_list_error repoName branch_name_required) else
  let enable := bool_decide (FormValue form "enable" = "1") in
  r ← attempt (lift (SetBranchAutoMerge repoName branchName enable));
  mret (branch_back repoName branchName form
    match r with Fail err => Some ("auto-merge update failed: " +:+ error_text err) | Ok _ => None end).

(** ** Reviews, comments, commits *)

Definition branch_url (repoName branch : string) : string := "/r/" +:+ repoName +:+ "/b/" +:+ branchURLPath branch.

(** A status outside the enum is refused by the INSERT of [CreateReview]. *)
Definition review_refused (repo branch : string) : M unit :=
  in_tx tt (or_not_found (lock_branch repo branch) ErrBranchNotFound "lock branch";;
            wrap "insert review" (fail (Pq "22P02"))).
Definition create_review (repo branch status body : string) : PM unit :=
  match parse_review_status status with
  | Some st => Service.CreateReview svc me repo branch st body;; mret tt
  | None => lift (uuid_New;; review_refused repo branch)
  end.

Definition handleSubmitReview (owner name branch : string) (form : Form) : V :=
  let repoName := full owner name in
  let status := FormValue form "status" in
  if empty status then renderBranchDetail h cx repoName branch "status is required" else
  r ← attempt (create_review repoName branch status (FormValue form "body"));
  match r with
  | Fail err => renderBranchDetail h cx repoName branch ("could not submit review: " +:+ error_text err)
  | Ok _ => mret (see_other (branch_url repoName branch))
  end.

Definition handlePostComment (owner name branch : string) (form : Form) : V :=
  let repoName := full owner name in
  let path := FormValue form "path" in
  let versionID := FormValue form "version_id" in
  let body := FormValue form "body" in
  if empty path || empty versionID || empty body
  then renderBranchDetail h cx repoName branch "path, version_id, and body are required" else
  r ← attempt (lift (CreateReviewComment repoName branch path versionID body me None));
  match r with
  | Fail err => renderBranchDetail h cx repoName branch ("could not post comment: " +:+ error_text err)
  | Ok _ => mret (see_other (branch_url repoName branch))
  end.

Definition handleDeleteComment (owner name branch id : string) : V :=
  let repoName := full owner name in
  role ← my_role repoName;
  r ← attempt (Service.DeleteReviewComment me role repoName id);
  match r with
  | Ok _ => mret (see_other (branch_url repoName branch))
  | Fail err =>
      if errors_Is err Service.ErrForbidden then mret (see_other (branch_url repoName branch +:+ "?err=forbidden"))
      else renderBranchDetail h cx repoName branch ("could not delete comment: " +:+ error_text err)
  end.

Definition commit_form_view (repo : repo) (repoName branch formMessage formFilePath formFileContent errMsg : string)
    : view :=
  Rendered (repoName +:+ " / " +:+ branch +:+ " / commit")
    [repos_crumb; repo_crumb repoName; (branch, branch_url repoName branch); ("commit", "")]
    (commitFormPage repo branch formMessage formFilePath formFileContent errMsg).
Definition handleNewCommit (method owner name branch : string) (form : Form) : V :=
  let repoName := full owner name in
  repo ← get_repo repoName;
  if bool_decide (method = "GET") then mret (commit_form_view repo repoName branch "" "" "" "") else
  let message := TrimSpace (FormValue form "message") in
  let filePath := TrimSpace (FormValue form "file_path") in
  let fileContent := FormValue form "file_content" in
  let again := commit_form_view repo repoName branch message filePath fileContent in
  if empty message then mret (again "message is required") else
  if empty filePath then mret (again "file path is required") else
  r ← attempt (Service.Commit svc me
        (mkCommitRequest repoName branch [mkFileChange filePath (Some fileContent) ""] message ""));
  mret match r with
       | Ok _ => see_other (branch_url repoName branch)
       | Fail err => again ("could not commit: " +:+ error_text err)
       end.

(** ** Proposals *)

Definition handleCreateProposalUI (owner name : string) (form : Form) : V :=
  let repoName := full owner name in
  let branch := FormValue form "branch" in
  let baseBranch := FormValue form "base_branch" in
  let title := FormValue form "title" in
  let renderWithErr errMsg :=
    repo ← call (fails 500 "could not load repo") (GetRepo repoName);
    l ← attempt (lift (ListProposals repoName (Some (proposalStateFromQuery "open")) None));
    mret (proposals_view repo repoName (ok_or_nil l) "open" errMsg) in
  if empty branch || empty baseBranch || empty title
  then renderWithErr "branch, base_branch, and title are required" else
  r ← attempt (Service.CreateProposal svc me repoName branch baseBranch title (FormValue form "description"));
  match r with
  | Fail err => renderWithErr ("could not create proposal: " +:+ error_text err)
  | Ok p => mret (see_other ("/r/" +:+ repoName +:+ "/proposals/" +:+ Prop_ID p))
  end.

Definition forbidden_proposal : string := "forbidden: must be proposal author or maintainer".
Definition handleEditProposal (owner name id : string) (form : Form) : V :=
  let repoName := full owner name in
  let title := FormValue form "title" in
  let renderWithErr p errMsg :=
    repo ← call (fails 500 "could not load repo") (GetRepo repoName);
    mret (proposal_view repo repoName id p [] errMsg) in
  p ← call (fails 404 "proposal not found") (GetProposal repoName id);
  if empty title then renderWithErr p "title is required" else
  role ← my_role repoName;
  r ← attempt (Service.UpdateProposal me role repoName id (Some title) (Some (FormValue form "description")));
  match r with
  | Ok updated => mret (see_other ("/r/" +:+ repoName +:+ "/proposals/" +:+ Prop_ID updated))
  | Fail err =>
      if errors_Is err Service.ErrForbidden then
        p2 ← attempt (lift (GetProposal repoName id));
        renderWithErr (match p2 with Ok p2 => p2 | Fail _ => p end) forbidden_proposal
      else renderWithErr p ("could not update proposal: " +:+ error_text err)
  end.

Definition handleCloseProposalUI (owner name id : string) : V :=
  let repoName := full owner name in
  role ← my_role repoName;
  r ← attempt (Service.CloseProposal svc me role repoName id);
  match r with
  | Ok _ => mret (see_other ("/r/" +:+ repoName +:+ "/proposals/" +:+ id))
  | Fail err =>
      if errors_Is err Service.ErrForbidden then
        p ← attempt (lift (GetProposal repoName id));
        repo ← attempt (lift (GetRepo repoName));
        mret match p, repo with
             | Ok p, Ok repo => proposal_view repo repoName id p [] forbidden_proposal
             | _, _ => ErrorPage 403 "forbidden"
             end
      else
        p ← call (fails 500 "could not close proposal") (GetProposal repoName id);
        repo ← call (fails 500 "could not load repo") (GetRepo repoName);
        mret (proposal_view repo repoName id p [] ("could not close proposal: " +:+ error_text err))
  end.
End Forms.

(** ** The routes below "/b/" *)

Inductive branch_get := B_commit (branch : string) | B_log (branch : string)
  | B_detail_commit (branch seq : string) | B_detail (branch : string).

(** [handleBranchGetDispatch], up to the handler it calls. *)
Definition branch_get_route (rest : string) : branch_get :=
  let raw := TrimSuffix rest "/" in
  match CutSuffix raw "/commit" with
  | Some b => B_commit b
  | None =>
      match CutSuffix raw "/log" with
      | Some b => B_log b
      | None =>
          match CutLast raw "/c/" with
          | Some (b, seq) =>
              match ParseInt seq with
              | Some n => if 0 <? n then B_detail_commit b seq else B_detail raw
              | None => B_detail raw
              end
          | None => B_detail raw
          end
      end
  end.

(** [handleBranchPartialGetDispatch] *)
Inductive branch_partial := P_checks (branch : string) | P_comments (branch : string) | P_log (branch : string)
  | P_check_history (branch : string) | P_diff (branch seq path : string).
Definition branch_partial_route (rest : string) : option branch_partial :=
  let raw := TrimSuffix rest "/" in
  match CutSuffix raw "/checks", CutSuffix raw "/comments", CutSuffix raw "/log", CutSuffix raw "/check-history" with
  | Some b, _, _, _ => Some (P_checks b)
  | None, Some b, _, _ => Some (P_comments b)
  | None, None, Some b, _ => Some (P_log b)
  | None, None, None, Some b => Some (P_check_history b)
  | None, None, None, None =>
      '(b, after) ← Cut raw "/c/"; '(seq, path) ← Cut after "/diff/"; Some (P_diff b seq path)
  end.

(** [handleBranchPostDispatch] *)
Inductive branch_post := F_review (branch : string) | F_delete_comment (branch id : string)
  | F_comment (branch : string) | F_commit (branch : string).
Definition branch_post_route (rest : string) : option branch_post :=
  let raw := TrimSuffix rest "/" in
  match CutSuffix raw "/review" with
  | Some b => Some (F_review b)
  | None =>
      match (trimmed ← CutSuffix raw "/delete"; '(rest, id) ← CutLast trimmed "/";
             b ← CutSuffix rest "/comment"; Some (F_delete_comment b id)) with
      | Some p => Some p
      | None =>
          match CutSuffix raw "/comment" with
          | Some b => Some (F_comment b)
          | None => F_commit <$> CutSuffix raw "/commit"
          end
      end
  end.

Section Routes.
Context {Co : Collation} {Mr : MapRange} {Op : OPA} {Us : UuidSource} {Enc : Encryptor}.
Variable h : Handler.
Variable cx : Ctx.
Abbreviation V := (HM view view).

Definition handleBranchGetDispatch (method owner name rest : string) (form : Form) : V :=
  match branch_get_route rest with
  | B_commit b => handleNewCommit h cx method owner name b form
  | B_log b => handleCommitLog owner name b
  | B_detail_commit b seq => handleCommitDetail owner name b seq
  | B_detail b => handleBranchDetail h cx owner name b
  end.

Definition not_found : view := HttpError 404 "404 page not found".
Definition handleBranchPartialGetDispatch (owner name rest : string) (form : Form) : V :=
  match branch_partial_route rest with
  | Some (P_checks b) => handleChecksPartial h cx owner name b
  | Some (P_comments b) => handleReviewCommentsPartial owner name b
  | Some (P_log b) => handleLogRowsPartial owner name b form
  | Some (P_check_history b) => handleCheckHistoryPartial owner name b form
  | Some (P_diff b seq path) => handleCommitFileDiffPartial h owner name b seq path
  | None => mret not_found
  end.

Definition handleBranchPostDispatch (owner name rest : string) (form : Form) : V :=
  match branch_post_route rest with
  | Some (F_review b) => handleSubmitReview h cx owner name b form
  | Some (F_delete_comment b id) => handleDeleteComment h cx owner name b id
  | Some (F_comment b) => handlePostComment h cx owner name b form
  | Some (F_commit b) => handleNewCommit h cx "POST" owner name b form
  | None => mret not_found
  end.
End Routes.

(** ** The routes (ui.go) *)

(** A segment of a path: what a wildcard of the mux matches. *)
Definition segment (p : string) : Prop := p ≠ "" ∧ Contains p "/" = false.
(** A pattern with the method GET matches HEAD as well. *)
Definition is_get (method : string) : Prop := method = "GET" ∨ method = "HEAD".

Section Serve.
Context {Co : Collation} {Mr : MapRange} {Op : OPA} {Us : UuidSource} {Enc : Encryptor}.
Variable h : Handler.
Variable cx : Ctx.
Abbreviation V := (HM view view).
Abbreviation repo_path o n := ("/r/" +:+ o +:+ "/" +:+ n) (only parsing).

(** Below a repository, for GET and HEAD. *)
Inductive repo_get (method : string) : string → string → string → (Form → V) → Prop :=
| r_Branches o n : repo_get method o n "" (λ _, handleBranches o n)
| r_Settings o n : repo_get method o n "/settings" (λ _, handleRepoSettings o n)
| r_Secrets o n : repo_get method o n "/secrets" (λ _, handleRepoSecrets h o n)
| r_Log o n : repo_get method o n "/log" (λ _, handleRepoLog o n)
| r_Branch o n b : repo_get method o n ("/b/" +:+ b) (handleBranchGetDispatch h cx method o n b)
| r_File o n p : repo_get method o n ("/f/" +:+ p) (handleFile h o n p)
| r_Issues o n : repo_get method o n "/issues" (handleIssues o n)
| r_NewIssue o n : repo_get method o n "/issues/new" (handleNewIssue h cx method o n)
| r_Issue o n i : segment i → i ≠ "new" → repo_get method o n ("/issues/" +:+ i) (handleIssueDetail o n i)
| r_Proposals o n : repo_get method o n "/proposals" (handleProposals o n)
| r_Proposal o n i : segment i → repo_get method o n ("/proposals/" +:+ i) (λ _, handleProposalDetail o n i)
| r_Releases o n : repo_get method o n "/releases" (λ _, handleReleases o n)
| r_Release o n i : segment i → repo_get method o n ("/releases/" +:+ i) (λ _, handleReleaseDetail o n i)
| r_CIJobs o n : repo_get method o n "/ci-jobs" (handleCIJobs o n)
| r_CIJob o n i : segment i → repo_get method o n ("/ci-jobs/" +:+ i) (λ _, handleCIJobDetail o n i).

(** The fragments. *)
Inductive repo_partial : string → string → string → (Form → V) → Prop :=
| q_Branch o n b : repo_partial o n ("/b/" +:+ b) (handleBranchPartialGetDispatch h cx o n b)
| q_Issues o n : repo_partial o n "/issues" (handleIssuesPartial o n)
| q_Proposals o n : repo_partial o n "/proposals" (handleProposalsPartial o n).

(** The forms. *)
Inductive repo_post : string → string → string → (Form → V) → Prop :=
| p_NewIssue o n : repo_post o n "/issues/new" (handleNewIssue h cx "POST" o n)
| p_EditIssue o n i : segment i → repo_post o n ("/issues/" +:+ i +:+ "/edit") (handleEditIssue h cx o n i)
| p_CloseIssue o n i : segment i → repo_post o n ("/issues/" +:+ i +:+ "/close") (handleIssueClose h cx o n i)
| p_ReopenIssue o n i : segment i → repo_post o n ("/issues/" +:+ i +:+ "/reopen") (λ _, handleIssueReopen h cx o n i)
| p_Comment o n i : segment i →
    repo_post o n ("/issues/" +:+ i +:+ "/comments") (handleCreateIssueComment h cx o n i)
| p_EditComment o n i j : segment i → segment j →
    repo_post o n ("/issues/" +:+ i +:+ "/comments/" +:+ j +:+ "/edit") (handleEditIssueComment h cx o n i j)
| p_DeleteComment o n i j : segment i → segment j →
    repo_post o n ("/issues/" +:+ i +:+ "/comments/" +:+ j +:+ "/delete") (λ _, handleDeleteIssueComment cx o n i j)
| p_AddRef o n i : segment i → repo_post o n ("/issues/" +:+ i +:+ "/refs") (handleAddIssueRef o n i)
| p_CreateBranch o n : repo_post o n "/-/create-branch" (handleUICreateBranch h cx o n)
| p_DeleteBranch o n : repo_post o n "/-/delete-branch" (handleUIDeleteBranch h cx o n)
| p_PromoteBranch o n : repo_post o n "/-/promote-branch" (handleUIPromoteBranch h cx o n)
| p_AutoMerge o n : repo_post o n "/-/set-auto-merge" (handleUISetAutoMerge o n)
| p_Branch o n b : repo_post o n ("/b/" +:+ b) (handleBranchPostDispatch h cx o n b)
| p_Proposal o n : repo_post o n "/proposals" (handleCreateProposalUI h cx o n)
| p_EditProposal o n i : segment i → repo_post o n ("/proposals/" +:+ i +:+ "/edit") (handleEditProposal cx o n i)
| p_CloseProposal o n i : segment i →
    repo_post o n ("/proposals/" +:+ i +:+ "/close") (λ _, handleCloseProposalUI h cx o n i)
| p_SetRole o n : repo_post o n "/roles" (handleSetRole h cx o n)
| p_DeleteRole o n i : segment i → repo_post o n ("/roles/" +:+ i +:+ "/delete") (λ _, handleDeleteRole h cx o n i)
| p_Release o n : repo_post o n "/releases" (handleCreateRelease h cx o n)
| p_DeleteRelease o n i : segment i →
    repo_post o n ("/releases/" +:+ i +:+ "/delete") (λ _, handleDeleteRelease h cx o n i)
| p_DeleteRepo o n : repo_post o n "/-/delete-repo" (handleUIDeleteRepo h cx o n).

(** The forms of an organisation. *)
Inductive org_post : string → string → (Form → V) → Prop :=
| o_AddMember o : org_post o "/members" (handleAddOrgMember h cx o)
| o_RemoveMember o i : segment i → org_post o ("/members/" +:+ i +:+ "/remove") (λ _, handleRemoveOrgMember h cx o i)
| o_Invite o token : org_post o "/invites" (handleCreateInvite cx o token)
| o_RevokeInvite o i : segment i → org_post o ("/invites/" +:+ i +:+ "/revoke") (λ _, handleRevokeInvite o i)
| o_Delete o : org_post o "/delete" (handleUIDeleteOrg h cx o).

(** [registerRoutes]: method and path, and the handler of the form, which for GET
    and HEAD is the query.  The static files are left out. *)
Inductive routes (method : string) : string → (Form → V) → Prop :=
| u_Repos : is_get method → routes method "/" (λ _, handleRepos cx)
| u_UserProfile i : is_get method → segment i → routes method ("/u/" +:+ i) (λ _, handleUserProfile i)
| u_Org o : is_get method → segment o → routes method ("/o/" +:+ o) (λ _, handleOrg o)
| u_NewOrg : is_get method ∨ method = "POST" → routes method "/orgs/new" (handleCreateOrg h cx method)
| u_NewRepo : is_get method ∨ method = "POST" → routes method "/repos/new" (handleCreateRepo h cx method)
| u_AcceptInvite o t : is_get method ∨ method = "POST" → segment o → segment t →
    routes method ("/o/" +:+ o +:+ "/invites/" +:+ t +:+ "/accept") (λ _, handleAcceptInvite cx method o t)
| u_Get o n sub k : is_get method → segment o → segment n → repo_get method o n sub k →
    routes method (repo_path o n +:+ sub) k
| u_GetPartial o n sub k : is_get method → segment o → segment n → repo_partial o n sub k →
    routes method ("/_" +:+ repo_path o n +:+ sub) k
| u_Post o n sub k : method = "POST" → segment o → segment n → repo_post o n sub k →
    routes method (repo_path o n +:+ sub) k
| u_OrgPost o sub k : method = "POST" → segment o → org_post o sub k → routes method ("/o/" +:+ o +:+ sub) k.

(** The patterns of the API that are more specific than the "/" the interface is
    registered under: of its paths only "/orgs/new", which "GET /orgs/{org}" takes.
    ("/repos/new" never gets to the mux, see [inner].) *)
Definition claimed (method path : string) : bool :=
  bool_decide (path = "/orgs/new") && bool_decide (method ∈ ["GET"; "HEAD"]).

(** A request to the interface, with the random token of a new cookie. *)
Inductive ui_serve (path : string) (fresh : option string) (r : UiRequest) : HM view (option string * view) → Prop :=
| ui_served k : claimed (ur_Method r) path = false → routes (ur_Method r) path k →
    ui_serve path fresh r (CSRFMiddleware fresh r k).
End Serve.
