(* ===== verification/Api.v ===== *)
(** * The API server

    A request is authorised and routed ([serve], Server.v) and then answered by
    the handler of its route.  [handles] pairs the routes with their handlers,
    run with any body and query; [api_step] is one request from its first byte
    to its last, [AutoMerge] and the like being steps of other programs.

    Requests are atomic here: what the handlers of concurrent requests do in
    between is each a call of the store, which is what the refinement of
    ApiSpec.v is about.  The routes without a constructor are those whose
    handlers are not modelled (event streams, the logs of checks, the log in),
    and the presigned archives, which Archive.v has with the reads they make.
    What the mux of the API does not claim goes to the web interface
    ([api_page], UiForms.v). *)

From S2P Require Import Prelude GoStd Schema Tx Orgs Blob Commits Merge ReadStore Reviews Purge Releases Issues.
From S2P Require Import CIJobs EventTypes Events Server Policy Http Handlers Handlers2 Handlers3 Secrets.
From S2P Require Import AgentContext.
From S2P Require Ui UiForms.

(** A handler without its reply. *)
Definition void {Op : OPA} {A} (m : H A) : H unit := _ ← m; mret tt.

Abbreviation segment := UiForms.segment.

Section Api.
Context {Co : Collation} {Mr : MapRange} {Op : OPA} {Us : UuidSource} {Enc : Encryptor} {Tk : Tokens}.
Variable s : server.

(** The dispatcher of [handleReposPrefix], the interceptions of [buildHandler]
    and the patterns of its mux. *)
Inductive handles (rq : Request) (cx : Ctx) : Route → H unit → Prop :=
(* the repository itself *)
| h_GetRepo n : handles rq cx (GetRepo_ n) (void (handleGetRepo n))
| h_DeleteRepo n : handles rq cx (DeleteRepo_ n) (void (handleDeleteRepo s cx n))
(* files *)
| h_Tree n b at_ l a : handles rq cx (Tree n) (void (handleTree n b at_ l a))
| h_Archive n b at_ : handles rq cx (Archive n) (void (handleArchive s n b at_))
| h_Branches n st i d : handles rq cx (Branches n) (void (handleBranches n st i d))
| h_Diff n b : handles rq cx (Diff n) (void (handleDiff n b))
| h_Commit n body : handles rq cx (Commit_ n) (void (handleCommit s cx n body))
| h_Chain n f t : handles rq cx (Chain_ n) (void (handleChain n f t))
| h_CommitIssues n q : handles rq cx (CommitIssues n q) (void (handleCommitIssues n q))
| h_GetCommit n q : handles rq cx (GetCommit_ n q) (void (handleGetCommit n q))
| h_File n p b at_ l a f : handles rq cx (File_ n p) (void (handleFile s n p b at_ l a f))
(* branches *)
| h_CreateBranch n body : handles rq cx (CreateBranch_ n) (void (handleCreateBranch s cx n body))
| h_Merge n body : handles rq cx (Merge_ n) (void (handleMerge s cx n body))
| h_Rebase n body : handles rq cx (Rebase_ n) (void (handleRebase s cx n body))
| h_EnableAutoMerge n b im : handles rq cx (EnableAutoMerge n b) (void (handleEnableAutoMerge s cx im n b))
| h_DisableAutoMerge n b im : handles rq cx (DisableAutoMerge n b) (void (handleDisableAutoMerge s cx im n b))
| h_DeleteBranch n b im : handles rq cx (DeleteBranch_ n b) (void (handleDeleteBranch s cx im n b))
| h_UpdateBranch n b im body : handles rq cx (UpdateBranch n b) (void (handleUpdateBranch im n b body))
| h_BranchStatus n b : handles rq cx (BranchStatus n b) (void (handleBranchStatus s cx n b))
| h_AgentContext n b : handles rq cx (AgentContext n b) (void (handleAgentContext (sr_blobs s) cx n b))
| h_GetReviews n p b at_ : CutSuffix p "/reviews" = Some b →
    handles rq cx (BranchGet n p) (void (handleGetReviews n b at_))
| h_GetChecks n p b at_ h : CutSuffix p "/reviews" = None → CutSuffix p "/checks" = Some b →
    handles rq cx (BranchGet n p) (void (handleGetChecks n b at_ h))
| h_ListReviewComments n p b f : CutSuffix p "/reviews" = None → CutSuffix p "/checks" = None →
    CutSuffix p "/comments" = Some b → handles rq cx (BranchGet n p) (void (handleListReviewComments n b f))
| h_GetBranch n p : CutSuffix p "/reviews" = None → CutSuffix p "/checks" = None →
    CutSuffix p "/comments" = None → handles rq cx (BranchGet n p) (void (handleGetBranch n p))
(* reviews and checks *)
| h_Review n body : handles rq cx (Review_ n) (void (handleReview s cx n body))
| h_Check n body : handles rq cx (Check_ n) (void (handleCheck s cx n body))
| h_RetryChecks n body : handles rq cx (RetryChecks_ n) (void (handleRetryChecks s n body))
| h_CreateReviewComment n body :
    handles rq cx (CreateReviewComment_ n) (void (handleCreateReviewComment cx n body))
| h_DeleteReviewComment n i : handles rq cx (DeleteReviewComment_ n i) (void (handleDeleteReviewComment cx n i))
(* administration *)
| h_Purge n body : handles rq cx (Purge_ n) (void (handlePurge s n body))
| h_ListRoles n : handles rq cx (ListRoles_ n) (void (handleListRoles n))
| h_SetRole n i body : handles rq cx (SetRole_ n i) (void (handleSetRole s cx n i body))
| h_DeleteRole n i : handles rq cx (DeleteRole_ n i) (void (handleDeleteRole s cx n i))
(* releases *)
| h_ListReleases n l a : handles rq cx (ListReleases_ n) (void (handleListReleases n l a))
| h_CreateRelease n body : handles rq cx (CreateRelease_ n) (void (handleCreateRelease cx n body))
| h_GetRelease n r : handles rq cx (GetRelease_ n r) (void (handleGetRelease n r))
| h_DeleteRelease n r : handles rq cx (DeleteRelease_ n r) (void (handleDeleteRelease n r))
(* proposals *)
| h_CreateProposal n body : handles rq cx (CreateProposal_ n) (void (handleCreateProposal s cx n body))
| h_ListProposals n st b : handles rq cx (ListProposals_ n) (void (handleListProposals n st b))
| h_CloseProposal n i im : handles rq cx (CloseProposal_ n i) (void (handleCloseProposal s cx im n i))
| h_ProposalIssues n i : handles rq cx (ProposalIssues n i) (void (handleProposalIssues n i))
| h_GetProposal n i : handles rq cx (GetProposal_ n i) (void (handleGetProposal n i))
| h_UpdateProposal n i im body : handles rq cx (UpdateProposal_ n i) (void (handleUpdateProposal cx im n i body))
(* issues *)
| h_ListIssues n st a l : handles rq cx (ListIssues_ n) (void (handleListIssues n st a l))
| h_CreateIssue n body : handles rq cx (CreateIssue_ n) (void (handleCreateIssue s cx n body))
| h_GetIssue n i : handles rq cx (GetIssue_ n i) (void (handleGetIssue n i))
| h_UpdateIssue n i body : handles rq cx (UpdateIssue_ n i) (void (handleUpdateIssue s cx n i body))
| h_CloseIssue n i body : handles rq cx (CloseIssue_ n i) (void (handleCloseIssue s cx n i body))
| h_ReopenIssue n i : handles rq cx (ReopenIssue_ n i) (void (handleReopenIssue s cx n i))
| h_ListIssueComments n i : handles rq cx (ListIssueComments_ n i) (void (handleListIssueComments n i))
| h_CreateIssueComment n i body :
    handles rq cx (CreateIssueComment_ n i) (void (handleCreateIssueComment s cx n i body))
| h_ListIssueRefs n i : handles rq cx (ListIssueRefs_ n i) (void (handleListIssueRefs n i))
| h_AddIssueRef n i body : handles rq cx (AddIssueRef n i) (void (handleAddIssueRef n i body))
| h_UpdateIssueComment n i j body :
    handles rq cx (UpdateIssueComment_ n i j) (void (handleUpdateIssueComment s cx n i j body))
| h_DeleteIssueComment n i j : handles rq cx (DeleteIssueComment_ n i j) (void (handleDeleteIssueComment cx n i j))
(* CI and secrets *)
| h_ListCIJobs n b st l : handles rq cx (ListCIJobs_ n) (void (handleListCIJobs n b st l))
| h_TriggerCIRun n body : handles rq cx (TriggerCIRun n) (void (handleTriggerCIRun n body))
| h_ListSecrets n : handles rq cx (ListSecrets n) (void (handleListSecrets n))
| h_SetSecret n i body : handles rq cx (SetSecret n i) (void (handleSetSecret s cx n i body))
| h_DeleteSecret n i : handles rq cx (DeleteSecret_ n i) (void (handleDeleteSecret s cx n i))
(* with the token of a job *)
| h_CIConfig n : handles rq cx (CIConfig n) (void (handleCIConfig s (rq_Authorization rq) n))
| h_CICheck n body : handles rq cx (CICheck n) (void (handleCICheck s (rq_Authorization rq) n body))
| h_RevealSecrets n body :
    handles rq cx (RevealSecrets n) (void (handleRevealSecrets s (rq_Authorization rq) n body))
(* the mux *)
| h_CreateOrg body : handles rq cx (Mux "POST" "/orgs") (void (handleCreateOrg s cx body))
| h_ListOrgs : handles rq cx (Mux "GET" "/orgs") (void handleListOrgs)
| h_GetOrg o : segment o → handles rq cx (Mux "GET" ("/orgs/" +:+ o)) (void (handleGetOrg o))
| h_DeleteOrg o : segment o → handles rq cx (Mux "DELETE" ("/orgs/" +:+ o)) (void (handleDeleteOrg s cx o))
| h_ListOrgRepos o : segment o →
    handles rq cx (Mux "GET" ("/orgs/" +:+ o +:+ "/repos")) (void (handleListOrgRepos o))
| h_ListOrgMembers o : segment o →
    handles rq cx (Mux "GET" ("/orgs/" +:+ o +:+ "/members")) (void (handleListOrgMembers cx o))
| h_AddOrgMember o i body : segment o → segment i →
    handles rq cx (Mux "POST" ("/orgs/" +:+ o +:+ "/members/" +:+ i)) (void (handleAddOrgMember cx o i body))
| h_RemoveOrgMember o i : segment o → segment i →
    handles rq cx (Mux "DELETE" ("/orgs/" +:+ o +:+ "/members/" +:+ i)) (void (handleRemoveOrgMember cx o i))
| h_ListInvites o : segment o →
    handles rq cx (Mux "GET" ("/orgs/" +:+ o +:+ "/invites")) (void (handleListInvites cx o))
| h_CreateInvite o token body : segment o →
    handles rq cx (Mux "POST" ("/orgs/" +:+ o +:+ "/invites")) (void (handleCreateInvite cx o token body))
| h_AcceptInvite o t : segment o → segment t →
    handles rq cx (Mux "POST" ("/orgs/" +:+ o +:+ "/invites/" +:+ t +:+ "/accept")) (void (handleAcceptInvite cx o t))
| h_RevokeInvite o i : segment o → segment i →
    handles rq cx (Mux "DELETE" ("/orgs/" +:+ o +:+ "/invites/" +:+ i)) (void (handleRevokeInvite cx o i))
| h_CreateRepo body : handles rq cx (Mux "POST" "/repos") (void (handleCreateRepo s cx body))
| h_ListRepos : handles rq cx (Mux "GET" "/repos") (void handleListRepos)
| h_ListSubscriptions : handles rq cx (Mux "GET" "/subscriptions") (void (handleListSubscriptions s cx))
| h_DeleteSubscription i : segment i →
    handles rq cx (Mux "DELETE" ("/subscriptions/" +:+ i)) (void (handleDeleteSubscription s cx i))
| h_ResumeSubscription i : segment i →
    handles rq cx (Mux "POST" ("/subscriptions/" +:+ i +:+ "/resume")) (void (handleResumeSubscription s cx i))
| h_GetCIJob i : segment i → handles rq cx (Mux "GET" ("/ci-jobs/" +:+ i)) (void (handleGetCIJob cx i)).

(** A request and its outcome.  One that is refused changes nothing. *)
Inductive api_step (sv : ServerConfig) (rq : Request) : Cache * World → Cache * World → Prop :=
| api_refused c w w' status :
    serve sv rq w = (w', Ok (Status status)) → api_step sv rq (c, w) (c, w')
| api_handled c w w1 cx h m c' w' r :
    serve sv rq w = (w1, Ok (Handle (cx, h))) → handles rq cx h m → m c w1 = (c', w', r) →
    api_step sv rq (c, w) (c', w')
| api_page c w w1 cx secrets path fresh r m c' w' reply :
    serve sv rq w = (w1, Ok (Handle (cx, Mux (Ui.ur_Method r) path))) →
    UiForms.ui_serve (Ui.mkHandler s secrets) cx path fresh r m → m c w1 = (c', w', reply) →
    api_step sv rq (c, w) (c', w').
End Api.
