(* ===== verification/WorkerSpec.v ===== *)
(** * What the worker reports, and the secrets it runs with

    Whatever the servers answer: the result of a job is that of its checks, each
    of which is posted once, after all were marked pending; and the value of a
    secret a check is run with is that of the secret it asked for. *)

From Stdlib Require Import Ascii.
From S2P Require Import Prelude GoStd Wire Schema Tx Run Orgs Merge Issues CIJobs Policy Http Handlers Handlers2.
From S2P Require Import CIConfig Secrets SecretsSpec Samples CommitSpec PolicySpec Executor Worker.

(** ** Runs *)

Lemma runs_Http {A} r k t (a : A) : runs (Http r k) t a → ∃ x t', t = Sent r x :: t' ∧ runs (k x) t' a.
Proof. inversion 1; subst; eauto. Qed.
Lemma runs_MkdirTemp {A} p k t (a : A) : runs (MkdirTemp p k) t a → ∃ x t', t = MadeDir p x :: t' ∧ runs (k x) t' a.
Proof. inversion 1; subst; eauto. Qed.
Lemma runs_WriteFile {A} p d k t (a : A) : runs (WriteFile p d k) t a → ∃ x t', t = Wrote p d x :: t' ∧ runs (k x) t' a.
Proof. inversion 1; subst; eauto. Qed.

Lemma runs_bind {A B} (m : act A) (f : A → act B) t b :
  runs (m ≫= f) t b → ∃ t1 t2 a, t = t1 ++ t2 ∧ runs m t1 a ∧ runs (f a) t2 b.
Proof.
  revert t. induction m as [a|r k IH|p k IH|p d k IH]; intros t Hr.
  - exists [], t, a. by repeat constructor.
  - apply (runs_Http r (λ x, k x ≫= f)) in Hr as (x & t' & -> & (t1 & t2 & a & -> & ? & ?)%IH).
    eexists (_ :: t1), t2, a. by repeat constructor.
  - apply (runs_MkdirTemp p (λ x, k x ≫= f)) in Hr as (x & t' & -> & (t1 & t2 & a & -> & ? & ?)%IH).
    eexists (_ :: t1), t2, a. by repeat constructor.
  - apply (runs_WriteFile p d (λ x, k x ≫= f)) in Hr as (x & t' & -> & (t1 & t2 & a & -> & ? & ?)%IH).
    eexists (_ :: t1), t2, a. by repeat constructor.
Qed.
Lemma runs_mret {A} (a b : A) t : runs (mret a) t b → t = [] ∧ b = a.
Proof. by inversion 1. Qed.

(** An [abind] that succeeds; and any [abind]. *)
Lemma runs_abind {A B} (m : act (result A)) (f : A → act (result B)) t r :
  runs (abind m f) t r →
  (∃ e, runs m t (Fail e) ∧ r = Fail e) ∨
  ∃ t1 t2 a, t = t1 ++ t2 ∧ runs m t1 (Ok a) ∧ runs (f a) t2 r.
Proof.
  intros (t1 & t2 & [a|e] & -> & H1 & H2)%runs_bind; [right; eauto 10|left].
  apply runs_mret in H2 as [-> ->]. rewrite app_nil_r. eauto.
Qed.

Section Worker.
Context {Mr : MapRange} {Nr : NewRequest} {Yc : YamlChecks} {Sc : Schedule}.

(** The statuses posted in a run, by the name of the check. *)
Definition posted (t : list event) : list (string * option check_status) :=
  omap (λ e, match e with
             | Sent (mkHttpRequest _ _ _ (CheckRunBody r)) _ => Some (ccr_CheckName r, ccr_Status r)
             | _ => None
             end) t.
Lemma posted_app t1 t2 : posted (t1 ++ t2) = posted t1 ++ posted t2.
Proof. apply omap_app. Qed.

Lemma runs_send be de r t x : runs (send be de r) t x →
  t = [] ∧ new_request (hq_URL r) ≠ None ∨ new_request (hq_URL r) = None ∧ ∃ answer, t = [Sent r answer].
Proof.
  unfold send. destruct (new_request (hq_URL r)) as [e|]; [by intros [-> _]%runs_mret; left|].
  intros (answer & t' & -> & H)%runs_Http. right. split; [done|]. inversion H; subst. by eexists.
Qed.

(** An action that posts no check. *)
Definition quiet {A} (m : act A) : Prop := ∀ t a, runs m t a → posted t = [].
Lemma q_ret {A} (a : A) : quiet (mret a).
Proof. by intros t b [-> _]%runs_mret. Qed.
Lemma q_send be de r : (∀ c, hq_Body r ≠ CheckRunBody c) → quiet (send be de r).
Proof. intros Hb t x [[-> _]|(_ & answer & ->)]%runs_send; [done|]. cbn. destruct r as [? ? ? []]; cbn in *; naive_solver. Qed.
Lemma q_bind {A B} (m : act A) (f : A → act B) : quiet m → (∀ a, quiet (f a)) → quiet (m ≫= f).
Proof. intros Hm Hf t b (t1 & t2 & a & -> & H1 & H2)%runs_bind. by rewrite posted_app, (Hm _ _ H1), (Hf _ _ _ H2). Qed.
Lemma q_abind {A B} (m : act (result A)) (f : A → act (result B)) : quiet m → (∀ a, quiet (f a)) → quiet (abind m f).
Proof. intros Hm Hf. apply q_bind; [done|]. intros [a|e]; [apply Hf|apply q_ret]. Qed.
Lemma q_decode {A} what (dec : json → option A) resp : quiet (decode_json what dec resp).
Proof. unfold decode_json. repeat case_match; apply q_ret. Qed.
Ltac solve_quiet :=
  repeat first
    [ apply q_ret | apply q_decode | apply q_abind; [|intros] | apply q_send; by intros
    | case_match | unfold unexpected_status; apply q_ret ].

Lemma fetchConfig_quiet d repo tok : quiet (fetchConfig d repo tok).
Proof. unfold fetchConfig. solve_quiet. Qed.
Lemma fetchSecrets_quiet d repo tok cfg : quiet (fetchSecrets d repo tok cfg).
Proof. unfold fetchSecrets. solve_quiet. Qed.
Lemma presign_quiet d repo tok : quiet (getPresignedArchiveURL d repo tok).
Proof. unfold getPresignedArchiveURL. solve_quiet. Qed.
Lemma logs_quiet d repo name tok logs : quiet (postCheckLogs d repo name tok logs).
Proof. unfold postCheckLogs. solve_quiet. Qed.

Lemma fetchConfig_ok d repo tok t cfg : runs (fetchConfig d repo tok) t (Ok cfg) →
  ∃ req resp, t = [Sent req (Ok resp)] ∧
    match cfg with
    | None => hp_Status resp = 404
    | Some cfg => hp_Status resp = 200 ∧ ∃ v content, hp_Json resp = Some v ∧ dec_content v = Some content ∧ yaml_checks content = Ok cfg
    end.
Proof.
  unfold fetchConfig. intros [(e & _ & ?)|(t1 & t2 & resp & -> & H1 & H2)]%runs_abind; [done|].
  assert (∃ req, t1 = [Sent req (Ok resp)]) as [req ->].
  { unfold send in H1. destruct (new_request _); [by apply runs_mret in H1 as [_ ?]|].
    apply runs_Http in H1 as (x & t' & -> & H). inversion H; subst. destruct x; [|done]. simplify_eq. by eexists. }
  destruct (hp_Status resp =? 404) eqn:E4.
  - apply runs_mret in H2 as [-> [= ->]]. exists req, resp. split; [done|lia].
  - destruct (negb _) eqn:E2; [by apply runs_mret in H2 as [_ ?]|].
    apply runs_abind in H2 as [(e & _ & ?)|(t3 & t4 & content & -> & H3 & H4)]; [done|].
    unfold decode_json in H3. destruct (hp_Json resp) as [v|] eqn:Ej; [|by apply runs_mret in H3 as [_ ?]].
    destruct (is_struct v); [|by apply runs_mret in H3 as [_ ?]].
    destruct (dec_content v) as [content'|] eqn:Ed; [|by apply runs_mret in H3 as [_ ?]].
    apply runs_mret in H3 as [-> [= ->]].
    destruct (yaml_checks content') as [cfg'|] eqn:Ey; apply runs_mret in H4 as [-> [= ->]].
    exists req, resp. split; [done|]. split; [|eauto]. destruct (hp_Status resp =? 200) eqn:E3; [lia|done].
Qed.

(** The configuration the first request of a run was answered with. *)
Definition config_answered (t : list event) (cfg : Config) : Prop :=
  ∃ req resp v content t', t = Sent req (Ok resp) :: t' ∧ hp_Status resp = 200 ∧ hp_Json resp = Some v ∧
    dec_content v = Some content ∧ yaml_checks content = Ok cfg.

Section Job.
Variable runner : string → Config → TriggerContext → result (list CheckResult).
Variables (d : string) (job : CIJob) (tok oidc logDir : string) (ctx : TriggerContext) (cacheRef dcd : string).
(** The address of the check runs is one a request can be made to. *)
Hypothesis Hurl : new_request (d +:+ "/repos/" +:+ Job_Repo job +:+ "/-/check") = None.

Lemma post_posted name st url t u : runs (post d job tok name st url) t u → posted t = [(name, Some st)].
Proof.
  unfold post, postCheckRun. intros (t1 & t2 & r & -> & H1 & [-> _]%runs_mret)%runs_bind. rewrite app_nil_r.
  assert (∀ t r, runs (send "create check run request" "post check run"
     (mkHttpRequest "POST" (d +:+ "/repos/" +:+ Job_Repo job +:+ "/-/check") (authorization_of tok)
        (CheckRunBody (check_run job name st url)))) t r → posted t = [(name, Some st)]) as Hs.
  { intros t r' [[_ ?]|(_ & answer & ->)]%runs_send; done. }
  apply runs_abind in H1 as [(e & H1 & _)|(t3 & t4 & resp & -> & H1 & H2)]; [by apply Hs in H1|].
  rewrite posted_app, (Hs _ _ H1). revert H2. destruct (negb _); [unfold unexpected_status|]; by intros [-> _]%runs_mret.
Qed.

Definition pending (checks : list Check_) : list (string * option check_status) :=
  (λ check, (ck_Name check, Some CheckPending)) <$> schedule checks.
Definition final (results : list CheckResult) : list (string * option check_status) :=
  (λ r, (cr_Name r, Some (final_status (cr_Status r)))) <$> results.

Lemma mark_pending_posted checks t u : runs (mark_pending d job tok checks) t u → posted t = pending checks.
Proof.
  unfold mark_pending, pending. intros (t1 & t2 & l & -> & H1 & [-> _]%runs_mret)%runs_bind. rewrite app_nil_r.
  revert t1 l H1. induction (schedule checks) as [|c cs IH]; intros t1 l H1; [by apply runs_mret in H1 as [-> _]|].
  apply runs_bind in H1 as (t3 & t4 & u1 & -> & H3%post_posted & H4).
  apply runs_bind in H4 as (t5 & t6 & l' & -> & H5%IH & [-> _]%runs_mret).
  by rewrite !posted_app, H3, H5, app_nil_r.
Qed.

Lemma report_posted r t u : runs (report d job tok logDir r) t u →
  posted t = [(cr_Name r, Some (final_status (cr_Status r)))].
Proof.
  unfold report. intros (x & t' & -> & H)%runs_WriteFile. change (posted (Wrote _ _ _ :: t')) with (posted t').
  apply runs_bind in H as (t1 & t2 & v & -> & H1 & H).
  apply runs_bind in H as (t3 & t4 & w & -> & H3%post_posted & [-> _]%runs_mret).
  by rewrite !posted_app, (logs_quiet _ _ _ _ _ _ _ H1), H3.
Qed.
Lemma report_all_posted results overall first t st url msg :
  runs (report_all d job tok logDir results overall first) t (st, url, msg) →
  posted t = final results ∧ msg = None ∧
  (st = check_failed ↔ overall = check_failed ∨ ∃ r, r ∈ results ∧ cr_Status r = check_failed).
Proof.
  revert overall first t. induction results as [|r results IH]; intros overall first t.
  - intros [-> [= -> -> ->]]%runs_mret. split_and!; [done..|]. split; [by left|].
    intros [?|(r & Hr & _)]; [done|]. by apply not_elem_of_nil in Hr.
  - intros (t1 & t2 & u & -> & H1%report_posted & (Hp & -> & Hst)%IH)%runs_bind.
    rewrite posted_app, H1, Hp. split_and!; [done..|]. rewrite Hst. split.
    + intros [Hf|(r' & Hr & Hf)]; [|right; exists r'; split; [by right|done]].
      destruct (cr_Status r) eqn:E; [by left|]. right. exists r. split; [by left|done].
    + intros [->|(r' & [->|Hr]%elem_of_cons & Hf)]; [left; by destruct (cr_Status r)|left; by rewrite Hf|right; eauto].
Qed.

(** How a run of a job ends: refused or interrupted with a message, without a
    configuration, or with the checks executed. *)
Definition ends (t : list event) (st : check_outcome) (msg : option string) : Prop :=
  match msg with
  | Some _ =>
      st = check_failed ∧
      (posted t = [("ci/config", Some CheckFailed)] ∨ posted t = [] ∨
       ∃ cfg, config_answered t cfg ∧ posted t = pending (cf_Checks cfg))
  | None =>
      (st = check_passed ∧ posted t = [] ∧ ∃ req resp, t = [Sent req (Ok resp)] ∧ hp_Status resp = 404) ∨
      ∃ cfg secrets url sum results, config_answered t cfg ∧
        ValidateSecretsAllowlist (Some cfg) = [] ∧ ValidateEnv (Some cfg) = [] ∧
        runner url (job_config job tok oidc ctx cacheRef dcd cfg secrets sum) ctx = Ok results ∧
        posted t = pending (cf_Checks cfg) ++ final results ∧
        (st = check_failed ↔ ∃ r, r ∈ results ∧ cr_Status r = check_failed)
  end.

Lemma failed_ends msg t st url m : runs (failed msg) t (st, url, m) → t = [] ∧ st = check_failed ∧ m = Some msg.
Proof. by intros [-> [= -> _ ->]]%runs_mret. Qed.
Lemma reject_ends msg t st url m : runs (reject d job tok msg) t (st, url, m) →
  posted t = [("ci/config", Some CheckFailed)] ∧ st = check_failed ∧ m = Some msg.
Proof.
  unfold reject. intros (t1 & t2 & u & -> & H1%post_posted & (-> & -> & ->)%failed_ends)%runs_bind.
  by rewrite posted_app, H1.
Qed.

Lemma runJob_ends t st url msg :
  runs (runJob runner d job tok oidc logDir ctx cacheRef dcd) t (st, url, msg) → ends t st msg.
Proof.
  unfold runJob. intros (t1 & t2 & [cfg|e] & -> & H1 & H2)%runs_bind; unfold ends.
  2: { apply reject_ends in H2 as (Hp & -> & ->). split; [done|]. left.
       by rewrite posted_app, (fetchConfig_quiet _ _ _ _ _ H1), Hp. }
  pose proof (fetchConfig_quiet _ _ _ _ _ H1) as Hq. apply fetchConfig_ok in H1 as (req & resp & -> & Hc).
  destruct cfg as [cfg|].
  2: { apply runs_mret in H2 as [-> [= -> -> ->]]. left. split_and!; [done..|]. by exists req, resp. }
  destruct Hc as (H200 & v & content & Hj & Hd & Hy).
  destruct (ValidateSecretsAllowlist (Some cfg)) as [|e errs] eqn:Es.
  2: { apply reject_ends in H2 as (Hp & -> & ->). split; [done|]. left. by rewrite posted_app, Hq, Hp. }
  destruct (ValidateEnv (Some cfg)) as [|e errs] eqn:Ee.
  2: { apply reject_ends in H2 as (Hp & -> & ->). split; [done|]. left. by rewrite posted_app, Hq, Hp. }
  apply runs_bind in H2 as (t3 & t4 & [[secrets missing]|e] & -> & H3%fetchSecrets_quiet & H4).
  2: { apply failed_ends in H4 as (-> & -> & ->). split; [done|]. right; left. by rewrite !posted_app, Hq, H3. }
  assert (∀ t', config_answered ([Sent req (Ok resp)] ++ t') cfg) as Hcfg.
  { intros t'. by exists req, resp, v, content, t'. }
  unfold execute in H4. apply runs_bind in H4 as (t5 & t6 & [[archive sum]|e] & -> & H5%presign_quiet & H6).
  2: { apply failed_ends in H6 as (-> & -> & ->). split; [done|]. right; left. by rewrite !posted_app, Hq, H3, H5. }
  apply runs_bind in H6 as (t7 & t8 & u & -> & H7%mark_pending_posted & H8).
  destruct (runner _ _ _) as [results|e] eqn:Er.
  2: { apply failed_ends in H8 as (-> & -> & ->). split; [done|]. right; right. exists cfg. split; [apply Hcfg|].
       by rewrite !posted_app, Hq, H3, H5, H7, app_nil_r. }
  apply report_all_posted in H8 as (Hp & -> & Hst). right. exists cfg, (default ∅ secrets), archive, sum, results.
  split_and!; [apply Hcfg|done|done|done|by rewrite !posted_app, Hq, H3, H5, H7, Hp|].
  rewrite Hst. split; [intros [?|?]|]; [done|done|by right].
Qed.

End Job.

Lemma config_answered_eq t cfg cfg' : config_answered t cfg → config_answered t cfg' → cfg = cfg'.
Proof. intros (? & ? & ? & ? & ? & -> & _ & Hj & Hd & Hy) (? & ? & ? & ? & ? & [= <- <- <-] & _ & ? & ? & ?). congruence. Qed.

Lemma runCheck_name {Bk : Buildkit} source check a b c o u us env :
  cr_Name (runCheck source check a b c o u us env) = ck_Name check.
Proof. unfold runCheck. cbv zeta. repeat case_match; done. Qed.

(** A check whose condition does not hold is marked pending and never
    reported again, though the job ends, and may pass: the check run stays
    pending. *)
Theorem skipped_pending {Bk : Buildkit} d job tok oidc logDir ctx cacheRef dcd t st url cfg check :
  new_request (d +:+ "/repos/" +:+ Job_Repo job +:+ "/-/check") = None →
  runs (runJob (λ source cfg ctx, Ok (Executor.Run source cfg ctx)) d job tok oidc logDir ctx cacheRef dcd) t (st, url, None) →
  config_answered t cfg → check ∈ cf_Checks cfg →
  (∀ c, c ∈ cf_Checks cfg → ck_Name c = ck_Name check → should_run ctx c = false) →
  (ck_Name check, Some CheckPending) ∈ posted t ∧
  ∀ status, (ck_Name check, status) ∈ posted t → status = Some CheckPending.
Proof.
  intros Hurl Hr Hcfg Hin Hskip. apply runJob_ends in Hr; [|done].
  destruct Hr as [(_ & _ & req & resp & -> & H4)|(cfg' & secrets & a & sum & results & Hc & _ & _ & [= <-] & -> & _)].
  { destruct Hcfg as (? & ? & ? & ? & ? & [= <- <- <-] & H2 & _). congruence. }
  pose proof (config_answered_eq _ _ _ Hc Hcfg) as ->. split.
  - apply elem_of_app. left. unfold pending. apply list_elem_of_fmap. exists check. split; [done|]. by rewrite schedule_perm.
  - intros status [Hp|Hf]%elem_of_app.
    + by apply list_elem_of_fmap in Hp as (c & [= _ ->] & _).
    + apply list_elem_of_fmap in Hf as (r & [= Hn ->] & Hr). exfalso.
      unfold Executor.Run in Hr. cbn in Hr. apply list_elem_of_fmap in Hr as (c & -> & [Hs Hc']%list_elem_of_filter).
      rewrite runCheck_name in Hn. rewrite (Hskip c Hc') in Hs; done.
Qed.

(** ** Secrets *)

Lemma decode_values64_ok l out plain k v :
  decode_values64 l out = Ok plain → plain !! k = Some v →
  out !! k = Some v ∨ ∃ enc b, (k, enc) ∈ l ∧ StdEncoding_DecodeString enc = Some b ∧ v = string_of_bytes b.
Proof.
  revert out. induction l as [|[n enc] l IH]; intros out; cbn; [intros [= ->]; by left|].
  destruct (StdEncoding_DecodeString enc) as [b|] eqn:E; [|done]. intros Hd Hv.
  destruct (IH _ Hd Hv) as [Ho|(enc' & b' & Hin & ?)]; [|right; exists enc', b'; split; [by right|done]].
  apply lookup_insert_Some in Ho as [[<- <-]|[_ ?]]; [right; exists enc, b; split; [by left|done]|by left].
Qed.
Lemma decode_values64_dom l out plain k :
  decode_values64 l out = Ok plain → is_Some (out !! k) ∨ k ∈ l.*1 → is_Some (plain !! k).
Proof.
  revert out. induction l as [|[n enc] l IH]; intros out; cbn.
  - intros [= ->] [?|?%not_elem_of_nil]; done.
  - destruct (StdEncoding_DecodeString enc) as [b|]; [|done]. intros Hd Hk. apply (IH _ Hd).
    destruct (decide (k = n)) as [->|Hne]; [left; by rewrite lookup_insert_eq|].
    rewrite lookup_insert_ne by done. destruct Hk as [?|[?|?]%elem_of_cons]; auto; done.
Qed.

Section Resolve.
Variable plain : gmap string string.
Let add (m : gmap string string) (sec : SecretRequest) : gmap string string :=
  match plain !! sr_RepoName sec with Some pt => <[sr_LocalName sec := pt]> m | None => m end.

Lemma resolve_Some l m local v : foldl add m l !! local = Some v →
  m !! local = Some v ∨ ∃ sec, sec ∈ l ∧ sr_LocalName sec = local ∧ plain !! sr_RepoName sec = Some v.
Proof.
  revert m. induction l as [|sec l IH]; intros m; cbn; [by left|]. intros H.
  destruct (IH _ H) as [Hm|(sec' & ? & ? & ?)]; [|right; exists sec'; split_and!; [by right|done..]].
  unfold add in Hm. destruct (plain !! sr_RepoName sec) as [pt|] eqn:Ep; [|by left].
  apply lookup_insert_Some in Hm as [[<- <-]|[_ ?]]; [right; exists sec; split_and!; [by left|done..]|by left].
Qed.
Lemma resolve_dom l m local : is_Some (m !! local) ∨ (∃ sec, sec ∈ l ∧ sr_LocalName sec = local ∧ is_Some (plain !! sr_RepoName sec)) →
  is_Some (foldl add m l !! local).
Proof.
  revert m. induction l as [|sec l IH]; intros m H; cbn.
  - destruct H as [?|(sec & ?%not_elem_of_nil & _)]; done.
  - apply IH. unfold add. destruct H as [H|(sec' & [->|Hin]%elem_of_cons & Hl & Hp)].
    + left. case_match; [|done]. rewrite lookup_insert_is_Some. destruct (decide (sr_LocalName sec = local)); auto.
    + left. destruct Hp as [pt ->]. rewrite Hl, lookup_insert_eq. by eexists.
    + right. by exists sec'.
Qed.
End Resolve.

(** No local name stands for two secrets. *)
Lemma local_conflict_None l owner :
  local_conflict l owner = None →
  (∀ sec n, sec ∈ l → sr_LocalName sec ≠ "" → owner !! sr_LocalName sec = Some n → n = sr_RepoName sec) ∧
  (∀ sec sec', sec ∈ l → sec' ∈ l → sr_LocalName sec ≠ "" → sr_LocalName sec = sr_LocalName sec' →
     sr_RepoName sec = sr_RepoName sec').
Proof.
  revert owner. induction l as [|x l IH]; intros owner; cbn.
  { intros _. split; [intros ?? ?%not_elem_of_nil|intros ?? ?%not_elem_of_nil]; done. }
  case_bool_decide as He.
  - intros [H1 H2]%IH. split.
    + intros sec n [->|Hin]%elem_of_cons; [done|]. by apply H1.
    + intros sec sec' [->|Hin]%elem_of_cons [->|Hin']%elem_of_cons Hne Heq; try congruence. by apply H2.
  - intros H.
    assert (local_conflict l (<[sr_LocalName x := sr_RepoName x]> owner) = None ∧
            (∀ n, owner !! sr_LocalName x = Some n → n = sr_RepoName x)) as [Hl Hx].
    { destruct (owner !! sr_LocalName x) as [n|]; [|done]. case_bool_decide; [done|]. split; [done|].
      intros m [= <-]. done. }
    apply IH in Hl as [H1 H2]. split.
    + intros sec n [->|Hin]%elem_of_cons Hne Ho; [by apply Hx|].
      destruct (decide (sr_LocalName x = sr_LocalName sec)) as [E|E].
      * rewrite <- E in Ho. rewrite (Hx _ Ho). apply (H1 sec); [done..|]. by rewrite E, lookup_insert_eq.
      * apply (H1 sec); [done..|]. by rewrite lookup_insert_ne.
    + intros sec sec' [->|Hin]%elem_of_cons [->|Hin']%elem_of_cons Hne E; try done.
      * apply (H1 sec'); [done|congruence|]. by rewrite E, lookup_insert_eq.
      * symmetry. apply (H1 sec); [done|done|]. by rewrite E, lookup_insert_eq.
      * by apply H2.
Qed.

(** The JSON of a reply to a request for secrets, its values in some order. *)
Definition reveal_json (l : list (string * string)) (missing : list string) : json :=
  JObject [("values", JObject ((λ kv, (kv.1, JString kv.2)) <$> l)); ("missing", JArray (JString <$> missing))].

Lemma dec_string_map_all (l : list (string * string)) (m : gmap string string) :
  foldl (λ (o : option (gmap string string)) kv, m ← o; s ← match kv.2 with JNull => Some "" | x => dec_string x end; Some (<[kv.1 := s]> m))
    (Some m) ((λ kv, (kv.1, JString kv.2)) <$> l)
  = Some (foldl (λ (m : gmap string string) kv, <[kv.1 := kv.2]> m) m l).
Proof. revert m. induction l as [|[k v] l IH]; intros m; cbn; [done|]. apply IH. Qed.
Lemma foldl_insert (l : list (string * string)) (m : gmap string string) k v : NoDup l.*1 →
  (foldl (λ (m : gmap string string) kv, <[kv.1 := kv.2]> m) m l !! k) = Some v ↔ ((k, v) ∈ l ∨ ((k ∉ l.*1) ∧ m !! k = Some v)).
Proof.
  revert m. induction l as [|[k' v'] l IH]; intros m.
  { intros _. split; [right; split; [apply not_elem_of_nil|done]|]. intros [?%not_elem_of_nil|[_ ?]]; done. }
  rewrite fmap_cons. intros [Hk HN]%NoDup_cons. cbn [foldl fst snd]. rewrite IH by done. rewrite !elem_of_cons, lookup_insert_Some. cbn [fst].
  assert ((k, v) ∈ l → k ≠ k') as Hne by (intros Hin ->; apply Hk, list_elem_of_fmap; by exists (k', v)).
  cbn in Hk. split.
  - intros [?|(? & [[<- <-]|[? ?]])]; [auto|auto|]. right. split; [|done]. by intros [?|?].
  - intros [[[= -> ->]|?]|(Hn & ?)]; [auto|auto|]. right. split; [tauto|]. right. split; [|done]. intros ->. tauto.
Qed.

Lemma dec_reveal_json values l missing : l ≡ₚ map_to_list values →
  dec_reveal (reveal_json l missing) = Some (mkRevealResponse values missing).
Proof.
  intros Hl. unfold dec_reveal.
  change (decode_field ∅ dec_string_map "values" (reveal_json l missing))
    with (x ← dec_string_map (JObject ((λ kv, (kv.1, JString kv.2)) <$> l)); Some x).
  change (strings_field "missing" (reveal_json l missing)) with (x ← dec_strings (JArray (JString <$> missing)); Some x).
  assert (dec_strings (JArray (JString <$> missing)) = Some missing) as ->.
  { cbn. induction missing as [|x ms IH]; [done|]. cbn. cbn in IH. by rewrite IH. }
  unfold dec_string_map. rewrite dec_string_map_all. cbn. do 2 f_equal.
  assert (NoDup l.*1) as HN by (rewrite Hl; apply NoDup_fst_map_to_list).
  apply map_eq. intros k. apply option_eq. intros v. rewrite foldl_insert by done.
  rewrite lookup_empty, Hl, elem_of_map_to_list. split; [intros [?|[_ ?]]; done|by left].
Qed.

Lemma fetchSecrets_ok d repo tok cfg t m missing req resp v rr :
  runs (fetchSecrets d repo tok (Some cfg)) t (Ok (Some m, missing)) → t = [Sent req (Ok resp)] →
  hp_Json resp = Some v → dec_reveal v = Some rr →
  req = mkHttpRequest "POST" (TrimRight "/" d +:+ "/repos/" +:+ repo +:+ "/-/secrets/reveal") (bearer_of tok)
          (JsonBody (JObject [("names", JArray (JString <$> reveal_names cfg))])) ∧
  local_conflict (requests cfg) ∅ = None ∧
  ∃ plain, decode_values64 (map_range 24 (rr_Values rr)) ∅ = Ok plain ∧ m = resolve cfg plain.
Proof.
  unfold fetchSecrets. cbv zeta. intros Hr -> Hj Hd. destruct (bool_decide _); [by apply runs_mret in Hr as [? _]|].
  destruct (local_conflict _ _) eqn:Ec; [by apply runs_mret in Hr as [? _]|].
  apply runs_abind in Hr as [(e & _ & ?)|(t1 & t2 & resp' & Et & H1 & H2)]; [done|].
  unfold send in H1. destruct (new_request _); [by apply runs_mret in H1 as [_ ?]|].
  apply runs_Http in H1 as (x & t' & -> & H). inversion H; subst. destruct x; [|done]. cbn in Et. simplify_eq.
  split; [done|]. split; [done|].
  destruct (negb _); [by apply runs_mret in H2 as [_ ?]|].
  apply runs_abind in H2 as [(e & _ & ?)|(t3 & t4 & rr' & E2 & H3 & H4)]; [done|].
  symmetry in E2. apply app_nil in E2 as [-> ->].
  unfold decode_json in H3. rewrite Hj in H3. destruct (is_struct v); [|by apply runs_mret in H3 as [_ ?]].
  rewrite Hd in H3. apply runs_mret in H3 as [_ [= ->]].
  destruct (decode_values64 _ _) as [plain|]; apply runs_mret in H4 as [_ [= -> _]]. by exists plain.
Qed.

(** C30: the worker runs checks with the secrets they asked for.  When the answer
    to its request is the reply the handler of docstore gives to that very
    request, the job of the token was claimed and trusted; a value the worker
    gets under a local name is the plaintext of the secret of the repository
    that some check asked for under it; and every secret asked for under a name
    and revealed is there, under that name. *)
Theorem worker_secrets {Co : Collation} {Us : UuidSource} {Op : OPA} {Enc : Encryptor}
    s c w c' w' values missing l text d repo tok cfg t m missing' req :
  handleRevealSecrets s (bearer_of tok) repo (Some (reveal_names cfg)) c w = (c', w', inr (200, (values, missing))) →
  l ≡ₚ map_to_list values →
  runs (fetchSecrets d repo tok (Some cfg)) t (Ok (Some m, missing')) →
  t = [Sent req (Ok (mkHttpResponse 200 (Some (reveal_json l missing)) text))] →
  req = mkHttpRequest "POST" (TrimRight "/" d +:+ "/repos/" +:+ repo +:+ "/-/secrets/reveal") (bearer_of tok)
          (JsonBody (JObject [("names", JArray (JString <$> reveal_names cfg))])) ∧
  (∃ j, j ∈ db_ci_jobs (w_db w) ∧ j_repo j = repo ∧ j_status j = Claimed ∧ trusted (w_db w) (scanCIJob j)) ∧
  (∀ local v, m !! local = Some v → ∃ sec row, sec ∈ requests cfg ∧ sr_LocalName sec = local ∧
     secret_at (w_db w) repo (sr_RepoName sec) = Some row ∧ Decrypt (sealed_of row) = Ok v) ∧
  (∀ sec enc, sec ∈ requests cfg → sr_LocalName sec ≠ "" → values !! sr_RepoName sec = Some enc →
     ∃ row v, m !! sr_LocalName sec = Some v ∧ secret_at (w_db w) repo (sr_RepoName sec) = Some row ∧
       Decrypt (sealed_of row) = Ok v).
Proof.
  intros Hrev Hl Hrun Et.
  destruct (fetchSecrets_ok _ _ _ _ _ _ _ _ _ _ _ Hrun Et eq_refl (dec_reveal_json values l missing Hl))
    as (-> & Hc & plain & Hd & ->). cbn [rr_Values] in Hd.
  apply reveal_ok in Hrev as (plaintext & j & names & _ & _ & Hj & Hr & Hs & _ & _ & Ht & Hv).
  assert (∀ n v, plain !! n = Some v → ∃ row, secret_at (w_db w) repo n = Some row ∧ Decrypt (sealed_of row) = Ok v) as Hp.
  { intros n v Hn. destruct (decode_values64_ok _ _ _ _ _ Hd Hn) as [?|(enc & b & Hin & Hb & ->)]; [done|].
    rewrite map_range_perm, elem_of_map_to_list in Hin. destruct (Hv n enc Hin) as (_ & row & pt & Hrow & Hdec & ->).
    rewrite StdEncoding_roundtrip in Hb. injection Hb as <-. rewrite string_of_bytes_of_string. by exists row. }
  assert (∀ local v, resolve cfg plain !! local = Some v → ∃ sec row, sec ∈ requests cfg ∧ sr_LocalName sec = local ∧
    secret_at (w_db w) repo (sr_RepoName sec) = Some row ∧ Decrypt (sealed_of row) = Ok v) as Hm.
  { intros local v Hlv. destruct (resolve_Some _ _ _ _ _ Hlv) as [?|(sec & Hin & Hloc & Hpl)]; [done|].
    destruct (Hp _ _ Hpl) as (row & ? & ?). by exists sec, row. }
  split; [done|]. split; [by exists j|]. split; [done|].
  intros sec enc Hin Hne Hval.
  assert (is_Some (resolve cfg plain !! sr_LocalName sec)) as [v Hlv].
  { apply resolve_dom. right. exists sec. split_and!; [done..|]. apply (decode_values64_dom _ _ _ _ Hd). right.
    apply list_elem_of_fmap. exists (sr_RepoName sec, enc). split; [done|]. by rewrite map_range_perm, elem_of_map_to_list. }
  destruct (Hm _ _ Hlv) as (sec' & row & Hin' & Hloc & Hrow & Hdec).
  exists row, v. split; [done|]. split; [|done].
  by rewrite (proj2 (local_conflict_None _ _ Hc) sec sec' Hin Hin' Hne (eq_sym Hloc)).
Qed.
End Worker.

(** ** Samples *)

(** A run with given answers. *)
Inductive answer := Answered (x : result HttpResponse) | Dir (x : result string) | File (x : result unit).
Fixpoint play {A} (m : act A) (script : list answer) : option (list event * A) :=
  match m, script with
  | Ret a, _ => Some ([], a)
  | Http r k, Answered x :: script => prod_map (cons (Sent r x)) id <$> play (k x) script
  | MkdirTemp p k, Dir x :: script => prod_map (cons (MadeDir p x)) id <$> play (k x) script
  | WriteFile p d k, File x :: script => prod_map (cons (Wrote p d x)) id <$> play (k x) script
  | _, _ => None
  end.
Lemma play_runs {A} (m : act A) script t a : play m script = Some (t, a) → runs m t a.
Proof.
  revert script t. induction m as [b|r k IH|p k IH|p d k IH]; intros script t; cbn [play].
  1: { intros [= <- <-]. constructor. }
  all: destruct script as [|[] script]; try done; intros ([t' a'] & Hp & E)%fmap_Some; cbn in E; injection E as -> ->; constructor; eauto.
Qed.

#[local] Instance sample_request : NewRequest := λ _, None.
#[local] Program Instance sample_schedule : Schedule := {| schedule A l := l |}.
Next Obligation. done. Qed.

(** One check that runs on a push, one that does not. *)
Definition on_push : Check_ := mkCheck "test" "alpine" ["make"] "event.type == 'push'" [] [] ∅.
Definition on_manual : Check_ := mkCheck "deploy" "alpine" ["make deploy"] "event.type == 'manual'" [] [] ∅.
Definition two_checks : Config := mkConfig [on_push; on_manual] ∅ ∅ "" "" "" "" "" ∅.
#[local] Instance sample_checks : YamlChecks := λ _, Ok two_checks.
Definition claimed_job : CIJob :=
  mkCIJobResult "job" "o/r" "dev" 2 Claimed None None None None None None 0 "push" "dev" "" None ["checks"].

Definition ok_json (status : Z) (fields : list (string * json)) : answer :=
  Answered (Ok (mkHttpResponse status (Some (JObject fields)) "")).
Definition job_script : list answer :=
  [ok_json 200 [("content", JString "eWFtbA==")]; ok_json 200 [("url", JString "https://a"); ("checksum", JString "sha256:0")];
   ok_json 201 []; ok_json 201 []; File (Ok tt); ok_json 200 [("url", JString "https://log")]; ok_json 201 []].
Abbreviation sample_job :=
  (runJob (λ source cfg ctx, Ok (Executor.Run source cfg ctx)) "https://d" claimed_job "tok" "" "/tmp" push_to_dev "" "").
Definition job_trace : list event := default [] (fst <$> play sample_job job_script).

Lemma sample_run : runs sample_job job_trace (check_passed, Some "https://log", None).
Proof. apply (play_runs _ job_script). vm_compute. reflexivity. Qed.
Lemma sample_answered : config_answered job_trace two_checks.
Proof. eexists _, _, _, _, _. split; [vm_compute; reflexivity|]. by vm_compute. Qed.


Lemma skipped_pending_witness :
  ("deploy", Some CheckPending) ∈ posted job_trace ∧ ∀ status, ("deploy", status) ∈ posted job_trace → status = Some CheckPending.
Proof.
  apply (skipped_pending "https://d" claimed_job "tok" "" "/tmp" push_to_dev "" "" job_trace _ _ two_checks on_manual
    eq_refl sample_run sample_answered); [right; left|].
  intros c [->|[->|H%not_elem_of_nil]%elem_of_cons]%elem_of_cons Hn; [discriminate Hn|vm_compute; reflexivity|destruct H].
Defined.

(** A configuration whose check asks for a secret there is and for one there is
    not. *)
Definition secret_config : Config :=
  mkConfig [mkCheck "test" "alpine" ["make"] "" [] [mkSecretRequest "KEY" "API_KEY"; mkSecretRequest "OTHER" "OTHER"] ∅]
    ∅ ∅ "" "" "" "" "" ∅.
Definition reveal_answer : json := reveal_json [("API_KEY", "czNjcmV0")] ["OTHER"].
Abbreviation sample_fetch := (fetchSecrets "https://d/" "o/r" "tok" (Some secret_config)).
Abbreviation reveal_sent :=
  (mkHttpRequest "POST" "https://d/repos/o/r/-/secrets/reveal" "Bearer tok"
     (JsonBody (JObject [("names", JArray [JString "API_KEY"; JString "OTHER"])]))).

Lemma sample_fetched :
  runs sample_fetch [Sent reveal_sent (Ok (mkHttpResponse 200 (Some reveal_answer) ""))] (Ok (Some {["KEY" := "s3cret"]}, ["OTHER"])).
Proof. apply (play_runs _ [Answered (Ok (mkHttpResponse 200 (Some reveal_answer) ""))]). vm_compute. reflexivity. Qed.

Lemma worker_secrets_witness :
  runs sample_fetch [Sent reveal_sent (Ok (mkHttpResponse 200 (Some reveal_answer) ""))] (Ok (Some {["KEY" := "s3cret"]}, ["OTHER"])) ∧
  ∃ row, secret_at (w_db job_world) "o/r" "API_KEY" = Some row ∧ Decrypt (sealed_of row) = Ok "s3cret".
Proof.
  split; [exact sample_fetched|]. destruct reveal_runs as (c' & w' & E).
  destruct (worker_secrets sample_server ∅ job_world c' w' {["API_KEY" := "czNjcmV0"]} ["OTHER"] [("API_KEY", "czNjcmV0")] ""
    "https://d/" "o/r" "tok" secret_config _ _ _ _ E ltac:(by rewrite map_to_list_singleton) sample_fetched eq_refl)
    as (_ & _ & H & _).
  destruct (H "KEY" "s3cret" eq_refl) as (sec & row & Hin & Hloc & Hrow & Hdec).
  exists row. split; [|exact Hdec].
  apply elem_of_cons in Hin as [->|[->|Hf%not_elem_of_nil]%elem_of_cons]; [exact Hrow|discriminate Hloc|destruct Hf].
Defined.
