(* ===== verification/Automerge.v ===== *)
(** * The auto-merge worker (internal/automerge/worker.go)

    The worker polls the log for reported checks and submitted reviews, and
    merges the branch of such an event when the branch asks for it, the policies
    allow it and nothing conflicts.  [run_pass] is one turn of the loop of [Run],
    which never ends: between two turns the worker waits for a notification or
    for thirty seconds.  Log lines and the pauses after errors are left out; a
    payload is the value the broker wrote, its keys spelled as it writes them. *)

From S2P Require Import Prelude GoStd Schema Tx Orgs Blob Commits Merge ReadStore Issues EventTypes Events Policy.
From S2P Require Import Run Integrity Guarantee Chain Samples Views CommitSpec MergeSpec EventsSpec PolicySpec.
From S2P Require Import Http Effects.

Definition targetTypes : list string :=
  ["com.docstore.check.reported"; "com.docstore.review.submitted"].

(** [json.Unmarshal(ev.Payload, &envelope)]: the field branch of the field data,
    empty when one is absent or null; [None] when one is of another type. *)
Definition unmarshal_branch (payload : json) : option string :=
  match payload with
  | JNull => Some ""
  | JObject _ =>
      match json_get "data" payload with
      | None | Some JNull => Some ""
      | Some (JObject fields) =>
          match json_get "branch" (JObject fields) with
          | None | Some JNull => Some ""
          | Some (JString branch) => Some branch
          | Some _ => None
          end
      | Some _ => None
      end
  | _ => None
  end.

Section Automerge.
Context `{Collation} `{UuidSource} `{MapRange} `{JsonbText} `{OPA}.

(** [type Worker struct]: the broker, and the blob store behind the read store. *)
Record Worker := mkWorker { wk_broker : Broker; wk_blobs : option BlobStore }.
Variable wk : Worker.

Definition emit (e : Event) : PM unit := lift (Events.Emit (wk_broker wk) e).

Definition eligible (info : BranchInfo) : bool :=
  bi_AutoMerge info && negb (bi_Draft info) && bool_decide (bi_Status info = Active).

(** What follows a merge that failed. *)
Definition merge_failed (repo branch : string) (err : error) : PM unit :=
  if errors_Is err ErrMergeConflict then
    _ ← pcatch (lift (SetBranchAutoMerge repo branch false));
    emit (BranchAutoMergeFailed repo branch "merge conflict")
  else mret tt.

(** And one that did not. *)
Definition merge_done (repo branch : string) (resp : MergeResponse) : PM unit :=
  mp ← pcatch (lift (MergeProposal repo branch));
  match mp with
  | Ok (Some p) => emit (EventTypes.ProposalMerged repo branch (Prop_BaseBranch p) (Prop_ID p))
  | _ => mret tt
  end;;
  emit (BranchMerged repo branch (mp_Sequence resp) "auto-merge" None).

Definition tryAutoMerge (repo branch : string) : PM unit :=
  info ← pcatch (lift (GetBranch repo branch));
  match info with
  | Ok (Some info) =>
      if negb (eligible info) then mret tt else
      denied ← pcatch (EvaluatePolicy (wk_blobs wk) true repo branch "auto-merge");
      match denied with
      | Ok [] =>
          merged ← pcatch (lift (Merge (mkMergeRequest repo branch "auto-merge" false)));
          match merged with
          | Fail err | Ok (_, _, Some err) => merge_failed repo branch err
          | Ok (Some resp, _, None) => merge_done repo branch resp
          | Ok (None, _, None) => mret tt
          end
      | _ => mret tt
      end
  | _ => mret tt
  end.

(** The body of the loop over the events. *)
Definition handle_event (ev : LoggedEvent) : PM unit :=
  match unmarshal_branch (le_Payload ev) with
  | None | Some EmptyString => mret tt
  | Some branch => tryAutoMerge (le_Repo ev) branch
  end.

Fixpoint handle_events (evs : list LoggedEvent) (sinceSeq : Z) : PM Z :=
  match evs with
  | [] => mret sinceSeq
  | ev :: evs => handle_event ev;; handle_events evs (le_Seq ev)
  end.

(** A turn of the loop: where the next one goes on. *)
Definition run_pass (sinceSeq : Z) : PM Z :=
  evs ← pcatch (lift (Poll (wk_broker wk) "*" sinceSeq targetTypes));
  handle_events (match evs with Ok evs => evs | Fail _ => [] end) sinceSeq.

(** [Run] starts at the end of the log. *)
Definition run_start : PM Z := lift (CurrentSeq (wk_broker wk)).

Fixpoint run_passes (n : nat) (sinceSeq : Z) : PM Z :=
  match n with
  | O => mret sinceSeq
  | S n => sinceSeq ← run_pass sinceSeq; run_passes n sinceSeq
  end.
End Automerge.

(** * The auto-merge worker makes progress

    Every event about a check or a review that is in the log past the position
    of the worker gets its turn within finitely many passes, and a branch that is
    ready when the turn comes is merged and stays so.  But the worker has a cache
    of policies of its own that nothing invalidates: it judges the merges of a
    repository by the policies it first saw there. *)

(** ** The events of the worker *)

(** The rows the worker looks at. *)
Definition target_events (d : DB) : list logged_event :=
  filter (λ r, ev_type r ∈ targetTypes) (db_event_log d).

(** The branch has been merged. *)
Definition branch_merged (repo name : string) (d : DB) : Prop :=
  ∃ b, b ∈ db_branches d ∧ br_repo b = repo ∧ br_name b = name ∧ br_status b = Merged.

(** The events still to come, in their order. *)
Definition pending (sinceSeq : Z) (d : DB) : list logged_event :=
  order_by_asc ev_seq (filter (polled "*" sinceSeq targetTypes) (db_event_log d)).

Lemma filter_above_drop (l : list logged_event) k e :
  StronglySorted (λ x y, ev_seq x < ev_seq y) l → l !! k = Some e →
  filter (λ r, ev_seq e < ev_seq r) l = drop (S k) l.
Proof.
  revert k. induction l as [|x l IH]; intros k HS Hk; [done|].
  apply StronglySorted_cons in HS as [Hx HS]. rewrite Forall_forall in Hx. destruct k as [|k]; cbn in Hk.
  - injection Hk as [= <-]. rewrite filter_cons_False by lia. cbn. rewrite drop_0. by apply filter_all.
  - rewrite filter_cons_False; [by apply IH|]. apply list_elem_of_lookup_2, Hx in Hk. lia.
Qed.

Lemma filter_strict (P : logged_event → Prop) `{!∀ r, Decision (P r)} l :
  NoDup (ev_seq <$> l) → order_by_asc ev_seq (filter P l) = filter P (order_by_asc ev_seq l).
Proof.
  intros HN. apply (StronglySorted_unique_strong (λ x y, ev_seq x < ev_seq y)).
  - intros x y _ _ ? ?. lia.
  - by apply order_by_asc_strict, NoDup_fmap_filter.
  - by apply StronglySorted_filter, order_by_asc_strict.
  - unfold order_by_asc. by rewrite !merge_sort_Permutation.
Qed.

Definition log_ok (d : DB) : Prop := NoDup (ev_seq <$> target_events d).

Lemma pending_filter s d :
  log_ok d → pending s d = filter (λ r, s < ev_seq r) (order_by_asc ev_seq (target_events d)).
Proof.
  intros HN. unfold pending. rewrite <- filter_strict by done. unfold target_events. f_equal.
  rewrite list_filter_filter. apply list_filter_iff. intros r. unfold polled. split.
  - intros (? & _ & [?|?]); [done|by split].
  - intros [? ?]. split_and!; auto.
Qed.

Lemma pending_sorted s d : log_ok d → StronglySorted (λ x y, ev_seq x < ev_seq y) (pending s d).
Proof. intros HN. rewrite pending_filter by done. by apply StronglySorted_filter, order_by_asc_strict. Qed.

(** After the [k]-th pending event. *)
Lemma pending_drop s d k e : log_ok d → pending s d !! k = Some e → pending (ev_seq e) d = drop (S k) (pending s d).
Proof.
  intros HN Hk. rewrite <- (filter_above_drop _ k e) by eauto using pending_sorted.
  rewrite !pending_filter in * by done. rewrite list_filter_filter. apply list_filter_iff. intros r.
  apply list_elem_of_lookup_2, list_elem_of_filter in Hk as [? _]. split; [intros; split|intros [? ?]]; lia.
Qed.

Lemma pending_frame s d d' : frame target_events d d' → log_ok d → pending s d' = pending s d.
Proof.
  unfold frame. intros E HN. rewrite !pending_filter; [by rewrite E|done|]. unfold log_ok. by rewrite E.
Qed.

(** Where a page of [n] events ends, the next one goes on. *)
Lemma pending_next s d n :
  log_ok d → (0 < n)%nat →
  pending (default s (le_Seq <$> last (logged <$> take n (pending s d)))) d = drop n (pending s d).
Proof.
  intros HN Hn. rewrite fmap_last. destruct (last (take n (pending s d))) as [e|] eqn:El; cbn.
  - rewrite last_lookup, length_take in El. apply lookup_take_Some in El as [El _].
    rewrite (pending_drop s d _ e HN El). destruct (decide (n ≤ length (pending s d))%nat).
    + f_equal. lia.
    + rewrite !drop_ge; [done|lia|]. apply lookup_lt_Some in El. lia.
  - apply last_None in El. destruct (pending s d) as [|x P]; [by rewrite drop_nil|]. by destruct n; [lia|].
Qed.

(** ** What the worker keeps *)

Section Automerge.
Context {Co : Collation} {Us : UuidSource} {Mr : MapRange} {Jt : JsonbText} {Op : OPA}.

Lemma merged_update repo name P `{!∀ b, Decision (P b)} f d :
  (∀ b, br_repo (f b) = br_repo b ∧ br_name (f b) = br_name b ∧ (br_status b = Merged → br_status (f b) = Merged)) →
  branch_merged repo name d → branch_merged repo name (set_branches (update_where P f (db_branches d)) d).
Proof.
  intros Hf (b & Hb & Hr & Hn & Hs). destruct (Hf b) as (E1 & E2 & E3).
  exists (if decide (P b) then f b else b). split; [by apply elem_of_update_where; exists b|].
  case_decide; [|done]. split_and!; [congruence..|auto].
Qed.

Lemma merged_frame repo name d d' :
  db_branches d' = db_branches d → branch_merged repo name d → branch_merged repo name d'.
Proof. unfold branch_merged. by intros ->. Qed.

Lemma Merge_keeps_merged req repo name : guarantees (keeps_inv (branch_merged repo name)) (Merge req).
Proof.
  solve_guarantees; intros Hd; first [exact Hd | by apply merged_update | by eapply merged_frame].
Qed.
Lemma SetBranchAutoMerge_keeps_merged r n v repo name :
  guarantees (keeps_inv (branch_merged repo name)) (SetBranchAutoMerge r n v).
Proof. solve_guarantees; intros Hd; first [exact Hd | by apply merged_update | by eapply merged_frame]. Qed.
Lemma MergeProposal_keeps_merged r n repo name :
  guarantees (keeps_inv (branch_merged repo name)) (MergeProposal r n).
Proof. solve_guarantees; intros Hd; first [exact Hd | by eapply merged_frame]. Qed.
Lemma Emit_keeps_merged b e repo name : guarantees (keeps_inv (branch_merged repo name)) (Events.Emit b e).
Proof. solve_guarantees; intros Hd; first [exact Hd | by eapply merged_frame]. Qed.

Lemma Merge_log req : guarantees (frame target_events) (Merge req).
Proof. solve_framed. Qed.
Lemma SetBranchAutoMerge_log r n v : guarantees (frame target_events) (SetBranchAutoMerge r n v).
Proof. solve_framed. Qed.
Lemma MergeProposal_log r n : guarantees (frame target_events) (MergeProposal r n).
Proof. solve_framed. Qed.
Lemma Emit_log b e : Type_ e ∉ targetTypes → guarantees (frame target_events) (Events.Emit b e).
Proof.
  intros Ht. solve_guarantees; try reflexivity.
  unfold frame, target_events. cbn. rewrite filter_app, filter_cons_False by done. by rewrite app_nil_r.
Qed.

(** What each event of the worker does is one of these calls. *)
Class worker_calls (R : relation DB) : Prop := {
  wc_preorder :: PreOrder R;
  wc_Merge req : guarantees R (Merge req);
  wc_SetBranchAutoMerge r n v : guarantees R (SetBranchAutoMerge r n v);
  wc_MergeProposal r n : guarantees R (MergeProposal r n);
  wc_Emit b e : Type_ e ∉ targetTypes → guarantees R (Events.Emit b e);
}.

#[local] Instance merged_calls repo name : worker_calls (keeps_inv (branch_merged repo name)).
Proof.
  split; intros; [apply _|apply Merge_keeps_merged|apply SetBranchAutoMerge_keeps_merged|
    apply MergeProposal_keeps_merged|apply Emit_keeps_merged].
Qed.
#[local] Instance log_calls : worker_calls (frame target_events).
Proof.
  split; intros; [apply _|apply Merge_log|apply SetBranchAutoMerge_log|apply MergeProposal_log|by apply Emit_log].
Qed.

Variable wk : Worker.

Lemma GetBranch_reads repo branch : reads (GetBranch repo branch).
Proof. unfold GetBranch. solve_reads. Qed.

Lemma tryAutoMerge_moves R `{!worker_calls R} repo branch : cmoves (on_db R) (tryAutoMerge wk repo branch).
Proof.
  pose proof (λ req, moves_guarantees R _ (wc_Merge req)) as HM.
  pose proof (λ r n v, moves_guarantees R _ (wc_SetBranchAutoMerge r n v)) as HS.
  pose proof (λ r n, moves_guarantees R _ (wc_MergeProposal r n)) as HP.
  pose proof (on_db_preorder R) as HR.
  assert (∀ e, Type_ e ∉ targetTypes → cmoves (on_db R) (emit wk e)) as He
    by (intros e He; by apply (c_lift (on_db R)), moves_guarantees, wc_Emit).
  pose proof (λ r b t, He (BranchAutoMergeFailed r b t) ltac:(by_decide)) as He1.
  pose proof (λ r b t i, He (EventTypes.ProposalMerged r b t i) ltac:(by_decide)) as He2.
  pose proof (λ r b n t i, He (BranchMerged r b n t i) ltac:(by_decide)) as He3.
  clear He. unfold tryAutoMerge, merge_failed, merge_done. solve_moves.
Qed.

Lemma handle_event_moves R `{!worker_calls R} ev : cmoves (on_db R) (handle_event wk ev).
Proof.
  unfold handle_event. destruct (unmarshal_branch _) as [[|c branch]|]; try by apply (c_same (on_db R)).
  by apply tryAutoMerge_moves.
Qed.

Lemma handle_events_moves R `{!worker_calls R} evs s : cmoves (on_db R) (handle_events wk evs s).
Proof.
  revert s. induction evs as [|ev evs IH]; intros s; [by apply (c_same (on_db R))|].
  cbn. apply (c_bindP (on_db R)); [by apply handle_event_moves|auto].
Qed.

(** ** The worker goes on *)

Definition never_fails {A} (m : PM A) : Prop := ∀ c w, ∃ c' w' a, m c w = (c', w', Ok a).

Lemma nf_ret {A} (a : A) : never_fails (mret a).
Proof. intros c w. by exists c, w, a. Qed.
Lemma nf_bind {A B} (m : PM A) (f : A → PM B) :
  never_fails m → (∀ a, never_fails (f a)) → never_fails (m ≫= f).
Proof.
  intros Hm Hf c w. destruct (Hm c w) as (c1 & w1 & a & E). unfold mbind, PM_bind. rewrite E. apply Hf.
Qed.
Lemma nf_pcatch {A} (m : PM A) : never_fails (pcatch m).
Proof. intros c w. unfold pcatch. destruct (m c w) as [[c1 w1] r]. by exists c1, w1, r. Qed.
Lemma nf_emit e : never_fails (emit wk e).
Proof.
  intros c w. unfold emit, lift. destruct (Emit_returns (wk_broker wk) e w) as [w' ->]. by exists c, w', tt.
Qed.

Lemma tryAutoMerge_returns repo branch : never_fails (tryAutoMerge wk repo branch).
Proof.
  unfold tryAutoMerge, merge_failed, merge_done.
  repeat first [apply nf_ret | apply nf_pcatch | apply nf_emit | apply nf_bind; [|intros] | case_match].
Qed.
Lemma handle_event_returns ev : never_fails (handle_event wk ev).
Proof. unfold handle_event. repeat case_match; first [apply nf_ret | apply tryAutoMerge_returns]. Qed.

(** Events one after the other. *)
Lemma handle_events_app l1 l2 s c w :
  handle_events wk (l1 ++ l2) s c w = (handle_events wk l1 s ≫= handle_events wk l2) c w.
Proof.
  revert s c w. induction l1 as [|ev l1 IH]; intros s c w; [done|]. cbn.
  unfold mbind, PM_bind in *. destruct (handle_event wk ev c w) as [[c1 w1] [[]|e]]; [apply IH|done].
Qed.

Lemma handle_events_run evs s c w :
  ∃ c' w', handle_events wk evs s c w = (c', w', Ok (default s (le_Seq <$> last evs))).
Proof.
  revert s c w. induction evs as [|ev evs IH]; intros s c w; [by exists c, w|]. cbn [handle_events].
  unfold mbind at 1, PM_bind at 1. destruct (handle_event_returns ev c w) as (c1 & w1 & [] & ->).
  destruct (IH (le_Seq ev) c1 w1) as (c2 & w2 & ->). exists c2, w2. rewrite last_cons. by destruct (last evs).
Qed.

Lemma handle_events_log evs s c w c' w' r :
  handle_events wk evs s c w = (c', w', r) → frame target_events (w_db w) (w_db w').
Proof. intros E. pose proof (handle_events_moves (frame target_events) evs s c w) as H. by rewrite E in H. Qed.

(** Passes take the pending events two hundred at a time, and drop none. *)
Lemma run_passes_pending n s c w :
  bk_db (wk_broker wk) = true → log_ok (w_db w) →
  run_passes wk n s c w = handle_events wk (logged <$> take (pollLimit * n) (pending s (w_db w))) s c w.
Proof.
  intros Hb. revert s c w. induction n as [|n IH]; intros s c w HN.
  { by rewrite Nat.mul_0_r. }
  cbn [run_passes]. unfold run_pass, Poll. rewrite Hb. cbn [negb].
  set (P := pending s (w_db w)).
  assert ((evs ← pcatch (lift (gets (λ w, logged <$> take pollLimit
      (order_by_asc ev_seq (filter (polled "*" s targetTypes) (db_event_log (w_db w)))))));
    handle_events wk (match evs with Ok evs => evs | Fail _ => [] end) s) c w
    = handle_events wk (logged <$> take pollLimit P) s c w) as E1 by done.
  unfold mbind at 1, PM_bind at 1. rewrite E1.
  replace (pollLimit * S n)%nat with (pollLimit + pollLimit * n)%nat by lia.
  rewrite <- take_take_drop, fmap_app, handle_events_app. unfold mbind at 1, PM_bind at 1.
  destruct (handle_events_run (logged <$> take pollLimit P) s c w) as (c1 & w1 & E2). rewrite E2.
  pose proof (handle_events_log _ _ _ _ _ _ _ E2) as Hf.
  rewrite IH by (unfold log_ok in *; unfold frame in Hf; by rewrite Hf).
  rewrite (pending_frame _ _ _ Hf HN). f_equal. f_equal. f_equal.
  apply pending_next; [done|unfold pollLimit; lia].
Qed.

(** ** Progress *)

(** The worker would merge the branch now: it asks for it and is active, no
    policy the worker knows denies it, and the merge goes through. *)
Record ready (c : Cache) (w : World) (repo branch : string) : Prop := {
  rdy_wf : wf w;
  rdy_distinct : distinct_paths (w_db w) repo;
  rdy_info : ∃ info, GetBranch repo branch w = (w, Ok (Some info)) ∧ eligible info = true;
  rdy_policy : (EvaluatePolicy (wk_blobs wk) true repo branch "auto-merge" c w).2 = Ok [];
  rdy_merge : ∃ w' resp, Merge (mkMergeRequest repo branch "auto-merge" false) w = (w', Ok (Some resp, [], None));
}.

Lemma Merge_merged req w w' resp :
  wf w → distinct_paths (w_db w) (mq_Repo req) → mq_DryRun req = false →
  Merge req w = (w', Ok (Some resp, [], None)) → branch_merged (mq_Repo req) (mq_Branch req) (w_db w').
Proof.
  intros Hwf Hu Hdry Hrun. apply Merge_run in Hrun as [(w1 & r1 & c1 & e1 & E & Hres)|
    (w1 & e & _ & _ & [=] & _)].
  apply merge_tx_ok in E as (b & m & [_ (Hb & Hr & Hn) _ _ _] & Hcase); [|done..].
  rewrite Hdry in Hcase. destruct Hcase as [(_ & -> & _ & Hs & ->)|(_ & mm & _ & [(_ & _ & -> & _)|Hw])].
  - destruct Hres as (-> & _). apply set_branch_status_ok in Hs as ->.
    exists (branch_with_status Merged b). split_and!; [by apply status_set|done..].
  - by destruct Hres as (_ & [=] & _).
  - destruct Hw as (_ & _ & n & hash & rows & _ & Hg & ->). destruct Hres as (-> & _).
    rewrite (mg_db _ _ _ _ _ _ _ Hg). by apply head_then_status with b.
Qed.

(** A branch that is ready when it is tried is merged. *)
Lemma tryAutoMerge_merges repo branch c w :
  ready c w repo branch → branch_merged repo branch (w_db (tryAutoMerge wk repo branch c w).1.2).
Proof.
  intros [Hwf Hu (info & Ei & He) Hp (w1 & resp & Em)]. unfold tryAutoMerge.
  unfold mbind at 1, PM_bind at 1. unfold pcatch at 1, lift at 1. rewrite Ei, He. cbn [negb].
  unfold mbind at 1, PM_bind at 1. unfold pcatch at 1.
  pose proof (EvaluatePolicy_world (wk_blobs wk) true repo branch "auto-merge" c w) as Hw.
  destruct (EvaluatePolicy _ _ _ _ _ c w) as [[c1 w0] r]. cbn in Hp, Hw. subst r w0.
  unfold mbind at 1, PM_bind at 1. unfold pcatch at 1, lift at 1. rewrite Em.
  assert (cmoves (on_db (keeps_inv (branch_merged repo branch))) (merge_done wk repo branch resp)) as Hd.
  { pose proof (wc_MergeProposal (R := keeps_inv (branch_merged repo branch))) as H1.
    pose proof (λ r n, moves_guarantees _ _ (H1 r n)) as H2.
    pose proof (on_db_preorder (keeps_inv (branch_merged repo branch))) as HR.
    assert (∀ e, cmoves (on_db (keeps_inv (branch_merged repo branch))) (emit wk e)) as H3.
    { intros e. apply (c_lift (on_db _)), moves_guarantees, Emit_keeps_merged. }
    unfold merge_done. solve_moves. }
  apply Hd. by apply (Merge_merged (mkMergeRequest repo branch "auto-merge" false) w w1 resp).
Qed.

(** C23: the worker gets to every event, and merges what is ready.  Take the
    [i]-th event the worker has not seen yet, of any repository, about a branch.
    If the branch is ready when the worker, having handled the events before,
    turns to it, then within [i / 200 + 1] passes it has merged the branch; and
    the branch is still merged after any further pass. *)
Theorem automerge_progress s c w i ev branch c1 w1 cur n :
  bk_db (wk_broker wk) = true → wf w → pending s (w_db w) !! i = Some ev →
  unmarshal_branch (ev_payload ev) = Some branch → branch ≠ "" →
  handle_events wk (logged <$> take i (pending s (w_db w))) s c w = (c1, w1, Ok cur) →
  ready c1 w1 (ev_repo ev) branch →
  (i < 200 * n)%nat →
  branch_merged (ev_repo ev) branch (w_db (run_passes wk n s c w).1.2).
Proof.
  intros Hb Hwf Hi Hbr Hne Hbefore Hrdy Hn.
  assert (log_ok (w_db w)) as HN by (by apply NoDup_fmap_filter, event_log_NoDup, Hwf).
  rewrite run_passes_pending by done. unfold pollLimit.
  rewrite <- (take_drop i (take (200 * n) (pending s (w_db w)))), take_take, Nat.min_l by lia.
  rewrite fmap_app, handle_events_app. unfold mbind at 1, PM_bind at 1. rewrite Hbefore.
  rewrite (drop_S _ ev) by (by rewrite lookup_take_lt). rewrite fmap_cons. cbn [handle_events].
  unfold mbind at 1, PM_bind at 1.
  assert (handle_event wk (logged ev) = tryAutoMerge wk (ev_repo ev) branch) as ->.
  { unfold handle_event. cbn. rewrite Hbr. by destruct branch. }
  pose proof (tryAutoMerge_merges _ _ _ _ Hrdy) as Hm.
  destruct (tryAutoMerge_returns (ev_repo ev) branch c1 w1) as (c2 & w2 & [] & E2).
  rewrite E2 in Hm |- *. by apply (handle_events_moves (keeps_inv (branch_merged (ev_repo ev) branch))).
Qed.

(** ** The policies the worker judges by *)

(** An entry of the cache stays. *)
Definition keeps_cache {X} (m : Cache → World → Cache * World * X) : Prop :=
  ∀ c w repo e, c !! repo = Some e → (m c w).1.1 !! repo = Some e.

Lemma kc_same {X} (m : Cache → World → Cache * World * X) : (∀ c w, (m c w).1.1 = c) → keeps_cache m.
Proof. intros Hm c w repo e. by rewrite Hm. Qed.
Lemma kc_ret {A} (a : A) : keeps_cache (mret a : PM A).
Proof. by apply kc_same. Qed.
Lemma kc_lift {A} (m : M A) : keeps_cache (lift m).
Proof. apply kc_same. intros c w. unfold lift. by destruct (m w). Qed.
Lemma kc_bind {A B} (m : PM A) (f : A → PM B) :
  keeps_cache m → (∀ a, keeps_cache (f a)) → keeps_cache (m ≫= f).
Proof.
  intros Hm Hf c w repo e He. specialize (Hm c w repo e He). unfold mbind, PM_bind.
  destruct (m c w) as [[c1 w1] [a|err]]; [by apply Hf|done].
Qed.
Lemma kc_pcatch {A} (m : PM A) : keeps_cache m → keeps_cache (pcatch m).
Proof.
  intros Hm c w repo e He. specialize (Hm c w repo e He). unfold pcatch. by destruct (m c w) as [[c1 w1] r].
Qed.
Lemma kc_pwrap {A} t (m : PM A) : keeps_cache m → keeps_cache (pwrap t m).
Proof.
  intros Hm c w repo e He. specialize (Hm c w repo e He). unfold pwrap. by destruct (m c w) as [[c1 w1] [a|err]].
Qed.
Lemma kc_Load bs repo : keeps_cache (Load bs repo).
Proof.
  intros c w repo' e He. unfold Load, load_lookup, load_store. destruct (c !! repo) eqn:Ec; [done|].
  destruct (loadEntry bs repo w) as [w1 [entry|err]]; [|done]. etrans; [apply (lookup_insert_ne (M := gmap string)); congruence|done].
Qed.

Ltac solve_keeps_cache :=
  repeat first [apply kc_ret | apply kc_lift | apply kc_Load | by apply kc_same
    | apply kc_pcatch | apply kc_pwrap | apply kc_bind; [|intros] | case_match].

Lemma EvaluatePolicy_cache bs configured repo branch actor :
  keeps_cache (EvaluatePolicy bs configured repo branch actor).
Proof. unfold EvaluatePolicy. solve_keeps_cache. Qed.
Lemma tryAutoMerge_cache repo branch : keeps_cache (tryAutoMerge wk repo branch).
Proof.
  unfold tryAutoMerge, merge_failed, merge_done, emit.
  repeat first [apply EvaluatePolicy_cache | progress solve_keeps_cache].
Qed.
Lemma handle_events_cache evs s : keeps_cache (handle_events wk evs s).
Proof.
  revert s. induction evs as [|ev evs IH]; intros s; [apply kc_ret|]. cbn [handle_events].
  apply kc_bind; [|auto]. unfold handle_event. repeat case_match; first [apply kc_ret | apply tryAutoMerge_cache].
Qed.
Lemma run_passes_cache n s : keeps_cache (run_passes wk n s).
Proof.
  revert s. induction n as [|n IH]; intros s; [apply kc_ret|]. cbn [run_passes].
  apply kc_bind; [|auto]. unfold run_pass. apply kc_bind; [apply kc_pcatch, kc_lift|].
  intros evs. apply handle_events_cache.
Qed.

(** The worker never sees a change of the policies.  Once it has loaded the
    policies of a repository, it keeps them over any number of passes and judges
    every later merge by them, whatever main says by then.  If there were none
    when it looked first, no policy ever holds it back. *)
Theorem worker_policies_frozen repo entry n s c w :
  c !! repo = Some entry →
  let c' := (run_passes wk n s c w).1.1 in
  (∀ w', Load (wk_blobs wk) repo c' w' = (c', w', Ok (entry_value entry))) ∧
  (entry = None → ∀ branch w', EvaluatePolicy (wk_blobs wk) true repo branch "auto-merge" c' w' = (c', w', Ok [])).
Proof.
  intros He c'. assert (c' !! repo = Some entry) as He' by (by apply run_passes_cache).
  assert (∀ w', Load (wk_blobs wk) repo c' w' = (c', w', Ok (entry_value entry))) as Hl.
  { intros w'. unfold Load, load_lookup. by rewrite He'. }
  split; [exact Hl|]. intros -> branch w'. unfold EvaluatePolicy. cbn [negb].
  unfold mbind at 1, PM_bind at 1. by rewrite Hl.
Qed.
End Automerge.

(** ** Witnesses *)

Definition sample_worker : Worker := mkWorker (NewBroker true) None.

(** "dev" asks to be merged, and one of its checks has passed. *)
Definition auto_merge (w : World) : World :=
  exec (Events.Emit (NewBroker true) (CheckReported "o/r" "dev" 2 "ci" "passed" "ci" None))
    (exec (SetBranchAutoMerge "o/r" "dev" true) w).
Definition auto_world : World := auto_merge changed_world.

Lemma auto_world_wf : wf auto_world.
Proof. do 2 (apply preserves_wf; [eauto with docstore|]). exact changed_world_wf. Qed.

Lemma auto_world_distinct : distinct_paths (w_db auto_world) "o/r".
Proof. apply distinct_paths_NoDup. by_decide. Qed.

Lemma auto_world_pending :
  (λ r, (ev_repo r, unmarshal_branch (ev_payload r))) <$> pending 0 (w_db auto_world) = [("o/r", Some "dev")].
Proof. vm_compute. reflexivity. Qed.

Lemma auto_world_ready : ready sample_worker NewCache auto_world "o/r" "dev".
Proof.
  split.
  - exact auto_world_wf.
  - exact auto_world_distinct.
  - destruct (returned (GetBranch "o/r" "dev") auto_world) as [[info|]|] eqn:E; [|vm_compute in E; discriminate E..].
    exists info. split.
    + pose proof (GetBranch_reads "o/r" "dev" auto_world) as Hr.
      unfold returned in E. destruct (GetBranch "o/r" "dev" auto_world) as [w' [o|e]]; [|discriminate E].
      cbn in Hr. injection E as ->. by subst w'.
    + vm_compute in E. injection E as <-. reflexivity.
  - vm_compute. reflexivity.
  - destruct (returned (Merge (mkMergeRequest "o/r" "dev" "auto-merge" false)) auto_world)
      as [[[resp conflicts] err]|] eqn:E; [|vm_compute in E; discriminate E].
    pose proof (run_exec _ _ _ E) as Hr. vm_compute in E. injection E as <- <- <-. eauto.
Qed.

Lemma automerge_progress_witness :
  branch_merged "o/r" "dev" (w_db (run_passes sample_worker 1 0 NewCache auto_world).1.2).
Proof.
  pose proof auto_world_pending as Hp.
  destruct (pending 0 (w_db auto_world)) as [|ev [|? ?]] eqn:E; try discriminate Hp.
  injection Hp as Hr Hb. rewrite <- Hr.
  apply (automerge_progress sample_worker 0 NewCache auto_world 0 ev "dev" NewCache auto_world 0 1);
    [reflexivity|exact auto_world_wf|by rewrite E|exact Hb|discriminate| |rewrite Hr; exact auto_world_ready|lia].
  by rewrite E.
Defined.

(** The policy on main denies the merge of "dev", and the server refuses it; the
    worker, which has seen "o/r" before there was a policy, does not. *)
Lemma worker_policies_frozen_witness :
  denials NewCache deny_world = Some [mkPolicyResult "review" false "needs a review"] ∧
  ∃ c', EvaluatePolicy None true "o/r" "dev" "auto-merge" c' deny_world = (c', deny_world, Ok []).
Proof.
  split; [vm_compute; reflexivity|]. eexists.
  apply (worker_policies_frozen sample_worker "o/r" None 1 0 {["o/r" := None]} auto_world);
    [exact (lookup_singleton_eq (M := gmap string) "o/r" None)|reflexivity].
Defined.
