(* ===== verification/ServerSpec.v ===== *)
(** * Who reaches which handler

    [required] gives the least role that each handler of a repository asks for.
    The tests of [roleAllows], which look at methods and prefixes of paths, agree
    with that table on every path the dispatcher serves; and what the chain of
    handlers of the server lets through was allowed by the table, by a job
    token, or had a credential of its own. *)

From Stdlib Require Import Ascii.
From S2P Require Import Prelude GoStd Schema Tx Run Orgs Guarantee Samples Server.

(** ** The table *)

Definition rank (r : role_type) : nat :=
  match r with Reader => 0 | Writer => 1 | Maintainer => 2 | Admin => 3 end.

(** [None]: no role suffices. *)
Definition required (h : Route) : option role_type :=
  match h with
  | Purge_ _ => None
  | ListRoles_ _ | SetRole_ _ _ | DeleteRole_ _ _ | DeleteRelease_ _ _ | SetSecret _ _
  | DeleteSecret_ _ _ => Some Admin
  | CreateBranch_ _ | Merge_ _ | Rebase_ _ | RetryChecks_ _ | CreateRelease_ _
  | DeleteIssueComment_ _ _ _ => Some Maintainer
  | DeleteBranch_ _ b => Some (if bool_decide (b = "auto-merge") then Writer else Maintainer)
  | Commit_ _ | Review_ _ | Check_ _ | CreateReviewComment_ _ | DeleteReviewComment_ _ _
  | CreateProposal_ _ | CloseProposal_ _ _ | UpdateProposal_ _ _ | CreateIssue_ _ | UpdateIssue_ _ _
  | CloseIssue_ _ _ | ReopenIssue_ _ _ | CreateIssueComment_ _ _ | AddIssueRef _ _
  | UpdateIssueComment_ _ _ _ | UpdateBranch _ _ | EnableAutoMerge _ _ | DisableAutoMerge _ _
  | TriggerCIRun _ => Some Writer
  | _ => Some Reader
  end.

Definition permits (role : role_type) (h : Route) : bool :=
  match required h with Some least => (rank least <=? rank role)%nat | None => false end.

(** The repository a handler is given. *)
Definition route_name (h : Route) : option string :=
  match h with
  | GetRepo_ n | DeleteRepo_ n | Tree n | Archive n | Branches n | Diff n | Commit_ n | Chain_ n
  | CommitIssues n _ | GetCommit_ n _ | File_ n _ | CreateBranch_ n | Merge_ n | Rebase_ n
  | EnableAutoMerge n _ | DisableAutoMerge n _ | DeleteBranch_ n _ | UpdateBranch n _
  | BranchStatus n _ | AgentContext n _ | BranchGet n _ | Review_ n | Check_ n | RetryChecks_ n
  | CreateReviewComment_ n | DeleteReviewComment_ n _ | Purge_ n | ListRoles_ n | SetRole_ n _
  | DeleteRole_ n _ | ListReleases_ n | CreateRelease_ n | GetRelease_ n _ | DeleteRelease_ n _
  | RepoEvents n | CreateProposal_ n | ListProposals_ n | CloseProposal_ n _ | ProposalIssues n _
  | GetProposal_ n _ | UpdateProposal_ n _ | ListIssues_ n | CreateIssue_ n | GetIssue_ n _
  | UpdateIssue_ n _ | CloseIssue_ n _ | ReopenIssue_ n _ | ListIssueComments_ n _
  | CreateIssueComment_ n _ | ListIssueRefs_ n _ | AddIssueRef n _ | UpdateIssueComment_ n _ _
  | DeleteIssueComment_ n _ _ | ListCIJobs_ n | CIJobLogs n _ _ | TriggerCIRun n | ListSecrets n
  | SetSecret n _ | DeleteSecret_ n _ | ArchivePresign n | PresignedArchive n | CheckLogs n _
  | CIConfig n | CICheck n | RevealSecrets n => Some n
  | Mux _ _ => None
  end.

(** ** Evaluating the tests *)

Lemma HasSuffix_app s p : HasSuffix (s +:+ p) p = true.
Proof. apply HasSuffix_spec. by exists s. Qed.

Lemma TrimPrefix_HasPrefix s p : HasPrefix s p = true → s = p +:+ TrimPrefix s p.
Proof. intros H. unfold TrimPrefix. rewrite H. by apply HasPrefix_drop. Qed.

Lemma by_method_inv method l h : by_method method l = Handle h → (method, h) ∈ l.
Proof.
  induction l as [|[m h'] l IH]; cbn; [done|]. case_bool_decide as E; [|by right; auto].
  intros [= ->]. subst. by left.
Qed.

(** A branch whose endpoint ends like the switch of auto-merge, without being one. *)
Lemma auto_merge_branch b :
  HasSuffix ("branch/" +:+ b) "/auto-merge" = true → CutSuffix b "/auto-merge" = None → b = "auto-merge".
Proof.
  intros [t Ht]%HasSuffix_spec Hn.
  do 6 (destruct t as [|? t]; [discriminate Ht|injection Ht as _ Ht]).
  destruct t as [|? t]; [by injection Ht|injection Ht as _ Ht].
  assert (CutSuffix b "/auto-merge" = Some t) by (by apply CutSuffix_spec). congruence.
Qed.

(** Splits an equation [dispatch method name endpoint = Handle h] into the cases
    of the dispatcher, each with its endpoint spelled out. *)
Ltac endpoint_cases E :=
  repeat match type of E with
  | (if bool_decide (?a = ?p) && _ then _ else _) = _ => fail 1
  | (if bool_decide (?a = ?p) then _ else _) = _ =>
      destruct (decide (a = p)) as [->|];
        [rewrite (bool_decide_true (p = p) eq_refl) in E | rewrite bool_decide_false in E by assumption]
  | (if HasPrefix ?a ?p then _ else _) = _ =>
      let Hp := fresh "Hp" in destruct (HasPrefix a p) eqn:Hp;
        [apply TrimPrefix_HasPrefix in Hp; generalize dependent (TrimPrefix a p); intros; subst a|]
  end.

(** Evaluates the tests on an endpoint whose beginning is known. *)
Ltac eval_tests :=
  repeat match goal with
  | |- context [bool_decide (?a = ?b)] =>
      (rewrite (bool_decide_false (a = b)) by discriminate) || (rewrite (bool_decide_true (a = b)) by reflexivity)
  | |- context [HasPrefix (?p +:+ ?a) ?p] => rewrite (HasPrefix_app p a)
  | |- context [HasPrefix ?a ?b] =>
      let v := eval cbv in (HasPrefix a b) in
      match v with true => idtac | false => idtac end; change (HasPrefix a b) with v
  | |- _ => progress cbn [andb orb negb]
  end.


(** The methods of an endpoint, one by one. *)
Ltac each_method E :=
  apply by_method_inv in E;
  repeat (apply elem_of_cons in E as [[= -> ->]|E]); try (by apply elem_of_nil in E).
Ltac check_role := unfold roleAllows; cbv zeta; eval_tests.
Ltac by_roles := check_role; split; [let r := fresh in intros r; by destruct r|reflexivity].

(** The tests of the middleware on the endpoint agree with the table on [h]. *)
Definition agrees (method endpoint name : string) (h : Route) : Prop :=
  (∀ role, roleAllows role method endpoint = permits role h) ∧ route_name h = Some name.

Lemma branch_endpoint_agrees method name b h :
  branch_endpoint method name b = Handle h → agrees method ("branch/" +:+ b) name h.
Proof.
  unfold branch_endpoint, agrees. destruct (CutSuffix b "/auto-merge") as [b'|] eqn:Ec.
  - intros E. apply CutSuffix_spec in Ec as ->. 
    each_method E; check_role; rewrite <- (string_app_assoc "branch/" b' "/auto-merge"), HasSuffix_app;
      (split; [intros []; reflexivity|reflexivity]).
  - intros E. each_method E; check_role.
    + split; [|reflexivity]. intros role. unfold permits. cbn [required].
      destruct (HasSuffix ("branch/" +:+ b) "/auto-merge") eqn:Es.
      * rewrite (auto_merge_branch b Es Ec). by destruct role.
      * case_bool_decide as Eb; [subst; vm_compute in Es; discriminate Es|by destruct role].
    + split; [|reflexivity]. intros role. destruct (HasSuffix _ _); by destruct role.
    + destruct (CutSuffix b "/status"); [|destruct (CutSuffix b "/agent-context")];
        (split; [intros []; reflexivity|reflexivity]).
Qed.

Lemma proposals_endpoint_agrees method name rest h :
  proposals_endpoint method name rest = Handle h → agrees method ("proposals/" +:+ rest) name h.
Proof.
  unfold proposals_endpoint, agrees. destruct (CutSuffix rest "/close") as [id|] eqn:Ec.
  - intros E. apply CutSuffix_spec in Ec as ->. each_method E; check_role.
    rewrite <- (string_app_assoc "proposals/" id "/close"), HasSuffix_app.
    split; [intros []; reflexivity|reflexivity].
  - destruct (CutSuffix rest "/issues"); intros E; each_method E; by_roles.
Qed.

Lemma issues_endpoint_agrees method name rest h :
  issues_endpoint method name rest = Handle h → agrees method ("issues/" +:+ rest) name h.
Proof.
  unfold issues_endpoint, agrees.
  destruct (split3 rest) as [|n [|p [|id [|? ?]]]]; try done;
    repeat (case_bool_decide; subst); try done; intros E; each_method E; by_roles.
Qed.

Lemma dispatch_agrees method name endpoint h :
  dispatch method name endpoint = Handle h → endpoint ≠ "" →
  (∀ role, roleAllows role method endpoint = permits role h) ∧ route_name h = Some name.
Proof.
  intros E Hne. unfold dispatch in E. cbv zeta in E.
  endpoint_cases E; try done; clear Hne.
  all: try (each_method E; by_roles).
  - destruct (CutSuffix s "/issues"); each_method E; by_roles.
  - by apply branch_endpoint_agrees.
  - by apply proposals_endpoint_agrees.
  - by apply issues_endpoint_agrees.
  - destruct (HasPrefix endpoint "ci-jobs/" && Contains endpoint "/logs/") eqn:Hci.
    + apply andb_prop in Hci as [Hj%TrimPrefix_HasPrefix _].
      generalize dependent (TrimPrefix endpoint "ci-jobs/"). intros s; intros; subst endpoint.
      destruct (Cut s "/logs/") as [[id check]|]; [|done]. each_method E; by_roles.
    + endpoint_cases E; try done; each_method E; by_roles.
Qed.

(** The role checks are the table.  Whatever handler the dispatcher picks
    for a method and an endpoint of a repository, [roleAllows] lets a role
    through exactly if the table [required] asks for no more than that role; and
    the handler works on the repository whose roles were looked up. *)
Theorem dispatch_required method name endpoint h :
  dispatch method name endpoint = Handle h → endpoint ≠ "" →
  (∀ role, roleAllows role method endpoint = permits role h) ∧ route_name h = Some name.
Proof. apply dispatch_agrees. Qed.

(** ** Jobs *)

(** The permission a job needs to write through a handler. *)
Definition job_permission (h : Route) : string :=
  match h with
  | Check_ _ => "checks"
  | Commit_ _ | Merge_ _ | Rebase_ _ | Purge_ _ | CreateBranch_ _ | EnableAutoMerge _ _
  | DisableAutoMerge _ _ | DeleteBranch_ _ _ | UpdateBranch _ _ => "contents"
  | Review_ _ | CreateReviewComment_ _ | DeleteReviewComment_ _ _ | CreateProposal_ _
  | CloseProposal_ _ _ | UpdateProposal_ _ _ => "proposals"
  | CreateIssue_ _ | UpdateIssue_ _ _ | CloseIssue_ _ _ | ReopenIssue_ _ _ | CreateIssueComment_ _ _
  | AddIssueRef _ _ | UpdateIssueComment_ _ _ _ | DeleteIssueComment_ _ _ _ => "issues"
  | CreateRelease_ _ | DeleteRelease_ _ _ => "releases"
  | TriggerCIRun _ => "ci"
  | _ => ""
  end.

(** The method a handler is called by. *)
Definition route_method (h : Route) : string :=
  match h with
  | Commit_ _ | CreateBranch_ _ | Merge_ _ | Rebase_ _ | EnableAutoMerge _ _ | Review_ _ | Check_ _
  | RetryChecks_ _ | CreateReviewComment_ _ | Purge_ _ | CreateRelease_ _ | CreateProposal_ _
  | CloseProposal_ _ _ | CreateIssue_ _ | CloseIssue_ _ _ | ReopenIssue_ _ _ | CreateIssueComment_ _ _
  | AddIssueRef _ _ | TriggerCIRun _ => "POST"
  | DeleteRepo_ _ | DisableAutoMerge _ _ | DeleteBranch_ _ _ | DeleteReviewComment_ _ _
  | DeleteRole_ _ _ | DeleteRelease_ _ _ | DeleteIssueComment_ _ _ _ | DeleteSecret_ _ _ => "DELETE"
  | UpdateBranch _ _ | UpdateProposal_ _ _ | UpdateIssue_ _ _ | UpdateIssueComment_ _ _ _ => "PATCH"
  | SetRole_ _ _ | SetSecret _ _ => "PUT"
  | _ => "GET"
  end.

Lemma dispatch_bare method name :
  dispatch method name "" = by_method method [("GET", GetRepo_ name); ("DELETE", DeleteRepo_ name)].
Proof. reflexivity. Qed.

Ltac by_permission :=
  split; [repeat case_match; reflexivity|];
  intros; unfold jobRequiredPermission; cbv zeta; eval_tests; first [reflexivity | congruence].

Lemma dispatch_method method name endpoint h :
  dispatch method name endpoint = Handle h →
  method = route_method h ∧ (method ≠ "GET" → jobRequiredPermission endpoint = job_permission h).
Proof.
  intros E. destruct (decide (endpoint = "")) as [->|Hne].
  { rewrite dispatch_bare in E. each_method E; by_permission. }
  unfold dispatch in E. cbv zeta in E. endpoint_cases E; try done; clear Hne.
  all: try (each_method E; by_permission).
  - destruct (CutSuffix s "/issues"); each_method E; by_permission.
  - unfold branch_endpoint in E. destruct (CutSuffix s "/auto-merge"); each_method E; by_permission.
  - unfold proposals_endpoint in E.
    destruct (CutSuffix s "/close"); [|destruct (CutSuffix s "/issues")]; each_method E; by_permission.
  - unfold issues_endpoint in E. destruct (split3 s) as [|n' [|p [|id [|? ?]]]]; try done;
      repeat (case_bool_decide; subst); try done; each_method E; by_permission.
  - destruct (HasPrefix endpoint "ci-jobs/" && Contains endpoint "/logs/") eqn:Hci.
    + apply andb_prop in Hci as [Hj%TrimPrefix_HasPrefix _].
      generalize dependent (TrimPrefix endpoint "ci-jobs/"). intros s; intros; subst endpoint.
      destruct (Cut s "/logs/") as [[id check]|]; [|done]. each_method E; by_permission.
    + endpoint_cases E; try done; each_method E; by_permission.
Qed.

Lemma dispatch_name method name endpoint h :
  dispatch method name endpoint = Handle h → route_name h = Some name.
Proof.
  intros E. destruct (decide (endpoint = "")) as [->|Hne].
  - rewrite dispatch_bare in E. each_method E; reflexivity.
  - by apply (dispatch_agrees method name endpoint h).
Qed.

Lemma jobEndpointAllowed_spec endpoint permissions :
  jobEndpointAllowed endpoint permissions = true →
  jobRequiredPermission endpoint = "checks" ∨
  (jobRequiredPermission endpoint ≠ "" ∧ jobRequiredPermission endpoint ∈ permissions).
Proof. unfold jobEndpointAllowed. repeat case_bool_decide; auto; done. Qed.

(** ** The chain of handlers *)

Lemma inner_repo method path repo endpoint :
  parseRepoPath path = Some (repo, endpoint) → repo ≠ "" →
  inner method path = dispatch method repo endpoint.
Proof.
  intros Hp Hr. unfold inner, handleReposPrefix. rewrite Hp, (bool_decide_false (repo = "")) by done.
  revert Hp. unfold parseRepoPath, splitRepoPath. by destruct (HasPrefix path "/repos/").
Qed.

Lemma GetRole_reads repo who : reads (GetRole repo who).
Proof. unfold GetRole. solve_reads. Qed.
Lemma HasAdmin_reads repo : reads (HasAdmin repo).
Proof. unfold HasAdmin. solve_reads. Qed.

(** The handlers of requests that bring a credential of their own, and those
    that no role is looked up for. *)
Definition own_credential (h : Route) : bool :=
  match h with
  | ArchivePresign _ | PresignedArchive _ | CheckLogs _ _ | CIConfig _ | CICheck _ | RevealSecrets _ => true
  | _ => false
  end.
Definition unchecked (h : Route) : bool :=
  match h with GetRepo_ _ | DeleteRepo_ _ | Mux _ _ => true | _ => false end.

Lemma HasAdmin_false repo w :
  HasAdmin repo w = (w, Ok false) → ∀ r, r ∈ db_roles (w_db w) → ro_repo r = repo → ro_role r ≠ Admin.
Proof.
  unfold HasAdmin. intros E r Hin Hr Ha. inv_ok. apply select_ok in E0 as [_ ->].
  match goal with H : false = _ |- _ => symmetry in H; apply bool_decide_eq_false in H; apply H end.
  intros Hnil. apply (not_elem_of_nil r). rewrite <- Hnil. by apply list_elem_of_filter.
Qed.

Section Chain.
Context {Tk : Tokens}.

(** The role [role] of an identity was looked up and lets it through, or the
    bootstrap administrator is the administrator of a repository without one. *)
Definition role_grants (sv : ServerConfig) (w : World) (identity : string) (role : role_type)
    (name : string) (h : Route) : Prop :=
  (∃ r, GetRole name identity w = (w, Ok r) ∧ role_Role r = role ∧ permits role h = true) ∨
  (role = Admin ∧ identity = sv_bootstrapAdmin sv ∧ identity ≠ "" ∧
   ∀ r, r ∈ db_roles (w_db w) → ro_repo r = name → ro_role r ≠ Admin).

Lemma unchecked_inner method path h :
  (repoAndSubPath path).1 = "" ∨ (repoAndSubPath path).2 = "" →
  inner method path = Handle h → unchecked h = true.
Proof.
  unfold repoAndSubPath, inner, handleReposPrefix, parseRepoPath.
  destruct (HasPrefix path "/repos/") eqn:Hp; [|by intros _ [= <-]].
  destruct (splitRepoPath path) as [[repo subPath]|]; [|done].
  case_bool_decide as Es; cbn [fst snd].
  - subst subPath. intros _. case_bool_decide; [done|]. rewrite dispatch_bare.
    intros E. each_method E; reflexivity.
  - intros [->| ->]; [|done]. by rewrite bool_decide_true.
Qed.

(** A request with the identity of a user. *)
Lemma RBAC_authorized sv identity r w w' ctx h :
  RBACMiddleware (sv_bootstrapAdmin sv) identity r w = (w', Ok (Handle (ctx, h))) →
  w' = w ∧ cx_job ctx = None ∧ cx_identity ctx = identity ∧
  (unchecked h = true ∨
   ∃ role name, cx_role ctx = Some role ∧ route_name h = Some name ∧ role_grants sv w identity role name h).
Proof.
  unfold RBACMiddleware. destruct (repoAndSubPath (rq_Path r)) as [repo subPath] eqn:Er.
  destruct (bool_decide (repo = "") || bool_decide (subPath = "")) eqn:Eb.
  { intros E. inv_ok. destruct (inner _ _) as [|h'] eqn:Ei; [done|]. simplify_eq.
    split_and!; try done. left. apply (unchecked_inner (rq_Method r) (rq_Path r)); [|done].
    rewrite Er. apply orb_prop in Eb as [H%bool_decide_eq_true|H%bool_decide_eq_true]; auto. }
  apply orb_false_elim in Eb as [Hr%bool_decide_eq_false Hs%bool_decide_eq_false].
  assert (parseRepoPath (rq_Path r) = Some (repo, subPath)) as Hp.
  { revert Er. unfold repoAndSubPath, parseRepoPath. destruct (splitRepoPath (rq_Path r)) as [[? ?]|]; [|congruence].
    case_bool_decide; congruence. }
  rewrite (inner_repo _ _ _ _ Hp Hr). intros E. apply bind_ok in E as (w1 & hasAdmin & E1 & E).
  assert (w1 = w) as ->.
  { revert E1. destruct (_ && _); [|by intros [-> _]%ret_ok].
    apply reads_run. apply rd_catch, HasAdmin_reads. }
  assert (∀ role, match dispatch (rq_Method r) repo subPath with
                  | Status n => Status n | Handle h => Handle (mkCtx identity role None, h) end
                  = Handle (ctx, h) →
          ctx = mkCtx identity role None ∧ dispatch (rq_Method r) repo subPath = Handle h) as Hd.
  { intros role. destruct (dispatch _ _ _); [done|]. by intros [= <- <-]. }
  destruct hasAdmin as [[]|e].
  2: { inv_ok. destruct (Hd _ ltac:(done)) as [-> Hdis]. split_and!; try done. right.
       destruct (dispatch_agrees _ _ _ _ Hdis Hs) as [_ Hn].
       exists Admin, repo. split_and!; try done. right.
       destruct (_ && _) eqn:Ea; [|by apply ret_ok in E1 as [_ ?]].
       apply andb_prop in Ea as [Ha%bool_decide_eq_true Hi%bool_decide_eq_true].
       split_and!; [done..|congruence|]. intros ro Hin Hro Had.
       apply (proj1 (catch_run _ _ _ _)) in E1. by apply (HasAdmin_false _ _ E1 ro). }
  all: apply bind_ok in E as (w1 & role & E2 & E);
    pose proof (reads_run _ _ _ _ (rd_catch _ (GetRole_reads repo _)) E2) as ->;
    destruct role as [role|]; [|by apply ret_ok in E as [_ ?]];
    destruct (roleAllows (role_Role role) (rq_Method r) subPath) eqn:Ea; cbn [negb] in E;
      [|by apply ret_ok in E as [_ ?]];
    apply ret_ok in E as [-> E]; symmetry in E; apply Hd in E as [-> Hdis];
    destruct (dispatch_agrees _ _ _ _ Hdis Hs) as [Hag Hn]; rewrite Hag in Ea;
    split_and!; try done; right; exists (role_Role role), repo; split_and!; try done; left;
    exists role; apply (proj1 (catch_run _ _ _ _)) in E2; done.
Qed.

(** The permission of a job covers a handler. *)
Definition job_grants (job : JobIdentity) (h : Route) : Prop :=
  route_name h = Some (ji_Repo job) ∧
  (job_permission h = "checks" ∨ (job_permission h ≠ "" ∧ job_permission h ∈ ji_Permissions job)).

Lemma inner_handled method path h :
  inner method path = Handle h →
  (∃ m p, h = Mux m p) ∨
  ∃ repo endpoint, parseRepoPath path = Some (repo, endpoint) ∧ repo ≠ "" ∧
    dispatch method repo endpoint = Handle h.
Proof.
  unfold inner, handleReposPrefix. destruct (HasPrefix path "/repos/"); [|intros [= <-]; eauto].
  destruct (parseRepoPath path) as [[repo endpoint]|]; [|done]. case_bool_decide; [done|]. eauto 10.
Qed.

(** With the token of a job, what is not a GET or HEAD is within its permissions. *)
Lemma job_writes job r ctx h :
  job_request job r = Handle (ctx, h) →
  ctx = mkCtx ("ci-job:" +:+ ji_JobID job) None (Some job) ∧
  ((rq_Method r = "GET" ∨ rq_Method r = "HEAD") ∧ inner (rq_Method r) (rq_Path r) = Handle h ∨ job_grants job h).
Proof.
  unfold job_request. destruct (_ || _) eqn:Em.
  - destruct (inner _ _) as [|h'] eqn:Ei; [done|]. intros [= <- <-]. split; [done|]. left. split; [|done].
    apply orb_prop in Em as [E%bool_decide_eq_true|E%bool_decide_eq_true]; auto.
  - apply orb_false_elim in Em as [Hg%bool_decide_eq_false _].
    destruct (parseRepoPath (rq_Path r)) as [[repo endpoint]|] eqn:Hp; [|done].
    case_bool_decide as Hr; [done|]. case_bool_decide as Hj; [done|]. subst repo.
    destruct (jobEndpointAllowed _ _) eqn:Ea; [cbn [negb]|done].
    rewrite (inner_repo _ _ _ _ Hp Hr). destruct (dispatch _ _ _) as [|h'] eqn:Ed; [done|].
    intros [= <- <-]. split; [done|]. right.
    split; [by eapply dispatch_name|]. destruct (dispatch_method _ _ _ _ Ed) as [_ He].
    rewrite <- (He Hg). by apply jobEndpointAllowed_spec.
Qed.

Lemma job_authorized job r ctx h :
  job_request job r = Handle (ctx, h) →
  ctx = mkCtx ("ci-job:" +:+ ji_JobID job) None (Some job) ∧
  (unchecked h = true ∨ route_method h = "GET" ∨ job_grants job h).
Proof.
  intros [-> [[Hm Ei]|Hg]]%job_writes; (split; [done|]); [|by right; right].
  destruct (inner_handled _ _ _ Ei) as [(m & p & ->)|(repo & endpoint & _ & _ & Ed)]; [by left|].
  destruct (dispatch_method _ _ _ _ Ed) as [E _]. right; left.
  destruct Hm as [<-|Hm]; [done|]. rewrite Hm in E. destruct h; discriminate E.
Qed.

Lemma intercepted_own sv r name endpoint h :
  intercepted sv r name endpoint = Some h → own_credential h = true.
Proof. unfold intercepted. repeat (case_match; [by intros [= <-]|]). done. Qed.

Lemma served sv r w w' ctx h :
  serve sv r w = (w', Ok (Handle (ctx, h))) →
  w' = w ∧
  (own_credential h = true ∨ unchecked h = true ∨
   (∃ job, cx_job ctx = Some job ∧
      (route_method h = "GET" ∨ job_grants job h)) ∨
   (∃ role name, cx_role ctx = Some role ∧ route_name h = Some name ∧
      role_grants sv w (cx_identity ctx) role name h)).
Proof.
  unfold serve.
  destruct (match parseRepoPath _ with Some (_, _) => _ | None => None end) as [h'|] eqn:Ei.
  { intros [-> [= -> ->]]%ret_ok. split; [done|]. left.
    destruct (parseRepoPath _) as [[name endpoint]|]; [|done]. case_bool_decide; [done|].
    by eapply intercepted_own. }
  destruct (if sv_oidc sv then _ else None) as [tok|].
  - destruct (validateJobOIDCToken tok) as [job|]; intros [-> E]%ret_ok; [|done].
    symmetry in E. destruct (job_authorized _ _ _ _ E) as [-> [H|H]]; (split; [done|]).
    + by right; left.
    + right; right; left. by exists job.
  - destruct (GoogleAuth sv r) as [n|who]; [by intros [_ ?]%ret_ok|].
    intros E. destruct (RBAC_authorized _ _ _ _ _ _ _ E) as (-> & _ & Hi & H). split; [done|].
    right. destruct H as [H|(role & name & H1 & H2 & H3)]; [by left|]. right; right.
    exists role, name. by rewrite Hi.
Qed.


(** Nobody can purge a repository but the jobs.  The role checks let no role
    purge, the administrator included; a job with the permission "contents"
    can, and the bootstrap administrator, as long as there is no other one. *)
Theorem purge_by_jobs_only sv r w w' ctx name :
  serve sv r w = (w', Ok (Handle (ctx, Purge_ name))) →
  (∃ job, cx_job ctx = Some job ∧ ji_Repo job = name ∧ "contents" ∈ ji_Permissions job) ∨
  (cx_identity ctx = sv_bootstrapAdmin sv ∧
   ∀ ro, ro ∈ db_roles (w_db w) → ro_repo ro = name → ro_role ro ≠ Admin).
Proof.
  intros E. destruct (served _ _ _ _ _ _ E) as (-> & [?|[?|[(job & Hj & [?|[Hn Hp]])|Hr]]]); try done.
  - left. exists job. injection Hn as ->. split_and!; [done..|]. by destruct Hp as [?|[_ ?]].
  - right. destruct Hr as (role & n & _ & [= <-] & [(? & _ & _ & ?)|(_ & Hi & _ & Hno)]); [done|].
    split; [done|]. intros ro Hin Hro. by apply Hno.
Qed.
End Chain.

(** ** Samples *)

(** The token "job" is of a job of "o/r" with the permission "contents"; any other
    one is not valid. *)
#[export] Instance sample_tokens : Tokens :=
  {| validateGoogleIDToken tok := Fail (New "invalid JWT format");
     validateJobOIDCToken tok :=
       if bool_decide (tok = "job") then Ok (mkJobIdentity "7" "o/r" "main" "ci" ["contents"])
       else Fail (New "invalid JWT format") |}.

Definition dev_server : ServerConfig := mkServerConfig "bob" "root" true true true.
Definition request (method path auth : string) : Request := mkRequest method path auth None false false.

(** "bob" writes to "o/r". *)
Definition writer_world : World := exec (SetRole "o/r" "bob" Writer) repo_world.

Lemma dispatch_required_witness :
  roleAllows Writer "DELETE" "branch/auto-merge" = true ∧ roleAllows Writer "DELETE" "branch/dev" = false.
Proof.
  split.
  - rewrite (proj1 (dispatch_required "DELETE" "o/r" "branch/auto-merge" (DeleteBranch_ "o/r" "auto-merge")
      eq_refl ltac:(discriminate))). reflexivity.
  - rewrite (proj1 (dispatch_required "DELETE" "o/r" "branch/dev" (DeleteBranch_ "o/r" "dev")
      eq_refl ltac:(discriminate))). reflexivity.
Defined.


Lemma purge_by_jobs_only_witness :
  (serve dev_server (request "POST" "/repos/o/r/-/purge" "Bearer job") writer_world).2
    = Ok (Handle (mkCtx "ci-job:7" None (Some (mkJobIdentity "7" "o/r" "main" "ci" ["contents"])), Purge_ "o/r")) ∧
  "contents" ∈ ["contents"].
Proof.
  destruct (serve dev_server (request "POST" "/repos/o/r/-/purge" "Bearer job") writer_world) as [w' r] eqn:E.
  assert (r = Ok (Handle (mkCtx "ci-job:7" None (Some (mkJobIdentity "7" "o/r" "main" "ci" ["contents"])),
    Purge_ "o/r"))) as -> by (vm_compute in E; by injection E as _ <-).
  split; [reflexivity|].
  destruct (purge_by_jobs_only _ _ _ _ _ _ E) as [(job & Hj & _ & Hp)|[Hi _]]; [|discriminate Hi].
  injection Hj as <-. exact Hp.
Defined.
