(* ===== verification/OidcSpec.v ===== *)
(** * What the token of a job is good for

    A signer that keeps the contract [Trusted] makes tokens the server reads the
    claims back from; [KMSSigner] keeps it.  With such a signer, whoever holds a
    token ci-oidc issued acts as the claimed job whose request token was shown
    for it, within the permissions the job was queued with. *)

From Stdlib Require Import Ascii.
From S2P Require Import Prelude GoStd Wire Schema Tx Run Integrity Orgs CIJobs Server Policy Http Handlers.
From S2P Require Import Handlers3 Secrets SecretsSpec Samples PolicySpec Commits Auth Oidc ServerSpec.

Section Contract.
Context {Ju : JsonUnmarshal} {Sg : Signatures}.

(** A token decodes to a signed header and to the claims, the audience as itself
    or in an array. *)
Definition signed_by (keys : string → result PublicKey) (claims : json) (tok : string) : Prop :=
  ∃ p0 p1 p2 header kid n e signature v,
    split_token tok = Some (p0, p1, p2) ∧
    rbind (decode_segment p0) unmarshal_struct = Ok header ∧
    string_field "alg" header = Some "RS256" ∧ string_field "kid" header = Some kid ∧ kid ≠ "" ∧
    keys kid = Ok (RSAKey n e) ∧ decode_segment p2 = Ok signature ∧
    rsa_VerifyPKCS1v15 n e (signing_digest p0 p1) signature = true ∧
    rbind (decode_segment p1) unmarshal_struct = Ok v ∧
    (∀ key, key ≠ "aud" → field_values key v = field_values key claims) ∧
    (any_field "aud" v = any_field "aud" claims ∨
     ∃ aud, any_field "aud" claims = Some aud ∧ any_field "aud" v = Some (JArray [aud])).

(** What a signer promises to the holder of the keys. *)
Class Trusted (sign : json → result string) (keys : string → result PublicKey) : Prop :=
  trusted_sign claims tok : is_struct claims = true → sign claims = Ok tok → signed_by keys claims tok.

Lemma unmarshal_ok (b : result (list Z)) v : rbind b unmarshal_struct = Ok v → ∃ l, b = Ok l ∧ unmarshal_struct l = Ok v.
Proof. destruct b; [eauto|done]. Qed.

Lemma rbind_Ok {A B} (a : A) (f : A → result B) : rbind (Ok a) f = f a.
Proof. done. Qed.
Lemma require_true b e : b = true → require b e = Ok tt.
Proof. by intros ->. Qed.
Lemma parse_header_ok p0 header alg kid :
  rbind (decode_segment p0) unmarshal_struct = Ok header → string_field "alg" header = Some alg →
  string_field "kid" header = Some kid → parse_header p0 = Ok (alg, kid).
Proof.
  intros (l & El & Eh)%unmarshal_ok Ha Hk. unfold parse_header. rewrite El. cbn [rwrap rbind].
  rewrite Eh. cbn [rwrap rbind]. by rewrite Ha, Hk.
Qed.
Ltac by_test := by apply bool_decide_eq_true.

Lemma dec_strings_all l : dec_strings (JArray (JString <$> l)) = Some l.
Proof. cbn. induction l as [|x l IH]; [done|]. cbn. cbn in IH. by rewrite IH. Qed.

(** The claims of [jwt_claims], read back. *)
Lemma job_payload_ok {Us : UuidSource} p1 v claims jti t0 :
  rbind (decode_segment p1) unmarshal_struct = Ok v →
  (∀ key, key ≠ "aud" → field_values key v = field_values key (jwt_claims claims jti t0)) →
  0 ≤ unix (t0 + hour) < 9007199254740992 →
  parse_job_payload p1 = Ok (mkJobPayload (jc_Issuer claims) (jc_Subject claims) (any_field "aud" v)
    (unix (t0 + hour)) (jc_JobID claims) (jc_Repo claims) (jc_Branch claims)
    match jc_Permissions claims with [] => ["checks"] | l => l end).
Proof.
  intros (l & El & Ev)%unmarshal_ok Hf Hx. unfold parse_job_payload. rewrite El. cbn [rwrap rbind].
  rewrite Ev. cbn [rbind].
  assert (∀ A (z : A) dec key, key ≠ "aud" →
    decode_field z dec key v = decode_field z dec key (jwt_claims claims jti t0)) as Hd.
  { intros. unfold decode_field. by rewrite Hf. }
  unfold string_field, float_field, strings_field. rewrite !Hd by done.
  change (decode_field "" dec_string "iss" (jwt_claims claims jti t0)) with (Some (jc_Issuer claims)).
  change (decode_field "" dec_string "sub" (jwt_claims claims jti t0)) with (Some (jc_Subject claims)).
  change (decode_field 0 dec_float "exp" (jwt_claims claims jti t0))
    with (x ← dec_float (JNumber (unix (t0 + hour))); Some x).
  rewrite dec_float_exact by done.
  change (decode_field "" dec_string "job_id" (jwt_claims claims jti t0)) with (Some (jc_JobID claims)).
  change (decode_field "" dec_string "repo" (jwt_claims claims jti t0)) with (Some (jc_Repo claims)).
  change (decode_field "" dec_string "branch" (jwt_claims claims jti t0)) with (Some (jc_Branch claims)).
  set (perms := match jc_Permissions claims with [] => ["checks"] | _ => _ end).
  change (decode_field [] dec_strings "permissions" (jwt_claims claims jti t0))
    with (x ← dec_strings (JArray (JString <$> perms)); Some x).
  by rewrite dec_strings_all.
Qed.

(** The server reads the claims of a job back, until the token expires. *)
Lemma signed_valid {Us : UuidSource} keys claims jti t0 tok audience t :
  signed_by keys (jwt_claims claims jti t0) tok → 0 ≤ unix (t0 + hour) < 9007199254740992 → jc_JobID claims ≠ "" →
  validateJobToken tok keys audience (jc_Issuer claims) t =
    if unix (t0 + hour) <? unix t then Fail (New "token expired")
    else if bool_decide (jc_Audience claims = audience)
    then Ok (mkJobIdentity (jc_JobID claims) (jc_Repo claims) (jc_Branch claims) (jc_Subject claims)
               match jc_Permissions claims with [] => ["checks"] | l => l end)
    else Fail (New "invalid audience").
Proof.
  intros (p0 & p1 & p2 & header & kid & n & e & signature & v & Hs & Hh & Halg & Hkid & Hne & Hk & Hsig & Hv & Hp & Hf & Ha) Hx Hj.
  unfold validateJobToken. rewrite Hs, (parse_header_ok _ _ _ _ Hh Halg Hkid), rbind_Ok, require_true, rbind_Ok by by_test.
  rewrite require_true, rbind_Ok, Hk by by_test. cbn [rwrap]. rewrite rbind_Ok, Hsig. cbn [rwrap].
  rewrite rbind_Ok, Hv, require_true, rbind_Ok by done.
  rewrite (job_payload_ok p1 v claims jti t0 Hp Hf Hx), rbind_Ok. cbn [pl_Iss pl_Sub pl_Aud pl_Exp pl_JobID pl_Repo pl_Branch pl_Permissions].
  assert (jwtAudienceContains (any_field "aud" v) audience = bool_decide (jc_Audience claims = audience)) as ->.
  { destruct Ha as [->|(aud & [= <-] & ->)]; [done|]. cbn. by rewrite orb_false_r. }
  rewrite (bool_decide_true (jc_Issuer claims = jc_Issuer claims)), (bool_decide_true (jc_JobID claims ≠ "")) by done.
  unfold require. rewrite Z.leb_antisym. by destruct (unix (t0 + hour) <? unix t), (bool_decide (jc_Audience claims = audience)).
Qed.

(** ** KMSSigner keeps the contract *)

Section KMS.
Context {Jm : JsonMarshal}.
Variables (keys : string → result PublicKey) (kid : string) (n e : Z) (asymmetric_sign : list Z → result (list Z)).
(** A text of JSON decodes to what it encodes; the service signs with the key of
    the name it published. *)
Hypothesis json_law : ∀ v, is_struct v = true → json_Unmarshal (json_Marshal v) = Some v.
Hypothesis service_law : ∀ digest signature, asymmetric_sign digest = Ok signature →
  Forall is_byte signature ∧ rsa_VerifyPKCS1v15 n e digest signature = true.
Hypothesis key_published : kid ≠ "" ∧ keys kid = Ok (RSAKey n e).

Lemma kms_trusted : Trusted (kms_token kid asymmetric_sign) keys.
Proof.
  intros claims tok Hc. unfold kms_token, marshal_segment. destruct (asymmetric_sign _) as [signature|] eqn:Es; [|done].
  intros [= <-]. apply service_law in Es as [Hb Hv]. destruct key_published as [Hk Hkey].
  eexists _, _, _, _, kid, n, e, signature, claims. split_and!; [by apply split_token_app; apply base64_no_dot| | | | | | | | | |].
  - apply segment_roundtrip; [done|by apply json_law].
  - done.
  - done.
  - done.
  - done.
  - unfold decode_segment, RawURLEncoding_DecodeString, RawURLEncoding_EncodeToString.
    by rewrite (base64_roundtrip base64_url false url_ok) by done.
  - done.
  - apply segment_roundtrip; [done|by apply json_law].
  - done.
  - by left.
Qed.
End KMS.
End Contract.

(** ** Holders of tokens *)

Section Holder.
Context {Co : Collation} {Us : UuidSource} {Op : OPA} {Ju : JsonUnmarshal} {Sg : Signatures} {Jp : JwtParser}.

(** What ci-oidc issued a token for. *)
Lemma handleToken_ok s authorization body c w c' w' status tok :
  handleToken s authorization body c w = (c', w', inr (status, tok)) →
  ∃ plaintext j b req jti, bearer authorization = Some plaintext ∧ j ∈ db_ci_jobs (w_db w) ∧
    token_valid (HashRequestToken plaintext) (w_now w / 1000 * 1000) j ∧
    body = Ok b ∧ token_request (string_take (Z.to_nat 65536) b) = Some req ∧
    sg_Sign (so_signer s) (jwt_claims (job_claims s (scanCIJob j) req) jti (w_now w)) = Ok tok.
Proof.
  unfold handleToken. destruct (bearer authorization) as [plaintext|]; [|done].
  intros (c1 & w1 & job & [-> (-> & j & Hj & -> & Hv)%Lookup_ok]%call_ok & E)%hbind_ok.
  destruct body as [body|]; [|done]. destruct (token_request _) as [req|] eqn:Ereq; [|done].
  apply hbind_ok in E as (c2 & w2 & u & (-> & -> & _)%guard_ok & E).
  apply hbind_ok in E as (c2 & w2 & tok' & [-> Hi]%call_ok & E).
  assert (tok' = tok) as ->.
  { destruct (jwt_ParseInsecure tok') as [[[|]|]|]; try done.
    apply hbind_ok in E as (? & ? & ? & _ & E). apply hbind_ok in E as (? & ? & ? & _ & (_ & _ & [= _ ->])%hret_ok). done. }
  exists plaintext, j, body, req. unfold IssueJWT in Hi.
  apply bind_ok in Hi as (w3 & t & Ht & Hi). apply bind_ok in Hi as (w4 & jti & Hu & Hi).
  injection Ht as <- <-. exists jti. split_and!; [done..|].
  destruct (sg_Sign _ _) eqn:Es; [|done]. by apply ret_ok in Hi as [_ ->].
Qed.

End Holder.

(** ** Samples *)

(** Values that are the same. *)
Fixpoint json_same (a b : json) : bool :=
  match a, b with
  | JNull, JNull => true
  | JBool x, JBool y => bool_decide (x = y)
  | JNumber x, JNumber y => bool_decide (x = y)
  | JString x, JString y => bool_decide (x = y)
  | JArray l, JArray k =>
      (fix go l k := match l, k with [], [] => true | x :: l, y :: k => json_same x y && go l k | _, _ => false end) l k
  | JObject l, JObject k =>
      (fix go l k :=
         match l, k with
         | [], [] => true
         | (a, x) :: l, (b, y) :: k => bool_decide (a = b) && json_same x y && go l k
         | _, _ => false
         end) l k
  | _, _ => false
  end.
Lemma json_same_eq : ∀ a b, json_same a b = true → a = b.
Proof.
  fix IH 1. intros a b. destruct a as [|x|x|x|l|l], b as [|y|y|y|k|k]; cbn; try done;
    try (intros E%bool_decide_eq_true; by rewrite E).
  - intros E. f_equal. revert k E. induction l as [|x l IHl]; intros [|y k] E; try done.
    apply andb_prop in E as [E1 E2]. f_equal; [by apply IH|by apply IHl].
  - intros E. f_equal. revert k E. induction l as [|[a x] l IHl]; intros [|[b y] k] E; try done.
    apply andb_prop in E as [[->%bool_decide_eq_true E1]%andb_prop E2]. f_equal; [f_equal; by apply IH|by apply IHl].
Qed.

(** A signer that signs the token of one job for an audience: the texts "H" and
    "P" are its header and payload, and "S" is the signature of everything. *)
Section Issue.
Variable audience : string.
Definition issued_claims : json :=
  match head (db_ci_jobs (w_db job_world)) with
  | Some j =>
      jwt_claims (job_claims (mkServer (mkSigner (λ _, Ok "") (Ok "")) "https://oidc") (scanCIJob j)
                    (mkTokenRequest audience "test"))
        (uuid_nth (w_uuids job_world)) (w_now job_world)
  | None => JNull
  end.
Definition issued_header : json := JObject [("alg", JString "RS256"); ("kid", JString "k")].
Definition issued_json : JsonUnmarshal := λ text,
  if bool_decide (text = "H") then Some issued_header else
  if bool_decide (text = "P") then Some issued_claims else
  if bool_decide (text = "body") then Some (JObject [("audience", JString audience); ("check_name", JString "test")])
  else None.
Definition issued_signatures : Signatures :=
  {| rsa_VerifyPKCS1v15 _ _ _ signature := bool_decide (signature = bytes_of_string "S");
     ecdsa_Verify _ _ _ _ _ := false |}.
Definition issued_parser : JwtParser := λ _, Ok (Some "jti").
Definition sample_signer : Signer :=
  mkSigner (λ claims, if json_same claims issued_claims then Ok "SA.UA.Uw" else Fail (New "not the job")) (Ok "{}").
Definition sample_keys (kid : string) : result PublicKey :=
  if bool_decide (kid = "k") then Ok (RSAKey 1 1) else Fail (New "key not found").
Definition sample_oidc : Oidc.server := mkServer sample_signer "https://oidc".

Lemma sample_trusted : Trusted (Ju := issued_json) (Sg := issued_signatures) sample_signer.(sg_Sign) sample_keys.
Proof.
  intros claims tok _. cbn [sg_Sign sample_signer]. destruct (json_same claims issued_claims) eqn:E; [|done].
  apply json_same_eq in E as ->. intros [= <-].
  exists "SA", "UA", "Uw", issued_header, "k", 1, 1, (bytes_of_string "S"), issued_claims.
  do 4 (split; [vm_compute; reflexivity|]). split; [done|]. do 4 (split; [vm_compute; reflexivity|]).
  split; [intros; reflexivity|left; reflexivity].
Qed.

End Issue.
#[local] Instance oidc_unmarshal : JsonUnmarshal := issued_json "docstore".
#[local] Instance oidc_signatures : Signatures := issued_signatures.
#[local] Instance oidc_parser : JwtParser := issued_parser.
Abbreviation issue_token audience :=
  (handleToken (Ju := issued_json audience) (Jp := issued_parser) (sample_oidc audience) "Bearer tok" (Ok "body") ∅ job_world).
Lemma issue_replies :
  (issue_token "docstore").2 = inr (200, "SA.UA.Uw") ∧ (issue_token "ci-registry").2 = inr (200, "SA.UA.Uw").
Proof. split; vm_compute; reflexivity. Qed.
Lemma issue_runs : ∃ c' w', issue_token "docstore" = (c', w', inr (200, "SA.UA.Uw")).
Proof.
  pose proof (proj1 issue_replies) as Hr. destruct (issue_token "docstore") as [[c' w'] r]. exists c', w'. cbn [snd] in Hr.
  by rewrite Hr.
Qed.
Lemma registry_runs : ∃ c' w', issue_token "ci-registry" = (c', w', inr (200, "SA.UA.Uw")).
Proof.
  pose proof (proj2 issue_replies) as Hr. destruct (issue_token "ci-registry") as [[c' w'] r]. exists c', w'. cbn [snd] in Hr.
  by rewrite Hr.
Qed.
Lemma job_ids : ∀ j, j ∈ db_ci_jobs (w_db job_world) → j_id j ≠ "".
Proof.
  assert (forallb (λ j, bool_decide (j_id j ≠ "")) (db_ci_jobs (w_db job_world)) = true) as H by (vm_compute; reflexivity).
  intros j Hj. rewrite forallb_forall in H. apply list_elem_of_In in Hj. by apply H, bool_decide_eq_true in Hj.
Qed.
Definition oidc_server : ServerConfig := mkServerConfig "" "" false true false.
Abbreviation check_request :=
  (serve (Tk := jwt_tokens sample_keys sample_keys [] "docstore" "https://oidc" (w_now job_world)) oidc_server
     (request "POST" "/repos/o/r/-/check" "Bearer SA.UA.Uw") repo_world).
Abbreviation check_identity :=
  (mkJobIdentity "uuid-1" "o/r" "main" "repo:o/r:branch:main:check:test" ["checks"]).

Lemma check_served :
  check_request = (repo_world, Ok (Handle (mkCtx "ci-job:uuid-1" None (Some check_identity), Check_ "o/r"))).
Proof. vm_compute. reflexivity. Qed.
Lemma expiry_in_range : 0 ≤ unix (w_now job_world + hour) < 9007199254740992.
Proof. split; [by apply Z.leb_le; vm_compute|by apply Z.ltb_lt; vm_compute]. Qed.

