(* ===== verification/AdmissionSpec.v ===== *)
(** * Who gets jobs, and what their tokens open

    A job goes to a running pod of the scaled job of workers, made of pinned
    images and known to Kubernetes by its identity; and the token such a worker
    keeps for the cache opens the images of the repository of its job. *)

From Stdlib Require Import Ascii.
From S2P Require Import Prelude GoStd Wire Schema Tx Run Integrity Orgs Merge CIJobs Server Policy Http Handlers.
From S2P Require Import Handlers3 Secrets SecretsSpec Effects CIConfig Scheduler Samples PolicySpec SchedulerSpec.
From S2P Require Import QueueSpec Auth Oidc OidcSpec Admission.
From S2P Require Registry RegistrySpec.

(** ** Pods *)

Section Pods.
Context {K8s : Kubernetes}.

(** A pod or a Job has an owner. *)
Definition owned_by (apiVersion kind name : string) (refs : list OwnerReference) : Prop :=
  name ≠ "" ∧ ∃ ref, ref ∈ refs ∧ or_APIVersion ref = apiVersion ∧ or_Kind ref = kind ∧ or_Name ref = name.
Lemma owner_name_ok apiVersion kind refs name :
  owner_name apiVersion kind refs = name → name ≠ "" → owned_by apiVersion kind name refs.
Proof.
  unfold owner_name. destruct (filter _ refs) as [|r l] eqn:E; [by intros <-|]. intros <- Hn. split; [done|].
  assert (r ∈ filter (λ r, or_APIVersion r = apiVersion ∧ or_Kind r = kind) refs) as Hr by (rewrite E; left).
  apply list_elem_of_filter in Hr as [[? ?] ?]. by exists r.
Qed.

(** What is known of the pod behind a token. *)
Definition provenance (p : PodClaimer) (token : string) (t : Z) (podName podIP : string) : Prop :=
  ∃ review pod jobName refs,
    k8s_TokenReview token = Ok review ∧ tv_Authenticated review = true ∧ tv_Username review = expectedServiceAccount ∧
    claim "authentication.kubernetes.io/pod-name" review = Some podName ∧
    claim "authentication.kubernetes.io/pod-uid" review = Some (pd_UID pod) ∧
    k8s_Pod (pc_namespace p) podName = Ok pod ∧ podIP = pd_PodIP pod ∧
    t - pd_CreationTimestamp pod ≤ pc_maxAge p ∧ pd_Phase pod = "Running" ∧
    Forall (λ c, Contains (ct_Image c) "@sha256:" = true) (pd_Containers pod) ∧
    owned_by "batch/v1" "Job" jobName (pd_OwnerReferences pod) ∧ k8s_JobOwners (pc_namespace p) jobName = Ok refs ∧
    owned_by "keda.sh/v1alpha1" "ScaledJob" expectedScaledJobName refs.

Lemma ValidateToken_ok p token t podName podIP :
  ValidateToken p token t = Ok (podName, podIP) → provenance p token t podName podIP.
Proof.
  unfold ValidateToken, provenance. destruct (k8s_TokenReview token) as [review|]; [|done].
  destruct (tv_Authenticated review) eqn:Ea; [|done]. cbn [negb].
  destruct (bool_decide (tv_Username review ≠ _)) eqn:Eu; [done|]. apply bool_decide_eq_false, dec_stable in Eu.
  destruct (claim "authentication.kubernetes.io/pod-name" review) as [name|] eqn:En; [|done].
  destruct (claim "authentication.kubernetes.io/pod-uid" review) as [uid|] eqn:Ei; [|done].
  destruct (k8s_Pod (pc_namespace p) name) as [pod|] eqn:Ep; [|done].
  destruct (bool_decide (pd_UID pod ≠ uid)) eqn:Euid; [done|]. apply bool_decide_eq_false, dec_stable in Euid.
  destruct (_ <? _) eqn:Et; [done|]. apply Z.ltb_ge in Et.
  destruct (bool_decide (pd_Phase pod ≠ "Running")) eqn:Eph; [done|]. apply bool_decide_eq_false, dec_stable in Eph.
  destruct (existsb _ _) eqn:Ex; [done|]. cbv zeta.
  destruct (bool_decide (owner_name "batch/v1" "Job" _ = "")) eqn:Ej; [done|]. apply bool_decide_eq_false in Ej.
  destruct (k8s_JobOwners _ _) as [refs|] eqn:Er; [|done].
  destruct (bool_decide (owner_name "keda.sh/v1alpha1" _ refs = "")) eqn:Es; [done|]. apply bool_decide_eq_false in Es.
  destruct (bool_decide (owner_name "keda.sh/v1alpha1" _ refs ≠ _)) eqn:Es2; [done|].
  apply bool_decide_eq_false, dec_stable in Es2. intros [= <- <-].
  exists review, pod, (owner_name "batch/v1" "Job" (pd_OwnerReferences pod)), refs. subst uid.
  split_and!; try done; [|by apply owner_name_ok|by apply owner_name_ok].
  apply Forall_forall. intros c Hc%list_elem_of_In. destruct (Contains (ct_Image c) "@sha256:") eqn:Ec; [done|].
  assert (existsb (λ c, negb (Contains (ct_Image c) "@sha256:")) (pd_Containers pod) = true) as Ht; [|congruence].
  apply existsb_exists. exists c. by rewrite Ec.
Qed.
End Pods.

(** ** Claims *)

(** A job that waited, given to a pod. *)
Definition given (podName podIP : string) (j j' : ci_job) : Prop :=
  j_status j = Queued ∧ claimed_by podName j' ∧ j_worker_pod_ip j' = Some podIP ∧ job_spec j' = job_spec j.
Definition given_or_same (podName podIP : string) (j j' : ci_job) : Prop := j' = j ∨ given podName podIP j j'.

Section Claims.
Context {Co : Collation} {Us : UuidSource} {Mr : MapRange} {Op : OPA} {Gl : Glob} {Ym : YamlConfig} {Ju : JsonUnmarshal} {Cr : Cron}.

Lemma same_given podName podIP l : Forall2 (given_or_same podName podIP) l l.
Proof. by apply Forall_Forall2_diag, Forall_true; left. Qed.

Lemma ClaimCIJob_given podName podIP w : queue_ok (jobs w) →
  match (ClaimCIJob podName podIP w).2 with
  | Ok (Some job) =>
      (∀ j, j ∈ jobs w → ¬ claimed_by podName j) ∧
      Forall2 (λ j j', j' = j ∧ j_id j ≠ Job_ID job ∨ given podName podIP j j' ∧ j_id j = Job_ID job)
        (jobs w) (jobs (ClaimCIJob podName podIP w).1)
  | _ => jobs (ClaimCIJob podName podIP w).1 = jobs w
  end.
Proof.
  intros Hw. unfold ClaimCIJob, now, gets, wrap, update_returning, update_rows, mbind, M_bind. cbn.
  destruct (next_queued podName (db_ci_jobs (w_db w))) as [j|] eqn:En; cbn.
  - destruct (next_queued_ok _ _ _ En) as (Hj & Hq & Hf).
    assert (∀ k, k ∈ jobs w → j_id k = j_id j → k = j) as Hk by (intros k Hk; apply (NoDup_fmap_inj j_id (jobs w)); [apply Hw|done..]).
    destruct (head _) as [j'|] eqn:Eh; cbn.
    + apply head_Some_elem_of, list_elem_of_fmap in Eh as (k & -> & [[= Ek] Hin]%list_elem_of_filter).
      apply Hk in Ek as ->; [|done]. split; [done|]. unfold update_where. apply Forall2_fmap_r, Forall_Forall2_diag, Forall_forall.
      intros k Hkin. cbn. destruct (decide (Some (j_id k) = Some (j_id j))) as [[= E]|E].
      * right. apply Hk in E as ->; [|done]. done.
      * left. split; [done|congruence].
    + exfalso. assert (job_claimed (w_now w / 1000 * 1000) podName podIP j ∈
        job_claimed (w_now w / 1000 * 1000) podName podIP <$> filter (λ k, Some (j_id k) = Some (j_id j)) (db_ci_jobs (w_db w))) as Hin.
      { by apply list_elem_of_fmap_2, list_elem_of_filter. }
      destruct (_ <$> _); [by apply not_elem_of_nil in Hin|done].
  - rewrite update_where_id by done. destruct (head _) as [j'|] eqn:Eh; [|done].
    by apply head_Some_elem_of, list_elem_of_fmap in Eh as (k & -> & [Hk Hin]%list_elem_of_filter).
Qed.

(** C27: a job is given to a pod that has proved itself, and to one that has none.
    Whatever token a claim brings, the queue stays as it is; or the token is one
    Kubernetes holds for the service account of the workers, bound to a pod, by
    name and identity, that runs, is not older than four hours, is made of
    images pinned by their digests, and belongs to a Job that belongs to the
    scaled job of the workers.  Then that pod, which had no job, is given a job
    that waited, under its name and its address; every other job is as it was. *)
Theorem claim_admitted {K8s : Kubernetes} (s : scheduler) p t auth raw c w :
  sd_claimer s = Some (λ token, ValidateToken p token t) → queue_ok (jobs w) →
  let w' := (handleClaim s auth raw c w).1.2 in
  jobs w' = jobs w ∨
  ∃ podName podIP, provenance p (TrimPrefix auth "Bearer ") t podName podIP ∧
    (∀ j, j ∈ jobs w → ¬ claimed_by podName j) ∧
    ∃ id, Forall2 (λ j j', j' = j ∧ j_id j ≠ id ∨ given podName podIP j j' ∧ j_id j = id) (jobs w) (jobs w').
Proof.
  intros Hs Hw. cbv zeta. unfold handleClaim. rewrite Hs, hbind_world.
  destruct (ValidateToken p _ t) as [[podName podIP]|e] eqn:Ev; [|by left]. apply ValidateToken_ok in Ev.
  change ((mret (podName, podIP) : H (string * string)) c w) with (c, w, @inr APIError _ (podName, podIP)).
  cbv beta iota. rewrite call_world.
  pose proof (ClaimCIJob_given podName podIP w Hw) as Hg.
  destruct (ClaimCIJob podName podIP w) as [w1 [[job|]|e]]; cbn [fst snd] in Hg; [|by left..].
  destruct Hg as [Hf Hg]. right. exists podName, podIP. split; [done|]. split; [done|]. exists (Job_ID job).
  destruct (GenerateRequestToken raw) as [[plaintext hashed]|e]; [|exact Hg].
  rewrite call_world. cbn [time_Now gets]. rewrite call_world.
  assert (Forall2 (λ j j', j' = j ∧ j_id j ≠ Job_ID job ∨ given podName podIP j j' ∧ j_id j = Job_ID job) (jobs w)
    (jobs (StoreRequestToken (Job_ID job) hashed (w_now w1 + 24 * 3600 * 1000000000) w1).1)) as Ht.
  { unfold StoreRequestToken, wrap, update_unique, update_rows, mbind, M_bind. destruct (pairwise_distinct _ _); [|exact Hg].
    cbn. unfold update_where. apply Forall2_fmap_r. eapply Forall2_impl; [exact Hg|]. intros j j' [[-> Hid]|[Hj Hid]].
    - left. by rewrite decide_False.
    - right. split; [|done]. case_decide; [|done]. exact Hj. }
  destruct (StoreRequestToken _ _ _ w1) as [w2 [u|e]]; exact Ht.
Qed.
End Claims.

(** ** The token of the cache *)

Import Registry RegistrySpec.

(** What BuildKit sends with the credentials [writeCacheDockerConfig] wrote. *)
Definition docker_auth (token : string) : string :=
  "Basic " +:+ StdEncoding_EncodeToString (bytes_of_string ("ci-worker:" +:+ token)).
Lemma registry_token_docker token : registry_token (docker_auth token) = token.
Proof.
  unfold registry_token, docker_auth. rewrite (HasPrefix_app "Basic "), TrimPrefix_app, StdEncoding_roundtrip, string_of_bytes_of_string.
  change (HasPrefix ("Basic " +:+ StdEncoding_EncodeToString (bytes_of_string ("ci-worker:" +:+ token))) "Bearer ") with false.
  cbv iota. change ("ci-worker:" +:+ token) with ("ci-worker" +:+ String ":" token).
  by rewrite (Cut_char ":"%char "ci-worker" token) by (by apply (bool_decide_unpack _)).
Qed.

Section Cache.
Context {Co : Collation} {Us : UuidSource} {Op : OPA} {Ju : JsonUnmarshal} {Sg : Signatures} {Jp : JwtParser}.
Context {Dg : Digest} {Hp : HashParser} {Jm : JsonMarshal}.
Context {St : Type} {Ms : ManifestStore St} {Ml : ManifestLaws St} {Bh : BlobHandler St}.

End Cache.

(** ** Samples *)

(** One pod of the workers. *)
#[local] Instance sample_k8s : Kubernetes :=
  {| k8s_TokenReview token := if bool_decide (token = "sa") then
       Ok (mkTokenReview true "" expectedServiceAccount
             {["authentication.kubernetes.io/pod-name" := ["pod-1"]; "authentication.kubernetes.io/pod-uid" := ["u1"]]})
       else Ok (mkTokenReview false "unknown" "" ∅);
     k8s_Pod _ name := if bool_decide (name = "pod-1") then
       Ok (mkPod "u1" 0 "10.0.0.1" "Running" [mkContainer "worker" "reg/worker@sha256:00"] [mkOwnerReference "batch/v1" "Job" "job-1"])
       else Fail (New "not found");
     k8s_JobOwners _ name := if bool_decide (name = "job-1") then Ok [mkOwnerReference "keda.sh/v1alpha1" "ScaledJob" "ci-worker"]
       else Fail (New "not found") |}.
Definition k8s_scheduler (t : Z) : scheduler :=
  mkScheduler true "" (Some (λ token, ValidateToken (NewPodClaimer "docstore-ci") token t)) "" "".

Lemma queued_steps : rtc (queue_step pod_scheduler) config_world queued_world.
Proof. apply rtc_once. exact (q_webhook pod_scheduler "" (Ok "opened") ∅ config_world). Qed.
Lemma queued_ok : queue_ok (jobs queued_world).
Proof.
  assert (queue_ok (jobs config_world)) as H0.
  { rewrite config_no_jobs. split; [constructor|..]; intros; by apply not_elem_of_nil in H. }
  exact (proj1 (steps_sound pod_scheduler config_world queued_world queued_steps H0)).
Qed.
Lemma only_job podName podIP id pod l l' :
  j_worker_pod <$> l = [None] → j_worker_pod <$> l' = [Some pod] →
  Forall2 (λ j j', j' = j ∧ j_id j ≠ id ∨ given podName podIP j j' ∧ j_id j = id) l l' →
  ∃ j', j' ∈ l' ∧ claimed_by podName j'.
Proof.
  intros Hl Hl' Hf. destruct l as [|j [|? ?]]; try discriminate Hl. destruct l' as [|j' [|? ?]]; try discriminate Hl'.
  injection Hl as Hl. injection Hl' as Hl'. apply Forall2_cons in Hf as [Hj _]. exists j'. split; [left|].
  destruct Hj as [[-> _]|[(_ & Hc & _) _]]; [congruence|done].
Qed.
Lemma claim_admitted_witness :
  ∃ podName podIP, provenance (NewPodClaimer "docstore-ci") "sa" 1000 podName podIP ∧
    ∃ j', j' ∈ jobs (handleClaim (k8s_scheduler 1000) "Bearer sa" (Ok [1]) ∅ queued_world).1.2 ∧ claimed_by podName j'.
Proof.
  assert (j_worker_pod <$> jobs (handleClaim (k8s_scheduler 1000) "Bearer sa" (Ok [1]) ∅ queued_world).1.2 = [Some "pod-1"]) as Hn
    by (vm_compute; reflexivity).
  assert (j_worker_pod <$> jobs queued_world = [None]) as Hq by (vm_compute; reflexivity).
  destruct (claim_admitted (k8s_scheduler 1000) (NewPodClaimer "docstore-ci") 1000 "Bearer sa" (Ok [1]) ∅ queued_world
    eq_refl queued_ok) as [E|(podName & podIP & Hp & _ & id & Hf)]; [rewrite E, Hq in Hn; discriminate Hn|].
  exists podName, podIP. split; [exact Hp|]. exact (only_job podName podIP id "pod-1" _ _ Hq Hn Hf).
Defined.

(** A worker of "o/r" pushes to its image, and cannot to another. *)
#[local] Instance cache_json : JsonUnmarshal := issued_json "ci-registry".
#[local] Instance cache_signatures : Signatures := issued_signatures.
#[local] Instance cache_parser : JwtParser := issued_parser.
Abbreviation cache_registry :=
  (New_ true no_library (λ tok, validateJobToken tok sample_keys "ci-registry" "https://oidc" (w_now job_world))).
Abbreviation cache_push path := (mkRequest "PUT" path (docker_auth "SA.UA.Uw") "application/vnd.oci" (Ok "manifest")).
Lemma cache_stored : rs_Status (cache_registry (cache_push "/v2/o/r/manifests/buildkit") empty_bucket).2 = 201.
Proof. vm_compute. reflexivity. Qed.
Lemma cache_changed :
  bucket_entry (cache_registry (cache_push "/v2/o/r/manifests/buildkit") empty_bucket).1 "o/r" "buildkit"
  ≠ bucket_entry empty_bucket "o/r" "buildkit".
Proof. vm_compute. discriminate. Qed.

