(* ===== verification/ArchiveSpec.v ===== *)
(** * Archives

    [writeArchive] reads a branch page by page and file by file: it ends, and
    the archive has each file of the tree once, in the order of the tree, with
    the content of its version. *)

From Stdlib Require Import Ascii.
From S2P Require Import Prelude GoStd Schema Tx Run Integrity Blob Commits Merge ReadStore Views Chain Samples.
From S2P Require Import CommitSpec MergeSpec TreeSpec EventTypes Events Policy PolicySpec Handlers Handlers3 Wire.
From S2P Require Import Orgs CIJobs Server Http Secrets Auth Archive SecretsSpec.
From S2P Require Service Hash.

Section ArchiveSpec.
Context {Co : Collation} {Us : UuidSource} {Mr : MapRange} {Op : OPA}.

(** An entry of the archive holds the content of an entry of the tree. *)
Definition archived (e : TreeEntry) (f : string * string) : Prop :=
  f.1 = te_Path e ∧ sha256_hex f.2 = te_ContentHash e.

(** The parameter: 0 stands for the head. *)
Definition archive_at (at_ : Z) : option Z := if at_ =? 0 then None else Some at_.

Lemma tree_entries_length d repo branch at_ after :
  wf_db d → (length (tree_entries d repo branch at_ after) ≤ length (db_file_commits d))%nat.
Proof.
  intros Hwf. rewrite <- (length_fmap te_Path (tree_entries d repo branch at_ after)),
    <- (length_fmap fc_path (db_file_commits d)).
  apply submseteq_length, NoDup_submseteq; [by apply tree_entries_NoDup|].
  intros p (e & -> & He)%list_elem_of_fmap. unfold tree_entries, order_by in He.
  rewrite order_by_elem in He.
  apply list_elem_of_fmap in He as (row & -> & [_ Hin]%list_elem_of_filter).
  destruct row as [r doc]. apply inner_join_elem in Hin as (Hr & _).
  cbn. apply list_elem_of_fmap_2. unfold latest_rows in Hr. apply distinct_on_sub in Hr.
  rewrite merge_sort_Permutation in Hr. by apply visible_elem in Hr as [Hr _].
Qed.

(** A world whose files can all be read. *)
Record readable (s : server) (bs : BlobStore) (repo : string) (w : World) : Prop := {
  rd_wf : wf w;
  rd_content : content_ok w;
  rd_distinct : distinct_paths (w_db w) repo;
  rd_store : sr_blobs s = Some bs;
  rd_reliable : ∀ k, bs_get_err bs k = None;
}.

Section Readable.
Context (s : server) (bs : BlobStore) (repo branch : string) (w : World) (Hrd : readable s bs repo w).
Abbreviation entries seq after := (tree_entries (w_db w) repo branch seq after).

(** With the content that the query of that file finds. *)
Definition got (seq : option Z) (e : TreeEntry) (f : string * string) : Prop :=
  archived e f ∧ ∃ fc, GetFile (sr_blobs s) repo branch (te_Path e) seq w = (w, Ok (Some fc)) ∧ fl_Content fc = Some f.2.

(** Every entry of a page ends up in the archive. *)
Lemma archive_page_run seq l :
  (∀ e, e ∈ l → e ∈ entries seq "") →
  ∃ files, archive_page s repo branch seq l w = (w, Ok files) ∧ Forall2 (got seq) l files.
Proof using Hrd.
  induction l as [|e l IH]; intros Hl; [by exists []|].
  destruct IH as (files & E & Hf); [intros; apply Hl; by right|].
  destruct (GetFile_entry bs repo branch seq w e (rd_wf _ _ _ _ Hrd) (rd_content _ _ _ _ Hrd)
    (rd_distinct _ _ _ _ Hrd) (rd_reliable _ _ _ _ Hrd)) as (f & data & Ef & Hp & _ & _ & Hd & Hh);
    [apply Hl; by left|].
  exists ((te_Path e, data) :: files). split.
  2: { constructor; [|done]. split; [done|]. exists f. by rewrite (rd_store _ _ _ _ Hrd). }
  cbn [archive_page]. unfold mbind, M_bind, catch. rewrite (rd_store _ _ _ _ Hrd), Ef. cbn.
  rewrite E. cbn. by rewrite Hd.
Qed.

Lemma MaterializeTree_hundred seq after :
  MaterializeTree repo branch seq 100 after w = (w, Ok (take 100 (entries seq after))).
Proof. reflexivity. Qed.

(** Page by page, each one a hundred entries further. *)
Lemma archive_pages_run seq fuel after :
  (length (entries seq after) < fuel)%nat →
  (∀ e, e ∈ entries seq after → e ∈ entries seq "") →
  (∀ e, e ∈ entries seq after → te_Path e ≠ "") →
  ∃ files, archive_pages s fuel repo branch seq after w = (w, Ok files) ∧
    Forall2 (got seq) (entries seq after) files.
Proof using Hrd.
  revert after. induction fuel as [|fuel IH]; intros after Hlen Hsub Hne; [lia|].
  cbn [archive_pages]. unfold wrap, mbind, M_bind. rewrite MaterializeTree_hundred.
  pose proof (tree_page (w_db w) repo branch seq after 100) as Hp.
  destruct (archive_page_run seq (take 100 (entries seq after))) as (files & Ef & Hf).
  { intros e He. apply Hsub. by eapply subseteq_take. }
  rewrite Ef. specialize (Hp ltac:(apply Hrd) ltac:(lia) Hne). cbn zeta in Hp.
  destruct (last (take 100 (entries seq after))) as [e|] eqn:El.
  - destruct Hp as [He Hp]. destruct (_ <? 100)%nat eqn:Elt.
    + exists files. split; [done|]. by rewrite Hp in Hf.
    + assert (length (entries seq (te_Path e)) < fuel)%nat as Hshort.
      { rewrite Hp, length_drop. apply list_elem_of_lookup_1 in He as [i Hi%lookup_lt_Some]. lia. }
      destruct (IH (te_Path e)) as (rest & Er & Hr); [done|..].
      1,2: intros x Hx; rewrite Hp in Hx; (apply Hsub || apply Hne);
           by eapply subseteq_drop.
      exists (files ++ rest). rewrite Er. split; [done|].
      rewrite <- (take_drop 100 (entries seq after)), <- Hp. by apply Forall2_app.
  - rewrite Hp in *. exists files. cbn in Hf. rewrite take_nil. by split.
Qed.

Lemma writeArchive_run at_ :
  (∀ e, e ∈ entries (archive_at at_) "" → te_Path e ≠ "") →
  ∃ files, writeArchive s repo branch at_ w = (w, Ok files) ∧
    Forall2 (got (archive_at at_)) (entries (archive_at at_) "") files.
Proof using Hrd.
  intros Hne. unfold writeArchive, mbind, M_bind. cbn [gets].
  apply archive_pages_run; [|done..]. apply Nat.lt_succ_r, tree_entries_length, Hrd.
Qed.
End Readable.

(** C21: an archive is the tree.  When the files can be read, [writeArchive]
    ends, whatever the number of files, having changed nothing, and the entries
    of the archive are the files of the tree of the branch at that sequence, in
    its order, each once, with the content its version has the hash of. *)
Theorem writeArchive_tree s bs repo branch at_ w :
  readable s bs repo w →
  (∀ e, e ∈ tree_entries (w_db w) repo branch (archive_at at_) "" → te_Path e ≠ "") →
  ∃ files, writeArchive s repo branch at_ w = (w, Ok files) ∧
    Forall2 archived (tree_entries (w_db w) repo branch (archive_at at_) "") files.
Proof.
  intros Hrd Hne. destruct (writeArchive_run s bs repo branch w Hrd at_ Hne) as (files & E & Hf).
  exists files. split; [done|]. eapply Forall2_impl; [done|]. by intros e f [].
Qed.
End ArchiveSpec.

(** ** Witness *)

Definition archive_server : server := mkServer (Service.mkService NewStore None) (Some reliable) "".

Lemma changed_readable : readable archive_server reliable "o/r" changed_world.
Proof. split; [exact changed_world_wf|exact changed_world_content|exact changed_distinct|done|done]. Qed.

Lemma changed_paths :
  forallb (λ e, bool_decide (te_Path e ≠ "")) (tree_entries (w_db changed_world) "o/r" "dev" (archive_at 0) "")
  = true.
Proof. vm_compute. reflexivity. Qed.

Lemma changed_archive :
  returned (writeArchive archive_server "o/r" "dev" 0) changed_world = Some [("a", "1x"); ("c", "2")].
Proof. vm_compute. reflexivity. Qed.

Lemma writeArchive_tree_witness :
  ∃ files, writeArchive archive_server "o/r" "dev" 0 changed_world = (changed_world, Ok files) ∧
    Some files = returned (writeArchive archive_server "o/r" "dev" 0) changed_world ∧
    files.*1 = ["a"; "c"].
Proof.
  destruct (writeArchive_tree archive_server reliable "o/r" "dev" 0 changed_world) as (files & E & _).
  - exact changed_readable.
  - intros e He. pose proof (proj1 (forallb_True _ _) (Is_true_true_2 _ changed_paths)) as Hall.
    exact (bool_decide_unpack _ (proj1 (Forall_forall _ _) Hall e He)).
  - exists files. assert (Some files = returned (writeArchive archive_server "o/r" "dev" 0) changed_world) as Hr.
    { unfold returned. by rewrite E. }
    split; [exact E|]. split; [exact Hr|]. rewrite changed_archive in Hr. by injection Hr as ->.
Defined.

(** * What a presigned URL gives

    The URL the job of a token is given works until it expires, and its signature
    opens nothing else: no other repository, branch, sequence or time of expiry,
    short of a collision of the HMAC. *)

(** ** Numbers *)

Lemma digit_char d : (d < 10)%N → is_digit (pretty_N_char d) = true ∧ byte_of_ascii (pretty_N_char d) - 48 = Z.of_N d.
Proof.
  intros Hd. assert (d ∈ [0; 1; 2; 3; 4; 5; 6; 7; 8; 9]%N) as Hin by (rewrite !elem_of_cons; lia).
  repeat (apply elem_of_cons in Hin as [->|Hin]; [by vm_compute|]). by apply not_elem_of_nil in Hin.
Qed.
Lemma digits_pretty_go x s : digits (pretty_N_go x s) 0 = digits s (Z.of_N x).
Proof.
  revert s. induction x as [x IH] using (well_founded_induction N.lt_wf_0). intros s.
  destruct (decide (x = 0%N)) as [->|Hx]; [done|]. rewrite pretty_N_go_step by lia.
  rewrite IH by (apply N.div_lt; lia). cbn [digits].
  destruct (digit_char (x `mod` 10)) as [-> ->]; [by apply N.mod_lt|]. f_equal.
  change 10 with (Z.of_N 10). rewrite <- N2Z.inj_mul, <- N2Z.inj_add. f_equal. symmetry. by apply N.div_mod.
Qed.
Lemma pretty_go_digits x s : (0 < x)%N → ∃ d t, (d < 10)%N ∧ pretty_N_go x s = String (pretty_N_char d) t.
Proof.
  revert s. induction x as [x IH] using (well_founded_induction N.lt_wf_0). intros s Hx. rewrite pretty_N_go_step by done.
  destruct (decide (x / 10 = 0)%N) as [->|Hd]; [|apply IH; [by apply N.div_lt|by apply N.neq_0_lt_0]].
  exists (x `mod` 10)%N, s. split; [by apply N.mod_lt|done].
Qed.
Lemma parse_digits_pos p : parse_digits (pretty_N_go (N.pos p) "") = Some (Z.pos p) ∧
  ∃ d t, (d < 10)%N ∧ pretty_N_go (N.pos p) "" = String (pretty_N_char d) t.
Proof.
  destruct (pretty_go_digits (N.pos p) "" ltac:(lia)) as (d & t & Hd & E). split; [|eauto].
  unfold parse_digits. rewrite E. rewrite <- E. rewrite digits_pretty_go. done.
Qed.

(** A number is read back from its text. *)
Lemma ParseInt_FormatInt n : -9223372036854775808 ≤ n ≤ 9223372036854775807 → ParseInt (FormatInt n) = Some n.
Proof.
  intros Hn. unfold ParseInt.
  replace (match FormatInt n with String _ _ => _ | EmptyString => None end) with (Some n).
  { cbn. by replace ((-9223372036854775808 <=? n) && (n <=? 9223372036854775807)) with true by lia. }
  unfold FormatInt, pretty, pretty_Z, pretty_positive, pretty, pretty_N.
  destruct n as [|p|p]; [by vm_compute| |].
  all: rewrite decide_False by done; destruct (parse_digits_pos p) as [Hp (d & t & Hd & E)].
  - rewrite !E. rewrite E in Hp. destruct (digit_char d Hd) as [Hdig _].
    cbv iota beta. rewrite !bool_decide_false by (intros Hc; rewrite Hc in Hdig; by vm_compute in Hdig). by rewrite Hp.
  - change ("-" +:+ pretty_N_go (N.pos p) "") with (String "-" (pretty_N_go (N.pos p) "")).
    cbv iota beta. rewrite bool_decide_false, bool_decide_true by done. by rewrite Hp.
Qed.

(** ** Bytes *)

Lemma hex_char d : 0 ≤ d < 16 → from_hex (hex_digit d) = Some d.
Proof.
  intros Hd. assert (d ∈ seqZ 0 16) as Hin by (apply elem_of_seqZ; lia).
  assert (Forall (λ d, from_hex (hex_digit d) = Some d) (seqZ 0 16)) as H by by_decide.
  rewrite Forall_forall in H. by apply H.
Qed.
Lemma hex_roundtrip l : Forall is_byte l → hex_DecodeString (hex_EncodeToString l) = Some l.
Proof.
  induction 1 as [|b l Hb _ IH]; [done|]. cbn. unfold is_byte in Hb.
  rewrite !hex_char by (Z.to_euclidean_division_equations; lia). cbn. rewrite IH. cbn.
  do 2 f_equal. pose proof (Z.div_mod b 16). lia.
Qed.
Lemma sha256_bytes s : Forall is_byte (sha256_Sum256 s).
Proof.
  unfold sha256_Sum256. set (ws := sha256_blocks _ _ _). clearbody ws. induction ws as [|x ws IH]; [done|].
  change (mjoin (bytes_of_word <$> x :: ws)) with (bytes_of_word x ++ mjoin (bytes_of_word <$> ws)).
  apply Forall_app. split; [|done]. unfold bytes_of_word, is_byte.
  repeat constructor; try apply Z.land_nonneg; try lia; change 255 with (Z.ones 8); rewrite Z.land_ones by lia; by apply Z.mod_pos_bound.
Qed.

(** ** Signatures *)

Lemma Verify_signed secret repo branch sequence expires sig :
  Verify secret repo branch sequence expires sig = true ↔
  hex_DecodeString sig = Some (hmac_sha256 secret (canonicalMessage repo branch sequence expires)).
Proof.
  unfold Verify, Sign. rewrite hex_roundtrip by apply sha256_bytes. cbn.
  destruct (hex_DecodeString sig) as [got|]; [|done]. rewrite bool_decide_eq_true. split; [by intros ->|by intros [= ->]].
Qed.

Lemma canonicalMessage_fields repo branch sequence expires :
  canonicalMessage repo branch sequence expires
  = repo +:+ String Hash.newline ((branch +:+ String Hash.newline (FormatInt sequence)) +:+ String Hash.newline (FormatInt expires)).
Proof. unfold canonicalMessage, line. by rewrite !string_app_assoc. Qed.

(** Repositories whose name has no newline have messages of their own. *)
Lemma canonicalMessage_inj repo branch sequence expires repo' branch' sequence' expires' :
  Hash.has_char Hash.newline repo = false → Hash.has_char Hash.newline repo' = false →
  canonicalMessage repo branch sequence expires = canonicalMessage repo' branch' sequence' expires' →
  repo = repo' ∧ branch = branch' ∧ sequence = sequence' ∧ expires = expires'.
Proof.
  rewrite !canonicalMessage_fields. intros Hr Hr' E.
  apply Hash.split_field in E as [-> E]; [|done..].
  apply Hash.split_last_field in E as [E ->%Hash.FormatInt_inj]; [|apply Hash.FormatInt_no_newline..].
  by apply Hash.split_last_field in E as [-> ->%Hash.FormatInt_inj]; [|apply Hash.FormatInt_no_newline..].
Qed.

Section Presign.
Context {Co : Collation} {Mr : MapRange} {Op : OPA} {Us : UuidSource} {Ta : Tar}.

Lemma time_Now_ok (e : error → APIError) c w c' w' t : call e time_Now c w = (c', w', inr t) → c' = c ∧ w' = w ∧ t = w_now w.
Proof. by intros [= <- <- <-]. Qed.

(** Two texts with one HMAC. *)
Definition hmac_collision (secret : string) : Prop :=
  ∃ m m', m ≠ m' ∧ hmac_sha256 secret m = hmac_sha256 secret m'.

Lemma presigned_served s secret name branch sequence expires sig c w :
  ac_hmacSecret s = Some secret → branch ≠ "" → sig ≠ "" →
  -9223372036854775808 ≤ sequence ≤ 9223372036854775807 → -9223372036854775808 ≤ expires ≤ 9223372036854775807 →
  unix (w_now w) ≤ expires → Verify secret name branch sequence expires sig = true →
  handlePresignedArchive s name branch (FormatInt sequence) (FormatInt expires) sig c w
  = handleArchive (ac_server s) name branch (FormatInt sequence) c w.
Proof.
  intros Hs Hb Hsig Hseq Hexp Hw Hv. unfold handlePresignedArchive. rewrite Hs.
  assert (∀ n, -9223372036854775808 ≤ n ≤ 9223372036854775807 → FormatInt n ≠ "") as Hf.
  { intros n Hn E. apply ParseInt_FormatInt in Hn. by rewrite E in Hn. }
  rewrite !bool_decide_false by auto. cbn [orb guard]. rewrite !ParseInt_FormatInt by done.
  unfold mbind, H_bind, mret, H_ret, call, callP, lift, time_Now, gets.
  replace (expires <? unix (w_now w)) with false by lia. by rewrite Hv.
Qed.
Lemma presigned_accepted s name branch at_ expires sig c w c' w' reply :
  handlePresignedArchive s name branch at_ expires sig c w = (c', w', inr reply) →
  ∃ secret sequence x, ac_hmacSecret s = Some secret ∧ ParseInt at_ = Some sequence ∧ ParseInt expires = Some x ∧
    unix (w_now w) ≤ x ∧ Verify secret name branch sequence x sig = true.
Proof.
  unfold handlePresignedArchive. destruct (ac_hmacSecret s) as [secret|]; [|done].
  intros (c1 & w1 & u & (-> & -> & _)%guard_ok & E)%hbind_ok.
  destruct (ParseInt at_) as [sequence|]; [|done]. destruct (ParseInt expires) as [x|]; [|done].
  apply hbind_ok in E as (c2 & w2 & t & (-> & -> & ->)%time_Now_ok & E).
  apply hbind_ok in E as (c3 & w3 & u1 & (-> & -> & Hx)%guard_ok & E).
  apply hbind_ok in E as (c4 & w4 & u2 & (-> & -> & Hv)%guard_ok & E).
  exists secret, sequence, x. split_and!; [done..|lia|]. by destruct (Verify _ _ _ _ _ _).
Qed.

End Presign.

(** ** Samples *)

(** The archive of no file but their contents. *)
#[local] Instance sample_tar : Tar := λ files, foldr (λ f s, f.2 +:+ s) "" files.
Definition presign_server : archive_config := mkArchiveConfig sample_server (Some "key") "https://d" true true.

Abbreviation presign_request := (handleArchivePresign presign_server "Bearer tok" "o/r" ∅ job_world).
Definition presign_reply : string * string :=
  match presign_request.2 with inr (_, r) => r | inl _ => ("", "") end.
Lemma presign_replies : presign_request.2 = inr (200, presign_reply).
Proof. vm_compute. reflexivity. Qed.
Lemma presign_runs : ∃ c' w', presign_request = (c', w', inr (200, (presign_reply.1, presign_reply.2))).
Proof.
  pose proof presign_replies as Hr. destruct presign_request as [[c' w'] r]. exists c', w'. cbn [snd] in Hr.
  rewrite Hr. by destruct presign_reply.
Qed.


(** A newline in the name of a repository would let one signature open two. *)
Example newline_ambiguous :
  canonicalMessage (Archive.line "o/r" +:+ "main") "2" 3 4 = canonicalMessage "o/r" (Archive.line "main" +:+ "2") 3 4.
Proof. vm_compute. reflexivity. Qed.
