(* ===== verification/HandlersSpec.v ===== *)
(** * What the replies of the handlers mean

    A merge request that is answered with anything but success has changed no
    table but those of the events; one that is answered with success has merged
    exactly what [Merge] says, under policies that allow it. *)

From S2P Require Import Prelude GoStd Schema Tx Run Integrity Orgs Blob Commits Merge ReadStore Issues Guarantee.
From S2P Require Import Chain Samples CommitSpec MergeSpec EventTypes Events EventsSpec Server ServerSpec Policy.
From S2P Require Import PolicySpec Http Effects Handlers Handlers2.
From S2P Require Service.

(** The tables without the log of events and its outbox; and without the
    proposals as well. *)
Definition without_events (d : DB) : DB := set_event_log [] (set_event_outbox [] d).
Definition without_proposals (d : DB) : DB := set_proposals [] (without_events d).

Section HandlersSpec.
Context {Co : Collation} {Us : UuidSource} {Mr : MapRange} {Jt : JsonbText} {Op : OPA}.

Lemma writeDBError_status e : 400 ≤ ae_Status (writeDBError e).
Proof. unfold writeDBError. repeat case_match; cbn; lia. Qed.

Lemma Emit_content b e : guarantees (frame without_events) (Events.Emit b e).
Proof. solve_framed. Qed.
Lemma Emit_tables b e : guarantees (frame without_proposals) (Events.Emit b e).
Proof. solve_framed. Qed.
Lemma MergeProposal_tables r n : guarantees (frame without_proposals) (MergeProposal r n).
Proof. solve_framed. Qed.

Variable s : server.

(** [emit] moves the tables as [Emit] does, and never fails. *)
Lemma emit_run e c w : ∃ w', emit s e c w = (c, w', inr tt) ∧ without_events (w_db w') = without_events (w_db w).
Proof.
  unfold emit, callP, Service.emit. destruct (Service.svc_emitter _) as [b|]; [|by exists w].
  unfold lift. pose proof (Emit_content b e w) as Hc. destruct (Emit_returns b e w) as [w1 E].
  rewrite E in Hc |- *. exists w1. by split.
Qed.

Lemma h_goes {A B} (m : H A) (k : A → H B) c w c1 w1 a :
  m c w = (c1, w1, inr a) → (m ≫= k) c w = k a c1 w1.
Proof. intros E. unfold mbind, H_bind. by rewrite E. Qed.
Lemma h_stops {A B} (m : H A) (k : A → H B) c w c1 w1 f :
  m c w = (c1, w1, inl f) → (m ≫= k) c w = (c1, w1, inl f).
Proof. intros E. unfold mbind, H_bind. by rewrite E. Qed.

(** A part of a handler that always goes on, and leaves [f] of the tables alone. *)
Definition goes_on {X A} (f : DB → X) (m : H A) : Prop := ∀ c w,
  ∃ c' w' a, m c w = (c', w', inr a) ∧ f (w_db w') = f (w_db w).

Lemma go_ret {X A} (f : DB → X) (a : A) : goes_on f (mret a).
Proof. intros c w. by exists c, w, a. Qed.
Lemma go_bind {X A B} (f : DB → X) (m : H A) (k : A → H B) :
  goes_on f m → (∀ a, goes_on f (k a)) → goes_on f (m ≫= k).
Proof.
  intros Hm Hk c w. destruct (Hm c w) as (c1 & w1 & a & E & Ef). destruct (Hk a c1 w1) as (c2 & w2 & b & E2 & Ef2).
  exists c2, w2, b. unfold mbind, H_bind. rewrite E. split; [done|congruence].
Qed.
Lemma go_attempt {X A} (f : DB → X) (m : PM A) : cmoves (on_db (frame f)) m → goes_on f (attempt m).
Proof.
  intros Hm c w. specialize (Hm c w). unfold attempt. destruct (m c w) as [[c1 w1] r]. by exists c1, w1, r.
Qed.
Lemma go_invalidate {X} (f : DB → X) h repo : goes_on f (callP h (invalidate repo)).
Proof. intros c w. by exists (Invalidate repo c), w, tt. Qed.
Lemma go_emit e : goes_on without_proposals (emit s e).
Proof.
  intros c w. destruct (emit_run e c w) as (w' & E & Ef). exists c, w', tt. split; [done|].
  unfold without_proposals. by rewrite Ef.
Qed.

Lemma merge_proposal_goes repo branch : goes_on without_proposals (merge_proposal s repo branch).
Proof.
  apply go_bind.
  - apply go_attempt, (c_lift (on_db (frame without_proposals))), moves_guarantees, MergeProposal_tables.
  - intros [[p|]|e]; first [apply go_emit | apply go_ret].
Qed.
Lemma status_or_none_goes {X} (f : DB → X) name branch actor : goes_on f (status_or_none s name branch actor).
Proof.
  apply go_bind; [|intros; apply go_ret]. apply go_attempt.
  assert (cmoves eq (branch_status s name branch actor)) as Hm by (unfold branch_status; solve_moves).
  intros c w. unfold on_db, frame. by rewrite <- (Hm c w).
Qed.

(** ** The reply of a merge request *)

Lemma Merge_total req w : ∃ w' resp conflicts err, Merge req w = (w', Ok (resp, conflicts, err)).
Proof.
  unfold Merge, WithTx, mbind, M_bind, mret, M_ret.
  destruct (merge_tx req w) as [w1 [[[r c] [e|]]|e]]; cbn -[errors_Is]; eauto;
    repeat (case_match; cbn -[errors_Is] in *; simplify_eq); eauto.
Qed.

Lemma merge_tx_answers req w w' resp conflicts err :
  merge_tx req w = (w', Ok (resp, conflicts, err)) →
  (resp = None ∧ conflicts ≠ [] ∧ err = Some ErrMergeConflict) ∨
  (resp ≠ None ∧ (err = None ∨ err = Some errRollback)).
Proof.
  unfold merge_tx. intros Hrun. inv_ok. case_bool_decide; [done|]. destruct (br_draft _); [done|]. inv_ok.
  case_bool_decide; [destruct (mq_DryRun req); inv_ok; simplify_eq; eauto|]. inv_ok.
  case_bool_decide; inv_ok; [simplify_eq; eauto|]. simplify_eq.
  right. split; [done|]. destruct (mq_DryRun req); auto.
Qed.

Lemma Merge_answers req w w' resp conflicts err :
  Merge req w = (w', Ok (resp, conflicts, err)) →
  match err with
  | None => ∃ r, resp = Some r
  | Some e => errors_Is e ErrMergeConflict = true → conflicts ≠ []
  end.
Proof.
  intros [(w1 & r1 & c1 & e1 & E & Hres)|(w1 & e & _ & _ & -> & -> & -> & _ & Hm)]%Merge_run; [|by rewrite Hm].
  apply merge_tx_answers in E as [(-> & Hc & ->)|(Hr & [->| ->])]; cbn in Hres.
  - by destruct Hres as (_ & -> & -> & ->).
  - destruct Hres as (_ & -> & _ & ->). destruct r1; eauto; done.
  - destruct Hres as (_ & -> & _ & ->). destruct r1; eauto; done.
Qed.

Lemma Merge_no_conflicts req w w' resp conflicts :
  Merge req w = (w', Ok (resp, conflicts, None)) → conflicts = [].
Proof.
  intros [(w1 & r1 & c1 & e1 & E & Hres)|(w1 & e & ? & ? & ? & ? & ? & ?)]%Merge_run; [|done].
  destruct e1 as [e1|]; repeat case_match; by intuition.
Qed.

Lemma validateRepo_checks repo c w :
  ∃ r, validateRepo repo c w = (c, w, r) ∧ match r with inl f => 400 ≤ ae_Status f | inr _ => True end.
Proof.
  unfold validateRepo, call, callP, lift, mbind, H_bind.
  assert (reads (GetRepo repo)) as Hr by (unfold GetRepo; solve_reads). specialize (Hr w).
  destruct (GetRepo repo w) as [w1 [a|e]]; cbn in *; subst w1; eexists; split; try done. apply writeDBError_status.
Qed.

(** What the handler does once the merge is done. *)
Lemma merge_tail_goes name branch author h (k : option BranchStatusResponse → Event) :
  goes_on without_proposals
    (callP h (invalidate name);; merge_proposal s name branch;;
     bs ← status_or_none s name branch author; emit s (k bs)).
Proof.
  apply go_bind; [apply go_invalidate|intros]. apply go_bind; [apply merge_proposal_goes|intros].
  apply go_bind; [apply status_or_none_goes|intros]. apply go_emit.
Qed.

(** What a reply of the handler of merges says of the world before and after. *)
Definition merge_reply_ok (cx : Ctx) (name : string) (body : option MergeBody) (c : Cache) (w w' : World)
    (r : reply (merge_reply MergeResponse)) : Prop :=
  match r with
  | Fault f => 400 ≤ ae_Status f ∧ w_db w' = w_db w
  | Reply status (Denied l) => status = 403 ∧ l ≠ [] ∧ without_events (w_db w') = without_events (w_db w)
  | Reply status (Conflicts l) => status = 409 ∧ l ≠ [] ∧ w_db w' = w_db w
  | Reply status (Merged_ resp) =>
      status = 200 ∧ ∃ branch dry w1,
        body = Some (mkMergeBody branch dry) ∧ branch ≠ "" ∧ branch ≠ "main" ∧
        (EvaluatePolicy (sr_blobs s) true name branch (cx_identity cx) c w).2 = Ok [] ∧
        Merge (mkMergeRequest name branch (cx_identity cx) dry) w = (w1, Ok (Some resp, [], None)) ∧
        if dry then w_db w' = w_db w else without_proposals (w_db w') = without_proposals (w_db w1)
  end.

Lemma perform_merge_run name branch author dry c w :
  ∃ c' w' r, perform_merge s name branch author dry c w = (c', w', r) ∧
    match r with
    | inl f => 400 ≤ ae_Status f ∧ w_db w' = w_db w
    | inr (_, Denied _) => False
    | inr (status, Conflicts l) => status = 409 ∧ l ≠ [] ∧ w_db w' = w_db w
    | inr (status, Merged_ resp) => status = 200 ∧ ∃ w1,
        Merge (mkMergeRequest name branch author dry) w = (w1, Ok (Some resp, [], None)) ∧
        if dry then w_db w' = w_db w else without_proposals (w_db w') = without_proposals (w_db w1)
    end.
Proof.
  unfold perform_merge. destruct (Merge_total (mkMergeRequest name branch author dry) w) as (w1 & resp & conflicts & err & E).
  rewrite (h_goes _ _ _ _ _ _ _ (proj2 (call_ok _ _ _ _ _ _ _) (conj eq_refl E))).
  pose proof (Merge_answers _ _ _ _ _ _ E) as Ha. pose proof (Merge_unchanged _ _ _ _ _ _ E) as Hu.
  destruct err as [e|].
  - assert (w_db w1 = w_db w) as Hdb by (apply Hu; by right).
    cbv beta iota. destruct (errors_Is e ErrMergeConflict) eqn:He; eexists _, _, _; (split; [done|]).
    + split_and!; auto.
    + split; [apply writeDBError_status|done].
  - destruct Ha as [re ->]. assert (conflicts = []) as -> by (by eapply Merge_no_conflicts).
    destruct dry.
    + eexists _, _, _. split; [done|]. split; [done|]. exists w1. auto.
    + destruct (merge_tail_goes name branch author (internal "") (λ bs, BranchMerged name branch (mp_Sequence re) author bs) c w1)
        as (c2 & w2 & [] & Et & Ef).
      exists c2, w2, (inr (200, Merged_ re)). split; [|eauto].
      revert Et. unfold mbind, H_bind. repeat (case_match; try done). by intros [= -> ->].
Qed.

(** C24: what the reply to a merge request means.  An error means that nothing
    changed; a denial (403) names the policies that refused, and nothing changed
    but the log of events; a conflict (409) names the paths, and nothing changed.
    Success (200) means that the body named a branch other than main, that the
    policies let the identity merge it, and that the tables are as [Merge] left
    them, up to the proposal it completes and the events; after a dry run they
    are as before. *)
Theorem merge_replies cx name body c w c' w' r :
  run (handleMerge s cx name body) c w = (c', w', r) → merge_reply_ok cx name body c w w' r.
Proof.
  unfold run, handleMerge. destruct (validateRepo_checks name c w) as ([f|[]] & E & Hf).
  { rewrite (h_stops _ _ _ _ _ _ _ E). by intros [= <- <- <-]. }
  rewrite (h_goes _ _ _ _ _ _ _ E). destruct body as [[branch dry]|]; [|by intros [= <- <- <-]].
  rewrite (h_goes _ _ c w c w (mkMergeBody branch dry)) by done. cbn [mb_Branch mb_DryRun].
  destruct (empty branch) eqn:Hb; [by intros [= <- <- <-]|]. rewrite (h_goes _ _ c w c w tt) by done.
  case_bool_decide as Hm; [by intros [= <- <- <-]|]. rewrite (h_goes _ _ c w c w tt) by done.
  pose proof (EvaluatePolicy_world (sr_blobs s) true name branch (cx_identity cx) c w) as Hw.
  destruct (EvaluatePolicy (sr_blobs s) true name branch (cx_identity cx) c w) as [[c1 w1] [denied|e]] eqn:Ep;
    cbn in Hw; subst w1.
  2: { rewrite (h_stops (callP _ _) _ c w c1 w (internal "policy evaluation error" e));
       [by intros [= <- <- <-]|unfold callP, evaluateMergePolicy; by rewrite Ep]. }
  rewrite (h_goes (callP _ _) _ c w c1 w denied) by (by apply callP_ok).
  case_bool_decide as Hd; cbn [negb].
  - destruct (perform_merge_run name branch (cx_identity cx) dry c1 w) as (c2 & w2 & r2 & -> & Hr).
    apply nil_length_inv in Hd as ->. destruct r2 as [f|[status [resp|l|l]]]; intros [= <- <- <-]; try done.
    destruct Hr as (-> & w3 & HM & Hdb). split; [done|]. exists branch, dry, w3. rewrite Ep. split_and!; auto.
    intros ->. done.
  - destruct (emit_run (MergeBlocked name branch (cx_identity cx) (pr_Name <$> denied)) c1 w) as (w2 & Em & Ef).
    rewrite (h_goes _ _ _ _ _ _ _ Em). intros [= <- <- <-]. split_and!; auto. by intros ->.
Qed.
End HandlersSpec.

(** ** Samples *)

Definition merge_server : server := mkServer (Service.mkService NewStore (Some (NewBroker true))) None "root".
Definition bob : Ctx := mkCtx "bob" None None.
Abbreviation merge_by_bob body w := (run (handleMerge merge_server bob "o/r" (Some body)) NewCache w).

Definition denied_by (r : reply (merge_reply MergeResponse)) : list string :=
  match r with Reply _ (Denied l) => pr_Name <$> l | _ => [] end.
Definition merged_at (r : reply (merge_reply MergeResponse)) : option Z :=
  match r with Reply _ (Merged_ resp) => Some (mp_Sequence resp) | _ => None end.

Lemma merge_by_bob_denied : denied_by (merge_by_bob (mkMergeBody "dev" false) deny_world).2 = ["review"].
Proof. vm_compute. reflexivity. Qed.
Lemma merge_by_bob_merged : merged_at (merge_by_bob (mkMergeBody "dev" false) changed_world).2 = Some 3.
Proof. vm_compute. reflexivity. Qed.

(** A merge that a policy denies leaves everything but the log of events; one
    without policies goes through. *)
Lemma merge_replies_witness :
  (∃ c' w' r, merge_by_bob (mkMergeBody "dev" false) deny_world = (c', w', r) ∧ denied_by r = ["review"] ∧
     without_events (w_db w') = without_events (w_db deny_world)) ∧
  (∃ c' w' r, merge_by_bob (mkMergeBody "dev" false) changed_world = (c', w', r) ∧ merged_at r = Some 3 ∧
     (EvaluatePolicy (sr_blobs merge_server) true "o/r" "dev" (cx_identity bob) NewCache changed_world).2 = Ok []).
Proof.
  pose proof merge_by_bob_denied as H1. pose proof merge_by_bob_merged as H2. split.
  - revert H1. destruct (merge_by_bob _ deny_world) as [[c' w'] r] eqn:E. intros H1. exists c', w', r. split; [done|]. split; [exact H1|].
    pose proof (merge_replies _ _ _ _ _ _ _ _ _ E) as Hr. clear E. cbn in H1.
    destruct r as [f|status [resp|l|l]]; [done..|]. apply Hr.
  - revert H2. destruct (merge_by_bob (mkMergeBody "dev" false) changed_world) as [[c' w'] r] eqn:E. intros H2. exists c', w', r. split; [done|]. split; [exact H2|].
    pose proof (merge_replies _ _ _ _ _ _ _ _ _ E) as Hr. clear E. cbn in H2.
    destruct r as [f|status [resp|l|l]]; [done| |done..].
    destruct Hr as (_ & branch & dry & w1 & [= <- <-] & _ & _ & He & _). exact He.
Defined.
