(* ===== verification/ApiSpec.v ===== *)
(** * The API refines the store

    Whatever a request does to the tables, it does by calls of the store: the
    handlers, the service and the policies take the world along [store_step]s
    (System.v) only, so what is true of every reachable world stays true under
    any use of the API. *)

From S2P Require Import Prelude GoStd Schema Tx Run Integrity Orgs Blob Commits Merge ReadStore Reviews Purge.
From S2P Require Import Releases Guarantee Issues CIJobs EventTypes Events Samples System Chain ChainSpec Server.
From S2P Require Import ServerSpec Policy PolicySpec Http Effects Handlers Handlers2 Handlers3 Secrets Api.
From S2P Require Import SecretsSpec.
From S2P Require Service Ui UiForms.

(** The steps by the operation at their head. *)
Create HintDb steps discriminated.
#[export] Hint Constants Opaque : steps.
#[export] Hint Constructors store_step : steps.

Section Steps.
Context {Co : Collation} {Us : UuidSource} {Mr : MapRange} {Jt : JsonbText} {Ht : HTTPClient} {Op : OPA}.
Abbreviation steps m := (moves (rtc store_step) m).
Abbreviation csteps m := (cmoves (rtc store_step) m).

#[global] Instance store_steps_preorder : PreOrder (rtc store_step).
Proof. apply rtc_po. Qed.

Lemma s_once {A} (m : M A) : (∀ w, store_step w (exec m w)) → steps m.
Proof. intros Hm w. apply rtc_once, Hm. Qed.
End Steps.
#[export] Hint Extern 1 (moves (rtc store_step) _) => (apply s_once; solve [eauto with steps nocore]) : trace.

Section Api.
Context {Co : Collation} {Us : UuidSource} {Mr : MapRange} {Jt : JsonbText} {Ht : HTTPClient} {Op : OPA}.
Context {En : Encryptor} {Tk : Tokens}.
Abbreviation steps m := (moves (rtc store_step) m).
Abbreviation csteps m := (cmoves (rtc store_step) m).

(** ** The service *)

Lemma try_all_steps l : Forall (moves (rtc store_step)) l → csteps (Service.try_all l).
Proof.
  induction 1 as [|m l Hm _ IH]; [by apply (c_same (rtc store_step))|]. cbn.
  apply (c_bindP (rtc store_step)); [by apply (c_lift (rtc store_step)), (s_catch (rtc store_step))|auto].
Qed.
Lemma refs_steps {A} (f : A → M unit) (l : list A) : (∀ a, steps (f a)) → csteps (Service.try_all (f <$> l)).
Proof. intros Hf. apply try_all_steps, Forall_fmap, Forall_true. intros a. apply Hf. Qed.

Lemma ref_of_steps repo n t id : steps (Service.ref_of repo n t id).
Proof. solve_moves. Qed.
#[local] Hint Resolve ref_of_steps : trace.
Lemma body_refs_steps repo n body : csteps (Service.upsertIssueBodyRefs repo n body).
Proof.
  unfold Service.upsertIssueBodyRefs. destruct (Service.ParseMentions body) as [[pids seqs] ?].
  apply (c_bindP (rtc store_step)); [|intros _]; apply refs_steps; eauto with trace.
Qed.
Lemma mention_refs_steps repo id body : csteps (Service.upsertProposalMentionRefs repo id body).
Proof.
  unfold Service.upsertProposalMentionRefs. destruct (Service.ParseMentions body) as [[? ?] nums].
  apply refs_steps. eauto with trace.
Qed.
#[local] Hint Resolve body_refs_steps mention_refs_steps : trace.

(** ** Archives and secrets *)

Lemma archive_page_steps s repo branch seq entries : steps (archive_page s repo branch seq entries).
Proof. induction entries as [|e entries IH]; cbn; solve_moves. Qed.
#[local] Hint Resolve archive_page_steps : trace.
Lemma archive_pages_steps s fuel repo branch seq after : steps (archive_pages s fuel repo branch seq after).
Proof. revert after. induction fuel as [|fuel IH]; intros after; cbn; solve_moves. Qed.
#[local] Hint Resolve archive_pages_steps : trace.

Lemma open_all_steps repo names values missing revealed :
  steps (open_all repo names values missing revealed).
Proof. revert values missing revealed. induction names as [|n names IH]; intros; cbn; solve_moves. Qed.
#[local] Hint Resolve open_all_steps : trace.
Lemma emit_accessed_steps s job name values names : csteps (emit_accessed s job name values names).
Proof. induction names as [|n names IH]; cbn; solve_moves. Qed.
#[local] Hint Resolve emit_accessed_steps : trace.

Lemma handler_steps s rq cx h m : handles s rq cx h m → csteps m.
Proof.
  destruct 1; unfold void.
  all: solve_moves.
Qed.

(** ** The web interface *)

Lemma review_refused_reads repo branch : reads (UiForms.review_refused repo branch).
Proof.
  intros w. unfold UiForms.review_refused, in_tx. set (fn := or_not_found _ _ _ ≫= _).
  assert (reads fn) as Hf by (unfold fn; solve_reads). specialize (Hf w).
  unfold WithTx, mbind, M_bind, mret, M_ret. destruct (fn w) as [w1 [a|e]]; cbn in Hf |- *; subst w1; [done|].
  destruct (errors_Is e errRollback); by destruct w.
Qed.
Lemma review_refused_steps repo branch : steps (UiForms.review_refused repo branch).
Proof. apply (s_reads (rtc store_step)), review_refused_reads. Qed.
#[local] Hint Resolve review_refused_steps : trace.
Lemma page_steps h cx method path k form : UiForms.routes h cx method path k → csteps (k form).
Proof.
  destruct 1 as [| | | | | |? ? ? ? ? ? ? []|? ? ? ? ? ? ? []|? ? ? ? ? ? ? []|? ? ? ? ? []].
  all: solve_moves.
Qed.
Lemma ui_steps h cx path fresh r m : UiForms.ui_serve h cx path fresh r m → csteps m.
Proof.
  intros [k _ Hk]. assert (∀ form, csteps (k form)) as Hs by eauto using page_steps.
  unfold Ui.CSRFMiddleware. destruct (if empty _ then _ else _) as [token|]; [|by apply (c_same (rtc store_step))].
  destruct (Ui.safe_method _).
  - apply (c_bindH (rtc store_step)); [apply Hs|intros; by apply (c_same (rtc store_step))].
  - destruct (Ui.ParseForm r) as [form|]; [|by apply (c_same (rtc store_step))].
    destruct (_ || _); [by apply (c_same (rtc store_step))|].
    apply (c_bindH (rtc store_step)); [apply Hs|intros; by apply (c_same (rtc store_step))].
Qed.

(** ** Requests *)

Lemma serve_reads sv rq : reads (serve sv rq).
Proof.
  unfold serve, RBACMiddleware. cbv zeta.
  destruct (match parseRepoPath _ with Some (_, _) => _ | None => None end); [done|].
  destruct (if sv_oidc sv then _ else None); [by destruct (validateJobOIDCToken _)|].
  destruct (GoogleAuth sv rq) as [|who]; [done|]. destruct (repoAndSubPath _) as [repo subPath].
  destruct (_ || _); [done|]. apply rd_bind.
  - destruct (_ && _); [apply rd_catch, HasAdmin_reads|done].
  - intros [[]|]; [|apply rd_ret|]; (apply rd_bind; [apply rd_catch, GetRole_reads|]);
      (intros [role|]; [by destruct (negb _)|done]).
Qed.

Lemma api_step_steps s sv rq c w c' w' : api_step s sv rq (c, w) (c', w') → rtc store_step w w'.
Proof.
  inversion 1 as [? ? ? ? E|? ? w1 cx h m ? ? r E Hh Em|? ? w1 cx sec path fresh r m ? ? reply E Hh Em]; subst;
    pose proof (reads_run _ _ _ _ (serve_reads sv rq) E) as ->; [done| |].
  - pose proof (handler_steps _ _ _ _ _ Hh c w) as Hm. by rewrite Em in Hm.
  - pose proof (ui_steps _ _ _ _ _ _ Hh c w) as Hm. by rewrite Em in Hm.
Qed.


(** Any number of requests to any servers over the store, with what the other
    programs do to it in between. *)
Inductive service_step : Cache * World → Cache * World → Prop :=
| service_request s sv rq st st' : api_step s sv rq st st' → service_step st st'
| service_other c w w' : store_step w w' → service_step (c, w) (c, w').

Lemma service_reachable c w c' w' : reachable w → rtc service_step (c, w) (c', w') → reachable w'.
Proof.
  intros Hr Hs. change (reachable (c', w').2). change (reachable (c, w).2) in Hr.
  induction Hs as [|st st1 st2 Hstep _ IH]; [done|]. apply IH.
  destruct Hstep as [s sv rq [? ?] [? ?] Hq|? ? ? ?]; cbn in *; [|by eapply reach_step].
  apply api_step_steps in Hq. induction Hq; [done|]. eauto using reach_step.
Qed.

End Api.

(** ** Samples *)

Definition api_server : server := mkServer (Service.mkService NewStore (Some (NewBroker true))) None "root".

(** What the request of "bob" for a new organisation does. *)
Definition org_request : Request := request "POST" "/orgs" "".
Definition org_created (w : World) : Cache * World * (APIError + ()) :=
  void (handleCreateOrg api_server (mkCtx "bob" None None) (Some "acme")) ∅ w.

Lemma org_request_step w :
  api_step api_server dev_server org_request (∅, w) ((org_created w).1.1, (org_created w).1.2).
Proof.
  destruct (org_created w) as [[c' w'] r] eqn:E.
  apply (api_handled _ _ _ ∅ w w (mkCtx "bob" None None) (Mux "POST" "/orgs")
    (void (handleCreateOrg api_server (mkCtx "bob" None None) (Some "acme"))) c' w' r).
  - reflexivity.
  - apply h_CreateOrg.
  - exact E.
Qed.


