(* ===== verification/LineDiffSpec.v ===== *)
(** * The inline diff is a shortest patch

    The table holds the lengths of the longest common subsequences of the
    prefixes; walking back through it gives a script that turns one side into the
    other with the fewest changes; and its hunks, read as a patch, do the same.
    [patch] is how a unified diff is applied. *)

From S2P Require Import Prelude GoStd LineDiff.

(** ** Scripts *)

(** The lines of the two sides of a script. *)
Definition old_side (ops : list editOp) : list string := op_content <$> filter (λ op, op_kind op ≠ K_add) ops.
Definition new_side (ops : list editOp) : list string := op_content <$> filter (λ op, op_kind op ≠ K_del) ops.
Definition changes (ops : list editOp) : nat := length (filter (λ op, op_kind op ≠ K_ctx) ops).
Definition kept (ops : list editOp) : list string := op_content <$> filter (λ op, op_kind op = K_ctx) ops.
Definition is_script (ops : list editOp) : Prop := Forall (λ op, op_kind op ≠ K_hunk) ops.

(** ** Patches *)

(** A hunk: the first line and the number of lines of either side, and its lines. *)
Record hunk := mkHunk { hk_old : nat; hk_oldn : nat; hk_new : nat; hk_newn : nat; hk_ops : list editOp }.
(** As the page shows it. *)
Definition render_hunk (h : hunk) : list commitDiffLine :=
  mkDiffLine K_hunk (header (hk_old h) (hk_oldn h) (hk_new h) (hk_newn h)) :: (hunk_line <$> hk_ops h).

(** The lines of a hunk read against the lines of the old side: what they make,
    and what is left. *)
Fixpoint apply_ops (ops : list editOp) (l : list string) : option (list string * list string) :=
  match ops with
  | [] => Some ([], l)
  | mkEditOp K_add c :: ops => '(out, l) ← apply_ops ops l; Some (c :: out, l)
  | mkEditOp K_ctx c :: ops =>
      match l with x :: l => if bool_decide (x = c) then '(out, l) ← apply_ops ops l; Some (c :: out, l) else None | [] => None end
  | mkEditOp K_del c :: ops =>
      match l with x :: l => if bool_decide (x = c) then apply_ops ops l else None | [] => None end
  | mkEditOp K_hunk _ :: _ => None
  end.
(** The hunks applied to the lines [l] left of the old side, when [i] of its
    lines were read and [j] written: the positions and counts have to agree. *)
Fixpoint patch (i j : nat) (hs : list hunk) (l : list string) : option (list string) :=
  match hs with
  | [] => Some l
  | h :: hs =>
      let k := (hk_old h - S i)%nat in
      if bool_decide (hk_old h = S (i + k) ∧ hk_new h = S (j + k) ∧ (k ≤ length l)%nat
        ∧ hk_oldn h = count_old (hk_ops h) ∧ hk_newn h = count_new (hk_ops h))
      then '(out, rest) ← apply_ops (hk_ops h) (drop k l);
           r ← patch (i + k + hk_oldn h) (j + k + hk_newn h) hs rest;
           Some (take k l ++ out ++ r)
      else None
  end.
Definition hunk_changes (hs : list hunk) : nat := sum_list (changes ∘ hk_ops <$> hs).

(** ** The table *)

Section Table.
Context (a b : list string).
Abbreviation n := (length b).

(** The length of the longest common subsequence of the first [i] and [j]. *)
Fixpoint lcs (i : nat) : nat → nat :=
  match i with
  | O => λ _, 0%nat
  | S i' => fix row j :=
      match j with
      | O => 0%nat
      | S j' => if bool_decide (line_of a i' = line_of b j') then S (lcs i' j') else max (lcs i' j) (row j')
      end
  end.
Lemma lcs_0_r i : lcs i 0 = 0%nat.
Proof. by destruct i. Qed.
Lemma lcs_S i j :
  lcs (S i) (S j) = if bool_decide (line_of a i = line_of b j) then S (lcs i j) else max (lcs i (S j)) (lcs (S i) j).
Proof. done. Qed.

Lemma fill_row_lcs i j k :
  (j + k = n)%nat →
  fill_row (line_of a i) (drop j b) (lcs i j) (lcs (S i) j) (lcs i <$> seq (S j) k) = lcs (S i) <$> seq (S j) k.
Proof.
  revert j. induction k as [|k IH]; intros j Hk.
  { by destruct (drop j b). }
  destruct (lookup_lt_is_Some_2 b j) as [y Hy]; [lia|]. rewrite (drop_S b y j Hy). cbn [seq fmap list_fmap fill_row].
  assert ((if bool_decide (line_of a i = y) then S (lcs i j)
    else if (lcs (S i) j <=? lcs i (S j))%nat then lcs i (S j) else lcs (S i) j) = lcs (S i) (S j)) as ->.
  { rewrite lcs_S. assert (line_of b j = y) as -> by (unfold line_of; by rewrite Hy). case_bool_decide; [done|].
    destruct (Nat.leb_spec (lcs (S i) j) (lcs i (S j))); lia. }
  f_equal. apply IH. lia.
Qed.
Lemma dp_rows_lcs i k :
  (i + k ≤ length a)%nat →
  dp_rows (drop i a) b (lcs i <$> seq 0 (S n)) !! k = Some (lcs (i + k) <$> seq 0 (S n)).
Proof.
  revert i. induction k as [|k IH]; intros i Hk; [by rewrite Nat.add_0_r; destruct (drop i a)|].
  destruct (lookup_lt_is_Some_2 a i) as [x Hx]; [lia|]. rewrite (drop_S a x i Hx). cbn [dp_rows lookup list_lookup].
  assert (next_row x b (lcs i <$> seq 0 (S n)) = lcs (S i) <$> seq 0 (S n)) as ->.
  { cbn [seq fmap list_fmap next_row]. rewrite lcs_0_r. f_equal.
    replace x with (line_of a i) by (unfold line_of; by rewrite Hx).
    pose proof (fill_row_lcs i 0 n eq_refl) as H. by rewrite !lcs_0_r in H. }
  replace (i + S k)%nat with (S i + k)%nat by lia. apply IH. lia.
Qed.

(** Every entry of the table is the length of a longest common subsequence. *)
Lemma entry_lcs i j : (i ≤ length a)%nat → (j ≤ n)%nat → entry (dp_table a b) i j = lcs i j.
Proof.
  intros Hi Hj. unfold entry, dp_table. pose proof (dp_rows_lcs 0 i Hi) as H.
  assert (lcs 0 <$> seq 0 (S n) = replicate (S n) 0%nat) as E.
  { apply list_eq. intros k. rewrite list_lookup_fmap. cbn [lcs].
    destruct (decide (k < S n)%nat).
    - by rewrite lookup_seq_lt, lookup_replicate_2.
    - rewrite lookup_seq_ge, (proj2 (lookup_ge_None _ _)) by (rewrite ?length_replicate; lia). done. }
  rewrite E in H. change (drop 0 a) with a in H. rewrite H. cbn [mbind option_bind]. rewrite list_lookup_fmap, lookup_seq_lt by lia. done.
Qed.

Lemma sublist_cut {A} (l k : list A) x y : l ++ [x] `sublist_of` k ++ [y] → l `sublist_of` k.
Proof.
  intros (l1 & l2 & E & H1 & H2)%sublist_app_r.
  assert (l2 = [] ∨ l2 = [y]) as [->| ->].
  { inversion H2 as [|? ? ? H|? ? ? H]; subst; [right|left]; by (apply sublist_nil_r in H as ->). }
  - rewrite app_nil_r in E. subst l1. etrans; [|exact H1]. by apply sublist_inserts_r.
  - by apply app_inj_tail in E as [-> ->].
Qed.
Lemma sublist_snoc_or {A} (l k : list A) y : l `sublist_of` k ++ [y] → l `sublist_of` k ∨ ∃ l', l = l' ++ [y].
Proof.
  intros (l1 & l2 & -> & H1 & H2)%sublist_app_r.
  inversion H2 as [|? ? ? H|? ? ? H]; subst; apply sublist_nil_r in H as ->; [right; by exists l1|left; by rewrite app_nil_r].
Qed.

(** No common subsequence is longer. *)
Lemma lcs_longest i j s :
  (i ≤ length a)%nat → (j ≤ n)%nat → s `sublist_of` take i a → s `sublist_of` take j b → (length s ≤ lcs i j)%nat.
Proof.
  revert j s. induction i as [|i IHi]; intros j s Hi Hj Ha Hb; [apply sublist_nil_r in Ha as ->; cbn; lia|].
  revert s Ha Hb. induction j as [|j IHj]; intros s Ha Hb; [apply sublist_nil_r in Hb as ->; cbn; lia|].
  destruct (lookup_lt_is_Some_2 a i) as [x Hx]; [lia|]. destruct (lookup_lt_is_Some_2 b j) as [y Hy]; [lia|].
  rewrite lcs_S. rewrite (take_S_r _ _ _ Hx) in Ha. rewrite (take_S_r _ _ _ Hy) in Hb.
  assert (line_of a i = x) as -> by (unfold line_of; by rewrite Hx).
  assert (line_of b j = y) as -> by (unfold line_of; by rewrite Hy). case_bool_decide as Hxy.
  - destruct s as [|z s] using rev_ind; [cbn; lia|]. rewrite length_app. cbn.
    apply sublist_cut in Ha, Hb. specialize (IHi j s ltac:(lia) ltac:(lia) Ha Hb). lia.
  - destruct (sublist_snoc_or _ _ _ Ha) as [Ha'|(l & ->)].
    { specialize (IHi (S j) s ltac:(lia) Hj Ha'). rewrite (take_S_r _ _ _ Hy) in IHi. specialize (IHi Hb). lia. }
    destruct (sublist_snoc_or _ _ _ Hb) as [Hb'|(l' & [_ ->]%app_inj_tail)]; [|done].
    rewrite <- (take_S_r _ _ _ Hx) in Ha. specialize (IHj ltac:(lia) _ Ha Hb'). lia.
Qed.
End Table.

(** ** Scripts *)

Lemma old_side_app x y : old_side (x ++ y) = old_side x ++ old_side y.
Proof. unfold old_side. by rewrite filter_app, fmap_app. Qed.
Lemma new_side_app x y : new_side (x ++ y) = new_side x ++ new_side y.
Proof. unfold new_side. by rewrite filter_app, fmap_app. Qed.
Lemma kept_app x y : kept (x ++ y) = kept x ++ kept y.
Proof. unfold kept. by rewrite filter_app, fmap_app. Qed.
Lemma changes_app x y : changes (x ++ y) = (changes x + changes y)%nat.
Proof. unfold changes. by rewrite filter_app, length_app. Qed.
Lemma count_old_side ops : count_old ops = length (old_side ops).
Proof. unfold old_side. by rewrite length_fmap. Qed.
Lemma count_new_side ops : count_new ops = length (new_side ops).
Proof. unfold new_side. by rewrite length_fmap. Qed.

(** What is kept is common to both sides, and the rest are changes. *)
Lemma script_counts ops :
  is_script ops → kept ops `sublist_of` old_side ops ∧ kept ops `sublist_of` new_side ops ∧
  (length (old_side ops) + length (new_side ops) = 2 * length (kept ops) + changes ops)%nat.
Proof.
  induction 1 as [|[k c] ops Hk _ (IH1 & IH2 & IH3)]; [done|]. cbn in Hk.
  unfold kept, old_side, new_side, changes in *. rewrite !length_fmap in *. rewrite !filter_cons. cbn [op_kind].
  destruct k; try done; repeat case_decide; try done; cbn; split_and!; try done; try lia; by constructor.
Qed.

Lemma lcs_changes (a b : list string) ops :
  is_script ops → old_side ops = a → new_side ops = b →
  (length a + length b ≤ 2 * lcs a b (length a) (length b) + changes ops)%nat.
Proof.
  intros Hs <- <-. destruct (script_counts ops Hs) as (H1 & H2 & H3).
  pose proof (lcs_longest (old_side ops) (new_side ops) (length (old_side ops)) (length (new_side ops)) (kept ops)) as Hl.
  rewrite !firstn_all in Hl. specialize (Hl ltac:(lia) ltac:(lia) H1 H2). lia.
Qed.

Section Back.
Context (a b : list string).
Abbreviation back := (backtrack a b (dp_table a b)).

Lemma take_line (l : list string) i : (i < length l)%nat → take (S i) l = take i l ++ [line_of l i].
Proof.
  intros Hi. destruct (lookup_lt_is_Some_2 l i Hi) as [x Hx]. unfold line_of. rewrite Hx. by apply take_S_r.
Qed.

(** Walking back from [(i, j)] gives a script between the prefixes that keeps as
    many lines as the table says. *)
Lemma backtrack_script fuel i j :
  (i ≤ length a)%nat → (j ≤ length b)%nat → (i + j ≤ fuel)%nat →
  let ops := reverse (back fuel i j) in
  is_script ops ∧ old_side ops = take i a ∧ new_side ops = take j b ∧ length (kept ops) = lcs a b i j.
Proof.
  assert (∀ (op : editOp) ops, reverse (op :: ops) = reverse ops ++ [op]) as Hr by (intros; apply reverse_cons).
  assert (∀ k c, length (kept [mkEditOp k c]) = if decide (k = K_ctx) then 1%nat else 0%nat) as Hl by by intros [].
  revert i j. induction fuel as [|fuel IH]; intros i j Hi Hj Hf.
  { assert (i = 0 ∧ j = 0)%nat as [-> ->] by lia. split_and!; [constructor|done..]. }
  cbn [backtrack]. destruct i as [|i], j as [|j]; [split_and!; [constructor|done..]|..].
  - destruct (IH 0%nat j) as (Hs & Ho & Hn & Hk); [lia..|]. rewrite Hr, old_side_app, new_side_app, kept_app, Ho, Hn.
    rewrite length_app, Hk, (take_line b j) by lia. split_and!; try done. apply Forall_app. split; [done|]. by constructor.
  - destruct (IH i 0%nat) as (Hs & Ho & Hn & Hk); [lia..|]. rewrite Hr, old_side_app, new_side_app, kept_app, Ho, Hn.
    rewrite length_app, Hk, lcs_0_r, (take_line a i) by lia. split_and!; try done. apply Forall_app. split; [done|]. by constructor.
  - rewrite lcs_S, !entry_lcs by lia. case_bool_decide as Hx.
    + destruct (IH i j) as (Hs & Ho & Hn & Hk); [lia..|]. rewrite Hr, old_side_app, new_side_app, kept_app, Ho, Hn.
      rewrite length_app, Hk, (take_line a i), (take_line b j), <- Hx by lia.
      split_and!; [apply Forall_app; split; [done|by constructor]|done|done|rewrite Hl, decide_True by done; lia].
    + destruct (Nat.leb_spec (lcs a b i (S j)) (lcs a b (S i) j)).
      * destruct (IH (S i) j) as (Hs & Ho & Hn & Hk); [lia..|]. rewrite Hr, old_side_app, new_side_app, kept_app, Ho, Hn.
        rewrite length_app, Hk, (take_line b j) by lia.
        split_and!; [apply Forall_app; split; [done|by constructor]|by rewrite app_nil_r|done|rewrite Hl, decide_False by done; lia].
      * destruct (IH i (S j)) as (Hs & Ho & Hn & Hk); [lia..|]. rewrite Hr, old_side_app, new_side_app, kept_app, Ho, Hn.
        rewrite length_app, Hk, (take_line a i) by lia.
        split_and!; [apply Forall_app; split; [done|by constructor]|done|by rewrite app_nil_r|rewrite Hl, decide_False by done; lia].
Qed.

(** The script of the two sides, with the fewest changes. *)
Lemma lcsEditScript_shortest :
  let ops := lcsEditScript a b in
  is_script ops ∧ old_side ops = a ∧ new_side ops = b ∧
  ∀ ops', is_script ops' → old_side ops' = a → new_side ops' = b → (changes ops ≤ changes ops')%nat.
Proof.
  destruct (backtrack_script (length a + length b) (length a) (length b)) as (Hs & Ho & Hn & Hk); [lia..|].
  rewrite !firstn_all in *. unfold lcsEditScript. cbv zeta. split_and!; try done. intros ops' Hs' Ho' Hn'.
  pose proof (lcs_changes a b ops' Hs' Ho' Hn'). destruct (script_counts _ Hs) as (_ & _ & Hc). rewrite Ho, Hn, Hk in Hc. lia.
Qed.
End Back.

(** ** Hunks *)

Lemma set_true js (inc : list bool) i :
  (i < length inc)%nat → inc !! i = Some true ∨ i ∈ js → foldl (λ inc j, <[j := true]> inc) inc js !! i = Some true.
Proof.
  revert inc. induction js as [|j js IH]; intros inc Hi H; cbn [foldl]; [destruct H as [H|H]; [done|set_solver]|].
  apply IH; [by rewrite length_insert|]. destruct (decide (i = j)) as [->|Hij].
  - left. by apply list_lookup_insert_eq.
  - destruct H as [H|[->|H]%elem_of_cons]; [left; by rewrite list_lookup_insert_ne|done|by right].
Qed.
Lemma set_true_length js (inc : list bool) : length (foldl (λ inc j, <[j := true]> inc) inc js) = length inc.
Proof. revert inc. induction js as [|j js IH]; intros inc; cbn; [done|]. by rewrite IH, length_insert. Qed.

Lemma mark_length n ctx inc iop : length (mark n ctx inc iop) = length inc.
Proof. unfold mark. destruct (is_change _); [apply set_true_length|done]. Qed.
Lemma marks_length n ctx l inc : length (foldl (mark n ctx) inc l) = length inc.
Proof. revert inc. induction l as [|iop l IH]; intros inc; cbn; [done|]. by rewrite IH, mark_length. Qed.
Lemma marks_true n ctx l inc i :
  (i < length inc)%nat → length inc = n → inc !! i = Some true ∨ (∃ op, (i, op) ∈ l ∧ is_change op) →
  foldl (mark n ctx) inc l !! i = Some true.
Proof.
  revert inc. induction l as [|[j op] l IH]; intros inc Hi Hn H; cbn [foldl].
  { destruct H as [H|(op & H & _)]; [done|set_solver]. }
  apply IH; [by rewrite mark_length|by rewrite mark_length|].
  destruct H as [H|(op' & [[= <- <-]|H]%elem_of_cons & Hop)]; [left|left|right; by exists op'].
  - unfold mark. destruct (is_change _); [|done]. apply set_true; [done|by left].
  - unfold mark. cbn [fst snd]. destruct (is_change op'); [|done]. apply set_true; [done|right].
    unfold around. apply elem_of_seq. lia.
Qed.
(** What is left out is context. *)
Lemma included_ctx ops ctx i op : ops !! i = Some op → included ops ctx !! i = Some false → op_kind op = K_ctx.
Proof.
  intros Ho Hf. pose proof (lookup_lt_Some _ _ _ Ho) as Hi. unfold included in Hf.
  destruct (decide (op_kind op = K_ctx)) as [|Hk]; [done|].
  rewrite (marks_true _ _ _ _ i) in Hf; [done|by rewrite length_replicate..|].
  right. exists op. unfold is_change. rewrite bool_decide_false by done. split; [|done].
  apply list_elem_of_lookup. exists i. apply lookup_zip_Some. by rewrite lookup_seq_lt by done.
Qed.
Lemma included_length ops ctx : length (included ops ctx) = length ops.
Proof. unfold included. by rewrite marks_length, length_replicate. Qed.

Lemma apply_script ops l : is_script ops → apply_ops ops (old_side ops ++ l) = Some (new_side ops, l).
Proof.
  induction 1 as [|[k c] ops Hk _ IH]; [done|]. cbn in Hk. unfold old_side, new_side in *. rewrite !filter_cons. cbn [op_kind].
  destruct k; try done; repeat case_decide; try done; cbn in *; rewrite ?bool_decide_true by done; by rewrite IH.
Qed.
Lemma run_length_le l : (run_length l ≤ length l)%nat.
Proof. induction l as [|[] l IH]; cbn; lia. Qed.

(** A line of context before the first hunk. *)
Lemma patch_shift i j hs c l r : patch (S i) (S j) hs l = Some r → patch i j hs (c :: l) = Some (c :: r).
Proof.
  destruct hs as [|h hs]; cbn [patch]; [by intros [= ->]|]. case_bool_decide as H; [|done].
  destruct H as (Ho & Hn & Hk & Hc). rewrite bool_decide_true by (cbn [length]; lia || (split_and!; cbn [length]; lia)).
  replace (hk_old h - S i)%nat with (S (hk_old h - S (S i))) by lia. cbn [drop take].
  replace (i + S (hk_old h - S (S i)))%nat with (S i + (hk_old h - S (S i)))%nat by lia.
  replace (j + S (hk_old h - S (S i)))%nat with (S j + (hk_old h - S (S i)))%nat by lia.
  destruct (apply_ops _ _) as [[out rest]|]; [|done]. cbn. destruct (patch _ _ hs rest); [|done]. cbn. by intros [= <-].
Qed.

Section Hunks.
Context (ops : list editOp) (inc : list bool) (Hscript : is_script ops) (Hlen : length inc = length ops).
Context (Hctx : ∀ i op, ops !! i = Some op → inc !! i = Some false → op_kind op = K_ctx).

(** The loop renders hunks that patch what is left of the two sides. *)
Lemma hunks_from_patch fuel i :
  (length ops - i < fuel)%nat →
  ∃ hs, hunks_from ops inc fuel i = mjoin (render_hunk <$> hs) ∧ hunk_changes hs = changes (drop i ops) ∧
    patch (count_old (take i ops)) (count_new (take i ops)) hs (old_side (drop i ops)) = Some (new_side (drop i ops)).
Proof.
  revert i. induction fuel as [|fuel IH]; intros i Hf; [lia|]. cbn [hunks_from].
  destruct (drop i inc) as [|[] inc'] eqn:Ei.
  - assert (length ops ≤ i)%nat by (rewrite <- Hlen; apply (f_equal length) in Ei; rewrite length_drop in Ei; cbn in Ei; lia).
    exists []. rewrite drop_ge by done. done.
  - assert (i < length ops)%nat by (rewrite <- Hlen; apply (f_equal length) in Ei; rewrite length_drop in Ei; cbn in Ei; lia).
    set (n := run_length (true :: inc')). assert (0 < n)%nat by (cbn; lia).
    destruct (IH (i + n)%nat) as (hs & Hr & Hc & Hp); [lia|].
    set (h := mkHunk (S (count_old (take i ops))) (count_old (take n (drop i ops)))
                     (S (count_new (take i ops))) (count_new (take n (drop i ops))) (take n (drop i ops))).
    assert (drop i ops = take n (drop i ops) ++ drop (i + n) ops) as E by (by rewrite <- drop_drop, take_drop).
    assert (take (i + n) ops = take i ops ++ take n (drop i ops)) as E' by (by rewrite take_take_drop).
    exists (h :: hs). split_and!.
    + cbn [fmap list_fmap mjoin list_join]. rewrite Hr. done.
    + unfold hunk_changes in *. cbn. rewrite Hc. rewrite E at 2. by rewrite changes_app.
    + rewrite E', !count_old_side, !count_new_side, old_side_app, new_side_app, !length_app in Hp.
      cbn [patch]. rewrite bool_decide_true by (cbn; split_and!; lia). cbn [hk_old hk_oldn hk_new hk_newn hk_ops h].
      replace (S (count_old (take i ops)) - S (count_old (take i ops)))%nat with 0%nat by lia. rewrite drop_0.
      rewrite E at 2. rewrite old_side_app, apply_script by by apply Forall_take, Forall_drop. cbn [mbind option_bind].
      rewrite !Nat.add_0_r, !count_old_side, !count_new_side, Hp. cbn [mbind option_bind take app]. by rewrite <- new_side_app, <- E.
  - destruct (lookup_lt_is_Some_2 ops i) as [op Hop].
    { rewrite <- Hlen. apply (f_equal length) in Ei. rewrite length_drop in Ei. cbn in Ei. lia. }
    assert (inc !! i = Some false) as Hfalse by (rewrite <- (Nat.add_0_r i), <- lookup_drop, Ei; done).
    pose proof (lookup_lt_Some _ _ _ Hop). destruct (IH (S i)) as (hs & Hr & Hc & Hp); [lia|]. exists hs.
    pose proof (Hctx i op Hop Hfalse) as Hk. destruct op as [k c]. cbn in Hk. subst k.
    rewrite (take_S_r _ _ _ Hop), !count_old_side, !count_new_side, old_side_app, new_side_app, !length_app in Hp. cbn in Hp.
    rewrite (drop_S _ _ _ Hop). split_and!; [done|done|].
    change (mkEditOp K_ctx c :: drop (S i) ops) with ([mkEditOp K_ctx c] ++ drop (S i) ops).
    rewrite old_side_app, new_side_app, !count_old_side, !count_new_side. rewrite !Nat.add_1_r in Hp. by apply patch_shift.
Qed.
End Hunks.

(** ** Every patch is a script *)

Lemma apply_ops_script ops l out rest :
  apply_ops ops l = Some (out, rest) → is_script ops ∧ l = old_side ops ++ rest ∧ out = new_side ops.
Proof.
  revert l out. induction ops as [|[k c] ops IH]; intros l out; [intros [= <- <-]; split; [constructor|done]|].
  assert (∀ s : list editOp, mkEditOp k c :: s = [mkEditOp k c] ++ s) as Hcons by done.
  rewrite Hcons, old_side_app, new_side_app. unfold is_script in *. rewrite Forall_app, Forall_singleton.
  destruct k; cbn; [|destruct l as [|x l]; [done|]; case_bool_decide; [subst x|done]..|done].
  - destruct (apply_ops ops l) as [[out' rest']|] eqn:Ea; [|done]. cbn. intros [= <- ->].
    by destruct (IH _ _ Ea) as (? & -> & ->).
  - intros Ea. by destruct (IH _ _ Ea) as (? & -> & ->).
  - destruct (apply_ops ops l) as [[out' rest']|] eqn:Ea; [|done]. cbn. intros [= <- ->].
    by destruct (IH _ _ Ea) as (? & -> & ->).
Qed.

Definition context_of (l : list string) : list editOp := mkEditOp K_ctx <$> l.
Lemma context_script l :
  is_script (context_of l) ∧ old_side (context_of l) = l ∧ new_side (context_of l) = l ∧ changes (context_of l) = 0%nat.
Proof.
  unfold old_side, new_side, changes, is_script, context_of. induction l as [|c l (IH1 & IH2 & IH3 & IH4)]; [done|]. cbn [fmap list_fmap].
  rewrite !filter_cons. cbn [op_kind]. rewrite !decide_True, decide_False by (done || by intros H; apply H). cbn.
  split_and!; [by constructor|by f_equal..|done].
Qed.

Lemma patch_script i j hs l r :
  patch i j hs l = Some r →
  ∃ ops, is_script ops ∧ old_side ops = l ∧ new_side ops = r ∧ changes ops = hunk_changes hs.
Proof.
  revert i j l r. induction hs as [|h hs IH]; intros i j l r; cbn [patch].
  { intros [= <-]. exists (context_of l). apply context_script. }
  case_bool_decide as H; [|done]. set (k := (hk_old h - S i)%nat).
  destruct (apply_ops _ _) as [[out rest]|] eqn:Ea; [|done]. cbn.
  destruct (patch _ _ hs rest) as [r'|] eqn:Ep; [|done]. cbn. intros [= <-].
  destruct (apply_ops_script _ _ _ _ Ea) as (Hs & Hd & ->). destruct (IH _ _ _ _ Ep) as (ops & Hs' & Ho & Hn & Hc).
  destruct (context_script (take k l)) as (Hs0 & Ho0 & Hn0 & Hc0).
  exists (context_of (take k l) ++ hk_ops h ++ ops). rewrite !old_side_app, !new_side_app, !changes_app, Ho, Hn, Hc, Ho0, Hn0, Hc0.
  split_and!; [by repeat (apply Forall_app; split)|rewrite <- Hd; apply take_drop|done|done].
Qed.

(** C36: the hunks of a file's diff, applied as a patch to the lines of the old
    content, give the lines of the new content, and no patch that does it changes
    fewer lines. *)
Theorem computeFileDiff_patch oldContent newContent path :
  fd_Binary (computeFileDiff oldContent newContent path) = false →
  ∃ hs, fd_Lines (computeFileDiff oldContent newContent path) = mjoin (render_hunk <$> hs) ∧
    patch 0 0 hs (splitIntoLines oldContent) = Some (splitIntoLines newContent) ∧
    ∀ hs', patch 0 0 hs' (splitIntoLines oldContent) = Some (splitIntoLines newContent) →
      (hunk_changes hs ≤ hunk_changes hs')%nat.
Proof.
  unfold computeFileDiff. destruct (_ || _); [done|]. destruct (_ || _); [done|]. intros _. cbn [fd_Lines].
  destruct (lcsEditScript_shortest (splitIntoLines oldContent) (splitIntoLines newContent)) as (Hs & Ho & Hn & Hmin).
  set (ops := lcsEditScript _ _) in *.
  destruct (hunks_from_patch ops (included ops 3) Hs (included_length ops 3) (included_ctx ops 3) (S (length ops)) 0)
    as (hs & Hr & Hc & Hp); [lia|]. cbn in Hp. rewrite !drop_0 in *. exists hs. rewrite Ho, Hn in Hp. split_and!; [done|done|].
  intros hs' Hp'. destruct (patch_script _ _ _ _ _ Hp') as (ops' & Hs' & Ho' & Hn' & Hc').
  rewrite Hc, <- Hc'. by apply Hmin.
Qed.

Definition old_file : string := "a" +:+ String newline "b" +:+ String newline "c".
Definition new_file : string := "a" +:+ String newline "x" +:+ String newline "c" +:+ String newline "d".
Lemma computeFileDiff_patch_witness :
  ∃ hs, fd_Lines (computeFileDiff old_file new_file "f") = mjoin (render_hunk <$> hs) ∧
    patch 0 0 hs (splitIntoLines old_file) = Some (splitIntoLines new_file) ∧
    ∀ hs', patch 0 0 hs' (splitIntoLines old_file) = Some (splitIntoLines new_file) →
      (hunk_changes hs ≤ hunk_changes hs')%nat.
Proof. apply (computeFileDiff_patch old_file new_file "f"). vm_compute. reflexivity. Defined.
