(* ===== verification/UiSpec.v ===== *)
(** * The web interface: what protects it and what does not

    Without the token of its cookie a form changes nothing, and the pages only
    read ([forms_need_token]).  The exception is HEAD: it is routed like GET,
    needs no token, and is handled like the form; so the token of a CI job, which
    may only read other repositories, commits to them ([job_token_commits]).  And
    the forms look at no role: whoever is signed in can set any ([roles_for_everyone]). *)

From Stdlib Require Import Ascii.
From S2P Require Import Prelude GoStd Schema Tx Run Orgs Blob Commits Merge ReadStore Reviews Releases Guarantee.
From S2P Require Import Issues CIJobs EventTypes Events EventsSpec Samples Chain ChainSpec Policy PolicySpec.
From S2P Require Import Server ServerSpec Http Effects Handlers HandlersSpec Secrets SecretsSpec AgentContext.
From S2P Require Import LineDiff Ui UiForms Api ApiSpec.
From S2P Require Service.

Section UiSpec.
Context {Co : Collation} {Mr : MapRange} {Op : OPA} {Us : UuidSource} {En : Encryptor} {Tk : Tokens}.

(** ** Reading *)

Ltac on_get := change (bool_decide ("GET" = "GET")) with true; cbv iota.

(** Every page that GET is routed to leaves the world alone. *)
Lemma AssembleAgentContext_moves blobs repo branch actor : cmoves eq (AssembleAgentContext blobs repo branch actor).
Proof. unfold AssembleAgentContext. solve_moves. Qed.
#[local] Hint Resolve AssembleAgentContext_moves : trace.

Lemma pages_read h cx path k form : routes h cx "GET" path k → cmoves eq (k form).
Proof.
  destruct 1 as [| | | | | |? ? ? ? ? ? ? []|? ? ? ? ? ? ? []|? ? ? ? ? ? ? []|? ? ? ? ? []]; try done.
  all: unfold handleNewIssue, handleCreateOrg, handleCreateRepo, handleAcceptInvite, handleBranchGetDispatch, handleNewCommit.
  all: on_get; solve_moves.
Qed.

(** ** Tokens *)

(** The form has the token of the cookie, or of the cookie that is set now. *)
Definition carries_token (fresh : option string) (r : UiRequest) : Prop :=
  ∃ form token, ParseForm r = Some form ∧ token ≠ "" ∧ FormValue form csrfFieldName = token ∧
    (ur_cookie r = token ∨ ur_cookie r = "" ∧ fresh = Some token).

Lemma csrf_refuses fresh r next c w :
  safe_method (ur_Method r) = false → ¬ carries_token fresh r →
  ∃ set status msg, CSRFMiddleware fresh r next c w = (c, w, inr (set, HttpError status msg)) ∧ 400 ≤ status.
Proof.
  intros Hm Hn. unfold CSRFMiddleware. destruct (if empty (ur_cookie r) then fresh else _) as [token|] eqn:Et.
  2: { by eexists _, _, _. }
  rewrite Hm. destruct (ParseForm r) as [form|] eqn:Ef; [|by eexists _, _, _].
  destruct (empty _ || _) eqn:Eb; [by eexists _, _, _|]. exfalso. apply Hn.
  apply orb_false_elim in Eb as [E1%bool_decide_eq_false E2]. apply negb_false_iff, bool_decide_eq_true in E2.
  exists form, token. split_and!; [done|congruence|done|].
  unfold empty in Et. case_bool_decide; [right; done|left; congruence].
Qed.

Lemma routed_methods h cx method path k : routes h cx method path k → is_get method ∨ method = "POST".
Proof. destruct 1; auto. Qed.

(** C34: a form needs the token of its cookie.  Whatever the cookie, the query and
    the body of a request to the web interface: unless it is a HEAD request or
    its form carries the token, it leaves the whole world as it was; and as a
    form it is refused, without a look at the policies. *)
Theorem forms_need_token h cx path fresh r m c w c' w' reply :
  ui_serve h cx path fresh r m → m c w = (c', w', reply) →
  ur_Method r ≠ "HEAD" → ¬ carries_token fresh r →
  w' = w ∧
  (ur_Method r = "POST" → c' = c ∧ ∃ set status msg, reply = inr (set, HttpError status msg) ∧ 400 ≤ status).
Proof.
  intros [k _ Hk] E Hh Hn. pose proof (routed_methods _ _ _ _ _ Hk) as [[Hm|Hm]|Hm]; [|done|].
  - rewrite Hm in Hk. split; [|by rewrite Hm]. unfold CSRFMiddleware in E. revert E.
    destruct (if empty _ then _ else _) as [token|]; [|by intros [= _ <- _]].
    rewrite Hm. change (safe_method "GET") with true. cbv iota. unfold mbind, H_bind.
    pose proof (pages_read _ _ _ _ (ur_query r) Hk c w) as Hr.
    destruct (k (ur_query r) c w) as [[c1 w1] [v|v]]; cbn in Hr; subst w1; by intros [= _ <- _].
  - destruct (csrf_refuses fresh r k c w) as (set & status & msg & Er & Hs); [by rewrite Hm|done|].
    rewrite Er in E. injection E as <- <- <-. split; [done|]. intros _. split; [done|]. by eexists _, _, _.
Qed.

(** ** HEAD *)

Lemma TrimSuffix_slash s c : c ≠ "/"%char → TrimSuffix (s +:+ String c "") "/" = s +:+ String c "".
Proof.
  intros Hc. unfold TrimSuffix. destruct (CutSuffix _ _) as [t|] eqn:E; [exfalso|done].
  apply CutSuffix_spec in E. assert (String.length s = String.length t) as El.
  { apply (f_equal String.length) in E. rewrite !string_length_app in E. cbn in E. lia. }
  apply (f_equal (string_drop (String.length s))) in E. rewrite string_drop_app, El, string_drop_app in E. congruence.
Qed.
Lemma commit_route b : branch_get_route (b +:+ "/commit") = B_commit b.
Proof.
  unfold branch_get_route. assert (TrimSuffix (b +:+ "/commit") "/" = b +:+ "/commit") as ->.
  { change "/commit" with ("/commi" +:+ "t"). rewrite <- string_app_assoc. by apply TrimSuffix_slash. }
  assert (CutSuffix (b +:+ "/commit") "/commit" = Some b) as -> by by apply CutSuffix_spec. done.
Qed.

(** Paths of the interface are nothing to the rest of the server. *)
Lemma served_as_page sv who rq w path :
  rq_Path rq = "/r/" +:+ path →
  (if sv_oidc sv then bearer (rq_Authorization rq) else None) = None → GoogleAuth sv rq = Handle who →
  serve sv rq w = (w, Ok (Handle (mkCtx who None None, Mux (rq_Method rq) (rq_Path rq)))).
Proof.
  intros Hp Hb Hw. unfold serve. cbv zeta. rewrite Hb, Hw. unfold RBACMiddleware, inner. rewrite Hp. done.
Qed.
Lemma served_to_job sv tok job rq w path :
  rq_Path rq = "/r/" +:+ path → rq_Method rq = "GET" ∨ rq_Method rq = "HEAD" →
  sv_oidc sv = true → bearer (rq_Authorization rq) = Some tok → validateJobOIDCToken tok = Ok job →
  serve sv rq w
  = (w, Ok (Handle (mkCtx ("ci-job:" +:+ ji_JobID job) None (Some job), Mux (rq_Method rq) (rq_Path rq)))).
Proof.
  intros Hp Hm Ho Hb Hv. unfold serve. cbv zeta. rewrite Ho, Hb, Hv. unfold job_request, inner. rewrite Hp.
  by destruct Hm as [-> | ->].
Qed.

(** The commit form, handled as a form. *)
Lemma handleNewCommit_run h cx method o n b form c w c' w' rp resp :
  method ≠ "GET" → GetRepo (full o n) w = (w, Ok rp) →
  TrimSpace (FormValue form "message") ≠ "" → TrimSpace (FormValue form "file_path") ≠ "" →
  Service.Commit (sr_svc (h_server h)) (cx_identity cx)
    (mkCommitRequest (full o n) b
       [mkFileChange (TrimSpace (FormValue form "file_path")) (Some (FormValue form "file_content")) ""]
       (TrimSpace (FormValue form "message")) "") c w = (c', w', Ok resp) →
  handleNewCommit h cx method o n b form c w = (c', w', inr (see_other (branch_url (full o n) b))).
Proof.
  intros Hm Hr Hmsg Hpath Hc. unfold handleNewCommit, get_repo, call, callP, lift, attempt, mbind, H_bind, mret, H_ret.
  rewrite Hr. rewrite (bool_decide_false (method = "GET")) by done. unfold empty.
  rewrite !bool_decide_false by done. by rewrite Hc.
Qed.

(** A HEAD request is a form without a token, and the token of a CI job is
    enough for it.  A job of any repository, with any permissions, that sends HEAD
    to the commit form of a branch of any other repository commits there, also to
    main: its token is checked against its own repository and permissions for
    other methods only, HEAD is routed to the handler of GET, needs no CSRF token,
    and is not taken for GET by the handler. *)
Theorem job_token_commits s sv rq tok job o n b q c w c' w' rp resp :
  sv_oidc sv = true → bearer (rq_Authorization rq) = Some tok → validateJobOIDCToken tok = Ok job →
  rq_Method rq = "HEAD" → segment o → segment n →
  rq_Path rq = "/r/" +:+ o +:+ "/" +:+ n +:+ "/b/" +:+ b +:+ "/commit" →
  GetRepo (full o n) w = (w, Ok rp) →
  TrimSpace (FormValue q "message") ≠ "" → TrimSpace (FormValue q "file_path") ≠ "" →
  Service.Commit (sr_svc s) ("ci-job:" +:+ ji_JobID job)
    (mkCommitRequest (full o n) b
       [mkFileChange (TrimSpace (FormValue q "file_path")) (Some (FormValue q "file_content")) ""]
       (TrimSpace (FormValue q "message")) "") c w = (c', w', Ok resp) →
  api_step s sv rq (c, w) (c', w').
Proof.
  intros Ho Hb Hv Hm Hso Hsn Hp Hr Hmsg Hfile Hc.
  set (r := mkUiRequest "HEAD" "" q None). set (cx := mkCtx ("ci-job:" +:+ ji_JobID job) None (Some job)).
  set (k := handleBranchGetDispatch (mkHandler s false) cx "HEAD" o n (b +:+ "/commit")).
  eapply (api_page s sv rq c w w cx false (rq_Path rq) (Some "token") r (CSRFMiddleware (Some "token") r k)).
  - rewrite (served_to_job sv tok job rq w _ Hp) by auto. by rewrite Hm.
  - constructor.
    + unfold claimed. rewrite bool_decide_false; [done|]. by rewrite Hp.
    + rewrite Hp. change (ur_Method r) with "HEAD".
      assert ("/r/" +:+ o +:+ "/" +:+ n +:+ "/b/" +:+ b +:+ "/commit"
              = ("/r/" +:+ o +:+ "/" +:+ n) +:+ ("/b/" +:+ (b +:+ "/commit"))) as -> by by rewrite !string_app_assoc.
      apply u_Get; [by right|done|done|]. apply r_Branch.
  - unfold CSRFMiddleware. cbn [ur_cookie r]. change (safe_method (ur_Method r)) with true. cbv iota.
    unfold k, handleBranchGetDispatch. rewrite commit_route. unfold mbind, H_bind.
    change (empty "") with true. cbv iota beta.
    erewrite handleNewCommit_run; [reflexivity|done|exact Hr|exact Hmsg|exact Hfile|exact Hc].
Qed.

(** ** Roles *)

Lemma filter_update {A} (P : A → Prop) `{!∀ x, Decision (P x)} f l :
  (∀ x, P x → P (f x)) → filter P (update_where P f l) = f <$> filter P l.
Proof.
  intros Hf. unfold update_where. induction l as [|x l IH]; [done|]. rewrite fmap_cons.
  destruct (decide (P x)) as [Hx|Hx].
  - rewrite !filter_cons_True by auto. by rewrite fmap_cons, IH.
  - by rewrite !filter_cons_False.
Qed.

(** The role that is set is the role that is found, whatever is done to the other
    tables. *)
Lemma SetRole_run repo identity role w :
  has_repo (w_db w) repo →
  ∃ w', SetRole repo identity role w = (w', Ok tt) ∧
    ∀ w'', db_roles (w_db w'') = db_roles (w_db w') → GetRole repo identity w'' = (w'', Ok (mkRole identity role)).
Proof.
  intros Hrepo. unfold SetRole, upsert_row.
  destruct (filter (λ r, ro_repo r = repo ∧ ro_identity r = identity) (t_rows roles (w_db w))) as [|x l] eqn:Ef;
    cbn [t_rows roles] in Ef.
  - assert (existsb (t_clash roles (mkRoleRow repo identity role)) (t_rows roles (w_db w)) = false) as Hc.
    { apply not_true_is_false. intros (r & Hr%list_elem_of_In & Hc)%existsb_exists. revert Hc. cbn. rewrite bool_decide_eq_true. intros [= -> ->].
      eapply elem_of_nil. rewrite <- Ef. by apply list_elem_of_filter. }
    eexists. split.
    + unfold mbind, M_bind, insert_row. rewrite Hc. cbn -[has_repo bool_decide]. rewrite Ef, (bool_decide_true (has_repo _ _)) by exact Hrepo. reflexivity.
    + intros w'' Hw. unfold GetRole, catch, query_row, select, gets, mbind, M_bind. cbn in Hw |- *.
      rewrite Hw, filter_app, Ef, filter_cons_True by done. done.
  - eexists. split; [unfold mbind, M_bind; cbn; rewrite Ef; reflexivity|].
    intros w'' Hw. unfold GetRole, catch, query_row, select, gets, mbind, M_bind. cbn in Hw |- *.
    rewrite Hw, filter_update, Ef by done. cbn.
    assert (x ∈ filter (λ r, ro_repo r = repo ∧ ro_identity r = identity) (db_roles (w_db w))) as Hx by (rewrite Ef; left).
    apply list_elem_of_filter in Hx as [[_ ->] _]. done.
Qed.

Lemma ui_emit_run h e c w :
  ∃ w', UiForms.emit h e c w = (c, w', inr tt) ∧ without_events (w_db w') = without_events (w_db w).
Proof.
  unfold UiForms.emit, callP, Service.emit. destruct (Service.svc_emitter _) as [b|]; [|by exists w].
  unfold lift. pose proof (Emit_content b e w) as Hc. destruct (Emit_returns b e w) as [w1 E].
  rewrite E in Hc |- *. exists w1. by split.
Qed.

Lemma csrf_passes fresh r form token next c w c' w' v :
  ParseForm r = Some form → token ≠ "" → ur_cookie r = token → FormValue form csrfFieldName = token →
  safe_method (ur_Method r) = false → next form c w = (c', w', inr v) →
  CSRFMiddleware fresh r next c w = (c', w', inr (None, v)).
Proof.
  intros Hf Ht Hc Hv Hm E. unfold CSRFMiddleware, empty. rewrite Hc, (bool_decide_false (token = "")) by done.
  cbv iota. rewrite Hm, Hf, Hv, (bool_decide_false (token = "")), (bool_decide_true (token = token)) by done.
  cbn. unfold mbind, H_bind. by rewrite E.
Qed.

(** The forms look at no role.  Whoever is signed in, with whatever role in
    the repository or none, can give anybody any role in it, himself
    administrator, by the form of its settings. *)
Theorem roles_for_everyone s sv rq who o n form token role c w :
  (if sv_oidc sv then bearer (rq_Authorization rq) else None) = None → GoogleAuth sv rq = Handle who →
  rq_Method rq = "POST" → segment o → segment n → rq_Path rq = "/r/" +:+ o +:+ "/" +:+ n +:+ "/roles" →
  token ≠ "" → FormValue form csrfFieldName = token →
  TrimSpace (FormValue form "identity") ≠ "" → parse_role (FormValue form "role") = Some role →
  has_repo (w_db w) (full o n) →
  ∃ w', api_step s sv rq (c, w) (c, w') ∧
    GetRole (full o n) (TrimSpace (FormValue form "identity")) w'
      = (w', Ok (mkRole (TrimSpace (FormValue form "identity")) role)).
Proof.
  intros Hb Hw Hm Hso Hsn Hp Ht Hf Hi Hr Hrepo. set (identity := TrimSpace (FormValue form "identity")) in *.
  destruct (SetRole_run (full o n) identity role w Hrepo) as (w1 & Hset & Hget).
  set (cx := mkCtx who None None). set (h := mkHandler s false).
  destruct (ui_emit_run h (RoleChanged (full o n) identity (FormValue form "role") (cx_identity cx)) c w1) as (w2 & He & Hw2).
  exists w2. split.
  - set (r := mkUiRequest "POST" token [] (Some form)).
    eapply (api_page s sv rq c w w cx false (rq_Path rq) None r
              (CSRFMiddleware None r (handleSetRole h cx o n)) c w2).
    + rewrite (served_as_page sv who rq w _ Hp Hb Hw). by rewrite Hm.
    + constructor; [by unfold claimed; rewrite Hp|]. rewrite Hp.
      assert ("/r/" +:+ o +:+ "/" +:+ n +:+ "/roles" = ("/r/" +:+ o +:+ "/" +:+ n) +:+ "/roles") as ->
        by by rewrite !string_app_assoc.
      apply u_Post; [done|done|done|]. apply p_SetRole.
    + apply csrf_passes with form token; [|done..|].
      { unfold ParseForm. rewrite bool_decide_true by (cbn; set_solver). cbn. by rewrite app_nil_r. }
      unfold handleSetRole. fold identity. unfold empty. rewrite (bool_decide_false (identity = "")), Hr by done.
      unfold attempt, lift, mbind, H_bind. rewrite Hset. cbv beta iota. by rewrite He.
  - apply Hget. change (db_roles (without_events (w_db w2)) = db_roles (without_events (w_db w1))). by rewrite Hw2.
Qed.
End UiSpec.

(** ** Links to branches *)

Definition hex_value (c : ascii) : option Z :=
  let b := byte_of_ascii c in
  if (48 <=? b) && (b <=? 57) then Some (b - 48) else
  if (65 <=? b) && (b <=? 70) then Some (b - 55) else
  if (97 <=? b) && (b <=? 102) then Some (b - 87) else None.
(** [url.PathUnescape]: what the mux does to a wildcard. *)
Fixpoint PathUnescape (s : string) : option string :=
  match s with
  | EmptyString => Some EmptyString
  | String c s =>
      if bool_decide (c = "%"%char) then
        match s with
        | String x (String y s) =>
            hx ← hex_value x; hy ← hex_value y; String (ascii_of_byte (16 * hx + hy)) <$> PathUnescape s
        | _ => None
        end
      else String c <$> PathUnescape s
  end.

Definition unescaped (c : ascii) : option ascii :=
  hx ← hex_value (upper_hex (byte_of_ascii c / 16)); hy ← hex_value (upper_hex (byte_of_ascii c mod 16));
  Some (ascii_of_byte (16 * hx + hy)).
Lemma escaped_char c : if path_char c then c ≠ "%"%char else unescaped c = Some c.
Proof.
  assert ((if path_char c then bool_decide (c ≠ "%"%char) else bool_decide (unescaped c = Some c)) = true) as H
    by (destruct c as [[] [] [] [] [] [] [] []]; vm_compute; reflexivity).
  by destruct (path_char c); apply bool_decide_eq_true in H.
Qed.
Lemma unescape_app a t : PathUnescape (PathEscape a +:+ t) = String.append a <$> PathUnescape t.
Proof.
  induction a as [|c a IH]; [change (PathUnescape t = String.append "" <$> PathUnescape t); by destruct (PathUnescape t)|]. cbn [PathEscape]. pose proof (escaped_char c) as Hc. unfold unescaped in Hc.
  destruct (path_char c).
  - rewrite string_app_cons. cbn [PathUnescape]. rewrite bool_decide_false, IH by done. by destruct (PathUnescape t).
  - rewrite !string_app_cons. cbn [PathUnescape]. rewrite (bool_decide_true ("%"%char = "%"%char)) by done.
    destruct (hex_value (upper_hex (byte_of_ascii c / 16))) as [hx|]; [cbn [mbind option_bind] in *|done].
    destruct (hex_value (upper_hex (byte_of_ascii c mod 16))) as [hy|]; [cbn [mbind option_bind] in *|done].
    injection Hc as Hc. rewrite IH, Hc. by destruct (PathUnescape t).
Qed.
Lemma branchURLPath_unescape b : PathUnescape (branchURLPath b) = Some b.
Proof.
  unfold branchURLPath. rewrite <- (Join_Split "/"%char b) at 2.
  induction (Split "/" b) as [|p l IH]; [done|]. destruct l as [|q l].
  - cbn. rewrite <- (string_app_empty_r (PathEscape p)), unescape_app. cbn. by rewrite string_app_empty_r.
  - change (Join "/" (PathEscape <$> p :: q :: l)) with (PathEscape p +:+ "/" +:+ Join "/" (PathEscape <$> q :: l)).
    change (Join "/" (p :: q :: l)) with (p +:+ "/" +:+ Join "/" (q :: l)).
    rewrite unescape_app. rewrite string_app_cons. cbn [PathUnescape]. rewrite bool_decide_false by done.
    change ("" +:+ Join "/" (PathEscape <$> q :: l)) with (Join "/" (PathEscape <$> q :: l)). by rewrite IH.
Qed.

(** A name below which no other page is looked for. *)
Definition plain_branch (b : string) : Prop :=
  HasSuffix b "/" = false ∧ HasSuffix b "/commit" = false ∧ HasSuffix b "/log" = false ∧
  ∀ a seq n, CutLast b "/c/" = Some (a, seq) → ParseInt seq = Some n → n ≤ 0.

Lemma no_suffix s p : HasSuffix s p = false → CutSuffix s p = None.
Proof. unfold HasSuffix. rewrite bool_decide_eq_false. destruct (CutSuffix s p); [|done]. intros H. exfalso. by apply H. Qed.

(** The link to a branch leads back to it.  The part of the path that
    [branchURLPath] makes of a branch is unescaped to its name, which is routed to
    the page of that branch when no other page has its form; and a branch whose
    name ends in "/log" or "/commit" has no page, whatever the path. *)
Theorem branch_links b :
  PathUnescape (branchURLPath b) = Some b ∧
  (plain_branch b → branch_get_route b = B_detail b) ∧
  (HasSuffix b "/log" = true ∨ HasSuffix b "/commit" = true → ∀ rest, branch_get_route rest ≠ B_detail b).
Proof.
  split_and!; [apply branchURLPath_unescape| |].
  - intros (Hs & Hc & Hl & Hn). unfold branch_get_route, TrimSuffix.
    rewrite (no_suffix _ _ Hs). cbn [default]. rewrite (no_suffix _ _ Hc), (no_suffix _ _ Hl).
    destruct (CutLast b "/c/") as [[a seq]|] eqn:E; [|done]. destruct (ParseInt seq) as [n|] eqn:En; [|done].
    specialize (Hn _ _ _ eq_refl En). by replace (0 <? n) with false by lia.
  - intros Hb rest. unfold branch_get_route. set (raw := TrimSuffix rest "/").
    destruct (CutSuffix raw "/commit") as [x|] eqn:Hc; [done|]. destruct (CutSuffix raw "/log") as [x|] eqn:Hl; [done|].
    assert (raw ≠ b) as Hne.
    { intros <-. unfold HasSuffix in Hb. rewrite Hc, Hl in Hb. destruct Hb; discriminate. }
    repeat case_match; congruence.
Qed.

(** ** Samples *)

Lemma segment_o : segment "o".
Proof. by split. Qed.
Lemma segment_r : segment "r".
Proof. by split. Qed.

(** A form of "eve", who has no role, for "o/r". *)
Definition eve_form : Form := [("csrf_token", "t"); ("identity", "eve"); ("role", "admin")].
Definition eve_server : ServerConfig := mkServerConfig "eve" "root" true true true.
Definition roles_request : Request := request "POST" "/r/o/r/roles" "".

Lemma roles_for_everyone_witness :
  (GetRole "o/r" "eve" changed_world).2 = Fail ErrRoleNotFound ∧
  ∃ w', api_step api_server eve_server roles_request (∅, changed_world) (∅, w') ∧
    GetRole "o/r" "eve" w' = (w', Ok (mkRole "eve" Admin)).
Proof.
  split; [vm_compute; reflexivity|].
  assert (full "o" "r" = "o/r") as Er by reflexivity.
  assert (TrimSpace (FormValue eve_form "identity") = "eve") as Ei by (vm_compute; reflexivity).
  assert (has_repo (w_db changed_world) (full "o" "r")) as Hr.
  { assert (repo_name <$> db_repos (w_db changed_world) = ["o/r"]) as E by (vm_compute; reflexivity).
    unfold has_repo. rewrite E, Er. left. }
  pose proof (roles_for_everyone api_server eve_server roles_request "eve" "o" "r" eve_form "t" Admin ∅ changed_world
    eq_refl eq_refl eq_refl segment_o segment_r eq_refl ltac:(discriminate) eq_refl) as H.
  rewrite Ei, Er in H. rewrite Er in Hr. exact (H ltac:(discriminate) eq_refl Hr).
Defined.

Lemma forms_need_token_witness :
  let h := mkHandler api_server true in
  let r := mkUiRequest "POST" "t" [] (Some [("identity", "eve"); ("role", "admin")]) in
  let out := CSRFMiddleware None r (handleSetRole h (mkCtx "eve" None None) "o" "r") ∅ changed_world in
  out.1.2 = changed_world ∧ out.2 = inr (None, HttpError 403 "invalid CSRF token").
Proof.
  cbv zeta. set (r := mkUiRequest "POST" "t" [] _). split; [|vm_compute; reflexivity].
  destruct (CSRFMiddleware None r _ ∅ changed_world) as [[c' w'] reply] eqn:E. cbn [fst snd].
  refine (proj1 (forms_need_token (mkHandler api_server true) (mkCtx "eve" None None) "/r/o/r/roles" None r _ ∅ changed_world c' w' reply
    _ E _ _)); clear E.
  - exact (ui_served (mkHandler api_server true) (mkCtx "eve" None None) "/r/o/r/roles" None r _ eq_refl (u_Post _ _ "POST" "o" "r" "/roles" _ eq_refl segment_o segment_r
      (p_SetRole _ _ "o" "r"))).
  - done.
  - intros (form & token & Hp & Ht & Hf & _). injection Hp as <-. by apply Ht.
Defined.

(** A job of "x/y" with no permissions. *)
Definition visitor : JobIdentity := mkJobIdentity "9" "x/y" "dev" "ci" [].
Definition visitor_tokens : Tokens :=
  {| validateGoogleIDToken tok := Fail (New "invalid JWT format");
     validateJobOIDCToken tok := if bool_decide (tok = "job") then Ok visitor else Fail (New "invalid JWT format") |}.
Definition visit : Form := [("message", "hello"); ("file_path", "README"); ("file_content", "gone")].
Abbreviation visited := (Service.Commit (sr_svc api_server) "ci-job:9"
  (mkCommitRequest "o/r" "main" [mkFileChange "README" (Some "gone") ""] "hello" "") ∅ changed_world).

Lemma job_token_commits_witness :
  (ji_Repo visitor, ji_Permissions visitor) = ("x/y", []) ∧
  match visited with
  | (c', w', Ok _) =>
      api_step (Tk := visitor_tokens) api_server dev_server (request "HEAD" "/r/o/r/b/main/commit" "Bearer job")
        (∅, changed_world) (c', w')
  | _ => False
  end.
Proof.
  split; [reflexivity|].
  assert (match visited with (_, _, Ok _) => True | _ => False end) as Hok by (vm_compute; exact I).
  destruct visited as [[c' w'] [resp|e]] eqn:E; [|done].
  destruct (GetRepo "o/r" changed_world) as [w0 [rp|e0]] eqn:Er.
  2: { exfalso. vm_compute in Er. discriminate Er. }
  assert (w0 = changed_world) as -> by (eapply (reads_run (GetRepo "o/r")); [unfold GetRepo; solve_reads|exact Er]).
  change "o/r" with (full "o" "r") in Er. change "o/r" with (full "o" "r") in E.
  change "hello" with (TrimSpace (FormValue visit "message")) in E.
  change "README" with (TrimSpace (FormValue visit "file_path")) in E.
  change "gone" with (FormValue visit "file_content") in E.
  change "ci-job:9" with ("ci-job:" +:+ ji_JobID visitor) in E.
  exact (job_token_commits (Tk := visitor_tokens) api_server dev_server (request "HEAD" "/r/o/r/b/main/commit" "Bearer job")
    "job" visitor "o" "r" "main" visit ∅ changed_world c' w' rp resp
    eq_refl eq_refl eq_refl eq_refl segment_o segment_r eq_refl Er ltac:(vm_compute; discriminate) ltac:(vm_compute; discriminate) E).
Defined.

Lemma branch_links_witness :
  branch_get_route "feature/auth" = B_detail "feature/auth" ∧ ∀ rest, branch_get_route rest ≠ B_detail "x/log".
Proof.
  split; [apply (branch_links "feature/auth")|apply (branch_links "x/log"); by left].
  split_and!; [reflexivity..|]. by intros a seq n E.
Defined.
