(* ===== verification/Client.v ===== *)
(** * The working copy of the command line (internal/cli/app.go)

    A workspace is a directory: the files under it, the configuration and the
    state of the last synchronisation.  Files are a map from their paths,
    relative to the directory and cleaned, to their contents; what the system
    refuses, directories in the way included, is a parameter ([FileSystem]).
    The two files under [.ds] are values, not texts: a configuration that does not
    parse is left out, as is a file of the server whose path leads to them. *)

From Stdlib Require Import Ascii.
From S2P Require Import Prelude GoStd Schema Hash Merge Tx Orgs Commits ReadStore Chain Http Handlers Handlers2.
From S2P Require Import Secrets Policy Handlers3.

(** [type Config struct], [type State struct] *)
Record Config := mkConfig {
  cf_Remote : string; cf_Repo : string; cf_Branch : string; cf_Author : string;
}.
Record State := mkState {
  st_Branch : string; st_Sequence : Z; st_Files : gmap string string; st_CommitHash : string;
}.

Definition with_branch (branch : string) (cfg : Config) : Config :=
  mkConfig (cf_Remote cfg) (cf_Repo cfg) branch (cf_Author cfg).
Definition with_hash (h : string) (st : State) : State :=
  mkState (st_Branch st) (st_Sequence st) (st_Files st) h.

(** ** Files *)

Inductive fs_op := OpRead | OpMkdir | OpWrite | OpRemove | OpStat | OpWalk.
Class FileSystem := fs_error : fs_op → string → gmap string string → option error.

(** [filepath.Join(a.Dir, filepath.FromSlash(path))], relative to the directory. *)
Definition local_path (path : string) : string := path_Clean ("./" +:+ path).

(** What [filepath.Walk] reports: not what is outside the directory. *)
Definition outside (path : string) : bool := bool_decide (path = "..") || HasPrefix path "../" || rooted path.

Definition configDir : string := ".ds".
Definition configPath : string := ".ds/config.json".
Definition statePath : string := ".ds/state.json".

(** [HashBytes], [hashFile] *)
Definition HashBytes (data : string) : string := sha256_hex data.

(** A path that [scanLocalFiles] reports. *)
Definition scanned (path : string) : bool := negb (outside path) && negb (HasPrefix path configDir).
Definition scan (files : gmap string string) : gmap string string :=
  HashBytes <$> filter (λ kv, scanned kv.1 = true) files.
Definition scanLocalFiles `{FileSystem} (files : gmap string string) : result (gmap string string) :=
  match fs_error OpWalk "." files with Some e => Fail e | None => Ok (scan files) end.

(** [os.ReadFile], [os.Stat] *)
Definition os_ErrNotExist : error := New "file does not exist".
Definition read_file `{FileSystem} (path : string) (files : gmap string string) : result string :=
  match fs_error OpRead path files with
  | Some e => Fail e
  | None => match files !! path with Some data => Ok data | None => Fail os_ErrNotExist end
  end.
Definition stat_missing `{FileSystem} (path : string) (files : gmap string string) : bool :=
  match fs_error OpStat path files with
  | Some e => errors_Is e os_ErrNotExist
  | None => bool_decide (files !! path = None)
  end.

(** ** What the working copy changed *)

(** The first loop of [Commit]; the loops of [Status] and [isDirty]. *)
Definition changed_files (st : State) (local : gmap string string) : gmap string string :=
  filter (λ kv, st_Files st !! kv.1 ≠ Some kv.2) local.
Definition deleted_files (st : State) (local : gmap string string) : gmap string string :=
  filter (λ kv, local !! kv.1 = None) (st_Files st).
Definition dirty (st : State) (local : gmap string string) : bool :=
  negb (bool_decide (changed_files st local = ∅)) || negb (bool_decide (deleted_files st local = ∅)).

(** Paths in the order of [slices.Sort]. *)
Definition sort_paths (l : list string) : list string := @order_by C_collation _ id l.

(** The three lists of [Status]. *)
Definition new_paths (st : State) (local : gmap string string) : list string :=
  sort_paths (filter (λ p, st_Files st !! p = None) (map_to_list (changed_files st local)).*1).
Definition modified_paths (st : State) (local : gmap string string) : list string :=
  sort_paths (filter (λ p, st_Files st !! p ≠ None) (map_to_list (changed_files st local)).*1).
Definition deleted_paths (st : State) (local : gmap string string) : list string :=
  sort_paths (map_to_list (deleted_files st local)).*1.

(** ** Types of contents *)

(** [utf8.Valid] (unicode/utf8) *)
Definition in_range (lo hi c : Z) : bool := (lo <=? c) && (c <=? hi).
Definition tail_byte : Z → bool := in_range 128 191.
Fixpoint utf8_Valid (l : list Z) : bool :=
  match l with
  | [] => true
  | b :: l =>
      if b <? 128 then utf8_Valid l else
      if in_range 194 223 b then
        match l with c :: l => tail_byte c && utf8_Valid l | [] => false end
      else if in_range 224 239 b then
        match l with
        | c :: d :: l =>
            in_range (if b =? 224 then 160 else 128) (if b =? 237 then 159 else 191) c && tail_byte d && utf8_Valid l
        | _ => false
        end
      else if in_range 240 244 b then
        match l with
        | c :: d :: e :: l =>
            in_range (if b =? 240 then 144 else 128) (if b =? 244 then 143 else 191) c
            && tail_byte d && tail_byte e && utf8_Valid l
        | _ => false
        end
      else false
  end.
Example utf8_cases :
  utf8_Valid <$> [[104; 105]; [195; 169]; [226; 130; 172]; [240; 159; 152; 128]; [192; 128]; [237; 160; 128]; [244; 144; 128; 128]; [195]]
  = [true; true; true; true; false; false; false; false].
Proof. vm_compute. reflexivity. Qed.

(** [filepath.Ext], on slashes [path.Ext] *)
Definition filepath_Ext (path : string) : string := path_Ext path.

(** [mime.TypeByExtension] reads the tables of the system. *)
Class Mime := mime_TypeByExtension : string → string.
Definition detectContentType `{Mime} (path content : string) : string :=
  if utf8_Valid (bytes_of_string content) then "" else
  let ct := mime_TypeByExtension (filepath_Ext path) in
  if bool_decide (ct = "") then "application/octet-stream" else ct.

(** * The command line (internal/cli/app.go, review.go)

    A command acts on the workspace and sends requests to a server,
    which is an interface here: [Remote] answers a request with a status and a
    body, or does not answer.  ClientServer.v puts the API server behind it.
    [C] is the monad of the commands.

    Bodies are values ([upload], [payload]) in place of their JSON texts; a
    [decode_*] is what [json.Unmarshal] makes of a body: an error object where
    a list is expected is an error, where an object is expected it is that object
    with its fields empty.  Addresses are taken to need no escape.  What is printed is a [line]. *)

(** ** Requests and replies *)

(** Bodies of requests, and of replies by the handler that makes them; an error
    is [{"error": message}], [P_None] no JSON. *)
Inductive upload :=
| U_None
| U_Commit (req : CommitRequest) | U_Branch (req : CreateBranchRequest) | U_Draft (draft : bool)
| U_Merge (req : MergeBody) | U_Rebase (branch : string) | U_Secret (req : setSecretRequest).
Inductive payload :=
| P_None
| P_Error (message : string)
| P_Tree (l : list TreeEntry) | P_File (f : file_reply) | P_Archive (files : list (string * string))
| P_Branches (l : list BranchInfo) | P_Diff (d : DiffResult) | P_Chain (l : list ChainEntry)
| P_CommitDetail (d : CommitDetail)
| P_Commit (r : CommitResponse) | P_Branch (r : CreateBranchResponse) | P_Draft (draft : bool)
| P_Merge (r : merge_reply MergeResponse) | P_Rebase (r : merge_reply RebaseResponse)
| P_Secrets (l : list Metadata) | P_Secret (m : Metadata).

(** A request; the query as the values of its keys. *)
Record http_request := mkHttp {
  hq_Method : string; hq_Path : string; hq_Query : list (string * string); hq_Body : upload;
  hq_Identity : string;
}.
Definition query (q : list (string * string)) (key : string) : string :=
  default "" (list_to_map (M := gmap string string) q !! key).

(** [a.HTTP.Do]: an answer, or an error of the network. *)
Class Remote (S : Type) := http_Do : http_request → S → S * result (Z * payload).

(** What is printed. *)
Inductive line :=
(* Init, Status, Commit *)
| Initialized (files : nat) (seq : Z) (remote author : string)
| OnBranch (branch : string) | NoChanges
| NewFile (path : string) | ModifiedFile (path : string) | DeletedFile (path : string)
| Committed (seq : Z) (files : nat) | WarnNoHash
(* branches *)
| SwitchedTo (draft : bool) (branch : string) (base : Z) | MarkedReady (branch : string)
| AutoMergeIs (enabled : bool) (branch : string)
| BranchLine (b : BranchInfo)
(* Pull, Verify *)
| Synced (branch : string) (downloaded removed : nat) | SyncedArchive (branch : string) (files : nat)
| NoCommits
| SeqSkip (seq : Z) (message : string)
| SeqOk (seq : Z) (hash message : string)
| SeqFail (seq : Z) (computed stored message : string)
| NoteTip (seq : Z) | NoteSkipping (seq : Z) | WarnChain
(* Merge, Rebase, Resolve, Diff *)
| MergeConflictLine (c : MergeConflict) | MergedAt (branch : string) (seq : Z)
| RebasedOnto (branch : string) (base head commits : Z) | ConflictFiles (path : string)
| ResolvedAt (path : string) (seq : Z)
| NoDiff (branch : string) | DiffLine (side : string) (e : DiffEntry)
(* Log, Show *)
| NoCommitsOn (branch : string) | CommitLine (d : CommitDetail) | CommitFull (d : CommitDetail)
| NoHistory (path branch : string) | HistoryLine (e : FileHistoryEntry) | Content (text : string)
(* Secrets *)
| SecretLine (m : Metadata) | SecretSet (name : string) (bytes : nat) | SecretUnset (name : string).

(** [type App struct]: the workspace and the output. *)
Record App := mkApp {
  app_Config : option Config; app_State : option State; app_Files : gmap string string;
  app_Out : list line;
}.

(** [model.FileChange] writes its content with omitempty: empty is absent. *)
Definition wire_change (f : FileChange) : FileChange :=
  mkFileChange (ch_Path f)
    (match ch_Content f with Some EmptyString | None => None | Some c => Some c end) (ch_ContentType f).
Definition wire_commit (req : CommitRequest) : CommitRequest :=
  mkCommitRequest (cq_Repo req) (cq_Branch req) (wire_change <$> cq_Files req) (cq_Message req) (cq_Author req).

(** ** The monad of the commands *)

Section Client.
Context {S : Type} {Rm : Remote S} {Fs : FileSystem} {Mr : MapRange} {Mi : Mime}.

Definition C (A : Type) : Type := App → S → App * S * result A.
#[global] Instance C_ret : MRet C := λ A x a s, (a, s, Ok x).
#[global] Instance C_bind : MBind C := λ A B f m a s,
  match m a s with
  | (a', s', Ok x) => f x a' s'
  | (a', s', Fail e) => (a', s', Fail e)
  end.
Definition cfail {A} (e : error) : C A := λ a s, (a, s, Fail e).
Definition of_result {A} (r : result A) : C A := λ a s, (a, s, r).
Definition cwrap {A} (text : string) (m : C A) : C A := λ a s,
  match m a s with (a', s', r) => (a', s', rwrap text r) end.
(** The error of a call, looked at. *)
Definition ctry {A} (m : C A) : C (result A) := λ a s, match m a s with (a', s', r) => (a', s', Ok r) end.
Definition look {A} (f : App → A) : C A := λ a s, (a, s, Ok (f a)).
Definition update (f : App → App) : C unit := λ a s, (f a, s, Ok tt).
Definition print (l : list line) : C unit :=
  update (λ a, mkApp (app_Config a) (app_State a) (app_Files a) (app_Out a ++ l)).

(** ** The workspace *)

Definition not_a_workspace : error := New "not a docstore workspace (run 'ds init' first)".
Definition loadConfig : C Config := λ a s,
  match fs_error OpRead configPath (app_Files a), app_Config a with
  | None, Some cfg => (a, s, Ok cfg)
  | _, _ => (a, s, Fail not_a_workspace)
  end.
Definition loadState : C State := λ a s,
  match fs_error OpRead statePath (app_Files a), app_State a with
  | None, Some st => (a, s, Ok st)
  | _, _ => (a, s, Ok (mkState "" 0 ∅ ""))
  end.
(** A call of the system that may be refused. *)
Definition allowed (op : fs_op) (path : string) : C unit := λ a s,
  match fs_error op path (app_Files a) with Some e => (a, s, Fail e) | None => (a, s, Ok tt) end.
Definition saveConfig (cfg : Config) : C unit :=
  allowed OpWrite configPath;; update (λ a, mkApp (Some cfg) (app_State a) (app_Files a) (app_Out a)).
Definition saveState (st : State) : C unit :=
  allowed OpWrite statePath;; update (λ a, mkApp (app_Config a) (Some st) (app_Files a) (app_Out a)).
Definition set_files (f : gmap string string → gmap string string) : C unit :=
  update (λ a, mkApp (app_Config a) (app_State a) (f (app_Files a)) (app_Out a)).

(** [os.MkdirAll(filepath.Dir(localPath))] and [os.WriteFile]. *)
Definition mkdir_for (path : string) : C unit := allowed OpMkdir (path_Dir (local_path path)).
Definition WriteFile (path content : string) : C unit :=
  allowed OpWrite (local_path path);; set_files <[local_path path := content]>.
Definition ReadFile (path : string) : C string :=
  files ← look app_Files; of_result (read_file (local_path path) files).
(** [os.Remove]; a file that is not there is [os.ErrNotExist]. *)
Definition os_Remove (path : string) : C unit :=
  allowed OpRemove (local_path path);;
  files ← look app_Files;
  if bool_decide (files !! local_path path = None) then cfail os_ErrNotExist else set_files (delete (local_path path)).

Definition scan_dir : C (gmap string string) := files ← look app_Files; of_result (scanLocalFiles files).

Definition isDirty : C bool := st ← loadState; local ← scan_dir; mret (dirty st local).

(** ** Requests *)

Definition repo_of (cfg : Config) : string :=
  if bool_decide (cf_Repo cfg = "") then "default/default" else cf_Repo cfg.
(** [repoBase], after the address of the server. *)
Definition repoBase (cfg : Config) : string := "/repos/" +:+ repo_of cfg +:+ "/-".
Definition doRequest (method path : string) (q : list (string * string)) (body : upload) (identity : string)
    : C (Z * payload) := λ a s,
  match http_Do (mkHttp method path q body identity) s with (s', r) => (a, s', r) end.
Definition httpGet (cfg : Config) (path : string) (q : list (string * string)) : C (Z * payload) :=
  doRequest "GET" (repoBase cfg +:+ path) q U_None (cf_Author cfg).
Definition postJSON (cfg : Config) (path : string) (body : upload) : C (Z * payload) :=
  doRequest "POST" (repoBase cfg +:+ path) [] body (cf_Author cfg).
Definition patchJSON (cfg : Config) (path : string) (body : upload) : C (Z * payload) :=
  doRequest "PATCH" (repoBase cfg +:+ path) [] body (cf_Author cfg).

Definition status_error (status : Z) : error := New ("server error (status " +:+ FormatInt status +:+ ")").
Definition readError (resp : Z * payload) : error :=
  match resp.2 with
  | P_Error msg => if bool_decide (msg = "") then status_error resp.1 else New ("server error: " +:+ msg)
  | _ => status_error resp.1
  end.
Definition decode_error : error := New "json: cannot unmarshal".
Definition decoded {A} (text : string) (o : option A) : C A :=
  match o with Some x => mret x | None => cfail (Errorf text decode_error) end.

Definition decode_tree (p : payload) : option (list TreeEntry) := match p with P_Tree l => Some l | _ => None end.
Definition decode_branches (p : payload) : option (list BranchInfo) :=
  match p with P_Branches l => Some l | _ => None end.
Definition decode_chain (p : payload) : option (list ChainEntry) := match p with P_Chain l => Some l | _ => None end.
(** The content of a [model.FileResponse]: of an error object, nothing. *)
Definition decode_file (p : payload) : option string :=
  match p with
  | P_File (FileJSON fc) => Some (str_or_empty (fl_Content fc))
  | P_Error _ => Some ""
  | _ => None
  end.

Definition fetchChain (cfg : Config) (from to : Z) : C (list ChainEntry) :=
  resp ← cwrap "fetching chain" (httpGet cfg "/chain" [("from", FormatInt from); ("to", FormatInt to)]);
  if negb (resp.1 =? 200) then cfail (readError resp) else decoded "decoding chain" (decode_chain resp.2).

(** The first branch of that name in the list. *)
Definition find_branch (name : string) (l : list BranchInfo) : option BranchInfo :=
  head (filter (λ b, bi_Name b = name) l).
Definition fetch_branches (cfg : Config) : C (list BranchInfo) :=
  resp ← cwrap "fetching branches" (httpGet cfg "/branches" []);
  decoded "decoding branches" (decode_branches resp.2).
Definition branchHeadSequence (cfg : Config) (branch : string) : C Z :=
  branches ← fetch_branches cfg;
  match find_branch branch branches with
  | Some b => mret (bi_HeadSequence b)
  | None => cfail (New ("branch " +:+ dquote +:+ branch +:+ dquote +:+ " not found"))
  end.

(** ** Synchronising *)

(** The query of a page of the tree. *)
Definition page_query (branch after : string) : list (string * string) :=
  [("branch", branch); ("limit", "100")] ++ (if bool_decide (after = "") then [] else [("after", after)]).
Definition fetch_page (what : string) (cfg : Config) (branch after : string) : C (list TreeEntry) :=
  resp ← cwrap ("fetching " +:+ what) (httpGet cfg "/tree" (page_query branch after));
  decoded "decoding tree" (decode_tree resp.2).
Definition no_fuel : error := New "too many pages".

(** The entries of all pages; the loops of [syncArchive] and [syncTree] end with
    the first page of fewer than a hundred. *)
Fixpoint fetch_tree (fuel : nat) (what : string) (cfg : Config) (branch after : string) : C (list TreeEntry) :=
  match fuel with
  | O => cfail no_fuel
  | Datatypes.S fuel =>
      entries ← fetch_page what cfg branch after;
      if (length entries <? 100)%nat then mret entries else
      rest ← fetch_tree fuel what cfg branch (from_option te_Path "" (last entries));
      mret (entries ++ rest)
  end.

(** [serverFiles] *)
Definition server_files (entries : list TreeEntry) : gmap string string :=
  foldl (λ m e, <[te_Path e := te_ContentHash e]> m) ∅ entries.

(** The end of both: the head of the branch, when it is listed, and the state. *)
Definition finish_sync (cfg : Config) (branch : string) (st : State) (files : gmap string string) : C unit :=
  branches ← fetch_branches cfg;
  let seq := from_option bi_HeadSequence (st_Sequence st) (find_branch branch branches) in
  saveState (mkState branch seq files (st_CommitHash st)).

Fixpoint extract (files : list (string * string)) : C unit :=
  match files with
  | [] => mret tt
  | (name, content) :: files => mkdir_for name;; WriteFile name content;; extract files
  end.

(** [false]: the server has no archives. *)
Definition syncArchive (fuel : nat) (cfg : Config) (branch : string) (st : State) : C bool :=
  resp ← cwrap "fetching archive" (httpGet cfg "/archive" [("branch", branch)]);
  if resp.1 =? 404 then mret false else
  if negb (resp.1 =? 200) then cfail (New ("archive: unexpected status " +:+ FormatInt resp.1)) else
  match resp.2 with
  | P_Archive files =>
      extract files;;
      entries ← fetch_tree fuel "tree after archive" cfg branch "";
      finish_sync cfg branch st (server_files entries);;
      print [SyncedArchive branch (length files)];;
      mret true
  | _ => cfail (Errorf "reading archive" decode_error)
  end.

(** The files that are not up to date: a file is fetched without a look at the
    status of the reply. *)
Fixpoint download (cfg : Config) (branch : string) (st : State) (entries : list TreeEntry) (n : nat) : C nat :=
  match entries with
  | [] => mret n
  | e :: entries =>
      if bool_decide (default "" (st_Files st !! te_Path e) = te_ContentHash e)
      then download cfg branch st entries n else
      resp ← cwrap ("fetching " +:+ te_Path e) (httpGet cfg ("/file/" +:+ te_Path e) [("branch", branch)]);
      content ← decoded ("decoding " +:+ te_Path e) (decode_file resp.2);
      mkdir_for (te_Path e);;
      WriteFile (te_Path e) content;;
      download cfg branch st entries (Datatypes.S n)
  end.

Fixpoint remove_all (paths : list string) (n : nat) : C nat :=
  match paths with
  | [] => mret n
  | p :: paths =>
      r ← ctry (os_Remove p);
      match r with
      | Fail err =>
          if errors_Is err os_ErrNotExist then remove_all paths (Datatypes.S n)
          else cfail (Errorf ("removing " +:+ local_path p) err)
      | Ok _ => remove_all paths (Datatypes.S n)
      end
  end.

Definition syncTree (fuel : nat) (cfg : Config) (branch : string) : C unit :=
  st ← loadState;
  synced ← (if bool_decide (st_Files st = ∅) then syncArchive fuel cfg branch st else mret false);
  if (synced : bool) then mret tt else
  entries ← fetch_tree fuel "tree" cfg branch "";
  let files := server_files entries in
  downloaded ← download cfg branch st entries 0;
  removed ← remove_all (filter (λ p, files !! p = None) (map_range 0 (st_Files st)).*1) 0;
  finish_sync cfg branch st files;;
  print [Synced branch downloaded removed].

Definition dirty_error : error := New "uncommitted changes -- commit or discard first".
Definition refuse_dirty : C unit :=
  d ← isDirty; if (d : bool) then cfail dirty_error else mret tt.

(** ** Workspaces and commits *)

(** The server and the repository in the address given to [Init]. *)
Definition parse_remote (remote repo : string) : string * string :=
  let base := TrimRight "/" remote in
  let base := default base (CutSuffix base "/-") in
  match Cut base "/repos/" with
  | Some (host, path) => (host, if bool_decide (repo = "") then path else repo)
  | None => (base, if bool_decide (repo = "") then "default/default" else repo)
  end.

(** [username]: of [user.Current], when it is known. *)
Definition Init (fuel : nat) (username : option string) (remote repo author : string) : C unit :=
  allowed OpMkdir configDir;;
  let author := if bool_decide (author = "") then default "unknown" username else author in
  let '(base, repo) := parse_remote remote repo in
  let cfg := mkConfig base repo "main" author in
  saveConfig cfg;;
  saveState (mkState "main" 0 ∅ "");;
  syncTree fuel cfg "main";;
  st ← loadState;
  print [Initialized (size (st_Files st)) (st_Sequence st) base author].

Definition Status : C unit :=
  cfg ← loadConfig;
  st ← loadState;
  print [OnBranch (cf_Branch cfg)];;
  local ← cwrap "scanning directory" scan_dir;
  if negb (dirty st local) then print [NoChanges] else
  print ((NewFile <$> new_paths st local) ++ (ModifiedFile <$> modified_paths st local)
         ++ (DeletedFile <$> deleted_paths st local)).

(** The changes of a commit: contents are read again. *)
Fixpoint read_changes (paths : list string) : C (list FileChange) :=
  match paths with
  | [] => mret []
  | p :: paths =>
      content ← ReadFile p;
      rest ← read_changes paths;
      mret (mkFileChange p (Some content) (detectContentType p content) :: rest)
  end.
Definition sort_changes (l : list FileChange) : list FileChange := @order_by C_collation _ ch_Path l.

(** [POST /commit] *)
Definition post_commit (cfg : Config) (files : list FileChange) (message : string) : C CommitResponse :=
  resp ← postJSON cfg "/commit"
           (U_Commit (wire_commit (mkCommitRequest "" (cf_Branch cfg) files message (cf_Author cfg))));
  if negb (resp.1 =? 201) then cfail (readError resp) else
  decoded "decoding response" (match resp.2 with P_Commit r => Some r | _ => None end).

Definition Commit (message : string) : C unit :=
  cfg ← loadConfig;
  st ← loadState;
  local ← cwrap "scanning directory" scan_dir;
  written ← read_changes (map_range 0 (changed_files st local)).*1;
  let removed := (λ p, mkFileChange p None "") <$> (map_range 0 (deleted_files st local)).*1 in
  let files := written ++ removed in
  if bool_decide (files = []) then cfail (New "nothing to commit") else
  resp ← post_commit cfg (sort_changes files) message;
  let hash := cp_CommitHash resp in
  (if bool_decide (hash ≠ "") then mret tt else print [WarnNoHash]);;
  saveState (mkState (cf_Branch cfg) (cp_Sequence resp) local
               (if bool_decide (hash ≠ "") then hash else st_CommitHash st));;
  print [Committed (cp_Sequence resp) (length files)].

(** ** Branches *)

Definition CheckoutNew (branch : string) (draft : bool) : C unit :=
  cfg ← loadConfig;
  resp ← postJSON cfg "/branch" (U_Branch (mkCreateBranchRequest "" branch draft));
  if negb (resp.1 =? 201) && negb (resp.1 =? 200) then cfail (readError resp) else
  created ← decoded "decoding response" (match resp.2 with P_Branch r => Some r | _ => None end);
  saveConfig (with_branch branch cfg);;
  st ← loadState;
  saveState (mkState branch (cbr_BaseSequence created) (st_Files st) (st_CommitHash st));;
  print [SwitchedTo draft branch (cbr_BaseSequence created)].

Definition no_branch : error := New "no branch checked out (or on main)".
Definition no_or_main (branch : string) : bool := bool_decide (branch = "") || bool_decide (branch = "main").

Definition Ready : C unit :=
  cfg ← loadConfig;
  if no_or_main (cf_Branch cfg) then cfail no_branch else
  resp ← patchJSON cfg ("/branch/" +:+ cf_Branch cfg) (U_Draft false);
  if negb (resp.1 =? 200) then cfail (readError resp) else print [MarkedReady (cf_Branch cfg)].

(** [AutoMergeEnable] and [AutoMergeDisable]. *)
Definition auto_merge (method : string) (enable : bool) (branch : string) : C unit :=
  cfg ← loadConfig;
  let branch := if bool_decide (branch = "") then cf_Branch cfg else branch in
  if no_or_main branch then cfail no_branch else
  resp ← doRequest method (repoBase cfg +:+ "/branch/" +:+ branch +:+ "/auto-merge") [] U_None (cf_Author cfg);
  if negb (resp.1 =? 204) then cfail (readError resp) else print [AutoMergeIs enable branch].
Definition AutoMergeEnable : string → C unit := auto_merge "POST" true.
Definition AutoMergeDisable : string → C unit := auto_merge "DELETE" false.

Definition Checkout (fuel : nat) (branch : string) : C unit :=
  cfg ← loadConfig;
  refuse_dirty;;
  let cfg := with_branch branch cfg in
  saveConfig cfg;;
  syncTree fuel cfg branch.

Definition Branches (status : string) (onlyDraft includeDraft : bool) : C unit :=
  cfg ← loadConfig;
  let status := if bool_decide (status = "") then "active" else status in
  resp ← cwrap "fetching branches"
           (httpGet cfg "/branches" ([("status", status)] ++ (if onlyDraft then [("draft", "true")] else [])
                                       ++ (if includeDraft then [("include_draft", "true")] else [])));
  if negb (resp.1 =? 200) then cfail (readError resp) else
  branches ← decoded "decoding branches" (decode_branches resp.2);
  print (BranchLine <$> branches).

(** ** Pulling and verifying the chain *)

(** The hash an entry should have after [prevHash]. *)
Definition computed_hash (repo prevHash : string) (e : ChainEntry) : string :=
  Hash.CommitHash prevHash (che_Sequence e) repo (che_Branch e) (che_Author e) (che_Message e)
    (che_CreatedAt e) (chain_file <$> che_Files e).

(** [%.16s] *)
Definition short (s : string) : string := String.substring 0 16 s.

Definition chain_error (seq : Z) (text : string) : error :=
  New ("chain integrity error at sequence " +:+ FormatInt seq +:+ text).

(** The loop of [Pull] after the anchor: the previous hash, whether a commit
    without a hash was reported, and what is printed. *)
Fixpoint pull_entries (cfg : Config) (prevHash : string) (skipped : bool) (entries : list ChainEntry)
    : list line * result string :=
  match entries with
  | [] => ([], Ok prevHash)
  | e :: entries =>
      if bool_decide (che_Branch e ≠ cf_Branch cfg) then pull_entries cfg prevHash skipped entries else
      match che_CommitHash e with
      | None =>
          let '(out, r) := pull_entries cfg Hash.GenesisHash true entries in
          ((if skipped then [] else [NoteSkipping (che_Sequence e)]) ++ out, r)
      | Some h =>
          let computed := computed_hash (cf_Repo cfg) prevHash e in
          if bool_decide (computed ≠ h)
          then ([], Fail (chain_error (che_Sequence e) (": expected " +:+ computed +:+ " got " +:+ h)))
          else pull_entries cfg h skipped entries
      end
  end.
(** The anchor, the first entry, and what follows it. *)
Definition pull_verify (cfg : Config) (old : string) (anchor : ChainEntry) (entries : list ChainEntry)
    : list line * result string :=
  match che_CommitHash anchor with
  | None =>
      let '(out, r) := pull_entries cfg Hash.GenesisHash false entries in
      (NoteSkipping (che_Sequence anchor) :: out, r)
  | Some h =>
      if bool_decide (h ≠ old)
      then ([], Fail (chain_error (che_Sequence anchor)
                       (": anchor hash changed (stored " +:+ old +:+ ", server " +:+ h +:+ ")")))
      else pull_entries cfg old false entries
  end.

Definition Pull (fuel : nat) (skipVerify : bool) : C unit :=
  cfg ← loadConfig;
  refuse_dirty;;
  oldState ← loadState;
  syncTree fuel cfg (cf_Branch cfg);;
  newState ← loadState;
  if skipVerify then mret tt else
  if st_Sequence newState =? 0 then mret tt else
  if bool_decide (st_CommitHash oldState = "") then
    entries ← ctry (fetchChain cfg (st_Sequence newState) (st_Sequence newState));
    match entries with
    | Fail _ => print [WarnChain]
    | Ok [] => mret tt
    | Ok (e :: _) =>
        match che_CommitHash e with
        | Some h => saveState (with_hash h newState)
        | None => print [NoteTip (che_Sequence e)]
        end
    end
  else if st_Sequence oldState =? st_Sequence newState then mret tt else
  entries ← cwrap "chain fetch for verification" (fetchChain cfg (st_Sequence oldState) (st_Sequence newState));
  match entries with
  | [] => mret tt
  | anchor :: entries =>
      let '(out, r) := pull_verify cfg (st_CommitHash oldState) anchor entries in
      print out;;
      h ← of_result r;
      saveState (with_hash h newState)
  end.

(** The variables of the loop of [Verify]. *)
Record VerifyVars := mkVerifyVars {
  vv_prevHash : string; vv_foundFirst : bool; vv_verifyErr : option error; vv_Out : list line;
}.

Definition verify_entry (cfg : Config) (v : VerifyVars) (e : ChainEntry) : VerifyVars :=
  let '(mkVerifyVars prevHash foundFirst verifyErr out) := v in
  if bool_decide (che_Branch e ≠ cf_Branch cfg) then v else
  match che_CommitHash e with
  | None =>
      mkVerifyVars Hash.GenesisHash foundFirst verifyErr
        (out ++ [SeqSkip (che_Sequence e) (che_Message e)])
  | Some h =>
      if negb foundFirst then
        mkVerifyVars h true verifyErr (out ++ [SeqOk (che_Sequence e) (short h) (che_Message e)])
      else
      let computed := computed_hash (cf_Repo cfg) prevHash e in
      if bool_decide (computed = h) then
        mkVerifyVars h foundFirst verifyErr
          (out ++ [SeqOk (che_Sequence e) (short h) (che_Message e)])
      else
        mkVerifyVars h foundFirst
          (match verifyErr with
           | None => Some (chain_error (che_Sequence e) "")
           | Some e => Some e
           end)
          (out ++ [SeqFail (che_Sequence e) (short computed) (short h) (che_Message e)])
  end.

Definition verify_entries (cfg : Config) (entries : list ChainEntry) : VerifyVars :=
  foldl (verify_entry cfg) (mkVerifyVars Hash.GenesisHash false None []) entries.

Definition Verify : C unit :=
  cfg ← loadConfig;
  headSeq ← cwrap "fetching branch head" (branchHeadSequence cfg (cf_Branch cfg));
  if headSeq =? 0 then print [NoCommits] else
  entries ← cwrap "fetching chain" (fetchChain cfg 1 headSeq);
  match entries with
  | [] => print [NoCommits]
  | _ =>
      let v := verify_entries cfg entries in
      print (vv_Out v);;
      match vv_verifyErr v with None => mret tt | Some e => cfail e end
  end.
End Client.
