(* ===== verification/Commands.v ===== *)
(** * More commands (internal/cli/app.go)

    Merging, rebasing and resolving conflicts, the history, and the secrets of
    the repository, in the monad of Client.v. *)

From S2P Require Import Prelude GoStd Schema Tx Orgs Commits Merge ReadStore Chain Http Handlers Handlers2 Secrets.
From S2P Require Import Policy Handlers3 Client.

Section Commands.
Context {S : Type} {Rm : Remote S} {Fs : FileSystem} {Mr : MapRange} {Mi : Mime}.
Implicit Types cfg : Config.
Abbreviation C := (Client.C (S := S)).

(** ** Merge and rebase *)

(** What both make of an error: its text, or the status. *)
Definition Merge (fuel : nat) : C unit :=
  cfg ← loadConfig;
  if bool_decide (cf_Branch cfg = "main") then cfail (New "cannot merge main into itself") else
  resp ← postJSON cfg "/merge" (U_Merge (mkMergeBody (cf_Branch cfg) false));
  if resp.1 =? 409 then
    match resp.2 with
    | P_Merge (Conflicts ((_ :: _) as l)) =>
        print (MergeConflictLine <$> l);; cfail (New "merge aborted due to conflicts")
    | _ => cfail (status_error resp.1)
    end
  else if negb (resp.1 =? 200) && negb (resp.1 =? 201) then cfail (readError resp) else
  r ← decoded "decoding response" (match resp.2 with P_Merge (Merged_ r) => Some r | _ => None end);
  print [MergedAt (cf_Branch cfg) (mp_Sequence r)];;
  let cfg := with_branch "main" cfg in
  saveConfig cfg;;
  syncTree fuel cfg "main".

Definition fetchFileBytesForBranch cfg (path branch : string) : C string :=
  resp ← httpGet cfg ("/file/" +:+ path) [("branch", branch)];
  if resp.1 =? 404 then mret "" else
  if negb (resp.1 =? 200) then cfail (status_error resp.1) else
  decoded "decoding response" (decode_file resp.2).

Fixpoint writeRebaseConflictFiles cfg (conflicts : list MergeConflict) : C unit :=
  match conflicts with
  | [] => cfail (New "rebase aborted due to conflicts")
  | c :: conflicts =>
      let path := mc_Path c in
      main ← cwrap ("fetching main version of " +:+ path) (fetchFileBytesForBranch cfg path "main");
      branch ← cwrap ("fetching branch version of " +:+ path) (fetchFileBytesForBranch cfg path (cf_Branch cfg));
      mkdir_for (path +:+ ".main");;
      cwrap ("writing " +:+ local_path (path +:+ ".main")) (WriteFile (path +:+ ".main") main);;
      cwrap ("writing " +:+ local_path (path +:+ ".branch")) (WriteFile (path +:+ ".branch") branch);;
      print [ConflictFiles path];;
      writeRebaseConflictFiles cfg conflicts
  end.

Definition Rebase : C unit :=
  cfg ← loadConfig;
  if bool_decide (cf_Branch cfg = "main") then cfail (New "cannot rebase main") else
  resp ← postJSON cfg "/rebase" (U_Rebase (cf_Branch cfg));
  if resp.1 =? 409 then
    match resp.2 with
    | P_Rebase (Conflicts ((_ :: _) as l)) => writeRebaseConflictFiles cfg l
    | _ => cfail (status_error resp.1)
    end
  else if negb (resp.1 =? 200) then cfail (readError resp) else
  r ← decoded "decoding response" (match resp.2 with P_Rebase (Merged_ r) => Some r | _ => None end);
  st ← loadState;
  saveState (mkState (st_Branch st) (rp_NewHeadSequence r) (st_Files st) (st_CommitHash st));;
  print [RebasedOnto (cf_Branch cfg) (rp_NewBaseSequence r) (rp_NewHeadSequence r) (rp_CommitsReplayed r)].

(** [os.Stat] and [os.IsNotExist] of a conflict file. *)
Definition conflict_file (path suffix : string) : C unit :=
  files ← look app_Files;
  if stat_missing (local_path (path +:+ suffix)) files
  then cfail (New ("no conflict file found: " +:+ path +:+ suffix +:+ " (run 'ds rebase' first)")) else mret tt.

Definition Resolve (path : string) : C unit :=
  cfg ← loadConfig;
  conflict_file path ".main";;
  conflict_file path ".branch";;
  content ← cwrap ("reading resolved file " +:+ path) (ReadFile path);
  resp ← post_commit cfg [mkFileChange path (Some content) ""] ("resolve conflict in " +:+ path);
  st ← loadState;
  saveState (mkState (st_Branch st) (cp_Sequence resp) (<[path := HashBytes content]> (st_Files st)) (st_CommitHash st));;
  ctry (os_Remove (path +:+ ".main"));;
  ctry (os_Remove (path +:+ ".branch"));;
  print [ResolvedAt path (cp_Sequence resp)].

Definition Diff : C unit :=
  cfg ← loadConfig;
  resp ← cwrap "fetching diff" (httpGet cfg "/diff" [("branch", cf_Branch cfg)]);
  if negb (resp.1 =? 200) then cfail (readError resp) else
  d ← decoded "decoding diff" (match resp.2 with P_Diff d => Some d | _ => None end);
  match df_BranchChanges d, df_MainChanges d, df_Conflicts d with
  | [], [], [] => print [NoDiff (cf_Branch cfg)]
  | _, _, _ =>
      print ((DiffLine (cf_Branch cfg) <$> df_BranchChanges d) ++ (DiffLine "main" <$> df_MainChanges d)
             ++ (MergeConflictLine <$> df_Conflicts d))
  end.

(** ** History *)

Definition get_commit cfg (seq : Z) : C (Z * payload) := httpGet cfg ("/commit/" +:+ FormatInt seq) [].
Definition decode_commit (p : payload) : option CommitDetail :=
  match p with P_CommitDetail d => Some d | _ => None end.

(** From [seq] down to the base, [todo] sequences away: commits of other branches
    and those that cannot be fetched are passed over; how many were printed. *)
Fixpoint log_walk cfg (todo : nat) (seq : Z) (count limit : nat) : C nat :=
  match todo with
  | O => mret count
  | Datatypes.S todo =>
      if (limit <=? count)%nat then mret count else
      resp ← cwrap ("fetching commit " +:+ FormatInt seq) (get_commit cfg seq);
      match (if resp.1 =? 200 then decode_commit resp.2 else None) with
      | Some d =>
          if bool_decide (cd_Branch d ≠ cf_Branch cfg) then log_walk cfg todo (seq - 1) count limit else
          print [CommitLine d];; log_walk cfg todo (seq - 1) (Datatypes.S count) limit
      | None => log_walk cfg todo (seq - 1) count limit
      end
  end.

Definition logBranch cfg (limit : nat) : C unit :=
  branches ← fetch_branches cfg;
  match find_branch (cf_Branch cfg) branches with
  | None => cfail (New ("branch " +:+ dquote +:+ cf_Branch cfg +:+ dquote +:+ " not found"))
  | Some b =>
      if bi_HeadSequence b =? 0 then print [NoCommitsOn (cf_Branch cfg)] else
      count ← log_walk cfg (Z.to_nat (bi_HeadSequence b - bi_BaseSequence b)) (bi_HeadSequence b) 0 limit;
      if (count =? 0)%nat then print [NoCommitsOn (cf_Branch cfg)] else mret tt
  end.

Definition logFile cfg (path : string) (limit : nat) : C unit :=
  resp ← cwrap "fetching history"
           (httpGet cfg ("/file/" +:+ path +:+ "/history") [("branch", cf_Branch cfg); ("limit", FormatInt (Z.of_nat limit))]);
  if negb (resp.1 =? 200) then cfail (readError resp) else
  entries ← decoded "decoding history" (match resp.2 with P_File (History l) => Some l | _ => None end);
  match entries with
  | [] => print [NoHistory path (cf_Branch cfg)]
  | _ => print (HistoryLine <$> entries)
  end.

Definition Log (path : string) (limit : Z) : C unit :=
  cfg ← loadConfig;
  let limit := if limit <=? 0 then 20 else limit in
  if bool_decide (path ≠ "") then logFile cfg path (Z.to_nat limit) else logBranch cfg (Z.to_nat limit).

Definition showCommit cfg (sequence : Z) : C unit :=
  resp ← cwrap "fetching commit" (get_commit cfg sequence);
  if resp.1 =? 404 then cfail (New ("commit " +:+ FormatInt sequence +:+ " not found")) else
  if negb (resp.1 =? 200) then cfail (readError resp) else
  d ← decoded "decoding commit" (decode_commit resp.2);
  print [CommitFull d].

Definition newline : string := String (ascii_of_byte 10) EmptyString.
Definition newline_end (content : string) : string :=
  if bool_decide (content = "") || HasSuffix content newline then content else content +:+ newline.
Definition showFile cfg (sequence : Z) (path : string) : C unit :=
  resp ← cwrap "fetching file"
           (httpGet cfg ("/file/" +:+ path) [("branch", cf_Branch cfg); ("at", FormatInt sequence)]);
  if resp.1 =? 404 then
    cfail (New ("file " +:+ dquote +:+ path +:+ dquote +:+ " not found at sequence " +:+ FormatInt sequence)) else
  if negb (resp.1 =? 200) then cfail (readError resp) else
  content ← decoded "decoding file" (decode_file resp.2);
  print [Content (newline_end content)].

Definition Show (sequence : Z) (path : string) : C unit :=
  cfg ← loadConfig;
  if bool_decide (path ≠ "") then showFile cfg sequence path else showCommit cfg sequence.

(** ** Secrets *)

Definition validateSecretName (name : string) : option error :=
  if negb (nameRegexp name)
  then Some (New ("invalid secret name " +:+ dquote +:+ name +:+ dquote +:+ ": must match [A-Z][A-Z0-9_]{0,63}"))
  else if HasPrefix name reservedNamePrefix
  then Some (New ("invalid secret name " +:+ dquote +:+ name +:+ dquote +:+ ": " +:+ reservedNamePrefix +:+ " prefix is reserved"))
  else None.
Definition maxSecretValueBytes : Z := 32768.

Definition SecretsList : C unit :=
  cfg ← loadConfig;
  resp ← cwrap "listing secrets" (httpGet cfg "/secrets" []);
  if negb (resp.1 =? 200) then cfail (readError resp) else
  l ← decoded "decoding response" (match resp.2 with P_Secrets l => Some l | _ => None end);
  print (SecretLine <$> l).

(** [valueReader]: what reading it to its end, or a byte beyond the limit, gives. *)
Definition SecretsSet (name : string) (valueReader : option (result string)) (description : string) : C unit :=
  match validateSecretName name, valueReader with
  | Some err, _ => cfail err
  | None, None => cfail (New "secret value reader is required")
  | None, Some r =>
      text ← of_result (rwrap "reading secret value" r);
      let value := string_take (Z.to_nat (maxSecretValueBytes + 1)) text in
      let len := Z.of_nat (String.length value) in
      if len =? 0 then cfail (New "secret value is empty") else
      if maxSecretValueBytes <? len
      then cfail (New ("secret value exceeds maximum size of " +:+ FormatInt maxSecretValueBytes +:+ " bytes")) else
      cfg ← loadConfig;
      resp ← cwrap ("setting secret " +:+ name)
               (doRequest "PUT" (repoBase cfg +:+ "/secrets/" +:+ name) [] (U_Secret (mkSetSecretRequest value description)) "");
      if negb (resp.1 =? 200) && negb (resp.1 =? 201) then cfail (readError resp) else
      print [SecretSet name (String.length value)]
  end.

Definition SecretsUnset (name : string) : C unit :=
  match validateSecretName name with
  | Some err => cfail err
  | None =>
      cfg ← loadConfig;
      resp ← cwrap ("unsetting secret " +:+ name) (doRequest "DELETE" (repoBase cfg +:+ "/secrets/" +:+ name) [] U_None "");
      if (resp.1 =? 204) || (resp.1 =? 200) then print [SecretUnset name] else
      if resp.1 =? 404 then cfail (New ("secret " +:+ name +:+ " not found")) else cfail (readError resp)
  end.
End Commands.
