(* ===== verification/SyncSpec.v ===== *)
(** * Synchronising the working copy

    The commands against what a server promises ([Serves]): a branch is a list of
    files that the pages of the tree, the archive and the requests for files
    agree on.  A checkout or a pull then ends with the working copy equal to
    that branch, whatever was there before, provided it was clean; and it is
    refused without a change when it was not. *)

From S2P Require Import Prelude GoStd Schema Tx Commits Merge ReadStore Chain Views Http Handlers Handlers3 Policy.
From S2P Require Import Client TreeSpec ArchiveSpec.

(** ** Changes of the working copy *)

(** The working copy is clean exactly when it is what was last synchronised. *)
Lemma dirty_false st local : dirty st local = false ↔ st_Files st = local.
Proof.
  unfold dirty. rewrite orb_false_iff, !negb_false_iff, !bool_decide_eq_true. split.
  - intros [Hc Hd]. apply map_eq. intros p.
    destruct (local !! p) as [h|] eqn:El.
    + destruct (decide (st_Files st !! p = Some h)) as [E|E]; [done|]. exfalso.
      assert (changed_files st local !! p = Some h) as Hp by (by apply map_lookup_filter_Some).
      by rewrite Hc, lookup_empty in Hp.
    + destruct (st_Files st !! p) as [h|] eqn:Es; [|done]. exfalso.
      assert (deleted_files st local !! p = Some h) as Hp by (by apply map_lookup_filter_Some).
      by rewrite Hd, lookup_empty in Hp.
  - intros <-. split; apply map_empty; intros p; apply map_lookup_filter_None; right.
    + intros h Hh. cbn. intros Hn. by apply Hn.
    + intros h Hh. cbn. by rewrite Hh.
Qed.

(** [Status] lists each path that differs, once, in the order of its kind. *)
Lemma changed_lookup st local p h :
  changed_files st local !! p = Some h ↔ local !! p = Some h ∧ st_Files st !! p ≠ Some h.
Proof. apply map_lookup_filter_Some. Qed.
Lemma deleted_lookup st local p h :
  deleted_files st local !! p = Some h ↔ st_Files st !! p = Some h ∧ local !! p = None.
Proof. apply map_lookup_filter_Some. Qed.

Lemma scan_lookup files p h :
  scan files !! p = Some h ↔ ∃ c, files !! p = Some c ∧ scanned p = true ∧ h = HashBytes c.
Proof.
  unfold scan. rewrite lookup_fmap, fmap_Some. split.
  - intros (c & [Hc Hs]%map_lookup_filter_Some & ->). by exists c.
  - intros (c & Hc & Hs & ->). exists c. split; [by apply map_lookup_filter_Some|done].
Qed.

(** Writing a list into a map. *)
Lemma foldl_insert_in {A V} (key : A → string) (val : A → V) l (m : gmap string V) x :
  NoDup (key <$> l) → x ∈ l → foldl (λ m r, <[key r := val r]> m) m l !! key x = Some (val x).
Proof.
  intros HN Hx. rewrite foldl_insert_lookup by done.
  rewrite (filter_key_unique key l x) by done. done.
Qed.
Lemma foldl_insert_out {A V} (key : A → string) (val : A → V) l (m : gmap string V) k :
  (∀ x, x ∈ l → key x ≠ k) → foldl (λ m r, <[key r := val r]> m) m l !! k = m !! k.
Proof.
  revert m. induction l as [|x l IH]; intros m Hl; [done|]. cbn [foldl].
  rewrite IH by (intros; apply Hl; by right). rewrite lookup_insert_ne; [done|]. apply Hl. by left.
Qed.

(** ** Running commands *)

Section Sync.
Context {S : Type} {Rm : Remote S} {Fs : FileSystem} {Mr : MapRange} {Mi : Mime}.
Implicit Types (a : App) (s : S).
Abbreviation C := (Client.C (S := S)).

Lemma cbind_run {A B} (m : C A) (f : A → C B) a s a' s' x :
  m a s = (a', s', Ok x) → (m ≫= f) a s = f x a' s'.
Proof. unfold mbind, C_bind. by intros ->. Qed.
Lemma cbind_fail {A B} (m : C A) (f : A → C B) a s a' s' e :
  m a s = (a', s', Fail e) → (m ≫= f) a s = (a', s', Fail e).
Proof. unfold mbind, C_bind. by intros ->. Qed.

(** A system that refuses nothing. *)
Class Permissive : Prop := fs_permits : ∀ op p files, fs_error op p files = None.
Context {Fp : Permissive}.

Lemma allowed_run op p a s : allowed op p a s = (a, s, Ok tt).
Proof. unfold allowed. by rewrite fs_permits. Qed.
Lemma loadConfig_run a s cfg : app_Config a = Some cfg → loadConfig a s = (a, s, Ok cfg).
Proof. unfold loadConfig. rewrite fs_permits. by intros ->. Qed.
Lemma loadState_run a s st : app_State a = Some st → loadState a s = (a, s, Ok st).
Proof. unfold loadState. rewrite fs_permits. by intros ->. Qed.
Lemma scan_dir_run a s : scan_dir a s = (a, s, Ok (scan (app_Files a))).
Proof. unfold scan_dir. rewrite (cbind_run _ _ a s a s (app_Files a)) by done. unfold scanLocalFiles. by rewrite fs_permits. Qed.
Lemma isDirty_run a s st : app_State a = Some st → isDirty a s = (a, s, Ok (dirty st (scan (app_Files a)))).
Proof.
  intros Hst. unfold isDirty. rewrite (cbind_run _ _ _ _ _ _ _ (loadState_run _ s _ Hst)).
  by rewrite (cbind_run _ _ _ _ _ _ _ (scan_dir_run _ s)).
Qed.
Lemma saveState_run st a s :
  saveState st a s = (mkApp (app_Config a) (Some st) (app_Files a) (app_Out a), s, Ok tt).
Proof. unfold saveState. by rewrite (cbind_run _ _ _ _ _ _ _ (allowed_run _ _ a s)). Qed.
Lemma saveConfig_run cfg a s :
  saveConfig cfg a s = (mkApp (Some cfg) (app_State a) (app_Files a) (app_Out a), s, Ok tt).
Proof. unfold saveConfig. by rewrite (cbind_run _ _ _ _ _ _ _ (allowed_run _ _ a s)). Qed.
Definition with_files (files : gmap string string) a : App := mkApp (app_Config a) (app_State a) files (app_Out a).
Lemma WriteFile_run p c a s :
  WriteFile p c a s = (with_files (<[local_path p := c]> (app_Files a)) a, s, Ok tt).
Proof. unfold WriteFile. by rewrite (cbind_run _ _ _ _ _ _ _ (allowed_run _ _ a s)). Qed.
Lemma with_files_id a : with_files (app_Files a) a = a.
Proof. by destruct a. Qed.

(** ** What a server promises *)

(** A request of the client for something of its repository. *)
Definition get_request (cfg : Config) (path : string) (q : list (string * string)) : http_request :=
  mkHttp "GET" (repoBase cfg +:+ path) q U_None (cf_Author cfg).

(** The parameter [after] of the page that begins at [k]. *)
Definition after_of (entries : list TreeEntry) (k : nat) : string :=
  match k with O => "" | Datatypes.S k => from_option te_Path "" (entries !! k) end.

(** The server shows the branch as those entries with those files, at that
    head: every request for it, from that state, leaves the state as it is. *)
Record Serves (s : S) (cfg : Config) (branch : string) (entries : list TreeEntry)
    (files : list (string * string)) (head : Z) : Prop := {
  se_archived : Forall2 archived entries files;
  se_distinct : NoDup (te_Path <$> entries);
  se_named : Forall (λ e, te_Path e ≠ "") entries;
  se_tree k : (k ≤ length entries)%nat →
    http_Do (get_request cfg "/tree" (page_query branch (after_of entries k))) s
    = (s, Ok (200, P_Tree (take 100 (drop k entries))));
  se_file p c : (p, c) ∈ files →
    ∃ fc, http_Do (get_request cfg ("/file/" +:+ p) [("branch", branch)]) s = (s, Ok (200, P_File (FileJSON fc))) ∧
      str_or_empty (fl_Content fc) = c;
  se_archive : http_Do (get_request cfg "/archive" [("branch", branch)]) s = (s, Ok (200, P_Archive files));
  se_branches : ∃ l, http_Do (get_request cfg "/branches" []) s = (s, Ok (200, P_Branches l)) ∧
    bi_HeadSequence <$> find_branch branch l = Some head;
}.

Lemma httpGet_run cfg path q a s s' r :
  http_Do (get_request cfg path q) s = (s', r) → httpGet cfg path q a s = (a, s', r).
Proof. unfold httpGet, doRequest, get_request. by intros ->. Qed.
Lemma cwrap_run {A} text (m : C A) a s a' s' x : m a s = (a', s', Ok x) → cwrap text m a s = (a', s', Ok x).
Proof. unfold cwrap. by intros ->. Qed.

Lemma archived_paths es fs : Forall2 archived es fs → fs.*1 = te_Path <$> es.
Proof. induction 1 as [|e f es fs [Hp _] _ IH]; [done|]. by rewrite !fmap_cons, Hp, IH. Qed.

(** [local_path] does not change the paths of a tree, and the scan reports them. *)
Definition plain (p : string) : Prop := local_path p = p ∧ scanned p = true.

Section Served.
Context (s : S) (cfg : Config) (branch : string) (entries : list TreeEntry) (files : list (string * string)) (head : Z).
Hypothesis (Hs : Serves s cfg branch entries files head).

Lemma fetch_page_run what k a :
  (k ≤ length entries)%nat →
  fetch_page what cfg branch (after_of entries k) a s = (a, s, Ok (take 100 (drop k entries))).
Proof using Hs.
  intros Hk. unfold fetch_page.
  by rewrite (cbind_run _ _ _ _ _ _ _ (cwrap_run _ _ _ _ _ _ _ (httpGet_run _ _ _ _ _ _ _ (se_tree _ _ _ _ _ _ Hs k Hk)))).
Qed.

Lemma after_next k : (100 ≤ length (drop k entries))%nat →
  from_option te_Path "" (last (take 100 (drop k entries))) = after_of entries (k + 100).
Proof.
  intros Hl. rewrite length_drop in Hl. rewrite last_lookup, length_take, length_drop.
  replace (k + 100)%nat with (Datatypes.S (k + 99)) by lia. cbn [after_of].
  rewrite lookup_take, decide_True, lookup_drop by lia. do 2 f_equal. lia.
Qed.

(** Enough fuel for the pages gives all the entries. *)
Lemma fetch_tree_run fuel what k a :
  (k ≤ length entries)%nat → (length entries - k < 100 * fuel)%nat →
  fetch_tree fuel what cfg branch (after_of entries k) a s = (a, s, Ok (drop k entries)).
Proof using Hs.
  revert k. induction fuel as [|fuel IH]; intros k Hk Hf; [lia|]. cbn [fetch_tree].
  rewrite (cbind_run _ _ _ _ _ _ _ (fetch_page_run what k a Hk)).
  destruct (length (take 100 (drop k entries)) <? 100)%nat eqn:E.
  - apply Nat.ltb_lt in E. rewrite length_take in E. unfold mret, C_ret. by rewrite take_ge by lia.
  - apply Nat.ltb_ge in E. rewrite length_take in E. rewrite after_next by lia. rewrite length_drop in E.
    rewrite (cbind_run _ _ _ _ _ _ _ (IH (k + 100)%nat ltac:(lia) ltac:(lia))). unfold mret, C_ret.
    by rewrite <- drop_drop, take_drop.
Qed.

Lemma server_files_in e : e ∈ entries → server_files entries !! te_Path e = Some (te_ContentHash e).
Proof using Hs. apply (foldl_insert_in te_Path te_ContentHash), (se_distinct _ _ _ _ _ _ Hs). Qed.
Lemma server_files_out p : (∀ e, e ∈ entries → te_Path e ≠ p) → server_files entries !! p = None.
Proof. intros Hp. unfold server_files. by rewrite (foldl_insert_out te_Path te_ContentHash). Qed.
Lemma server_files_inv p h :
  server_files entries !! p = Some h → ∃ e, e ∈ entries ∧ te_Path e = p ∧ te_ContentHash e = h.
Proof using Hs.
  intros Hp. destruct (decide (p ∈ te_Path <$> entries)) as [(e & -> & He)%list_elem_of_fmap|Hn].
  - rewrite server_files_in in Hp by done. injection Hp as <-. by exists e.
  - rewrite server_files_out in Hp; [done|]. intros e He <-. apply Hn. by apply list_elem_of_fmap_2.
Qed.

(** The files of a list written into the working copy. *)
Definition write_all (fs : list (string * string)) (m : gmap string string) : gmap string string :=
  foldl (λ m f, <[local_path f.1 := f.2]> m) m fs.
Lemma extract_run fs a : extract fs a s = (with_files (write_all fs (app_Files a)) a, s, Ok tt).
Proof using Fp.
  revert a. induction fs as [|[p c] fs IH]; intros a; cbn; [by rewrite with_files_id|].
  unfold mkdir_for. rewrite (cbind_run _ _ _ _ _ _ _ (allowed_run _ _ a s)).
  by rewrite (cbind_run _ _ _ _ _ _ _ (WriteFile_run _ _ a s)), IH.
Qed.

(** The files that [download] fetches. *)
Definition wanted (st : State) (ef : TreeEntry * (string * string)) : bool :=
  negb (bool_decide (default "" (st_Files st !! te_Path ef.1) = te_ContentHash ef.1)).
Definition fetched (st : State) (es : list TreeEntry) (fs : list (string * string)) : list (string * string) :=
  (filter (λ ef, wanted st ef = true) (zip es fs)).*2.

Lemma fetched_cons st e f es fs :
  fetched st (e :: es) (f :: fs)
  = if bool_decide (default "" (st_Files st !! te_Path e) = te_ContentHash e) then fetched st es fs
    else f :: fetched st es fs.
Proof.
  unfold fetched. cbn [zip zip_with]. unfold wanted. rewrite filter_cons. cbn [fst].
  case_bool_decide as Hd; [by rewrite decide_False|by rewrite decide_True].
Qed.

Lemma download_run st es fs n a :
  Forall2 archived es fs → (∀ f, f ∈ fs → f ∈ files) →
  download cfg branch st es n a s
  = (with_files (write_all (fetched st es fs) (app_Files a)) a, s, Ok (n + length (fetched st es fs))%nat).
Proof using Hs Fp.
  intros Hf. revert n a. induction Hf as [|e [p c] es fs [Hp Hh] Hf IH]; intros n a Hin.
  { cbn. rewrite with_files_id. by replace (n + 0)%nat with n by lia. }
  cbn in Hp. subst p.
  assert (∀ f, f ∈ fs → f ∈ files) as Hin' by (intros; apply Hin; by right).
  rewrite fetched_cons. cbn [download]. case_bool_decide as Hd; [by apply IH|].
  destruct (se_file _ _ _ _ _ _ Hs (te_Path e) c) as (fc & Hr & Hc); [apply Hin; by left|].
    rewrite (cbind_run _ _ _ _ _ _ _ (cwrap_run _ _ _ _ _ _ _ (httpGet_run _ _ _ _ _ _ _ Hr))).
    cbn [snd decode_file]. rewrite Hc. rewrite (cbind_run _ _ a s a s c) by done.
    unfold mkdir_for. rewrite (cbind_run _ _ _ _ _ _ _ (allowed_run _ _ a s)).
    rewrite (cbind_run _ _ _ _ _ _ _ (WriteFile_run _ _ a s)). rewrite IH by done. cbn.
    by replace (n + Datatypes.S (length (fetched st es fs)))%nat
      with (Datatypes.S n + length (fetched st es fs))%nat by lia.
Qed.

Lemma os_Remove_run p a :
  ctry (os_Remove p) a s
  = (with_files (delete (local_path p) (app_Files a)) a, s,
     Ok (if bool_decide (app_Files a !! local_path p = None) then Fail os_ErrNotExist else Ok tt)).
Proof using Fp.
  unfold ctry, os_Remove. rewrite (cbind_run _ _ _ _ _ _ _ (allowed_run _ _ a s)).
  rewrite (cbind_run _ _ a s a s (app_Files a)) by done. case_bool_decide as Hn; [|done].
  rewrite delete_id by done. cbn. by rewrite with_files_id.
Qed.
Lemma remove_all_run ps n a :
  remove_all ps n a s
  = (with_files (foldl (λ m p, delete (local_path p) m) (app_Files a) ps) a, s, Ok (n + length ps)%nat).
Proof using Fp.
  revert n a. induction ps as [|p ps IH]; intros n a; cbn.
  { rewrite with_files_id. by replace (n + 0)%nat with n by lia. }
  rewrite (cbind_run _ _ _ _ _ _ _ (os_Remove_run p a)).
  replace (n + Datatypes.S (length ps))%nat with (Datatypes.S n + length ps)%nat by lia.
  case_bool_decide; [|cbn [length]; by rewrite IH].
  change (errors_Is os_ErrNotExist os_ErrNotExist) with true.
  cbv iota. by rewrite IH.
Qed.

Lemma finish_sync_run st fs a :
  finish_sync cfg branch st fs a s
  = (mkApp (app_Config a) (Some (mkState branch head fs (st_CommitHash st))) (app_Files a) (app_Out a), s, Ok tt).
Proof using Hs Fp.
  destruct (se_branches _ _ _ _ _ _ Hs) as (l & Hl & Hh). unfold finish_sync, fetch_branches.
  rewrite (cbind_run _ _ a s a s l).
  - apply fmap_Some in Hh as (b & -> & ->). cbn [from_option]. apply saveState_run.
  - by rewrite (cbind_run _ _ _ _ _ _ _ (cwrap_run _ _ _ _ _ _ _ (httpGet_run _ _ _ _ _ _ _ Hl))).
Qed.

(** What [syncTree] leaves in the working copy. *)
Definition gone (st : State) : list string :=
  filter (λ p, server_files entries !! p = None) (map_range 0 (st_Files st)).*1.
Definition synced_files (st : State) (m : gmap string string) : gmap string string :=
  if bool_decide (st_Files st = ∅) then write_all files m
  else foldl (λ m p, delete (local_path p) m) (write_all (fetched st entries files) m) (gone st).

Lemma syncTree_run fuel st a :
  app_State a = Some st → (length entries < 100 * fuel)%nat →
  ∃ out, syncTree fuel cfg branch a s
    = (mkApp (app_Config a) (Some (mkState branch head (server_files entries) (st_CommitHash st)))
         (synced_files st (app_Files a)) (app_Out a ++ out), s, Ok tt).
Proof using Hs Fp.
  intros Hst Hf. unfold syncTree, synced_files. rewrite (cbind_run _ _ _ _ _ _ _ (loadState_run a s st Hst)).
  pose proof (λ what a, fetch_tree_run fuel what 0 a ltac:(lia) ltac:(lia)) as Ht. cbn [after_of drop] in Ht.
  case_bool_decide as He.
  - eexists. rewrite (cbind_run _ _ a s
      (mkApp (app_Config a) (Some (mkState branch head (server_files entries) (st_CommitHash st)))
         (write_all files (app_Files a)) (app_Out a ++ [SyncedArchive branch (length files)])) s true); [done|].
    unfold syncArchive. rewrite (cbind_run _ _ _ _ _ _ _ (cwrap_run _ _ _ _ _ _ _ (httpGet_run _ _ _ _ _ _ _ (se_archive _ _ _ _ _ _ Hs)))).
    cbn [fst snd Z.eqb Pos.eqb negb]. rewrite (cbind_run _ _ _ _ _ _ _ (extract_run files a)).
    rewrite (cbind_run _ _ _ _ _ _ _ (Ht _ _)). rewrite (cbind_run _ _ _ _ _ _ _ (finish_sync_run _ _ _)).
    done.
  - eexists. rewrite (cbind_run _ _ a s a s false) by done.
    rewrite (cbind_run _ _ _ _ _ _ _ (Ht _ _)).
    rewrite (cbind_run _ _ _ _ _ _ _ (download_run st entries files 0 a (se_archived _ _ _ _ _ _ Hs) (λ f Hf, Hf))).
    rewrite (cbind_run _ _ _ _ _ _ _ (remove_all_run _ _ _)).
    rewrite (cbind_run _ _ _ _ _ _ _ (finish_sync_run _ _ _)). done.
Qed.

Lemma delete_all_lookup ps (m : gmap string string) p :
  foldl (λ m q, delete (local_path q) m) m ps !! p = if bool_decide (p ∈ local_path <$> ps) then None else m !! p.
Proof.
  revert m. induction ps as [|q ps IH]; intros m; [done|]. cbn [foldl fmap list_fmap]. rewrite IH.
  destruct (decide (p ∈ local_path <$> ps)) as [Hp|Hp].
  - by rewrite !bool_decide_true by (try right; done).
  - rewrite bool_decide_false by done. destruct (decide (p = local_path q)) as [->|Hq].
    + by rewrite bool_decide_true, lookup_delete_eq by left.
    + rewrite bool_decide_false by (by rewrite not_elem_of_cons). by rewrite lookup_delete_ne.
Qed.
Lemma file_of_entry e : e ∈ entries → ∃ c, (te_Path e, c) ∈ files ∧ HashBytes c = te_ContentHash e.
Proof using Hs.
  intros [i Hi]%list_elem_of_lookup. destruct (Forall2_lookup_l _ _ _ _ _ (se_archived _ _ _ _ _ _ Hs) Hi) as ([p c] & Hf & Hp & Hh).
  cbn in Hp, Hh. subst p. exists c. split; [by eapply list_elem_of_lookup_2|done].
Qed.
Lemma files_paths : files.*1 = te_Path <$> entries.
Proof using Hs.
  apply archived_paths, (se_archived _ _ _ _ _ _ Hs).
Qed.

(** Every path of the tree keeps its name in the working copy, and so does every
    path of the last synchronisation. *)
Hypothesis (Hplain : Forall plain (te_Path <$> entries)).
Definition plain_state (st : State) : Prop := ∀ p h, st_Files st !! p = Some h → local_path p = p.

Lemma plain_entry e : e ∈ entries → plain (te_Path e).
Proof using Hplain. intros He. rewrite Forall_fmap, Forall_forall in Hplain. by apply Hplain. Qed.
Lemma write_all_in fs m p c :
  (∀ f, f ∈ fs → f ∈ files) → NoDup fs.*1 → (p, c) ∈ fs → write_all fs m !! p = Some c.
Proof using Hs Hplain.
  intros Hsub HN Hf.
  assert (∀ f, f ∈ fs → local_path f.1 = f.1) as Hl.
  { intros f Hin. assert (f.1 ∈ files.*1) as Hp by (by apply list_elem_of_fmap_2, Hsub).
    rewrite files_paths in Hp. apply list_elem_of_fmap in Hp as (e & -> & He). by apply plain_entry. }
  pose proof (Hl (p, c) Hf) as Hpc. cbn in Hpc. rewrite <- Hpc. apply (foldl_insert_in (λ f, local_path f.1) snd fs m (p, c)); [|done].
  rewrite (list_fmap_ext _ fst); [done|]. intros i f Hi. by eapply Hl, list_elem_of_lookup_2.
Qed.
Lemma write_all_out fs m p :
  (∀ f, f ∈ fs → f ∈ files) → p ∉ fs.*1 → write_all fs m !! p = m !! p.
Proof using Hs Hplain.
  intros Hsub Hp. apply (foldl_insert_out (λ f, local_path f.1) snd). intros f Hin.
  assert (f.1 ∈ files.*1) as He by (by apply list_elem_of_fmap_2, Hsub).
  rewrite files_paths in He. apply list_elem_of_fmap in He as (e & Ee & He).
  destruct (plain_entry e He) as [Hl _]. rewrite Ee, Hl, <- Ee. intros <-. apply Hp. by apply list_elem_of_fmap_2.
Qed.

Lemma fetched_sub st es fs f : f ∈ fetched st es fs → f ∈ fs.
Proof.
  unfold fetched. intros ([e f'] & -> & [_ Hz]%list_elem_of_filter)%list_elem_of_fmap. by eapply elem_of_zip_r.
Qed.
Lemma fetched_wanted st es fs p c :
  Forall2 archived es fs → NoDup (te_Path <$> es) → (p, c) ∈ fs →
  (p, c) ∈ fetched st es fs ∨ st_Files st !! p = Some (HashBytes c) ∧ p ∉ (fetched st es fs).*1.
Proof.
  induction 1 as [|e f es fs [Hp Hh] Hf IH]; [by intros _ ?%elem_of_nil|].
  rewrite fmap_cons. intros [Hn HN]%NoDup_cons Hin. rewrite fetched_cons.
  assert (∀ x, x ∈ (fetched st es fs).*1 → x ∈ te_Path <$> es) as Hsub.
  { intros x (g & -> & Hg%fetched_sub)%list_elem_of_fmap. rewrite <- (archived_paths es fs Hf). by apply list_elem_of_fmap_2. }
  apply elem_of_cons in Hin as [<-|Hin].
  - cbn in Hp, Hh. subst p. case_bool_decide as Hd; [|left; left]. right. split; [|intros Hx; by apply Hn, Hsub].
    destruct (st_Files st !! te_Path e) as [h|]; cbn in Hd; [by rewrite Hd, <- Hh|].
    exfalso. rewrite <- Hh in Hd. by apply (CommitSpec.sha256_hex_nonempty c).
  - destruct (IH HN Hin) as [Hl|[Hl Hnot]]; case_bool_decide as Hd; [by left|left; by right|by right|].
    right. split; [done|]. rewrite fmap_cons. intros [Hx|Hx]%elem_of_cons; [|done].
    apply Hn. rewrite <- Hp, <- Hx. change p with (p, c).1. rewrite <- (archived_paths es fs Hf). by apply list_elem_of_fmap_2.
Qed.

Lemma gone_elem st p : plain_state st →
  p ∈ local_path <$> gone st ↔ server_files entries !! p = None ∧ ∃ h, st_Files st !! p = Some h.
Proof.
  intros Hpl.
  assert (∀ q, q ∈ (map_range 0 (st_Files st)).*1 ↔ ∃ h, st_Files st !! q = Some h) as Hk.
  { intros q. rewrite (map_range_perm 0 (st_Files st)), list_elem_of_fmap. split.
    - intros ([q' h] & -> & Hh%elem_of_map_to_list). by exists h.
    - intros (h & Hh). exists (q, h). split; [done|by apply elem_of_map_to_list]. }
  rewrite list_elem_of_fmap. unfold gone. split.
  - intros (q & -> & [Hq (h & Hh)%Hk]%list_elem_of_filter). rewrite (Hpl q h Hh). eauto.
  - intros [Hn (h & Hh)]. exists p. split; [by rewrite (Hpl p h Hh)|]. apply list_elem_of_filter. split; [done|].
    apply Hk. by exists h.
Qed.

(** What [syncTree] has done at a path of the branch, and at another. *)
Lemma synced_in st m p c :
  plain_state st → (p, c) ∈ files → scan m = st_Files st →
  ∃ c', synced_files st m !! p = Some c' ∧ HashBytes c' = HashBytes c.
Proof using Hs Hplain.
  intros Hpl Hin Hscan.
  assert (NoDup files.*1) as HN by (rewrite files_paths; apply (se_distinct _ _ _ _ _ _ Hs)).
  assert (p ∈ te_Path <$> entries) as (e & -> & He)%list_elem_of_fmap
    by (rewrite <- files_paths; by apply (list_elem_of_fmap_2 fst files (p, c))).
  unfold synced_files. case_bool_decide as Hem.
  { exists c. split; [by apply write_all_in|done]. }
  rewrite delete_all_lookup, bool_decide_false.
  2: { intros [Hn _]%gone_elem; [|done]. by rewrite server_files_in in Hn. }
  destruct (fetched_wanted st entries files (te_Path e) c) as [Hw|[Hw Hnot]]; try done;
    try apply (se_archived _ _ _ _ _ _ Hs); try apply (se_distinct _ _ _ _ _ _ Hs).
  - exists c. split; [|done]. apply write_all_in; [apply fetched_sub| |done].
    apply (sublist_NoDup _ files.*1); [done|]. apply fmap_sublist. unfold fetched.
    rewrite <- (snd_zip entries files) at 2 by (by rewrite (Forall2_length _ _ _ (se_archived _ _ _ _ _ _ Hs))).
    apply fmap_sublist, sublist_filter.
  - rewrite write_all_out by (done || apply fetched_sub).
    rewrite <- Hscan in Hw. apply scan_lookup in Hw as (c' & Hc' & _ & Hh). by exists c'.
Qed.
Lemma synced_out st m p :
  plain_state st → p ∉ te_Path <$> entries → st_Files st !! p = scan m !! p → scan (synced_files st m) !! p = None.
Proof using Hs Hplain.
  intros Hpl Hp Hst.
  assert (∀ fs, (∀ f, f ∈ fs → f ∈ files) → write_all fs m !! p = m !! p) as Hw.
  { intros fs Hsub. apply write_all_out; [done|]. intros (f & -> & Hf)%list_elem_of_fmap. apply Hp.
    rewrite <- files_paths. by apply list_elem_of_fmap_2, Hsub. }
  destruct (scan (synced_files st m) !! p) as [h|] eqn:E; [|done]. exfalso.
  apply scan_lookup in E as (c & Hc & Hsc & ->). unfold synced_files in Hc. case_bool_decide as Hem.
  - rewrite Hw in Hc by done. rewrite Hem, lookup_empty in Hst. symmetry in Hst.
    assert (scan m !! p = Some (HashBytes c)) as E by (apply scan_lookup; eauto). by rewrite Hst in E.
  - rewrite delete_all_lookup in Hc. case_bool_decide as Hg; [done|].
    rewrite Hw in Hc by apply fetched_sub. apply Hg, gone_elem; [done|]. split.
    + apply server_files_out. intros e He <-. apply Hp. by apply list_elem_of_fmap_2.
    + exists (HashBytes c). rewrite Hst. apply scan_lookup. eauto.
Qed.

Lemma synced_scan st m :
  plain_state st → scan m = st_Files st → scan (synced_files st m) = server_files entries.
Proof using Hs Hplain.
  intros Hpl Hscan. apply map_eq. intros p.
  destruct (decide (p ∈ te_Path <$> entries)) as [(e & -> & He)%list_elem_of_fmap|Hp].
  - rewrite server_files_in by done. destruct (file_of_entry e He) as (c & Hc & <-).
    destruct (synced_in st m (te_Path e) c Hpl Hc Hscan) as (c' & Hc' & <-).
    apply scan_lookup. exists c'. split_and!; [done|by apply plain_entry|done].
  - rewrite server_files_out; [|intros e He <-; by apply Hp, list_elem_of_fmap_2].
    apply synced_out; [done..|by rewrite Hscan].
Qed.

Lemma server_files_plain seq h : plain_state (mkState branch seq (server_files entries) h).
Proof using Hs Hplain. intros p x Hx. apply server_files_inv in Hx as (e & He & <- & _). by apply plain_entry. Qed.

(** A clean working copy after [syncTree]: it is the branch, and clean. *)
Lemma syncTree_clean fuel st a :
  app_State a = Some st → plain_state st → dirty st (scan (app_Files a)) = false →
  (length entries < 100 * fuel)%nat →
  ∃ a', syncTree fuel cfg branch a s = (a', s, Ok tt) ∧ app_Config a' = app_Config a ∧
    app_State a' = Some (mkState branch head (server_files entries) (st_CommitHash st)) ∧
    scan (app_Files a') = server_files entries.
Proof using Hs Fp Hplain.
  intros Hst Hpl Hclean%dirty_false Hf. destruct (syncTree_run fuel st a Hst Hf) as (out & E).
  eexists. split; [exact E|]. cbn. split_and!; [done|done|by apply synced_scan].
Qed.
End Served.

(** A command that is refused for uncommitted changes. *)
Lemma refuse_dirty_run st a s :
  app_State a = Some st →
  refuse_dirty a s = (a, s, if dirty st (scan (app_Files a)) then Fail dirty_error else Ok tt).
Proof using Fp.
  intros Hst. unfold refuse_dirty. rewrite (cbind_run _ _ _ _ _ _ _ (isDirty_run a s st Hst)). by destruct (dirty _ _).
Qed.

(** A checkout from a server that shows the branch. *)
Lemma Checkout_served fuel branch a s cfg st entries files head :
  app_Config a = Some cfg → app_State a = Some st → plain_state st →
  Serves s (with_branch branch cfg) branch entries files head →
  Forall plain (te_Path <$> entries) → (length entries < 100 * fuel)%nat →
  if dirty st (scan (app_Files a)) then Checkout fuel branch a s = (a, s, Fail dirty_error) else
  ∃ a', Checkout fuel branch a s = (a', s, Ok tt) ∧
    app_Config a' = Some (with_branch branch cfg) ∧
    app_State a' = Some (mkState branch head (server_files entries) (st_CommitHash st)) ∧
    scan (app_Files a') = server_files entries.
Proof using Fp.
  intros Hc Hst Hpl Hs Hplain Hf. unfold Checkout.
  rewrite (cbind_run _ _ _ _ _ _ _ (loadConfig_run a s cfg Hc)).
  destruct (dirty st (scan (app_Files a))) eqn:Hd.
  { apply cbind_fail. by rewrite (refuse_dirty_run st), Hd. }
  rewrite (cbind_run _ _ a s a s tt) by (by rewrite (refuse_dirty_run st), Hd).
  rewrite (cbind_run _ _ _ _ _ _ _ (saveConfig_run (with_branch branch cfg) a s)).
  edestruct (syncTree_clean s (with_branch branch cfg) branch entries files head Hs Hplain fuel st
    (mkApp (Some (with_branch branch cfg)) (app_State a) (app_Files a) (app_Out a)))
    as (a' & E & Hc' & Hst' & Hscan); [exact Hst|exact Hpl|exact Hd|exact Hf|].
  exists a'. split_and!; [exact E|exact Hc'|exact Hst'|exact Hscan].
Qed.
End Sync.
