(* ===== verification/ClientServer.v ===== *)
(** * The API server behind the command line

    A request of the client is served as Api.v has it: routed and authorised by
    [serve], then answered by the handler of its route, whose reply becomes the
    status and the body the client sees.  Only the routes the client uses are
    here.  The state of the server is the policy cache with the [World]. *)

From S2P Require Import Prelude GoStd Schema Tx Orgs Blob Commits Merge ReadStore Events Server Policy Http.
From S2P Require Import Handlers Handlers2 Handlers3 Secrets Api Client Run Integrity Views Chain Samples.
From S2P Require Import CommitSpec MergeSpec TreeSpec EventTypes PolicySpec ServerSpec ArchiveSpec SyncSpec.
From S2P Require Service.

Section ClientServer.
Context {Co : Collation} {Mr : MapRange} {Op : OPA} {Us : UuidSource} {Enc : Encryptor} {Tk : Tokens}.
Context (s : server) (sv : ServerConfig) (authorization : string).

Definition Backend : Type := Cache * World.

(** The body of a reply, and the error object of a fault. *)
Definition answered {A} (body : A → payload) (m : H (Z * A)) : H (Z * payload) := λ c w,
  match run m c w with
  | (c', w', Reply status a) => (c', w', inr (status, body a))
  | (c', w', Fault f) => (c', w', inr (ae_Status f, P_Error (ae_Message f)))
  end.
(** A body of another type does not decode. *)
Definition archive_body (r : result (list (string * string))) : payload :=
  match r with Ok files => P_Archive files | Fail _ => P_None end.
Definition nothing {A} : A → payload := λ _, P_None.

Definition answer_route (cx : Ctx) (rq : http_request) (route : Route) : H (Z * payload) :=
  let q := query (hq_Query rq) in
  let body := hq_Body rq in
  match route with
  | Tree n => answered P_Tree (handleTree n (q "branch") (q "at") (q "limit") (q "after"))
  | Archive n => answered archive_body (handleArchive s n (q "branch") (q "at"))
  | Server.Branches n => answered P_Branches (handleBranches n (q "status") (q "include_draft") (q "draft"))
  | Server.Diff n => answered P_Diff (handleDiff n (q "branch"))
  | Chain_ n => answered P_Chain (handleChain n (q "from") (q "to"))
  | GetCommit_ n seq => answered P_CommitDetail (handleGetCommit n seq)
  | File_ n p =>
      answered P_File (handleFile s n p (q "branch") (q "at") (q "limit") (q "after") (q "format"))
  | Commit_ n =>
      answered P_Commit (handleCommit s cx n (match body with U_Commit req => Some req | _ => None end))
  | CreateBranch_ n =>
      answered P_Branch (handleCreateBranch s cx n (match body with U_Branch req => Some req | _ => None end))
  | UpdateBranch n b =>
      answered P_Draft (handleUpdateBranch "" n b (match body with U_Draft d => Some d | _ => None end))
  | EnableAutoMerge n b => answered nothing (handleEnableAutoMerge s cx "" n b)
  | DisableAutoMerge n b => answered nothing (handleDisableAutoMerge s cx "" n b)
  | Merge_ n => answered P_Merge (handleMerge s cx n (match body with U_Merge req => Some req | _ => None end))
  | Rebase_ n => answered P_Rebase (handleRebase s cx n (match body with U_Rebase b => Some b | _ => None end))
  | ListSecrets n => answered P_Secrets (handleListSecrets n)
  | SetSecret n i =>
      answered P_Secret (handleSetSecret s cx n i (match body with U_Secret req => Some req | _ => None end))
  | DeleteSecret_ n i => answered nothing (handleDeleteSecret s cx n i)
  | _ => mret (501, P_None)
  end.

(** The request as the middleware sees it: the transport sends the credentials. *)
Definition server_request (rq : http_request) : Request :=
  mkRequest (hq_Method rq) (hq_Path rq) authorization None false false.

(** What the middleware and the dispatcher write with a refusal. *)
Definition refusal_text (status : Z) : string :=
  if status =? 401 then "unauthorized" else
  if status =? 403 then "forbidden" else
  if status =? 404 then "not found" else
  if status =? 405 then "method not allowed" else "".

Definition docstore_Do (rq : http_request) (st : Backend) : Backend * result (Z * payload) :=
  let '(c, w) := st in
  match serve sv (server_request rq) w with
  | (w1, Ok (Handle (cx, route))) =>
      match answer_route cx rq route c w1 with
      | (c', w', inr r) => ((c', w'), Ok r)
      | (c', w', inl f) => ((c', w'), Ok (ae_Status f, P_Error (ae_Message f)))
      end
  | (w1, Ok (Server.Status status)) => ((c, w1), Ok (status, P_Error (refusal_text status)))
  | (w1, Fail e) => ((c, w1), Ok (500, P_Error "internal server error"))
  end.
Definition docstore : Remote Backend := docstore_Do.
End ClientServer.

(** * The API server keeps the client's contract

    The requests of a client that is signed in reach their handlers; what those
    reply is what [Serves] asks for, for every branch of a world whose files can
    be read; and whatever the client sends, the world moves along the steps of
    the store. *)

(** ** Paths *)

Lemma HasPrefix_longer s t p :
  (String.length p ≤ String.length s)%nat → HasPrefix (s +:+ t) p = HasPrefix s p.
Proof.
  unfold HasPrefix. revert p. induction s as [|c s IH]; intros [|c' p] Hl; try (cbn in Hl; lia); [by destruct t|done|]. rewrite string_app_cons. cbn in Hl |- *.
  destruct (Ascii.ascii_dec c' c); [|done]. apply IH. lia.
Qed.
(** What is found first is found first in a longer text. *)
Lemma Cut_longer s sep a b t : Cut s sep = Some (a, b) → Cut (s +:+ t) sep = Some (a, b +:+ t).
Proof.
  revert a b. induction s as [|c s IH]; intros a b; cbn [Cut].
  - destruct (HasPrefix "" sep) eqn:Hp; [|done]. intros [= <- <-].
    apply HasPrefix_spec in Hp as [u Hu]. destruct sep; [|done]. by destruct t.
  - destruct (HasPrefix (String c s) sep) eqn:Hp.
    + intros [= <- <-]. rewrite string_app_cons. cbn [Cut]. rewrite <- string_app_cons.
      apply HasPrefix_spec in Hp as [u Hu]. rewrite Hu, string_app_assoc, HasPrefix_app.
      by rewrite !string_drop_app.
    + intros ([a' b'] & Ec & [= -> ->])%fmap_Some. rewrite string_app_cons. cbn [Cut]. rewrite <- string_app_cons.
      rewrite HasPrefix_longer, Hp; [by rewrite (IH _ _ Ec)|].
      apply Cut_Some in Ec as ->. cbn. rewrite !string_length_app. lia.
Qed.

Section Instance.
Context {Co : Collation} {Mr : MapRange} {Op : OPA} {Us : UuidSource} {En : Encryptor} {Tk : Tokens}.
Context (s : server) (sv : ServerConfig) (authorization : string).

(** A name of a repository that a path can carry. *)
Definition in_path (repo : string) : Prop := repo ≠ "" ∧ Cut (repo +:+ "/-/") "/-/" = Some (repo, "").

(** The transport of the client signs in as [who], who is not an administrator
    standing in for a missing one and has a role in the repository. *)
Record member (w : World) (who repo : string) (role : role_type) : Prop := {
  mb_path : in_path repo;
  mb_token : (if sv_oidc sv then bearer authorization else None) = None;
  mb_signed rq : GoogleAuth sv (server_request authorization rq) = Handle who;
  mb_plain : sv_bootstrapAdmin sv = "" ∨ who ≠ sv_bootstrapAdmin sv;
  mb_role : ∃ r, GetRole repo who w = (w, Ok r) ∧ role_Role r = role;
}.

Lemma path_parse repo endpoint :
  in_path repo → splitRepoPath ("/repos/" +:+ repo +:+ "/-/" +:+ endpoint) = Some (repo, endpoint).
Proof.
  intros [Hne Hc]. unfold splitRepoPath. rewrite HasPrefix_app. cbn [negb].
  change 7%nat with (String.length "/repos/"). rewrite string_drop_app, bool_decide_false.
  - rewrite <- string_app_assoc, (Cut_longer _ _ _ _ endpoint Hc). done.
  - destruct repo; [done|]. by rewrite string_app_cons.
Qed.

(** A request that brings no credential of its own reaches the handler that the
    dispatcher picks, if the role allows it. *)
Lemma serve_member w who repo role endpoint rq route :
  member w who repo role → hq_Path rq = "/repos/" +:+ repo +:+ "/-/" +:+ endpoint → endpoint ≠ "" →
  intercepted sv (server_request authorization rq) repo endpoint = None →
  dispatch (hq_Method rq) repo endpoint = Handle route → roleAllows role (hq_Method rq) endpoint = true →
  serve sv (server_request authorization rq) w = (w, Ok (Handle (mkCtx who (Some role) None, route))).
Proof.
  intros [Hp Ht Hs Hb (r & Hr & Hrole)] Hpath Hne Hi Hd Ha.
  assert (splitRepoPath (rq_Path (server_request authorization rq)) = Some (repo, endpoint)) as Hparse
    by (cbn; rewrite Hpath; by apply path_parse).
  unfold serve, parseRepoPath at 1. rewrite Hparse, bool_decide_false by apply Hp. rewrite Hi.
  change (rq_Authorization (server_request authorization rq)) with authorization. rewrite Ht, Hs.
  unfold RBACMiddleware, repoAndSubPath. rewrite Hparse, (bool_decide_false (endpoint = "")) by done.
  rewrite (bool_decide_false (repo = "")) by apply Hp. rewrite (bool_decide_false (endpoint = "")) by done. cbn [orb].
  assert (bool_decide (sv_bootstrapAdmin sv ≠ "") && bool_decide (who = sv_bootstrapAdmin sv) = false) as ->.
  { destruct Hb as [->|Hb]; [done|]. rewrite (bool_decide_false (who = _)) by done. apply andb_false_r. }
  unfold catch, mbind, M_bind. cbn [mret M_ret]. rewrite Hr, Hrole. unfold mret, M_ret.
  change (rq_Method (server_request authorization rq)) with (hq_Method rq). rewrite Ha. cbn [negb].
  rewrite (inner_repo _ _ repo endpoint) by (done || apply Hp). by rewrite Hd.
Qed.

(** ** Reads *)

Lemma hbind_run {A B} (m : H A) (f : A → H B) c w c1 w1 a :
  m c w = (c1, w1, inr a) → (m ≫= f) c w = f a c1 w1.
Proof. unfold mbind, H_bind. by intros ->. Qed.
Lemma call_run {A} (h : error → APIError) (m : M A) (c : Cache) w w' a : m w = (w', Ok a) → call h m c w = (c, w', inr a).
Proof. unfold call, callP, lift. by intros ->. Qed.
Lemma answered_run {A} (body : A → payload) (m : H (Z * A)) c w c' w' status a :
  m c w = (c', w', inr (status, a)) → answered body m c w = (c', w', inr (status, body a)).
Proof. unfold answered, run. by intros ->. Qed.

Lemma docstore_run rq c w cx route c' w' r :
  serve sv (server_request authorization rq) w = (w, Ok (Handle (cx, route))) →
  answer_route s cx rq route c w = (c', w', inr r) →
  docstore_Do s sv authorization rq (c, w) = ((c', w'), Ok r).
Proof. unfold docstore_Do. by intros -> ->. Qed.

Lemma validate_run repo c w : has_repo (w_db w) repo → Http.validateRepo repo c w = (c, w, inr tt).
Proof.
  intros (r & -> & Hr)%list_elem_of_fmap. unfold Http.validateRepo.
  rewrite (hbind_run _ _ c w c w (default r (head (filter (λ x, repo_name x = repo_name r) (db_repos (w_db w)))))); [done|].
  apply call_run. unfold GetRepo, on_error, query_row, select, gets, mbind, M_bind, mret, M_ret.
  change (t_rows repos (w_db w)) with (db_repos (w_db w)).
  destruct (filter _ (db_repos (w_db w))) as [|x l] eqn:E; [|done].
  exfalso. eapply elem_of_nil. erewrite <- E. by apply list_elem_of_filter.
Qed.

Lemma has_repo_of d b : wf_db d → b ∈ db_branches d → has_repo d (br_repo b).
Proof.
  intros Hwf Hb. pose proof (ok_fk _ _ (wf_branches _ Hwf)) as HF. rewrite Forall_forall in HF.
  specialize (HF b Hb). by apply bool_decide_eq_true in HF.
Qed.
Lemma head_unique {A} (l : list A) x : x ∈ l → (∀ y, y ∈ l → y = x) → head l = Some x.
Proof. destruct l as [|y l]; [by intros ?%elem_of_nil|]. intros _ Hl. by rewrite (Hl y ltac:(left)). Qed.

Lemma query_page branch after :
  query (page_query branch after) "branch" = branch ∧ query (page_query branch after) "at" = "" ∧
  query (page_query branch after) "limit" = "100" ∧ query (page_query branch after) "after" = after.
Proof. unfold page_query. case_bool_decide as Ha; [subst after|]; by split_and!. Qed.
Lemma limit_hundred c w : limit_query "100" c w = (c, w, inr 100).
Proof. reflexivity. Qed.

Section Shown.
Context (bs : BlobStore) (c : Cache) (w : World) (who : string) (role : role_type) (cfg : Config) (branch : string).
Context (b : Schema.branch).
Abbreviation repo := (repo_of cfg).
Abbreviation entries := (tree_entries (w_db w) repo branch None "").

(** The branch is there and ready, and the client is a member. *)
Record known : Prop := {
  kn_wf : wf w;
  kn_member : member w who repo role;
  kn_branch : b ∈ db_branches (w_db w);
  kn_repo : br_repo b = repo;
  kn_name : br_name b = branch;
  kn_ready : br_draft b = false;
}.
#[local] Instance backend : Remote Backend := docstore s sv authorization.

Lemma repoBase_path endpoint : repoBase cfg +:+ "/" +:+ endpoint = "/repos/" +:+ repo +:+ "/-/" +:+ endpoint.
Proof. unfold repoBase. by rewrite !string_app_assoc. Qed.
Lemma file_route p : dispatch "GET" repo ("file/" +:+ p) = Handle (File_ repo p).
Proof.
  unfold dispatch. rewrite !(bool_decide_false ("file/" +:+ p = _)) by done.
  rewrite (TrimPrefix_app "file/" p), (HasPrefix_app "file/" p). reflexivity.
Qed.
Lemma file_allowed p : roleAllows role "GET" ("file/" +:+ p) = true.
Proof. unfold roleAllows. by rewrite !(bool_decide_false ("file/" +:+ p = _)) by done. Qed.
Lemma file_not_intercepted p q : intercepted sv (server_request authorization (get_request cfg ("/file/" +:+ p) q)) repo ("file/" +:+ p) = None.
Proof. unfold intercepted. by rewrite !(bool_decide_false ("file/" +:+ p = _)) by done. Qed.

Section Known.
Hypothesis (Hkn : known).

(** A read of the client reaches its handler. *)
Lemma get_run endpoint q route r :
  endpoint ≠ "" → intercepted sv (server_request authorization (get_request cfg ("/" +:+ endpoint) q)) repo endpoint = None →
  dispatch "GET" repo endpoint = Handle route → roleAllows role "GET" endpoint = true →
  answer_route s (mkCtx who (Some role) None) (get_request cfg ("/" +:+ endpoint) q) route c w = (c, w, inr r) →
  http_Do (get_request cfg ("/" +:+ endpoint) q) (c, w) = ((c, w), Ok r).
Proof using Hkn.
  intros Hne Hi Hd Ha Hr. eapply docstore_run; [|exact Hr].
  eapply serve_member; [apply Hkn|exact (repoBase_path endpoint)|done..].
Qed.

Lemma repo_here : has_repo (w_db w) repo.
Proof using Hkn.
  rewrite <- (kn_repo Hkn). apply has_repo_of; [apply (kn_wf Hkn)|apply (kn_branch Hkn)].
Qed.

Lemma branch_rows : filter (λ b, br_repo b = repo ∧ br_name b = branch) (db_branches (w_db w)) = [b].
Proof using Hkn.
  destruct Hkn as [Hw _ Hb Hrep Hn _]. pose proof (wf_tables _ Hw) as Hwf.
  assert (NoDup (filter (λ b, br_repo b = repo ∧ br_name b = branch) (db_branches (w_db w)))) as HN.
  { apply NoDup_filter, (NoDup_fmap_1 br_key), branches_NoDup, Hwf. }
  assert (∀ x, x ∈ filter (λ b, br_repo b = repo ∧ br_name b = branch) (db_branches (w_db w)) ↔ x = b) as Hx.
  { intros x. rewrite list_elem_of_filter. split.
    - intros [[Hr Hn'] Hin]. apply (branch_unique (w_db w)); congruence || done.
    - by intros ->. }
  destruct (filter _ _) as [|x l]; [exfalso; by eapply not_elem_of_nil, Hx|].
  assert (x = b) as -> by (apply Hx; by left). destruct l as [|y l]; [done|]. exfalso.
  apply NoDup_cons in HN as [HN _]. apply HN. assert (y = b) as <- by (apply Hx; right; left). left.
Qed.

Lemma branches_get : ∃ l,
  http_Do (get_request cfg "/branches" []) (c, w) = ((c, w), Ok (200, P_Branches l)) ∧
  find_branch branch l = Some (branch_info b).
Proof using Hkn.
  destruct Hkn as [Hw _ Hb Hrep Hn Hdraft]. pose proof (wf_tables _ Hw) as Hwf.
  exists (branch_info <$> order_by br_name (filter (λ b, listed repo None false false b) (db_branches (w_db w)))). split.
  - apply (get_run "branches" _ (Server.Branches repo)); [done|done|done|by destruct role|].
    unfold answer_route. apply answered_run. unfold handleBranches.
    rewrite (hbind_run _ _ _ _ _ _ _ (validate_run _ c w repo_here)). done.
  - unfold find_branch. apply head_unique.
    + apply list_elem_of_filter. split; [done|]. apply list_elem_of_fmap_2, order_by_elem.
      apply list_elem_of_filter. split; [|done]. unfold listed. cbn.
      by rewrite Hdraft, bool_decide_true.
    + intros y [Hy (b' & -> & Hb')%list_elem_of_fmap]%list_elem_of_filter.
      apply order_by_elem, list_elem_of_filter in Hb' as [Hl Hb'].
      unfold listed in Hl. cbn in Hl. rewrite andb_true_r in Hl.
      apply andb_prop_elim in Hl as [Hl _]. apply bool_decide_unpack in Hl.
      f_equal. cbn in Hy. apply (branch_unique (w_db w)); congruence || done.
Qed.
End Known.

(** The branch is there, ready, its files can be read, and their paths are not
    taken for requests of a history. *)
Record shown : Prop := {
  sh_readable : readable s bs repo w;
  sh_member : member w who repo role;
  sh_branch : b ∈ db_branches (w_db w);
  sh_repo : br_repo b = repo;
  sh_name : br_name b = branch;
  sh_ready : br_draft b = false;
  sh_named : branch ≠ "";
  sh_paths : Forall (λ e, te_Path e ≠ "" ∧ HasSuffix (te_Path e) "/history" = false) entries;
}.
Lemma shown_known : shown → known.
Proof. intros [Hrd Hm Hb Hr Hn Hd _ _]. split; try done. apply Hrd. Qed.
Hypothesis (Hsh : shown).
#[local] Abbreviation Hkn := (shown_known Hsh).

Lemma tree_get k : (k ≤ length entries)%nat →
  http_Do (get_request cfg "/tree" (page_query branch (after_of entries k))) (c, w)
  = ((c, w), Ok (200, P_Tree (take 100 (drop k entries)))).
Proof using Hsh.
  intros Hk. apply (get_run Hkn "tree" _ (Tree repo)); [done|done|done|by destruct role|].
  unfold answer_route, get_request. cbn [hq_Query]. destruct (query_page branch (after_of entries k)) as (-> & -> & -> & ->).
  apply answered_run. unfold handleTree. rewrite (hbind_run _ _ _ _ _ _ _ (validate_run _ c w (repo_here Hkn))).
  rewrite (hbind_run _ _ c w c w None) by done. rewrite (hbind_run _ _ _ _ _ _ _ (limit_hundred c w)).
  unfold branch_or_main, empty. rewrite bool_decide_false by apply Hsh.
  rewrite (hbind_run _ _ c w c w (take 100 (tree_entries (w_db w) repo branch None (after_of entries k)))) by done.
  replace (tree_entries (w_db w) repo branch None (after_of entries k)) with (drop k entries); [done|].
  destruct k as [|k]; [done|]. cbn [after_of]. destruct (entries !! k) as [e|] eqn:Ek; [|apply lookup_ge_None in Ek; lia].
  cbn [from_option]. symmetry. apply tree_entries_drop; [apply (rd_wf _ _ _ _ (sh_readable Hsh))|done|].
  pose proof (sh_paths Hsh) as HF. rewrite Forall_forall in HF. by apply HF, (list_elem_of_lookup_2 _ k).
Qed.

Lemma file_get e f : e ∈ entries → got s repo branch w None e f →
  ∃ fc, http_Do (get_request cfg ("/file/" +:+ te_Path e) [("branch", branch)]) (c, w)
      = ((c, w), Ok (200, P_File (FileJSON fc))) ∧ str_or_empty (fl_Content fc) = f.2.
Proof using Hsh.
  intros He [_ (fc & Hf & Hc)]. exists fc. split; [|by rewrite Hc].
  apply (get_run Hkn ("file/" +:+ te_Path e) _ (File_ repo (te_Path e)));
    [done|apply file_not_intercepted|apply file_route|apply file_allowed|].
  unfold answer_route, get_request. cbn [hq_Query].
  change (query [("branch", branch)] "branch") with branch.
  apply answered_run. unfold handleFile. rewrite (hbind_run _ _ _ _ _ _ _ (validate_run _ c w (repo_here Hkn))).
  pose proof (sh_paths Hsh) as HF. rewrite Forall_forall in HF. destruct (HF e He) as [_ Hh].
  unfold HasSuffix in Hh. apply bool_decide_eq_false in Hh.
  destruct (CutSuffix (te_Path e) "/history"); [by destruct Hh|].
  unfold handleFileContent. rewrite (hbind_run _ _ c w c w None) by done.
  unfold branch_or_main, empty. rewrite (bool_decide_false (branch = "")) by apply Hsh.
  by rewrite (hbind_run _ _ _ _ _ _ _ (call_run _ _ c _ _ _ Hf)).
Qed.

Lemma archive_get files : writeArchive s repo branch 0 w = (w, Ok files) →
  http_Do (get_request cfg "/archive" [("branch", branch)]) (c, w) = ((c, w), Ok (200, P_Archive files)).
Proof using Hsh.
  intros Hw. apply (get_run Hkn "archive" _ (Archive repo)); [done|done|done|by destruct role|].
  unfold answer_route, get_request. cbn [hq_Query]. change (query [("branch", branch)] "branch") with branch.
  change (P_Archive files) with (archive_body (Ok files)). apply answered_run.
  unfold handleArchive. rewrite (hbind_run _ _ _ _ _ _ _ (validate_run _ c w (repo_here Hkn))).
  rewrite (hbind_run _ _ c w c w tt) by (unfold guard, empty; by rewrite bool_decide_false by apply Hsh).
  rewrite (hbind_run _ _ c w c w 0) by done.
  rewrite (hbind_run _ _ c w c w (Some (branch_info b))).
  2: { apply call_run. unfold GetBranch, select, gets, mbind, M_bind. cbn. by rewrite (branch_rows Hkn). }
  rewrite (hbind_run _ _ c w c w (Ok files)); [done|].
  unfold attempt, lift. by rewrite Hw.
Qed.

(** The server shows the branch as its tree, with the contents of its versions. *)
Lemma docstore_serves : ∃ files,
  Serves (Rm := backend) (c, w) cfg branch entries files (br_head_sequence b).
Proof using Hsh.
  pose proof (sh_readable Hsh) as Hrd. pose proof (sh_paths Hsh) as HF. rewrite Forall_forall in HF.
  destruct (writeArchive_run s bs repo branch w Hrd 0) as (files & Hw & Hf).
  { intros e He. by apply HF. }
  exists files. split.
  - eapply Forall2_impl; [exact Hf|]. by intros e f [].
  - apply tree_entries_NoDup, (rd_wf _ _ _ _ Hrd).
  - apply Forall_forall. intros e He. by apply HF.
  - apply tree_get.
  - intros p ct [i Hi]%list_elem_of_lookup. destruct (Forall2_lookup_r _ _ _ _ _ Hf Hi) as (e & He & Hg).
    assert (p = te_Path e) as -> by apply Hg. apply (file_get e (te_Path e, ct)); [by eapply list_elem_of_lookup_2|done].
  - by apply archive_get.
  - destruct (branches_get Hkn) as (l & Hl & Hb). exists l. by rewrite Hb.
Qed.
End Shown.
End Instance.
