(* ===== verification/PublishSpec.v ===== *)
(** * Committing the working copy

    [Commit] of the command line publishes the working copy: when it succeeds,
    the tree of the branch on the server is the working copy, and the working
    copy counts as clean; when it fails, the workspace is as it was. *)

From S2P Require Import Prelude GoStd Schema Tx Run Integrity Orgs Blob Commits Merge ReadStore Views Chain.
From S2P Require Import Samples CommitSpec MergeSpec TreeSpec EventTypes Events Server Policy PolicySpec.
From S2P Require Import ServerSpec Http Handlers Handlers2 Handlers3 Guarantee Effects HandlersSpec Secrets.
From S2P Require Import SecretsSpec Api ArchiveSpec Client ClientServer SyncSpec.
From S2P Require Service.

(** ** The tree as a map *)

Section Tree.
Context {Co : Collation} {Mr : MapRange} {Us : UuidSource}.
Implicit Types d : DB.

(** From the paths of a branch to the hashes of their contents. *)
Definition tree_map d (repo branch : string) : gmap string string :=
  server_files (tree_entries d repo branch None "").

(** The hash of the version that a branch shows at a path. *)
Definition shows d (repo branch p h : string) : Prop :=
  ∃ v doc, view d repo branch None p = Some v ∧ doc ∈ db_documents d ∧ doc_version_id doc = v ∧
    doc_repo doc = repo ∧ doc_content_hash doc = h.

Lemma tree_map_lookup d repo branch p h :
  wf_db d → distinct_paths d repo → tree_map d repo branch !! p = Some h ↔ shows d repo branch p h.
Proof.
  intros Hwf Hu. pose proof (tree_entries_NoDup d repo branch None "" Hwf) as HN. unfold tree_map, server_files. split.
  - intros Hp. destruct (decide (p ∈ te_Path <$> tree_entries d repo branch None "")) as [(e & -> & He)%list_elem_of_fmap|Hn].
    + rewrite (foldl_insert_in te_Path te_ContentHash) in Hp by done. injection Hp as <-.
      apply tree_entries_elem in He as (_ & Hv & doc & Hd & Hr & Hver & Hh); [|done]. by exists (te_VersionID e), doc.
    + rewrite (foldl_insert_out te_Path te_ContentHash) in Hp; [done|].
      intros e He <-. by apply Hn, list_elem_of_fmap_2.
  - intros (v & doc & Hv & Hd & Hver & Hr & Hh).
    apply (foldl_insert_in te_Path te_ContentHash _ ∅ (mkTreeEntry p v h)); [done|].
    apply tree_entries_elem; [done|]. split_and!; [by left|done|by exists doc].
Qed.

Lemma tree_map_none d repo branch p :
  wf_db d → distinct_paths d repo → view d repo branch None p = None → tree_map d repo branch !! p = None.
Proof.
  intros Hwf Hu Hv. destruct (tree_map d repo branch !! p) as [h|] eqn:E; [|done].
  apply tree_map_lookup in E as (v & doc & Hv' & _); [congruence|done..].
Qed.

Lemma Commit_wf sto req w w1 r : wf w → Commits.Commit sto req w = (w1, r) → wf w1.
Proof. intros Hwf E. pose proof (preserves_wf _ w (Commit_preserves sto req) Hwf) as H. by rewrite E in H. Qed.

(** A commit keeps the paths of each sequence distinct. *)
Lemma Commit_distinct st req w w' resp repo :
  wf w → NoDup (ch_Path <$> cq_Files req) → distinct_paths (w_db w) repo →
  Commits.Commit st req w = (w', Ok resp) → distinct_paths (w_db w') repo.
Proof.
  intros Hwf HN Hu E. destruct (Commit_committed _ _ _ _ _ Hwf E) as (_ & docs & rows & outs & Hc).
  pose proof (committed_unambiguous _ _ _ _ _ _ _ Hc HN) as Hnew. unfold distinct_paths in *.
  rewrite (committed_file_commits _ _ _ _ _ _ _ Hc). intros r r' [Hr Hin]%list_elem_of_filter [Hr' Hin']%list_elem_of_filter Hp Hs.
  apply elem_of_app in Hin as [Hin|Hin]; apply elem_of_app in Hin' as [Hin'|Hin'].
  - apply Hu; [by apply list_elem_of_filter..|done|done].
  - pose proof (wf_file_commit_seq _ _ Hwf Hin). apply (committed_row_new _ _ _ _ _ _ _ Hc) in Hin' as (_ & _ & ?). lia.
  - pose proof (wf_file_commit_seq _ _ Hwf Hin'). apply (committed_row_new _ _ _ _ _ _ _ Hc) in Hin as (_ & _ & ?). lia.
  - by apply Hnew.
Qed.

(** The version a branch shows is that of a document, and of one only. *)
Lemma view_document d repo branch at_ p v :
  wf_db d → view d repo branch at_ p = Some v → ∃ doc, doc ∈ db_documents d ∧ doc_version_id doc = v.
Proof.
  intros Hwf. unfold view. destruct (newest _ p) as [r|] eqn:En; [|done]. cbn. intros Hv.
  apply newest_spec in En as (Hr & _). apply visible_elem in Hr as [Hr _].
  pose proof (ok_fk _ _ (wf_file_commits _ Hwf)) as HF. rewrite Forall_forall in HF. specialize (HF r Hr).
  apply bool_decide_eq_true in HF as (_ & HF & _). rewrite Hv in HF.
  apply list_elem_of_fmap in HF as (doc & E & Hd). by exists doc.
Qed.
Lemma document_unique d x y :
  wf_db d → x ∈ db_documents d → y ∈ db_documents d → doc_version_id x = doc_version_id y → x = y.
Proof.
  intros Hwf. apply NoDup_fmap_inj, (unique_NoDup (t_clash documents)); [|apply Hwf].
  intros a b E. by apply bool_decide_eq_true.
Qed.

(** What a commit does to the tree. *)
Lemma Commit_tree_map st req w w' resp :
  wf w → NoDup (ch_Path <$> cq_Files req) → distinct_paths (w_db w) (cq_Repo req) →
  Commits.Commit st req w = (w', Ok resp) →
  (∀ f, f ∈ cq_Files req →
     tree_map (w_db w') (cq_Repo req) (cq_Branch req) !! ch_Path f = sha256_hex <$> ch_Content f) ∧
  (∀ p, p ∉ ch_Path <$> cq_Files req →
     tree_map (w_db w') (cq_Repo req) (cq_Branch req) !! p = tree_map (w_db w) (cq_Repo req) (cq_Branch req) !! p).
Proof.
  intros Hwf HN Hu E. pose proof (Commit_distinct _ _ _ _ _ _ Hwf HN Hu E) as Hu'.
  pose proof (Commit_wf _ _ _ _ _ Hwf E) as Hwf'.
  destruct (Commit_files_shown _ _ _ _ _ Hwf HN E) as [Hf Ho]. split.
  - intros f Hin. specialize (Hf f Hin). destruct (ch_Content f) as [content|]; cbn.
    + destruct Hf as (v & Hv & doc & Hd & Hver & Hr & Hh). apply tree_map_lookup; [apply Hwf'|done|]. by exists v, doc.
    + by apply tree_map_none; [apply Hwf'|..].
  - intros p Hp. specialize (Ho p Hp). apply option_eq. intros h.
    rewrite !tree_map_lookup by (done || apply Hwf || apply Hwf'). unfold shows. rewrite Ho.
    destruct (Commit_committed _ _ _ _ _ Hwf E) as (_ & docs & rows & outs & Hc).
    pose proof (committed_documents _ _ _ _ _ _ _ Hc) as Hdocs. split.
    + intros (v & doc & Hv & Hd & Hver & Hr & Hh). exists v, doc. split_and!; try done.
      destruct (view_document _ _ _ _ _ _ (wf_tables _ Hwf) Hv) as (doc0 & Hd0 & Hv0).
      assert (doc = doc0) as ->; [|done].
      apply (document_unique (w_db w')); [apply Hwf'|done| |congruence]. rewrite Hdocs. apply elem_of_app. by left.
    + intros (v & doc & Hv & Hd & Hver & Hr & Hh). exists v, doc. split_and!; try done.
      rewrite Hdocs. apply elem_of_app. by left.
Qed.
End Tree.

(** ** The handler *)

Section Handler.
Context {Co : Collation} {Mr : MapRange} {Op : OPA} {Us : UuidSource}.
Variable s : server.

Lemma GetRepo_reads name : reads (GetRepo name).
Proof. unfold GetRepo. solve_reads. Qed.

(** Events were logged, and nothing else happened. *)
Record logged (w w' : World) : Prop := {
  lg_tables : without_events (w_db w') = without_events (w_db w);
  lg_blobs : w_blobs w' = w_blobs w;
  lg_wf : wf w → wf w';
}.
#[local] Instance same_blobs_preorder : PreOrder (λ w w', w_blobs w' = w_blobs w).
Proof. split; [done|]. by intros w1 w2 w3 -> ->. Qed.
Lemma emit_logged e c w : ∃ w', emit s e c w = (c, w', inr tt) ∧ logged w w'.
Proof.
  destruct (emit_run s e c w) as (w' & E & Ht). exists w'. split; [done|].
  revert E. unfold emit, callP, Service.emit. destruct (Service.svc_emitter _) as [b|]; [|by intros [= <-]].
  unfold lift. destruct (Events.Emit b e w) as [w1 [[]|err]] eqn:E; [|done]. intros [= <-]. split; [done| |].
  - assert (moves (λ w w', w_blobs w' = w_blobs w) (Events.Emit b e)) as Hm; [|specialize (Hm w); by rewrite E in Hm].
    clear. unfold Events.Emit. solve_moves; intros w; unfold moves; cbn; repeat case_match; done.
  - intros Hwf. pose proof (preserves_wf _ w (Emit_preserves b e) Hwf) as H. by rewrite E in H.
Qed.

(** A commit that the handler answers was made by the store for the identity of
    the request; only events came after. *)
Lemma handleCommit_ok cx name body c w c' w' status resp :
  handleCommit s cx name body c w = (c', w', inr (status, resp)) →
  status = 201 ∧ ∃ req w1, body = Some req ∧
    Commits.Commit (Service.svc_store (sr_svc s))
      (mkCommitRequest name (cq_Branch req) (cq_Files req) (cq_Message req) (cx_identity cx)) w = (w1, Ok resp) ∧
    logged w1 w'.
Proof.
  unfold handleCommit. intros (c1 & w1 & u & Hv & E)%hbind_ok.
  apply hbind_ok in Hv as (c2 & w2 & r & [-> Hr]%call_ok & (-> & -> & _)%hret_ok).
  apply (reads_run _ _ _ _ (GetRepo_reads name)) in Hr as ->.
  apply hbind_ok in E as (c3 & w3 & req & (-> & -> & ->)%decode_ok & E).
  do 5 (apply hbind_ok in E as (? & ? & ? & (-> & -> & _)%guard_ok & E)).
  apply hbind_ok in E as (c4 & w4 & resp' & E1%callP_ok & (-> & -> & [= -> ->])%hret_ok).
  split; [done|]. exists req. revert E1. unfold Service.Commit. cbn [cq_Repo cq_Branch cq_Files cq_Message].
  unfold mbind, PM_bind. unfold lift at 1. destruct (Commits.Commit _ _ w) as [wc [r'|e]] eqn:Ec; [|done].
  assert (∀ c1, (if bool_decide (cq_Branch req = "main") then Service.invalidatePolicy name else mret tt) c1 wc
                = ((if bool_decide (cq_Branch req = "main") then Invalidate name c1 else c1), wc, Ok tt)) as Hinv
    by (intros; by case_bool_decide).
  rewrite Hinv. set (c5 := if bool_decide (cq_Branch req = "main") then Invalidate name c else c). set (ev := CommitCreated _ _ _ _ _ _).
  destruct (emit_logged ev c5 wc) as (we & Ee & Hw). unfold emit in Ee. apply callP_ok in Ee. rewrite Ee.
  intros [= <- <- <-]. exists wc. split_and!; [done..|exact Hw].
Qed.
End Handler.

(** ** The command *)

Section Publish.
Context {Co : Collation} {Mr : MapRange} {Op : OPA} {Us : UuidSource} {En : Encryptor} {Tk : Tokens}.
Context (s : server) (sv : ServerConfig) (authorization : string).
Context {Fs : FileSystem} {Fp : Permissive} {Mi : Mime}.
#[local] Instance backend : Remote Backend := docstore s sv authorization.
Implicit Types (a : App) (st : State) (cfg : Config).

Lemma logged_tree w w' repo branch : logged w w' → tree_map (w_db w') repo branch = tree_map (w_db w) repo branch.
Proof. intros [Ht _ _]. change (tree_map (w_db w')) with (tree_map (without_events (w_db w'))). by rewrite Ht. Qed.

Lemma logged_commits w w' : logged w w' → db_commits (w_db w') = db_commits (w_db w).
Proof. intros [Ht _ _]. change (db_commits (w_db w')) with (db_commits (without_events (w_db w'))). by rewrite Ht. Qed.

(** The change that [Commit] makes of a path. *)
Definition change_of (files : gmap string string) (p : string) : FileChange :=
  mkFileChange p (Some (default "" (files !! p))) (detectContentType p (default "" (files !! p))).
Lemma read_changes_run ps a (b : Backend) :
  (∀ p, p ∈ ps → local_path p = p ∧ ∃ c, app_Files a !! p = Some c) →
  read_changes ps a b = (a, b, Ok (change_of (app_Files a) <$> ps)).
Proof using Fp.
  induction ps as [|p ps IH]; intros Hp; [done|]. cbn [read_changes].
  destruct (Hp p) as [Hl (ct & Hc)]; [by left|].
  rewrite (cbind_run _ _ a b a b ct).
  - rewrite (cbind_run _ _ _ _ _ _ _ (IH ltac:(intros; apply Hp; by right))). cbn. unfold change_of. by rewrite Hc.
  - unfold ReadFile. rewrite (cbind_run _ _ a b a b (app_Files a)) by done. unfold read_file. by rewrite fs_permits, Hl, Hc.
Qed.

(** The request of a commit, and what an answer to it means. *)
Lemma post_commit_run cfg who role c w files message a a' b' r :
  member sv authorization w who (repo_of cfg) role → roleAllows role "POST" "commit" = true →
  post_commit cfg files message a (c, w) = (a', b', r) →
  a' = a ∧ match r with
  | Fail _ => True
  | Ok resp => ∃ w1,
      Commits.Commit (Service.svc_store (sr_svc s))
        (mkCommitRequest (repo_of cfg) (cf_Branch cfg) (wire_change <$> files) message who) w = (w1, Ok resp) ∧
      logged w1 b'.2
  end.
Proof.
  intros Hm Ha. unfold post_commit, postJSON, doRequest.
  set (rq := mkHttp "POST" (repoBase cfg +:+ "/commit") [] _ _).
  assert (serve sv (server_request authorization rq) w = (w, Ok (Handle (mkCtx who (Some role) None, Commit_ (repo_of cfg))))) as Hserve.
  { by apply (serve_member sv authorization w who (repo_of cfg) role "commit"); [|apply repoBase_path|..]. }
  unfold mbind, C_bind. change (http_Do rq (c, w)) with (docstore_Do s sv authorization rq (c, w)).
  unfold docstore_Do. rewrite Hserve. unfold answer_route, answered, run. cbn [hq_Body rq].
  destruct (handleCommit s _ _ _ c w) as [[c' w'] [f|[status resp]]] eqn:E.
  - cbn [fst]. destruct (negb _); [by intros [= <- <- <-]|]. unfold decoded. by intros [= <- <- <-].
  - apply handleCommit_ok in E as (-> & req & w1 & [= <-] & Hc & Hw). cbn. intros [= <- <- <-].
    split; [done|]. by exists w1.
Qed.
(** The changes of [Commit], before they are sorted: one for each path that
    differs from the last synchronisation. *)
Definition changes st (files : gmap string string) : list FileChange :=
  (change_of files <$> (map_range 0 (changed_files st (scan files))).*1)
  ++ ((λ p, mkFileChange p None "") <$> (map_range 0 (deleted_files st (scan files))).*1).

Lemma keys_range_elem i (m : gmap string string) p : p ∈ (map_range i m).*1 ↔ ∃ h, m !! p = Some h.
Proof.
  rewrite (map_range_perm i m), list_elem_of_fmap. split.
  - intros ([q h] & -> & Hh%elem_of_map_to_list). by exists h.
  - intros (h & Hh). exists (p, h). split; [done|by apply elem_of_map_to_list].
Qed.
Lemma keys_range_NoDup i (m : gmap string string) : NoDup (map_range i m).*1.
Proof. rewrite (map_range_perm i m). apply NoDup_fst_map_to_list. Qed.

Lemma changes_path_list st files :
  ch_Path <$> changes st files
  = (map_range 0 (changed_files st (scan files))).*1 ++ (map_range 0 (deleted_files st (scan files))).*1.
Proof.
  unfold changes. rewrite fmap_app. f_equal.
  - induction (map_range 0 (changed_files _ _)).*1 as [|p l IH]; [done|]. by rewrite !fmap_cons, IH.
  - induction (map_range 0 (deleted_files _ _)).*1 as [|p l IH]; [done|]. by rewrite !fmap_cons, IH.
Qed.
Lemma changes_paths st files p :
  p ∈ ch_Path <$> changes st files ↔ st_Files st !! p ≠ scan files !! p.
Proof.
  rewrite changes_path_list, elem_of_app, !keys_range_elem. split.
  - intros [(h & [Hl Hn]%changed_lookup)|(h & [Hl Hn]%deleted_lookup)]; congruence.
  - intros Hne. destruct (scan files !! p) as [h|] eqn:Hs.
    + left. exists h. by apply changed_lookup.
    + right. destruct (st_Files st !! p) as [h|] eqn:Hst; [|done]. exists h. by apply deleted_lookup.
Qed.
Lemma changes_NoDup st files : NoDup (ch_Path <$> changes st files).
Proof.
  rewrite changes_path_list. apply NoDup_app. split_and!; [apply keys_range_NoDup| |apply keys_range_NoDup].
  intros p (h & [Hl _]%changed_lookup)%keys_range_elem (h' & [_ Hn]%deleted_lookup)%keys_range_elem. congruence.
Qed.
(** On the wire, a change says what the working copy has at its path, if no file
    that changed is empty. *)
Lemma changes_wire st files f :
  (∀ p, files !! p = Some "" → st_Files st !! p = Some (HashBytes "")) →
  f ∈ changes st files → HashBytes <$> ch_Content (wire_change f) = scan files !! ch_Path f.
Proof.
  intros Hne. unfold changes. rewrite elem_of_app, !list_elem_of_fmap.
  intros [(p & -> & (h & [Hl Hn]%changed_lookup)%keys_range_elem)|(p & -> & (h & [Hl Hn]%deleted_lookup)%keys_range_elem)];
    cbn [change_of ch_Path]; [|by rewrite Hn].
  rewrite Hl. apply scan_lookup in Hl as (c & Hc & _ & ->). unfold change_of, wire_change. cbn [ch_Content ch_Path].
  rewrite Hc. cbn. destruct c; [|done]. by destruct Hn; apply Hne.
Qed.

Lemma sort_changes_perm l : sort_changes l ≡ₚ l.
Proof. unfold sort_changes, order_by. apply merge_sort_Permutation. Qed.

Lemma request_paths st files :
  ch_Path <$> (wire_change <$> sort_changes (changes st files)) ≡ₚ ch_Path <$> changes st files.
Proof.
  rewrite sort_changes_perm. induction (changes st files) as [|f l IH]; [done|].
  rewrite !fmap_cons. by apply Permutation_cons.
Qed.
Lemma request_NoDup st files : NoDup (ch_Path <$> (wire_change <$> sort_changes (changes st files))).
Proof. rewrite request_paths. apply changes_NoDup. Qed.

(** A workspace that was synchronised with its branch: its state has the tree, the
    paths on the disk are clean, and no file that changed since is empty. *)
Record synchronised (w : World) a cfg st : Prop := {
  sy_config : app_Config a = Some cfg;
  sy_state : app_State a = Some st;
  sy_tree : st_Files st = tree_map (w_db w) (repo_of cfg) (cf_Branch cfg);
  sy_clean p ct : app_Files a !! p = Some ct → local_path p = p;
  sy_empty p : app_Files a !! p = Some "" → st_Files st !! p = Some (HashBytes "");
}.

(** The request that [Commit] sends makes the tree the working copy. *)
Lemma changes_applied cfg st files who message w w1 resp :
  wf w → distinct_paths (w_db w) (repo_of cfg) → st_Files st = tree_map (w_db w) (repo_of cfg) (cf_Branch cfg) →
  (∀ p, files !! p = Some "" → st_Files st !! p = Some (HashBytes "")) →
  Commits.Commit (Service.svc_store (sr_svc s))
    (mkCommitRequest (repo_of cfg) (cf_Branch cfg) (wire_change <$> sort_changes (changes st files)) message who) w
    = (w1, Ok resp) →
  tree_map (w_db w1) (repo_of cfg) (cf_Branch cfg) = scan files.
Proof.
  intros Hwf Hu Hst Hne E.
  pose proof (request_paths st files) as Hp. pose proof (request_NoDup st files) as HN.
  set (req := mkCommitRequest _ _ _ _ _) in E. destruct (Commit_tree_map _ req _ _ _ Hwf HN Hu E) as [Hf Ho].
  cbn [req cq_Repo cq_Branch cq_Files] in *. apply map_eq. intros p.
  destruct (decide (p ∈ ch_Path <$> changes st files)) as [Hin|Hout].
  - apply list_elem_of_fmap in Hin as (f & -> & Hin). rewrite <- (changes_wire st files f Hne Hin).
    apply (Hf (wire_change f)). apply list_elem_of_fmap_2. by rewrite sort_changes_perm.
  - rewrite Ho by (by rewrite Hp). rewrite <- Hst. rewrite changes_paths in Hout. by apply dec_stable.
Qed.

(** What [Commit] does: the request, and the state it records. *)
Lemma Commit_run cfg who role c w st message a a' b' r :
  member sv authorization w who (repo_of cfg) role → roleAllows role "POST" "commit" = true →
  app_Config a = Some cfg → app_State a = Some st →
  (∀ p ct, app_Files a !! p = Some ct → local_path p = p) →
  Client.Commit message a (c, w) = (a', b', r) →
  match r with
  | Fail _ => a' = a
  | Ok _ => ∃ w1 resp,
      Commits.Commit (Service.svc_store (sr_svc s))
        (mkCommitRequest (repo_of cfg) (cf_Branch cfg) (wire_change <$> sort_changes (changes st (app_Files a))) message who) w
        = (w1, Ok resp) ∧
      logged w1 b'.2 ∧ app_Files a' = app_Files a ∧ app_Config a' = Some cfg ∧
      app_State a' = Some (mkState (cf_Branch cfg) (cp_Sequence resp) (scan (app_Files a))
        (if bool_decide (cp_CommitHash resp ≠ "") then cp_CommitHash resp else st_CommitHash st))
  end.
Proof.
  intros Hm Ha Hcfg Hst Hclean. unfold Client.Commit.
  rewrite (cbind_run _ _ _ _ _ _ _ (loadConfig_run a (c, w) cfg Hcfg)).
  rewrite (cbind_run _ _ _ _ _ _ _ (loadState_run a (c, w) st Hst)).
  rewrite (cbind_run _ _ _ _ _ _ _ (cwrap_run _ _ _ _ _ _ _ (scan_dir_run a (c, w)))).
  assert (∀ p, p ∈ (map_range 0 (changed_files st (scan (app_Files a)))).*1 →
    local_path p = p ∧ ∃ ct, app_Files a !! p = Some ct) as Hread.
  { intros p (h & [Hl _]%changed_lookup)%keys_range_elem. apply scan_lookup in Hl as (ct & Hct & _). eauto. }
  rewrite (cbind_run _ _ _ _ _ _ _ (read_changes_run _ a (c, w) Hread)).
  fold (changes st (app_Files a)). case_bool_decide as Hnil; [by intros [= <- <- <-]|].
  destruct (post_commit cfg (sort_changes (changes st (app_Files a))) message a (c, w)) as [[a1 b1] r1] eqn:E.
  destruct (post_commit_run cfg who role c w _ message a a1 b1 r1 Hm Ha E) as [-> Hr].
  destruct r1 as [resp|e]; [|rewrite (cbind_fail _ _ _ _ _ _ _ E); by intros [= <- <- <-]].
  rewrite (cbind_run _ _ _ _ _ _ _ E). destruct Hr as (w1 & Hc & Hw).
  set (state := mkState _ _ _ _). set (warn := if bool_decide _ then _ else print _).
  assert (∃ a2, warn a b1 = (a2, b1, Ok tt) ∧ app_Config a2 = app_Config a ∧ app_Files a2 = app_Files a) as (a2 & E2 & Hc2 & Hf2).
  { unfold warn. case_bool_decide; by eexists. }
  rewrite (cbind_run _ _ _ _ _ _ _ E2), (cbind_run _ _ _ _ _ _ _ (saveState_run state a2 b1)).
  intros [= <- <- <-]. exists w1, resp. cbn [app_Files app_State app_Config]. rewrite Hc2.
  by split_and!.
Qed.

(** C11: a commit publishes the working copy.  For a member who may commit, in a
    workspace that was synchronised with the branch, [Commit] either fails and leaves the workspace as it was, or
    succeeds; then the tree of the branch on the server is the working copy, files
    that were removed included, the state records that tree at the sequence of the
    commit with its hash, no file on the disk has changed, and the working copy
    counts as clean. *)
Theorem Commit_publishes cfg who role c w st message a a' b' r :
  wf w → distinct_paths (w_db w) (repo_of cfg) →
  member sv authorization w who (repo_of cfg) role → roleAllows role "POST" "commit" = true →
  synchronised w a cfg st →
  Client.Commit message a (c, w) = (a', b', r) →
  match r with
  | Fail _ => a' = a
  | Ok _ => ∃ x h,
      app_Files a' = app_Files a ∧
      tree_map (w_db b'.2) (repo_of cfg) (cf_Branch cfg) = scan (app_Files a) ∧
      x ∈ db_commits (w_db b'.2) ∧ c_message x = message ∧ c_author x = who ∧ c_commit_hash x = Some h ∧
      app_State a' = Some (mkState (cf_Branch cfg) (c_sequence x) (scan (app_Files a)) h) ∧
      isDirty a' b' = (a', b', Ok false)
  end.
Proof.
  intros Hwf Hu Hm Ha [Hcfg Hst Htree Hclean Hne] E.
  pose proof (Commit_run _ _ _ _ _ _ _ _ _ _ _ Hm Ha Hcfg Hst Hclean E) as Hr. destruct r as [u|e]; [|done].
  destruct Hr as (w1 & resp & Hc & Hl & Hf & _ & Hs).
  destruct (Commit_committed _ _ _ _ _ Hwf Hc) as (_ & docs & rows & outs & Hcm).
  rewrite bool_decide_true in Hs by (rewrite (cm_hash _ _ _ _ _ _ _ Hcm); apply sha256_hex_nonempty).
  exists (mkCommit (cp_Sequence resp) (cf_Branch cfg) message who (w_now w / 1000 * 1000) (repo_of cfg)
    (Some (cp_CommitHash resp))), (cp_CommitHash resp).
  split_and!; [done| | |done..|].
  - rewrite (logged_tree w1) by done. by eapply changes_applied.
  - rewrite (logged_commits w1), (cm_db _ _ _ _ _ _ _ Hcm) by done. apply elem_of_app. right. left.
  - rewrite (isDirty_run _ _ _ Hs), Hf. do 2 f_equal. by apply dirty_false.
Qed.
End Publish.

(** ** Another workspace *)

(** The tree of a list of distinct paths has as many. *)
Lemma server_files_size es : NoDup (te_Path <$> es) → size (server_files es) = length es.
Proof.
  unfold server_files. intros HN.
  assert (∀ m : gmap string string, (∀ e, e ∈ es → m !! te_Path e = None) →
    size (foldl (λ m e, <[te_Path e := te_ContentHash e]> m) m es) = (size m + length es)%nat) as Hs; [|by rewrite Hs].
  induction es as [|e es IH]; intros m Hm; cbn [foldl length]; [lia|].
  apply NoDup_cons in HN as [Hn HN]. rewrite IH; [|done|].
  - rewrite map_size_insert_None by (apply Hm; by left). lia.
  - intros e' He'. rewrite lookup_insert_ne; [apply Hm; by right|]. intros Heq. apply Hn. rewrite Heq. by apply list_elem_of_fmap_2.
Qed.

Section Fetch.
Context {Co : Collation} {Mr : MapRange} {Op : OPA} {Us : UuidSource} {En : Encryptor} {Tk : Tokens}.
Context (s : server) (sv : ServerConfig).
Context {Fs : FileSystem} {Fp : Permissive} {Mi : Mime}.
Implicit Types (a : App) (st : State) (cfg : Config).

(** A path that a working copy can hold and that can be asked for. *)
Definition portable (p : string) : Prop := plain p ∧ HasSuffix p "/history" = false.
Lemma portable_named p : portable p → p ≠ "".
Proof. intros [[Hl _] _] ->. by vm_compute in Hl. Qed.

(** A checkout from the API server. *)
Lemma Checkout_run authorization bs c w who role cfg branch b fuel a st :
  app_Config a = Some cfg → app_State a = Some st → plain_state st →
  shown s sv authorization bs w who role cfg branch b →
  Forall plain (te_Path <$> tree_entries (w_db w) (repo_of cfg) branch None "") →
  (size (tree_map (w_db w) (repo_of cfg) branch) < 100 * fuel)%nat →
  if dirty st (scan (app_Files a))
  then Checkout (Rm := docstore s sv authorization) fuel branch a (c, w) = (a, (c, w), Fail dirty_error) else
  ∃ a', Checkout (Rm := docstore s sv authorization) fuel branch a (c, w) = (a', (c, w), Ok tt) ∧
    app_Config a' = Some (with_branch branch cfg) ∧
    app_State a' = Some (mkState branch (br_head_sequence b) (tree_map (w_db w) (repo_of cfg) branch) (st_CommitHash st)) ∧
    scan (app_Files a') = tree_map (w_db w) (repo_of cfg) branch.
Proof using Fp.
  intros Hcfg Hst Hpl Hsh Hplain Hf.
  destruct (docstore_serves s sv authorization bs c w who role (with_branch branch cfg) branch b) as (files & Hs); [by destruct Hsh|].
  unfold tree_map in Hf. rewrite server_files_size in Hf.
  - exact (Checkout_served (Rm := docstore s sv authorization) fuel branch a (c, w) cfg st _ files _ Hcfg Hst Hpl Hs Hplain Hf).
  - apply tree_entries_NoDup, (rd_wf _ _ _ _ (sh_readable _ _ _ _ _ _ _ _ _ _ Hsh)).
Qed.

(** Who may do what does not change with a commit. *)
Lemma GetRole_same repo who w w' r :
  db_roles (w_db w') = db_roles (w_db w) → db_org_members (w_db w') = db_org_members (w_db w) →
  db_repos (w_db w') = db_repos (w_db w) → GetRole repo who w = (w, Ok r) → GetRole repo who w' = (w', Ok r).
Proof.
  intros Hr Hm Hp. assert (members_of_owner (w_db w') = members_of_owner (w_db w)) as Ho.
  { unfold members_of_owner. by rewrite Hm, Hp. }
  unfold GetRole, on_error, catch, query_row, select, gets, mbind, M_bind. revert Ho. generalize members_of_owner as f. intros f Ho.
  change (t_rows roles (w_db w)) with (db_roles (w_db w)). change (t_rows roles (w_db w')) with (db_roles (w_db w')).
  rewrite Hr. change (errors_Is sql_ErrNoRows sql_ErrNoRows) with true.
  destruct (filter _ (db_roles (w_db w))); cbn; [|by intros [= <-]].
  rewrite bool_decide_true by done. cbn. rewrite Ho. destruct (f _ _ _); cbn; by intros [= <-].
Qed.

Lemma Commit_tables sto req w w1 w' resp :
  wf w → Commits.Commit sto req w = (w1, Ok resp) → logged w1 w' →
  ∃ docs rows, without_events (w_db w') = without_events (
    set_commits (db_commits (w_db w) ++
      [mkCommit (cp_Sequence resp) (cq_Branch req) (cq_Message req) (cq_Author req)
         (w_now w / 1000 * 1000) (cq_Repo req) (Some (cp_CommitHash resp))])
    (set_branches (update_where (λ b, br_repo b = cq_Repo req ∧ br_name b = cq_Branch req)
                     (branch_with_head (cp_Sequence resp)) (db_branches (w_db w)))
    (set_file_commits (db_file_commits (w_db w) ++ rows)
    (set_documents (db_documents (w_db w) ++ docs) (w_db w))))).
Proof.
  intros Hwf Hc [Ht _ _]. destruct (Commit_committed _ _ _ _ _ Hwf Hc) as (_ & docs & rows & outs & Hcm).
  exists docs, rows. by rewrite Ht, (cm_db _ _ _ _ _ _ _ Hcm).
Qed.

Section Committed.
Context (sto : Store) (req : CommitRequest) (w w1 w' : World) (resp : CommitResponse).
Hypotheses (Hc : Commits.Commit sto req w = (w1, Ok resp)) (Hl : logged w1 w').

Lemma member_kept authorization who role :
  wf w → member sv authorization w who (cq_Repo req) role → member sv authorization w' who (cq_Repo req) role.
Proof using Hc Hl.
  intros Hwf [Hp Ht Hs Hb (r & Hr & Hrole)]. split; try done. exists r. split; [|done].
  destruct (Commit_tables _ _ _ _ _ _ Hwf Hc Hl) as (docs & rows & E).
  apply (GetRole_same _ _ w); [| | |done].
  - change (db_roles (w_db w')) with (db_roles (without_events (w_db w'))). by rewrite E.
  - change (db_org_members (w_db w')) with (db_org_members (without_events (w_db w'))). by rewrite E.
  - change (db_repos (w_db w')) with (db_repos (without_events (w_db w'))). by rewrite E.
Qed.

Lemma readable_kept bs :
  NoDup (ch_Path <$> cq_Files req) → readable s bs (cq_Repo req) w → readable s bs (cq_Repo req) w'.
Proof using Hc Hl.
  intros HN [Hwf Hco Hu Hst Hrel]. pose proof Hl as [Ht Hb Hw].
  split; [by eapply Hw, Commit_wf| | |done..].
  - apply (content_ok_frame w1); [|done|by eapply Commit_content].
    change (db_documents (w_db w')) with (db_documents (without_events (w_db w'))). by rewrite Ht.
  - pose proof (Commit_distinct _ _ _ _ _ _ Hwf HN Hu Hc) as Hd. revert Hd. unfold distinct_paths.
    change (db_file_commits (w_db w')) with (db_file_commits (without_events (w_db w'))). by rewrite Ht.
Qed.

Lemma shown_kept authorization bs who role cfg b :
  repo_of cfg = cq_Repo req → NoDup (ch_Path <$> cq_Files req) →
  Forall portable (te_Path <$> tree_entries (w_db w') (repo_of cfg) (cq_Branch req) None "") →
  shown s sv authorization bs w who role cfg (cq_Branch req) b →
  shown s sv authorization bs w' who role cfg (cq_Branch req) (branch_with_head (cp_Sequence resp) b).
Proof using Hc Hl.
  intros Hrepo HN Hp [Hrd Hm Hb Hr Hn Hd Hne _]. pose proof (rd_wf _ _ _ _ Hrd) as Hwf. rewrite Hrepo in *. split; rewrite ?Hrepo; try done.
  - by apply readable_kept.
  - by apply member_kept.
  - destruct (Commit_tables _ _ _ _ _ _ Hwf Hc Hl) as (docs & rows & E).
    change (db_branches (w_db w')) with (db_branches (without_events (w_db w'))). rewrite E. cbn.
    apply list_elem_of_fmap. exists b. split; [|done]. by rewrite decide_True.
  - rewrite Forall_fmap in Hp. eapply Forall_impl; [exact Hp|]. intros e He. split; [by apply portable_named|apply He].
Qed.
End Committed.

Lemma shown_other authorization authorization' bs w who who' role role' cfg cfg' branch b :
  shown s sv authorization bs w who role cfg branch b → repo_of cfg' = repo_of cfg →
  member sv authorization' w who' (repo_of cfg) role' → shown s sv authorization' bs w who' role' cfg' branch b.
Proof. intros [] Hr Hm. by split; rewrite ?Hr. Qed.


End Fetch.

(** ** Samples *)

#[export] Instance open_files : FileSystem := λ _ _ _, None.
#[export] Instance open_files_permissive : Permissive.
Proof. done. Defined.
#[export] Instance sample_mime : Mime := λ _, "".

(** "bob" writes to "o/r", on a server where everyone is "bob". *)
Definition team_world : World := exec (SetRole "o/r" "bob" Writer) changed_world.
Definition cli_config : Config := mkConfig "http://localhost" "o/r" "dev" "bob".
Definition dev_branch : branch := nth 1 (db_branches (w_db team_world)) (mkBranch "" "" 0 0 Active 0 "" false false).

Lemma team_readable : readable archive_server reliable "o/r" team_world.
Proof.
  assert (db_documents (w_db team_world) = db_documents (w_db changed_world)) as Ed by (vm_compute; reflexivity).
  assert (w_blobs team_world = w_blobs changed_world) as Eb by (vm_compute; reflexivity).
  assert (db_file_commits (w_db team_world) = db_file_commits (w_db changed_world)) as Ef by (vm_compute; reflexivity).
  split; [apply preserves_wf; [eauto with docstore|exact changed_world_wf]| | |done|done].
  - exact (content_ok_frame _ _ Ed Eb changed_world_content).
  - unfold distinct_paths. rewrite Ef. exact changed_distinct.
Qed.
Lemma bob_member : member dev_server "" team_world "bob" "o/r" Writer.
Proof.
  split; [by split|by vm_compute|by intros rq|by right|]. exists (mkRole "bob" Writer). split; [|done].
  rewrite (run_exec (GetRole "o/r" "bob") team_world (mkRole "bob" Writer)) by (vm_compute; reflexivity).
  unfold exec. by rewrite GetRole_reads.
Qed.
Lemma dev_shown : shown archive_server dev_server "" reliable team_world "bob" Writer cli_config "dev" dev_branch.
Proof.
  split; [exact team_readable|exact bob_member|apply list_elem_of_In; vm_compute; tauto
    |vm_compute; reflexivity|vm_compute; reflexivity|vm_compute; reflexivity|done|].
  apply Forall_forall. intros e He.
  assert (forallb (λ e, bool_decide (te_Path e ≠ "" ∧ HasSuffix (te_Path e) "/history" = false))
    (tree_entries (w_db team_world) "o/r" "dev" None "") = true) as Hall by (vm_compute; reflexivity).
  exact (bool_decide_unpack _ (proj1 (Forall_forall _ _) (proj1 (forallb_True _ _) (Is_true_true_2 _ Hall)) e He)).
Qed.

(** A workspace of "dev" where one file changed, one was removed and one is new. *)
Definition dev_tree : gmap string string := tree_map (w_db team_world) "o/r" "dev".
Definition edited : App :=
  mkApp (Some cli_config) (Some (mkState "dev" 2 dev_tree "")) (list_to_map [("a", "1y"); ("d/e", "new")]) [].
(** A fresh workspace of main. *)
Definition fresh : App := mkApp (Some (with_branch "main" cli_config)) (Some (mkState "main" 0 ∅ "")) ∅ [].

Definition edited_commit : App * Backend * result unit :=
  Client.Commit (Rm := docstore archive_server dev_server "") "edit" edited (∅, team_world).
Definition committed_ok : bool := match edited_commit.2 with Ok _ => true | Fail _ => false end.

Lemma edited_synchronised : synchronised team_world edited cli_config (mkState "dev" 2 dev_tree "").
Proof.
  assert (∀ p ct, app_Files edited !! p = Some ct → local_path p = p ∧ ct ≠ "") as Hall.
  { intros p ct. change (app_Files edited) with (<["a":="1y"]> (<["d/e":="new"]> (∅ : gmap string string))).
    rewrite !lookup_insert, lookup_empty. repeat case_decide; intros [= <-]; subst; split; (done || by vm_compute). }
  split; [done|done|done|intros p ct Hp; by apply (Hall p ct)|]. intros p Hp.
  destruct (Hall p "" Hp) as [_ Hn]. destruct (Hn eq_refl).
Qed.
Lemma edited_commit_ok : edited_commit = (edited_commit.1, Ok tt).
Proof. assert (committed_ok = true) as H by (vm_compute; reflexivity). revert H. unfold committed_ok. by destruct edited_commit as [? [[]|]]. Qed.

Lemma Commit_publishes_witness :
  let '(a', b', r) := edited_commit in
  r = Ok tt ∧ app_Files a' = app_Files edited ∧
  map_to_list (tree_map (w_db b'.2) "o/r" "dev") = [("a", HashBytes "1y"); ("d/e", HashBytes "new")] ∧
  isDirty a' b' = (a', b', Ok false).
Proof.
  destruct edited_commit as [[a' b'] r] eqn:E. pose proof edited_commit_ok as Hok. rewrite E in Hok. injection Hok as ->.
  destruct (Commit_publishes archive_server dev_server "" cli_config "bob" Writer ∅ team_world _ "edit" edited a' b' (Ok tt)
    (rd_wf _ _ _ _ team_readable) (rd_distinct _ _ _ _ team_readable) bob_member ltac:(reflexivity) edited_synchronised E) as (x & h & Hf & Ht & _ & _ & _ & _ & _ & Hd).
  split_and!; [done|exact Hf| |exact Hd]. 
  change (repo_of cli_config) with "o/r" in Ht. change (cf_Branch cli_config) with "dev" in Ht. rewrite Ht. vm_compute. reflexivity.
Defined.


