(* ===== verification/ClientSpec.v ===== *)
(** * Verifying the chain

    On a store whose chain is sound the client reports no error: [Verify]
    accepts every branch of every reachable world, through the requests it makes. *)

From S2P Require Import Prelude GoStd Schema Tx Run Integrity Orgs Blob Commits Merge ReadStore Views Chain.
From S2P Require Import Samples CommitSpec MergeSpec RebaseSpec System ChainSpec TreeSpec EventTypes Events Server.
From S2P Require Import Policy PolicySpec ServerSpec Http Handlers Handlers2 Handlers3 Secrets SecretsSpec Api.
From S2P Require Import ArchiveSpec Client ClientServer SyncSpec PublishSpec.
From S2P Require Hash.

Section ClientSpec.
Context {Co : Collation} {Us : UuidSource} {Mr : MapRange} {Jt : JsonbText} {Http : HTTPClient}.
Context {Op : OPA} {En : Encryptor} {Tk : Tokens} {Fs : FileSystem} {Fp : Permissive} {Mi : Mime}.

(** ** Recomputing a hash *)

Lemma commit_files_NoDup d c :
  wf_db d → distinct_paths d (c_repo c) → NoDup (Hash.Path <$> commit_files d c).
Proof.
  intros Hwf Hu. unfold commit_files. rewrite <- list_fmap_compose.
  change (Hash.Path ∘ hash_row (db_documents d)) with fc_path.
  apply NoDup_fmap_2_strong; [|apply NoDup_filter; by apply file_commits_NoDup].
  intros x y [[Hsx Hrx] Hx]%list_elem_of_filter [[Hsy Hry] Hy]%list_elem_of_filter Hp.
  apply Hu; [by apply list_elem_of_filter..|done|congruence].
Qed.

Lemma CommitHash_perm prev seq repo branch author message t files files' :
  NoDup (Hash.Path <$> files) → files ≡ₚ files' →
  Hash.CommitHash prev seq repo branch author message t files
  = Hash.CommitHash prev seq repo branch author message t files'.
Proof.
  intros HN Hp. unfold Hash.CommitHash, Hash.commit_preimage.
  by rewrite (Hash.sort_files_perm files files' HN Hp).
Qed.

Lemma computed_hash_ok d c e :
  wf_db d → chain_ok d → distinct_paths d (c_repo c) → c ∈ db_commits d → entry_of d c e →
  che_CommitHash e
  = Some (computed_hash (c_repo c) (prev_hash d (c_repo c) (c_branch c) (c_sequence c)) e).
Proof.
  intros Hwf Hck Hu Hc [Es Eb Ea Em Et Eh Ef].
  destruct (ck_hashed _ Hck c Hc) as (files & Hp & Hh). rewrite Eh, Hh. f_equal.
  unfold computed_hash. rewrite Es, Eb, Ea, Em, Et. apply CommitHash_perm.
  - rewrite Hp. by apply commit_files_NoDup.
  - by rewrite Hp, Ef.
Qed.

Lemma CommitHash_nonempty prev seq repo branch author message t files :
  Hash.CommitHash prev seq repo branch author message t files ≠ "".
Proof. apply sha256_hex_nonempty. Qed.

(** The previous hash is that of the newest older commit of the branch. *)
Lemma prev_hash_newest d repo branch seq c h :
  wf_db d → c ∈ db_commits d → c_repo c = repo → c_branch c = branch → c_sequence c < seq →
  (∀ c', c' ∈ db_commits d → c_repo c' = repo → c_branch c' = branch → c_sequence c' < seq →
     c_sequence c' ≤ c_sequence c) →
  c_commit_hash c = Some h → h ≠ "" → prev_hash d repo branch seq = h.
Proof.
  intros Hwf Hc Hr Hb Hlt Hmax Hh Hne. unfold prev_hash.
  assert (sql_max (c_sequence <$> filter (λ c, c_repo c = repo ∧ c_branch c = branch ∧
            c_sequence c < seq) (db_commits d)) = Some (c_sequence c)) as ->.
  { set (l := c_sequence <$> _). assert (c_sequence c ∈ l) as Hin.
    { apply list_elem_of_fmap_2, list_elem_of_filter. done. }
    pose proof (sql_max_spec l) as Hs. destruct (sql_max l) as [m|].
    - destruct Hs as [(c' & -> & [(? & ? & ?) Hc']%list_elem_of_filter)%list_elem_of_fmap Hle].
      f_equal. specialize (Hmax c'). specialize (Hle _ Hin). lia || (apply Z.le_antisymm; auto).
    - rewrite Hs in Hin. by apply elem_of_nil in Hin. }
  rewrite (filter_ext_elem _ (λ c', c_sequence c' = c_sequence c)).
  - rewrite (filter_key_unique c_sequence _ c) by (done || by apply commits_NoDup).
    rewrite Hh. by rewrite bool_decide_false.
  - intros c' Hc'. split; [by intros (_ & _ & [= ?])|]. intros E.
    assert (c' = c) as -> by (apply (NoDup_fmap_inj c_sequence (db_commits d)); auto using commits_NoDup).
    done.
Qed.

(** ** Verify *)

(** What is printed for a commit whose hash is the recomputed one. *)
Definition ok_line (c : commit) : line :=
  SeqOk (c_sequence c) (short (str_or_empty (c_commit_hash c))) (c_message c).

(** The variables of the loop after the commits [pre]. *)
Record verified (branch : string) (pre : list commit) (v : VerifyVars) : Prop := {
  ve_err : vv_verifyErr v = None;
  ve_out : vv_Out v = ok_line <$> filter (λ c, c_branch c = branch) pre;
  ve_prev : match last (filter (λ c, c_branch c = branch) pre) with
            | None => vv_foundFirst v = false
            | Some c => vv_foundFirst v = true ∧ c_commit_hash c = Some (vv_prevHash v)
            end;
}.

Lemma sorted_last {A} (R : A → A → Prop) l x y :
  StronglySorted R l → last l = Some x → y ∈ l → y = x ∨ R y x.
Proof.
  intros HS [l' ->]%last_Some [Hy|Hy%list_elem_of_singleton]%elem_of_app; [|by left].
  right. apply (StronglySorted_app_1_elem_of R l' [x]); [done..|by left].
Qed.

(** The last commit of the branch before [c] is the one [c] was hashed from. *)
Lemma prev_commit d repo branch from to pre c post c0 h :
  wf_db d → commits_between d repo from to = pre ++ c :: post → c_branch c = branch →
  last (filter (λ c, c_branch c = branch) pre) = Some c0 → c_commit_hash c0 = Some h → h ≠ "" →
  prev_hash d repo branch (c_sequence c) = h.
Proof.
  intros Hwf Hcs Hb Hlast Hh Hne.
  assert (StronglySorted (λ x y, c_sequence x < c_sequence y) (pre ++ c :: post)) as HS.
  { rewrite <- Hcs. by apply order_by_asc_strict, NoDup_fmap_filter, commits_NoDup. }
  assert (∀ x, x ∈ pre ++ c :: post ↔
    (c_repo x = repo ∧ from ≤ c_sequence x ∧ c_sequence x ≤ to) ∧ x ∈ db_commits d) as Hin.
  { intros x. rewrite <- Hcs. unfold commits_between, order_by_asc. by rewrite order_by_elem, list_elem_of_filter. }
  assert (c0 ∈ filter (λ c, c_branch c = branch) pre) as Hc0.
  { apply last_Some in Hlast as [l ->]. apply elem_of_app. right. by left. }
  apply list_elem_of_filter in Hc0 as [Hb0 Hc0].
  destruct (proj1 (Hin c0)) as [(Hr0 & Hf0 & Ht0) Hd0]; [apply elem_of_app; by left|].
  assert (c_sequence c0 < c_sequence c) as Hlt.
  { apply (StronglySorted_app_1_elem_of _ pre (c :: post) _ _ HS); [done|by left]. }
  apply (prev_hash_newest d repo branch _ c0); try done.
  intros c' Hd' Hr' Hb' Hlt'. destruct (decide (from ≤ c_sequence c')) as [Hle|]; [|lia].
  assert (c' ∈ pre) as Hpre.
  { assert (c ∈ pre ++ c :: post) as [(_ & _ & ?) _]%Hin by (apply elem_of_app; right; by left).
    assert (c' ∈ pre ++ c :: post) as Hp by (apply Hin; split_and!; done || lia).
    apply elem_of_app in Hp as [Hp|Hp]; [done|]. exfalso. apply elem_of_cons in Hp as [->|Hp]; [lia|].
      apply StronglySorted_app_1_r, StronglySorted_cons in HS as [HF _].
      rewrite Forall_forall in HF. specialize (HF c' Hp). lia. }
  destruct (sorted_last (λ x y, c_sequence x < c_sequence y)
    (filter (λ c, c_branch c = branch) pre) c0 c') as [->|?]; [|done| |lia|lia].
  - apply StronglySorted_filter. by apply StronglySorted_app_1_l in HS.
  - by apply list_elem_of_filter.
Qed.

Lemma verify_entry_ok cfg d from to pre c post e v :
  wf_db d → chain_ok d → distinct_paths d (cf_Repo cfg) →
  commits_between d (cf_Repo cfg) from to = pre ++ c :: post → entry_of d c e →
  verified (cf_Branch cfg) pre v → verified (cf_Branch cfg) (pre ++ [c]) (verify_entry cfg v e).
Proof.
  intros Hwf Hck Hu Hcs He [Herr Hout Hprev].
  assert (c ∈ commits_between d (cf_Repo cfg) from to) as Hin.
  { rewrite Hcs. apply elem_of_app. right. by left. }
  apply order_by_elem, list_elem_of_filter in Hin as [(Hr & Hfrom & Hto) Hin].
  pose proof (computed_hash_ok d c e Hwf Hck) as Hcomp. rewrite Hr in Hcomp.
  specialize (Hcomp Hu Hin He). destruct v as [prev found err out]. cbn in Herr, Hout, Hprev.
  subst err out.
  unfold verify_entry. rewrite (eo_branch _ _ _ He). case_bool_decide as Hb.
  { split; rewrite ?filter_app, ?filter_cons_False, ?app_nil_r by done; done. }
  assert (filter (λ c, c_branch c = cf_Branch cfg) (pre ++ [c])
          = filter (λ c, c_branch c = cf_Branch cfg) pre ++ [c]) as Hfilter.
  { rewrite filter_app, (filter_all _ [c]); [done|]. intros x ->%list_elem_of_singleton.
    by destruct (decide (c_branch c = cf_Branch cfg)). }
  assert (∀ v', vv_verifyErr v' = None → vv_foundFirst v' = true →
    vv_Out v' = (ok_line <$> filter (λ c, c_branch c = cf_Branch cfg) pre) ++ [ok_line c] →
    che_CommitHash e = Some (vv_prevHash v') → verified (cf_Branch cfg) (pre ++ [c]) v') as Hok.
  { intros v' ? ? Ho E. split; rewrite ?Hfilter; [done|by rewrite fmap_app|].
    rewrite last_snoc. by rewrite <- (eo_hash _ _ _ He). }
  unfold ok_line in Hok. rewrite <- (eo_seq _ _ _ He), <- (eo_message _ _ _ He),
    <- (eo_hash _ _ _ He), Hcomp in Hok.
  rewrite Hcomp.
  destruct (last (filter _ pre)) as [c0|] eqn:E0.
  - destruct Hprev as [-> Hh0]. cbn [negb].
    assert (c_branch c = cf_Branch cfg) as Hb' by (destruct (decide (c_branch c = cf_Branch cfg)); tauto).
    assert (prev_hash d (cf_Repo cfg) (c_branch c) (c_sequence c) = prev) as Ep.
    { rewrite Hb'. eapply prev_commit; try done.
      apply last_Some in E0 as [l0 E0].
      assert (c0 ∈ filter (λ c, c_branch c = cf_Branch cfg) pre) as [_ Hc0]%list_elem_of_filter.
      { rewrite E0. apply elem_of_app. right. by left. }
      assert (c0 ∈ commits_between d (cf_Repo cfg) from to) as Hin0.
      { rewrite Hcs. apply elem_of_app. by left. }
      apply order_by_elem, list_elem_of_filter in Hin0 as [_ Hin0].
      destruct (ck_hashed _ Hck c0 Hin0) as (fs & _ & E). rewrite Hh0 in E. injection E as ->.
      apply CommitHash_nonempty. }
    rewrite Ep in Hok |- *. rewrite bool_decide_true by done.
    apply Hok; done.
  - cbn [negb]. subst found. apply Hok; done.
Qed.

Lemma verify_entries_ok cfg d from to entries :
  wf_db d → chain_ok d → distinct_paths d (cf_Repo cfg) →
  Forall2 (entry_of d) (commits_between d (cf_Repo cfg) from to) entries →
  verified (cf_Branch cfg) (commits_between d (cf_Repo cfg) from to) (verify_entries cfg entries).
Proof.
  intros Hwf Hck Hu HF. unfold verify_entries.
  assert (∀ pre post es v, commits_between d (cf_Repo cfg) from to = pre ++ post →
    Forall2 (entry_of d) post es → verified (cf_Branch cfg) pre v →
    verified (cf_Branch cfg) (pre ++ post) (foldl (verify_entry cfg) v es)) as IH.
  { intros pre post. revert pre. induction post as [|c post IH]; intros pre es v Hcs HF' Hv.
    - apply Forall2_nil_inv_l in HF' as ->. by rewrite app_nil_r.
    - apply Forall2_cons_inv_l in HF' as (e & es' & He & HF' & ->). cbn.
      change (c :: post) with ([c] ++ post). rewrite (assoc_L (++)).
      apply IH; [by rewrite <- (assoc_L (++))|done|]. by eapply verify_entry_ok. }
  apply (IH [] _ entries); [done|done|]. split; cbn; done || constructor.
Qed.
(** What [Verify] prints when every commit of the branch checks. *)
Definition verify_report (d : DB) (cfg : Config) (head : Z) : list line :=
  match commits_between d (cf_Repo cfg) 1 head with
  | [] => [NoCommits]
  | cs => ok_line <$> filter (λ c, c_branch c = cf_Branch cfg) cs
  end.

Section Verified.
Context (s : server) (sv : ServerConfig) (authorization : string).
Context (c : Cache) (w : World) (who : string) (role : role_type) (cfg : Config) (b : Schema.branch).
Hypothesis (Hkn : known sv authorization w who role cfg (cf_Branch cfg) b).
#[local] Instance backend : Remote Backend := docstore s sv authorization.

Lemma branchHeadSequence_run a :
  branchHeadSequence cfg (cf_Branch cfg) a (c, w) = (a, (c, w), Ok (br_head_sequence b)).
Proof using Hkn.
  destruct (branches_get s sv authorization c w who role cfg (cf_Branch cfg) b Hkn) as (l & Hl & Hb).
  unfold branchHeadSequence, fetch_branches.
  rewrite (cbind_run _ _ a (c, w) a (c, w) l); [by rewrite Hb|].
  by rewrite (cbind_run _ _ _ _ _ _ _ (cwrap_run _ _ _ _ _ _ _ (httpGet_run _ _ _ _ _ _ _ Hl))).
Qed.

Lemma fetchChain_run from to a :
  -9223372036854775808 ≤ from → from ≤ to → to ≤ 9223372036854775807 →
  fetchChain cfg from to a (c, w) = (a, (c, w), Ok (chain_entries (chain_rows (w_db w) (repo_of cfg) from to))).
Proof using Hkn.
  intros Hf Hle Ht. unfold fetchChain.
  rewrite (cbind_run _ _ a (c, w) a (c, w) (200, P_Chain (chain_entries (chain_rows (w_db w) (repo_of cfg) from to)))); [done|].
  apply cwrap_run, httpGet_run.
  apply (get_run s sv authorization c w who role cfg (cf_Branch cfg) b Hkn "chain" _ (Chain_ (repo_of cfg)));
    [done|done|done|by destruct role|].
  unfold answer_route, get_request. cbn [hq_Query].
  change (query _ "from") with (FormatInt from). change (query _ "to") with (FormatInt to).
  apply answered_run. unfold handleChain.
  rewrite (hbind_run _ _ _ _ _ _ _ (validate_run _ c w (repo_here sv authorization w who role cfg (cf_Branch cfg) b Hkn))).
  assert (∀ n, -9223372036854775808 ≤ n ≤ 9223372036854775807 → empty (FormatInt n) = false) as Hne.
  { intros n Hn%ParseInt_FormatInt. unfold empty. apply bool_decide_eq_false. intros E. by rewrite E in Hn. }
  rewrite (hbind_run _ _ c w c w tt) by (unfold guard; by rewrite !Hne by lia).
  rewrite (hbind_run _ _ c w c w from) by (unfold parsed; by rewrite ParseInt_FormatInt by lia).
  rewrite (hbind_run _ _ c w c w to) by (unfold parsed; by rewrite ParseInt_FormatInt by lia).
  rewrite (hbind_run _ _ c w c w tt) by (unfold guard; by rewrite (proj2 (Z.ltb_ge _ _)) by lia).
  by rewrite (hbind_run _ _ c w c w (chain_entries (chain_rows (w_db w) (repo_of cfg) from to))).
Qed.

(** C13: on every reachable world [Verify] accepts every branch the server
    lists, through the requests it makes: it terminates without an error,
    changes nothing in the workspace or on the server, and reports each commit of
    the branch up to its head, oldest first, as correct.  The client is a member
    of the repository, which its configuration names; the repository must not hold two
    rows for one path in one commit, since the order in which such rows are hashed is
    not determined. *)
Theorem Verify_ok a :
  reachable w → distinct_paths (w_db w) (cf_Repo cfg) → cf_Repo cfg ≠ "" → app_Config a = Some cfg →
  0 ≤ br_head_sequence b ≤ 9223372036854775807 →
  Verify a (c, w)
  = (mkApp (app_Config a) (app_State a) (app_Files a) (app_Out a ++ verify_report (w_db w) cfg (br_head_sequence b)),
     (c, w), Ok tt).
Proof using Hkn Fp.
  intros Hr Hu Hne Hcfg Hhead.
  assert (repo_of cfg = cf_Repo cfg) as Hrepo by (unfold repo_of; by rewrite bool_decide_false).
  pose proof (reachable_ok w Hr) as Hwf. pose proof (reachable_chain w Hr) as Hck. unfold Verify.
  rewrite (cbind_run _ _ _ _ _ _ _ (loadConfig_run a (c, w) cfg Hcfg)).
  rewrite (cbind_run _ _ _ _ _ _ _ (cwrap_run _ _ _ _ _ _ _ (branchHeadSequence_run a))). unfold verify_report.
  destruct (Z.eqb_spec (br_head_sequence b) 0) as [->|Hz].
  - destruct (commits_between (w_db w) (cf_Repo cfg) 1 0) as [|x cs] eqn:E; [done|]. exfalso.
    assert (x ∈ commits_between (w_db w) (cf_Repo cfg) 1 0) as Hc by (rewrite E; left).
    apply order_by_elem, list_elem_of_filter in Hc as [(_ & ? & ?) _]. lia.
  - rewrite (cbind_run _ _ _ _ _ _ _ (cwrap_run _ _ _ _ _ _ _ (fetchChain_run 1 (br_head_sequence b) a ltac:(lia) ltac:(lia) ltac:(lia)))).
    rewrite Hrepo.
    pose proof (GetChain_entries (w_db w) (cf_Repo cfg) 1 (br_head_sequence b) (wf_tables _ Hwf) Hck) as HF.
    destruct (verify_entries_ok cfg (w_db w) 1 (br_head_sequence b) _ (wf_tables _ Hwf) Hck Hu HF)
      as [Herr Hout _].
    destruct HF as [|x e cs es]; [done|]. rewrite (cbind_run _ _ a (c, w) _ (c, w) tt) by done. by rewrite Hout, Herr.
Qed.
End Verified.
End ClientSpec.

(** ** Witnesses *)

Lemma team_reachable : reachable team_world.
Proof. eapply reach_step; [exact changed_world_reachable|apply (step_SetRole "o/r" "bob" Writer)]. Qed.

Lemma Verify_ok_witness :
  ∃ h, Verify (Rm := docstore archive_server dev_server "") edited (∅, team_world)
  = (mkApp (Some cli_config) (app_State edited) (app_Files edited) [SeqOk 2 h "change"], (∅, team_world), Ok tt).
Proof.
  eexists. etransitivity.
  - apply (Verify_ok archive_server dev_server "" ∅ team_world "bob" Writer cli_config dev_branch
      (shown_known _ _ _ _ _ _ _ _ _ _ dev_shown) edited).
    + exact team_reachable.
    + exact (rd_distinct _ _ _ _ team_readable).
    + done.
    + reflexivity.
    + vm_compute. split; discriminate.
  - assert (verify_report (w_db team_world) cli_config (br_head_sequence dev_branch)
      = [SeqOk 2 (short (str_or_empty (c_commit_hash (List.nth 1 (db_commits (w_db team_world))
          (mkCommit 0 "" "" "" 0 "" None))))) "change"]) as -> by (vm_compute; reflexivity).
    reflexivity.
Defined.

(** A false alarm of [Pull]: a checkout keeps the hash of the branch that was left, so that
    the first pull after it that brings commits takes the anchor of the chain for changed. *)
#[local] Instance team_remote : Remote Backend := docstore archive_server dev_server "".
Definition main_moves : Client.C (S := Backend) unit := λ a s,
  (a, (s.1, exec (Commits.Commit NewStore (mkCommitRequest "o/r" "main" [file "z" "9"] "theirs" "eve")) s.2), Ok tt).
Lemma Pull_after_Checkout_alarm :
  match (Client.Commit "edit";; Checkout 1 "main";; main_moves;; Pull 1 false) edited (∅, team_world) with
  | (_, _, Fail e) => HasPrefix (error_text e) "chain integrity error at sequence 1: anchor hash changed"
  | _ => false
  end = true.
Proof. vm_compute. reflexivity. Qed.
